(** * TNLMeans for VapourSynth: a shallow embedding of TNLMeans.cpp

    The engine denoises 8-bit planar frames with the NL-means algorithm.
    This development embeds the constructor, the frame-index clamp, the
    ring-buffer frame cache and the four accumulation variants of
    [TNLMeans.cpp], and relates them to the properties listed in the
    specification.

    Modelling conventions.
    - C++ [int] values are integers of [Z]; every index met in the engine is
      a frame number, a coordinate or a radius, far from the 32-bit limits.
    - C++ [double] values are real numbers of [R]: [std::exp] is [exp],
      [std::numeric_limits<double>::epsilon()] is [2^-52].  The sums and
      products of the accumulators are written in the order of the source,
      operation by operation.  The reading holds where binary64 neither
      overflows nor underflows nor meets a NaN: the statements that depend
      on it bound [a] and [h] from below ([well_scaled]), and the module
      [B64] evaluates the constructor, the weights and the spatial pixel
      variant on binary64 values outside these bounds.
    - An array reached through a pointer is a total function from indices;
      a pointer advanced in a loop ([srcp += pitch]) is resolved to the row
      and column it designates, so a pixel read is [plane row col].
    - A frame reference [VSFrameRef*] held by the cache is the index that was
      handed to the frame source ([None] for [nullptr]). *)

From Stdlib Require Import ZArith List Bool Lia String.
From Stdlib Require Import Reals Lra Zfloor Permutation.
From Stdlib Require Import FunctionalExtensionality.
From Stdlib Require Import Floats.
Import ListNotations.
Local Open Scope Z_scope.

(** ** Loops *)

(** [range lo hi] lists the values taken by [i] in
    [for (int i = lo; i <= hi; ++i)]. *)
Definition range (lo hi : Z) : list Z :=
  map (fun i => lo + Z.of_nat i) (seq 0 (Z.to_nat (hi - lo + 1))).

(** [steps lo hi st] lists the values taken by [i] in
    [for (int i = lo; i < hi; i += st)], for a positive stride. *)
Definition steps (lo hi st : Z) : list Z :=
  map (fun t => lo + t * st) (range 0 ((hi - lo - 1) / st)).

(** A loop body threads the mutable state [S]. *)
Definition for_each {S : Type} (l : list Z) (body : Z -> S -> S) (s : S) : S :=
  fold_left (fun s i => body i s) l s.

Definition for_loop {S : Type} (lo hi : Z) (body : Z -> S -> S) (s : S) : S :=
  for_each (range lo hi) body s.

(** Arrays: point update and the fill of [fill_zero_d]. *)
Definition upd {A : Type} (f : Z -> A) (i : Z) (v : A) : Z -> A :=
  fun k => if k =? i then v else f k.

(** Modelled from the spec: [fill_zero_d] is declared in TNLMeans.h, which is
    not part of the sources at hand; the accumulators are "zeroed at the start
    of each frame's processing", so it clears the first [n] doubles. *)
Definition fill_zero_d (f : Z -> R) (n : Z) : Z -> R :=
  fun k => if (0 <=? k) && (k <? n) then 0%R else f k.

(** ** Host data: video information and frames *)

Inductive VSColorFamily := cmGray | cmRGB | cmYUV | cmYCoCg | cmCompat.

Definition is_cmCompat (c : VSColorFamily) : bool :=
  match c with cmCompat => true | _ => false end.

Record VSFormat := {
  colorFamily : VSColorFamily;
  bitsPerSample : Z;
  numPlanes : Z;
  subSamplingW : Z;
  subSamplingH : Z
}.

Record VSVideoInfo := {
  format : VSFormat;
  width : Z;
  height : Z;
  numFrames : Z
}.

(** A plane is read by row and column, a frame by plane, a clip by frame
    number. *)
Definition Plane := Z -> Z -> Z.
Definition Frame := Z -> Plane.
Definition Clip := Z -> Frame.

(** Plane geometry, as the constructor of [nlFrame] computes it:
    [vi.width >> (i ? vi.format->subSamplingW : 0)]. *)
Definition planeWidth (vi : VSVideoInfo) (i : Z) : Z :=
  Z.shiftr (width vi) (if i =? 0 then 0 else subSamplingW (format vi)).

Definition planeHeight (vi : VSVideoInfo) (i : Z) : Z :=
  Z.shiftr (height vi) (if i =? 0 then 0 else subSamplingH (format vi)).

(** ** Accumulators *)

Record SDATA := {
  sums : Z -> R;
  weights : Z -> R;
  wmaxs : Z -> R
}.

Definition SDATA_zero : SDATA :=
  {| sums := fun _ => 0%R; weights := fun _ => 0%R; wmaxs := fun _ => 0%R |}.

(** ** The frame cache *)

Record nlFrame := {
  fnum : Z;
  pf : option Z;
  ds : Z -> SDATA;
  dsa : Z -> Z
}.

Record nlCache := {
  frames : Z -> nlFrame;
  start_pos : Z;
  size : Z
}.

(** [nlFrame::nlFrame]: an empty slot carries the sentinel [-20]; the
    accumulators exist in pixel mode only and are not cleared before the
    first [clearDS]. *)
Definition nlFrame_new (ds0 : Z -> SDATA) : nlFrame :=
  {| fnum := -20; pf := None; ds := ds0; dsa := fun _ => 0 |}.

(** [nlCache::nlCache]. *)
Definition nlCache_new (_size : Z) (ds0 : Z -> SDATA) : nlCache :=
  if 0 <? _size
  then {| frames := fun _ => nlFrame_new ds0; start_pos := 0; size := _size |}
  else {| frames := fun _ => nlFrame_new ds0; start_pos := -20; size := -20 |}.

Definition setFNum (nl : nlFrame) (i : Z) : nlFrame :=
  {| fnum := i; pf := pf nl; ds := ds nl; dsa := dsa nl |}.

Definition set_pf (nl : nlFrame) (p : option Z) : nlFrame :=
  {| fnum := fnum nl; pf := p; ds := ds nl; dsa := dsa nl |}.

Definition set_dsa (nl : nlFrame) (d : Z -> Z) : nlFrame :=
  {| fnum := fnum nl; pf := pf nl; ds := ds nl; dsa := d |}.

Definition set_ds (nl : nlFrame) (d : Z -> SDATA) : nlFrame :=
  {| fnum := fnum nl; pf := pf nl; ds := d; dsa := dsa nl |}.

Definition set_frame (fc : nlCache) (pos : Z) (nl : nlFrame) : nlCache :=
  {| frames := upd (frames fc) pos nl; start_pos := start_pos fc; size := size fc |}.

(** [nlCache::resetCacheStart]: the first hit of the double loop, [j] outer
    and [i] inner, decides the rotation; without a hit nothing changes. *)
Definition resetCacheStart (fc : nlCache) (first last : Z) : nlCache :=
  match find (fun ji => fnum (frames fc (snd ji)) =? fst ji)
             (list_prod (range first last) (range 0 (size fc - 1))) with
  | Some (j, i) =>
      let sp := i - j + first in
      let sp' := if sp <? 0 then sp + size fc
                 else if sp >=? size fc then sp - size fc else sp in
      {| frames := frames fc; start_pos := sp'; size := size fc |}
  | None => fc
  end.

(** [nlCache::getCachePos]; the C++ [%] truncates, which is [Z.rem]. *)
Definition getCachePos (fc : nlCache) (n : Z) : Z :=
  Z.rem (start_pos fc + n) (size fc).

(** [nlCache::clearDS]: planes 0..2 that own accumulators are zeroed over the
    plane's area, and the flags of the slot are cleared. *)
Definition clearDS (vi : VSVideoInfo) (fc : nlCache) (nl : nlFrame) : nlFrame :=
  let res i := planeWidth vi i * planeHeight vi i in
  let clr i (d : SDATA) :=
    if (0 <=? i) && (i <? 3) && (i <? numPlanes (format vi)) then
      {| sums := fill_zero_d (sums d) (res i);
         weights := fill_zero_d (weights d) (res i);
         wmaxs := fill_zero_d (wmaxs d) (res i) |}
    else d in
  {| fnum := fnum nl; pf := pf nl;
     ds := fun i => clr i (ds nl i);
     dsa := fun i => if (0 <=? i) && (i <? size fc) then 0 else dsa nl i |}.

(** ** The engine and its construction *)

Inductive exn :=
| bad_param (msg : string)
| bad_alloc (what : string).

(** One worker slot ([nlThread]): its busy flag, the frame cache (temporal
    modes), the kernel table, the plane accumulator (spatial pixel mode) and
    the tile scratch (block modes). *)
Record nlThread := {
  active : Z;
  fc : option nlCache;
  gw : Z -> R;
  tds : option SDATA;
  sumsb : option (Z -> R);
  weightsb : option (Z -> R)
}.

Record TNLMeans := {
  Ax : Z; Ay : Z; Az : Z;
  Sx : Z; Sy : Z;
  Bx : Z; By : Z;
  a : R; h : R; ssd : bool;
  h2in : R; hin : R;
  Sxd : Z; Syd : Z; Sxa : Z;
  Bxd : Z; Byd : Z; Bxa : Z;
  Axd : Z; Ayd : Z; Axa : Z;
  Azdm1 : Z;
  a2 : R;
  vi : VSVideoInfo;
  numThreads : Z;
  threads : list nlThread
}.

(** The kernel table, filled by [gw[w++] = std::exp(-((m*m + n*n) / (2*a2)))]
    with [j] outer and [k] inner. *)
Definition gw_fill (Sx Sy Bx By : Z) (a2 : R) : Z * (Z -> R) :=
  for_loop (- Sy) Sy (fun j st =>
    let m := if j <? 0 then Z.min (j + By) 0 else Z.max (j - By) 0 in
    for_loop (- Sx) Sx (fun k st =>
      let n := if k <? 0 then Z.min (k + Bx) 0 else Z.max (k - Bx) 0 in
      (fst st + 1,
       upd (snd st) (fst st) (exp (- (IZR (m * m + n * n) / (2 * a2))))%R)) st)
  (0, fun _ => 0%R).

(** The body of the constructor's loop over [numThreads]; allocation is
    taken to succeed.  In block mode the cached frames own neither
    accumulators nor flags, and the model never reads them there. *)
Definition nlThread_new (Ax Ay Az Sx Sy Bx By : Z) (a2 : R) : nlThread :=
  {| active := 0;
     fc := if Az =? 0 then None
           else Some (nlCache_new (Az * 2 + 1) (fun _ => SDATA_zero));
     gw := snd (gw_fill Sx Sy Bx By a2);
     tds := if negb (Bx =? 0) || negb (By =? 0) then None
            else if Az =? 0 then Some SDATA_zero else None;
     sumsb := if negb (Bx =? 0) || negb (By =? 0)
              then Some (fun _ => 0%R) else None;
     weightsb := if negb (Bx =? 0) || negb (By =? 0)
                 then Some (fun _ => 0%R) else None |}.

(** The part of [TNLMeans::TNLMeans] that follows the checks: the derived
    constants and the worker slots. *)
Definition TNLMeans_init (_Ax _Ay _Az _Sx _Sy _Bx _By : Z) (_a _h : R)
    (_ssd : bool) (vi : VSVideoInfo) (numThreads : Z) : TNLMeans :=
  let Sxd := _Sx * 2 + 1 in
  let Syd := _Sy * 2 + 1 in
  let Bxd := _Bx * 2 + 1 in
  let Byd := _By * 2 + 1 in
  let Axd := _Ax * 2 + 1 in
  let Ayd := _Ay * 2 + 1 in
  let a2 := (_a * _a)%R in
  {| Ax := _Ax; Ay := _Ay; Az := _Az;
     Sx := _Sx; Sy := _Sy;
     Bx := _Bx; By := _By;
     a := _a; h := _h; ssd := _ssd;
     h2in := (-1 / (_h * _h))%R; hin := (-1 / _h)%R;
     Sxd := Sxd; Syd := Syd; Sxa := Sxd * Syd;
     Bxd := Bxd; Byd := Byd; Bxa := Bxd * Byd;
     Axd := Axd; Ayd := Ayd; Axa := Axd * Ayd;
     Azdm1 := _Az * 2;
     a2 := a2;
     vi := vi;
     numThreads := numThreads;
     threads := repeat (nlThread_new _Ax _Ay _Az _Sx _Sy _Bx _By a2)
                       (Z.to_nat numThreads) |}.

(** [TNLMeans::TNLMeans].  The clip's video information and the thread count
    come from the host; the checks run in the order of the source and the
    first failing one throws.  The parameters [a] and [h] are read as
    numbers here; [B64.TNLMeans_new] runs the same checks on binary64
    values, NaN included. *)
Definition TNLMeans_new (_Ax _Ay _Az _Sx _Sy _Bx _By : Z) (_a _h : R)
    (_ssd : bool) (vi : VSVideoInfo) (numThreads : Z) : exn + TNLMeans :=
  if is_cmCompat (colorFamily (format vi))
  then inl (bad_param "only planar formats are supported")
  else if negb (bitsPerSample (format vi) =? 8)
  then inl (bad_param "only 8-bit formats are supported")
  else if Rle_dec _h 0 then inl (bad_param "h must be greater than 0")
  else if Rle_dec _a 0 then inl (bad_param "a must be greater than 0")
  else if _Ax <? 0 then inl (bad_param "ax must be greater than or equal to 0")
  else if _Ay <? 0 then inl (bad_param "ay must be greater than or equal to 0")
  else if _Az <? 0 then inl (bad_param "az must be greater than or equal to 0")
  else if _Bx <? 0 then inl (bad_param "bx must be greater than or equal to 0")
  else if _By <? 0 then inl (bad_param "by must be greater than or equal to 0")
  else if _Sx <? 0 then inl (bad_param "sx must be greater than or equal to 0")
  else if _Sy <? 0 then inl (bad_param "sy must be greater than or equal to 0")
  else if _Sx <? _Bx then inl (bad_param "sx must be greater than or equal to bx")
  else if _Sy <? _By then inl (bad_param "sy must be greater than or equal to by")
  else inr (TNLMeans_init _Ax _Ay _Az _Sx _Sy _Bx _By _a _h _ssd vi numThreads).

(** [TNLMeans::mapn]. *)
Definition mapn (t : TNLMeans) (n : Z) : Z :=
  if n <? 0 then 0
  else if n >=? numFrames (vi t) then numFrames (vi t) - 1
  else n.

(** [TNLMeans::RequestFrame]: the indices handed to [requestFrameFilter],
    in order. *)
Definition RequestFrame (t : TNLMeans) (n : Z) : list Z :=
  map (mapn t) (range (n - Az t) (n + Az t)).

(** ** Distances and weights *)

(** Modelled from the spec: [GetSAD], [GetSSD], [GetSADWeight] and
    [GetSSDWeight] are inline members declared in TNLMeans.h, which is not
    part of the sources at hand.  The spec gives
    [diff += kernel[offset] * |s1 - s2|] for the SAD metric,
    [diff += kernel[offset] * (s1 - s2)^2] for the SSD metric, and the weight
    [exp(scale * diff / gweights)], [scale] being [hin] or [h2in]. *)
Definition GetSAD (s1 s2 : Z) (g : R) : R := (g * IZR (Z.abs (s1 - s2)))%R.

Definition GetSSD (s1 s2 : Z) (g : R) : R :=
  (g * IZR ((s1 - s2) * (s1 - s2)))%R.

Definition GetSADWeight (t : TNLMeans) (diff gweights : R) : R :=
  exp (hin t * diff / gweights).

Definition GetSSDWeight (t : TNLMeans) (diff gweights : R) : R :=
  exp (h2in t * diff / gweights).

(** [std::numeric_limits<double>::epsilon()]. *)
Definition epsilon : R := (/ 2 ^ 52)%R.

(** The conversion [int(x)] truncates toward zero. *)
Definition to_int (r : R) : Z := if Rle_dec 0 r then Zfloor r else Zceil r.

(** [*p += v] and [if (w > *p) *p = w] on one cell of an array. *)
Definition add_at (f : Z -> R) (i : Z) (v : R) : Z -> R :=
  upd f i (f i + v)%R.

Definition max_at (f : Z -> R) (i : Z) (w : R) : Z -> R :=
  if Rgt_dec w (f i) then upd f i w else f.

(** One weighted sample [s] lands in cell [off] of an accumulator:
    [weight += w; sum += s*w; if (w > wmax) wmax = w]. *)
Definition hit (d : SDATA) (off : Z) (s : Z) (w : R) : SDATA :=
  {| sums := add_at (sums d) off (IZR s * w);
     weights := add_at (weights d) off w;
     wmaxs := max_at (wmaxs d) off w |}.

(** The self weight: [*dwmax <= epsilon ? 1.0 : *dwmax]. *)
Definition self_weight (dwmax : R) : R :=
  if Rle_dec dwmax epsilon then 1%R else dwmax.

(** [std::max(std::min(int(q + 0.5), 255), 0)]. *)
Definition to_pixel (q : R) : Z := Z.max (Z.min (to_int (q + 0.5)) 255) 0.

(** The end of a pixel's scan: the self term is added to the accumulator and
    the quotient is rounded into the destination. *)
Definition finish (d : SDATA) (off : Z) (s : Z) : SDATA * Z :=
  let wmax := self_weight (wmaxs d off) in
  let sums' := add_at (sums d) off (IZR s * wmax) in
  let weights' := add_at (weights d) off wmax in
  ({| sums := sums'; weights := weights'; wmaxs := wmaxs d |},
   to_pixel (sums' off / weights' off)).

Definition upd2 (p : Plane) (y x : Z) (v : Z) : Plane :=
  fun r c => if (r =? y) && (c =? x) then v else p r c.

Definition SDATA_clear (d : SDATA) (n : Z) : SDATA :=
  {| sums := fill_zero_d (sums d) n;
     weights := fill_zero_d (weights d) n;
     wmaxs := fill_zero_d (wmaxs d) n |}.

Section Variants.

Variable t : TNLMeans.

(** The kernel table of the worker slot, [threads[thread].gw]. *)
Variable gw : Z -> R.

(** *** Patch comparison, shared by the four variants *)

(** Clipped patch bounds [yT], [yB] (rows) and [xL], [xR] (columns). *)
Definition patch_top (y u : Z) : Z := - Z.min (Z.min (Sy t) u) y.

Definition patch_bottom (heightm1 y u : Z) : Z :=
  Z.min (Z.min (Sy t) (heightm1 - u)) (heightm1 - y).

Definition patch_left (x v : Z) : Z := - Z.min (Z.min (Sx t) v) x.

Definition patch_right (widthm1 x v : Z) : Z :=
  Z.min (Z.min (Sx t) (widthm1 - v)) (widthm1 - x).

(** The double loop over [j] and [k]: [s1] walks the candidate's patch
    around [(u, v)] in [pf1p], [s2] the target's patch around [(y, x)] in
    [pf2p], [gwT] the kernel row [j + Sy]; the state is [(diff, gweights)]. *)
Definition patch_dist (pf1p pf2p : Plane) (heightm1 widthm1 y x u v : Z)
  : R * R :=
  let yT := patch_top y u in
  let yB := patch_bottom heightm1 y u in
  let xL := patch_left x v in
  let xR := patch_right widthm1 x v in
  for_loop yT yB (fun j st =>
    for_loop xL xR (fun k st =>
      let g := gw ((j + Sy t) * Sxd t + Sx t + k) in
      let s1 := pf1p (u + j) (v + k) in
      let s2 := pf2p (y + j) (x + k) in
      ((fst st + (if ssd t then GetSSD s1 s2 g else GetSAD s1 s2 g))%R,
       (snd st + g)%R)) st)
  (0%R, 0%R).

Definition patch_weight (pf1p pf2p : Plane) (heightm1 widthm1 y x u v : Z)
  : R :=
  let dg := patch_dist pf1p pf2p heightm1 widthm1 y x u v in
  if ssd t then GetSSDWeight t (fst dg) (snd dg)
  else GetSADWeight t (fst dg) (snd dg).

(** The offsets [(j, k)] the double loop runs over, the pixel coordinates
    (row, column) it reads on the candidate's side and on the target's side,
    and the kernel indices it reads. *)
Definition patch_offsets (heightm1 widthm1 y x u v : Z) : list (Z * Z) :=
  list_prod (range (patch_top y u) (patch_bottom heightm1 y u))
            (range (patch_left x v) (patch_right widthm1 x v)).

Definition patch_reads_candidate (heightm1 widthm1 y x u v : Z)
  : list (Z * Z) :=
  map (fun jk => (u + fst jk, v + snd jk))
      (patch_offsets heightm1 widthm1 y x u v).

Definition patch_reads_target (heightm1 widthm1 y x u v : Z) : list (Z * Z) :=
  map (fun jk => (y + fst jk, x + snd jk))
      (patch_offsets heightm1 widthm1 y x u v).

Definition patch_gw_reads (heightm1 widthm1 y x u v : Z) : list Z :=
  map (fun jk => (fst jk + Sy t) * Sxd t + Sx t + snd jk)
      (patch_offsets heightm1 widthm1 y x u v).

(** *** Spatial pixel variant: [GetFrameWOZ] *)

(** The six accumulator statements of the innermost loop body. *)
Definition WOZ_update (d : SDATA) (coff doff : Z) (srcv pfv : Z) (w : R)
  : SDATA :=
  {| sums := add_at (add_at (sums d) coff (IZR srcv * w)) doff (IZR pfv * w);
     weights := add_at (add_at (weights d) coff w) doff w;
     wmaxs := max_at (max_at (wmaxs d) coff w) doff w |}.

(** The candidate scan of the pixel [(y, x)]. *)
Definition WOZ_scan (pfp : Plane) (width height y x : Z) (d : SDATA) : SDATA :=
  let heightm1 := height - 1 in
  let widthm1 := width - 1 in
  let stopy := Z.min (y + Ay t) heightm1 in
  let doffy := y * width in
  let startxt := Z.max (x - Ax t) 0 in
  let stopx := Z.min (x + Ax t) widthm1 in
  let doff := doffy + x in
  for_loop y stopy (fun u d =>
    let startx := if u =? y then x + 1 else startxt in
    let coffy := u * width in
    for_loop startx stopx (fun v d =>
      let coff := coffy + v in
      let w := patch_weight pfp pfp heightm1 widthm1 y x u v in
      WOZ_update d coff doff (pfp y x) (pfp u v) w) d) d.

Definition WOZ_pixel (pfp : Plane) (width height y x : Z)
    (st : SDATA * Plane) : SDATA * Plane :=
  let r := finish (WOZ_scan pfp width height y x (fst st))
                  (y * width + x) (pfp y x) in
  (fst r, upd2 (snd st) y x (snd r)).

(** One plane: the accumulators are cleared, then the pixels are visited in
    raster order. *)
Definition WOZ_plane (pfp : Plane) (width height : Z) (d : SDATA)
    (dstp : Plane) : SDATA * Plane :=
  for_loop 0 (height - 1) (fun y st =>
    for_loop 0 (width - 1) (fun x st =>
      WOZ_pixel pfp width height y x st) st)
  (SDATA_clear d (height * width), dstp).

(** [GetFrameWOZ].  [dstPF] is what the host's [newVideoFrame] returned
    ([None] for [nullptr]); the result carries the accumulator of the slot,
    the output frame and the indices fetched from the source. *)
Definition GetFrameWOZ (clip : Clip) (n : Z) (d : SDATA)
    (dstPF : option Frame) : SDATA * option Frame * list Z :=
  match dstPF with
  | None => (d, None, [mapn t n])
  | Some dst =>
      let srcPF := clip (mapn t n) in
      let r := for_loop 0 (numPlanes (format (vi t)) - 1) (fun plane st =>
                 let p := WOZ_plane (srcPF plane) (planeWidth (vi t) plane)
                            (planeHeight (vi t) plane) (fst st)
                            (snd st plane) in
                 (fst p, upd (snd st) plane (snd p))) (d, dst) in
      (fst r, Some (snd r), [mapn t n; mapn t n])
  end.

(** *** Spatial block variant: [GetFrameWOZB] *)

(** The tile scratch: [sumsb], [weightsb] and the running [wmax]. *)
Definition Tile : Type := (Z -> R) * (Z -> R) * R.

(** The weight of one candidate is smeared over the block footprint around
    it: cell [(j + By) * Bxd + Bx + k] of the scratch receives the pixel
    [(u + j, v + k)] of [pf1p]. *)
Definition block_smear (pf1p : Plane) (heightm1 widthm1 y x u v : Z) (w : R)
    (sb : (Z -> R) * (Z -> R)) : (Z -> R) * (Z -> R) :=
  let yBb := Z.min (Z.min (By t) (heightm1 - u)) (heightm1 - y) in
  let xRb := Z.min (Z.min (Bx t) (widthm1 - v)) (widthm1 - x) in
  for_loop (- By t) yBb (fun j sb =>
    for_loop (- Bx t) xRb (fun k sb =>
      let i := (j + By t) * Bxd t + Bx t + k in
      (add_at (fst sb) i (IZR (pf1p (u + j) (v + k)) * w),
       add_at (snd sb) i w)) sb) sb.

(** The pixel coordinates [block_smear] reads. *)
Definition block_reads (heightm1 widthm1 y x u v : Z) : list (Z * Z) :=
  flat_map (fun j =>
    map (fun k => (u + j, v + k))
      (range (- Bx t) (Z.min (Z.min (Bx t) (widthm1 - v)) (widthm1 - x))))
    (range (- By t) (Z.min (Z.min (By t) (heightm1 - u)) (heightm1 - y))).

(** One candidate [(u, v)] of the frame [pf1p] for the tile centred at
    [(y, x)] of [pf2p]; [self] is the test that skips the centre itself. *)
Definition block_candidate (pf1p pf2p : Plane) (heightm1 widthm1 y x u v : Z)
    (self : bool) (s : Tile) : Tile :=
  if self then s
  else
    let w := patch_weight pf1p pf2p heightm1 widthm1 y x u v in
    (block_smear pf1p heightm1 widthm1 y x u v w (fst s),
     if Rgt_dec w (snd s) then w else snd s).

(** The normalisation of a tile: rows [y - By + j], columns [x - Bx + k]. *)
Definition tile_finish (srcp : Plane) (width height y x : Z) (s : Tile)
    (dstp : Plane) : (Z -> R) * (Z -> R) * Plane :=
  let yTr := Z.min (Byd t) (height - y + By t) in
  let xTr := Z.min (Bxd t) (width - x + Bx t) in
  let wmax := self_weight (snd s) in
  for_loop 0 (yTr - 1) (fun j st =>
    for_loop 0 (xTr - 1) (fun k st =>
      let i := j * Bxd t + k in
      let sb := add_at (fst (fst st)) i
                  (IZR (srcp (y - By t + j) (x - Bx t + k)) * wmax) in
      let wb := add_at (snd (fst st)) i wmax in
      (sb, wb,
       upd2 (snd st) (y - By t + j) (x - Bx t + k)
            (to_pixel (sb i / wb i)))) st)
  (fst s, dstp).

(** The pixel coordinates [tile_finish] reads and writes. *)
Definition tile_cells (width height y x : Z) : list (Z * Z) :=
  flat_map (fun j =>
    map (fun k => (y - By t + j, x - Bx t + k))
      (range 0 (Z.min (Bxd t) (width - x + Bx t) - 1)))
    (range 0 (Z.min (Byd t) (height - y + By t) - 1)).

Definition WOZB_tile (pfp : Plane) (width height y x : Z)
    (st : (Z -> R) * (Z -> R) * Plane) : (Z -> R) * (Z -> R) * Plane :=
  let heightm1 := height - 1 in
  let widthm1 := width - 1 in
  let starty := Z.max (y - Ay t) (By t) in
  let stopy := Z.min (y + Ay t) (heightm1 - Z.min (By t) (heightm1 - y)) in
  let startx := Z.max (x - Ax t) (Bx t) in
  let stopx := Z.min (x + Ax t) (widthm1 - Z.min (Bx t) (widthm1 - x)) in
  let s0 : Tile := (fill_zero_d (fst (fst st)) (Bxa t),
                    fill_zero_d (snd (fst st)) (Bxa t), 0%R) in
  let s1 := for_loop starty stopy (fun u s =>
              for_loop startx stopx (fun v s =>
                block_candidate pfp pfp heightm1 widthm1 y x u v
                  ((u =? y) && (v =? x)) s) s) s0 in
  tile_finish pfp width height y x s1 (snd st).

Definition WOZB_plane (pfp : Plane) (width height : Z)
    (sb wb : Z -> R) (dstp : Plane) : (Z -> R) * (Z -> R) * Plane :=
  for_each (steps (By t) (height + By t) (Byd t)) (fun y st =>
    for_each (steps (Bx t) (width + Bx t) (Bxd t)) (fun x st =>
      WOZB_tile pfp width height y x st) st)
  (sb, wb, dstp).

Definition GetFrameWOZB (clip : Clip) (n : Z) (sb wb : Z -> R)
    (dstPF : option Frame)
  : (Z -> R) * (Z -> R) * option Frame * list Z :=
  match dstPF with
  | None => (sb, wb, None, [mapn t n])
  | Some dst =>
      let srcPF := clip (mapn t n) in
      let r := for_loop 0 (numPlanes (format (vi t)) - 1) (fun plane st =>
                 let p := WOZB_plane (srcPF plane) (planeWidth (vi t) plane)
                            (planeHeight (vi t) plane)
                            (fst (fst st)) (snd (fst st)) (snd st plane) in
                 (fst (fst p), snd (fst p), upd (snd st) plane (snd p)))
                 (sb, wb, dst) in
      (fst (fst r), snd (fst r), Some (snd r), [mapn t n; mapn t n])
  end.

(** *** The cache seen by the temporal variants *)

Definition slot_ds (fc : nlCache) (pos plane : Z) : SDATA :=
  ds (frames fc pos) plane.

Definition set_slot_ds (fc : nlCache) (pos plane : Z) (d : SDATA) : nlCache :=
  set_frame fc pos (set_ds (frames fc pos) (upd (ds (frames fc pos)) plane d)).

Definition slot_dsa (fc : nlCache) (pos i : Z) : Z := dsa (frames fc pos) i.

Definition set_slot_dsa (fc : nlCache) (pos i v : Z) : nlCache :=
  set_frame fc pos (set_dsa (frames fc pos) (upd (dsa (frames fc pos)) i v)).

(** [getReadPtr(pf, plane)].  The source hands the reference of every slot
    to [getReadPtr], which must not be given a null one; the model reads a
    null reference as a plane of zeros, and [slots_loaded] states that no
    slot is null after the fetch loop where a statement depends on it. *)
Definition read_plane (clip : Clip) (p : option Z) (plane : Z) : Plane :=
  match p with
  | Some k => clip k plane
  | None => fun _ _ => 0
  end.

(** The fetch loop that opens both temporal variants; [clear] tells whether
    [clearDS] follows the fetch (pixel mode).  The second component logs the
    indices handed to [getFrameFilter]. *)
Definition cache_fill (clear : bool) (fc : nlCache) (n : Z)
  : nlCache * list Z :=
  for_loop (n - Az t) (n + Az t) (fun i st =>
    let fc := fst st in
    let pos := getCachePos fc (i - n + Az t) in
    let nl := frames fc pos in
    if fnum nl =? i then st
    else
      let nl1 := setFNum (set_pf nl (Some (mapn t i))) i in
      let nl2 := if clear then clearDS (vi t) fc nl1 else nl1 in
      (set_frame fc pos nl2, snd st ++ [mapn t i]))
  (fc, []).

(** [startz] and [stopz]: the part of the window inside the clip. *)
Definition startz (n : Z) : Z := Az t - Z.min n (Az t).

Definition stopz (n : Z) : Z :=
  Az t + Z.min (numFrames (vi t) - n - 1) (Az t).

(** *** Temporal pixel variant: [GetFrameWZ] *)

(** The temporal scan of the pixel [(y, x)] of the centre frame.  [pfplut]
    gives the plane of each logical slot, [poslut] its physical position,
    [srcp] is the centre plane; [ddsa] is the flag array of the centre slot
    and [cdsa] the one of the candidate's slot. *)

(** The body of the innermost loop, for the candidate [(u, v)] of the slot
    [z]: the centre accumulator always receives the candidate; the
    candidate's accumulator receives the centre unless [cdsa[Azdm1 - z]]
    is 1. *)
Definition WZ_candidate (pfplut : Z -> Plane) (srcp : Plane) (poslut : Z -> Z)
    (plane width height z y x u v : Z) (fc : nlCache) : nlCache :=
  let heightm1 := height - 1 in
  let widthm1 := width - 1 in
  let pc := poslut (Az t) in
  let pz := poslut z in
  let pf1p := pfplut z in
  let doff := y * width + x in
  let coff := u * width + v in
  let w := patch_weight pf1p srcp heightm1 widthm1 y x u v in
  let fc := set_slot_ds fc pc plane
              (hit (slot_ds fc pc plane) doff (pf1p u v) w) in
  if slot_dsa fc pz (Azdm1 t - z) =? 1 then fc
  else set_slot_ds fc pz plane
         (hit (slot_ds fc pz plane) coff (srcp y x) w).

(** The body of the loop over [z]: a slot whose flag [ddsa[z]] is 1 is
    skipped, any other is flagged 2 and scanned. *)
Definition WZ_slot (pfplut : Z -> Plane) (srcp : Plane) (poslut : Z -> Z)
    (plane width height y x z : Z) (fc : nlCache) : nlCache :=
  let heightm1 := height - 1 in
  let widthm1 := width - 1 in
  let pc := poslut (Az t) in
  let startyt := Z.max (y - Ay t) 0 in
  let stopy := Z.min (y + Ay t) heightm1 in
  let startxt := Z.max (x - Ax t) 0 in
  let stopx := Z.min (x + Ax t) widthm1 in
  if slot_dsa fc pc z =? 1 then fc
  else
    let fc := set_slot_dsa fc pc z 2 in
    let starty := if z =? Az t then y else startyt in
    for_loop starty stopy (fun u fc =>
      let startx := if (u =? y) && (z =? Az t) then x + 1 else startxt in
      for_loop startx stopx (fun v fc =>
        WZ_candidate pfplut srcp poslut plane width height z y x u v fc) fc)
      fc.

Definition WZ_scan (pfplut : Z -> Plane) (srcp : Plane) (poslut : Z -> Z)
    (plane width height n y x : Z) (fc : nlCache) : nlCache :=
  for_loop (startz n) (stopz n) (fun z fc =>
    WZ_slot pfplut srcp poslut plane width height y x z fc) fc.

Definition WZ_pixel (pfplut : Z -> Plane) (srcp : Plane) (poslut : Z -> Z)
    (plane width height n y x : Z) (st : nlCache * Plane) : nlCache * Plane :=
  let pc := poslut (Az t) in
  let fc := WZ_scan pfplut srcp poslut plane width height n y x (fst st) in
  let r := finish (slot_ds fc pc plane) (y * width + x) (srcp y x) in
  (set_slot_ds fc pc plane (fst r), upd2 (snd st) y x (snd r)).

Definition WZ_plane (pfplut : Z -> Plane) (srcp : Plane) (poslut : Z -> Z)
    (plane width height n : Z) (fc : nlCache) (dstp : Plane)
  : nlCache * Plane :=
  for_loop 0 (height - 1) (fun y st =>
    for_loop 0 (width - 1) (fun x st =>
      WZ_pixel pfplut srcp poslut plane width height n y x st) st)
  (fc, dstp).

(** The closing loop: [if (ddsa[i] == 2) ddsa[i] = cdsa[j] = 1], with
    [j = size - 1 - i]; the chained assignment stores [cdsa[j]] first. *)
Definition WZ_mark (fc : nlCache) : nlCache :=
  let pc := getCachePos fc (Az t) in
  for_loop 0 (size fc - 1) (fun i fc =>
    let j := size fc - 1 - i in
    if slot_dsa fc pc i =? 2
    then set_slot_dsa (set_slot_dsa fc (getCachePos fc i) j 1) pc i 1
    else fc) fc.

(** The body of the plane loop: the lookup tables [pfplut] and [dslut] are
    refreshed from the cache, then the plane is scanned. *)
Definition WZ_frame_plane (clip : Clip) (n plane : Z) (st : nlCache * Frame)
  : nlCache * Frame :=
  let fc := fst st in
  let poslut := getCachePos fc in
  let pfplut := fun i => read_plane clip (pf (frames fc (poslut i))) plane in
  let p := WZ_plane pfplut (pfplut (Az t)) poslut plane
             (planeWidth (vi t) plane) (planeHeight (vi t) plane) n fc
             (snd st plane) in
  (fst p, upd (snd st) plane (snd p)).

Definition GetFrameWZ (clip : Clip) (n : Z) (fc : nlCache)
    (dstPF : option Frame) : nlCache * option Frame * list Z :=
  let r := cache_fill true (resetCacheStart fc (n - Az t) (n + Az t)) n in
  let log := snd r ++ [mapn t n] in
  match dstPF with
  | None => (fst r, None, log)
  | Some dst =>
      let r2 := for_loop 0 (numPlanes (format (vi t)) - 1)
                  (fun plane st => WZ_frame_plane clip n plane st)
                  (fst r, dst) in
      (WZ_mark (fst r2), Some (snd r2), log)
  end.

(** *** Temporal block variant: [GetFrameWZB] *)

Definition WZB_tile (pfplut : Z -> Plane) (srcp : Plane)
    (width height n y x : Z) (st : (Z -> R) * (Z -> R) * Plane)
  : (Z -> R) * (Z -> R) * Plane :=
  let heightm1 := height - 1 in
  let widthm1 := width - 1 in
  let starty := Z.max (y - Ay t) (By t) in
  let stopy := Z.min (y + Ay t) (heightm1 - Z.min (By t) (heightm1 - y)) in
  let startx := Z.max (x - Ax t) (Bx t) in
  let stopx := Z.min (x + Ax t) (widthm1 - Z.min (Bx t) (widthm1 - x)) in
  let s0 : Tile := (fill_zero_d (fst (fst st)) (Bxa t),
                    fill_zero_d (snd (fst st)) (Bxa t), 0%R) in
  let s1 := for_loop (startz n) (stopz n) (fun z s =>
              for_loop starty stopy (fun u s =>
                for_loop startx stopx (fun v s =>
                  block_candidate (pfplut z) srcp heightm1 widthm1 y x u v
                    ((z =? Az t) && (u =? y) && (v =? x)) s) s) s) s0 in
  tile_finish srcp width height y x s1 (snd st).

Definition WZB_plane (pfplut : Z -> Plane) (srcp : Plane)
    (width height n : Z) (sb wb : Z -> R) (dstp : Plane)
  : (Z -> R) * (Z -> R) * Plane :=
  for_each (steps (By t) (height + By t) (Byd t)) (fun y st =>
    for_each (steps (Bx t) (width + Bx t) (Bxd t)) (fun x st =>
      WZB_tile pfplut srcp width height n y x st) st)
  (sb, wb, dstp).

Definition GetFrameWZB (clip : Clip) (n : Z) (fc : nlCache)
    (sb wb : Z -> R) (dstPF : option Frame)
  : nlCache * ((Z -> R) * (Z -> R)) * option Frame * list Z :=
  let r := cache_fill false (resetCacheStart fc (n - Az t) (n + Az t)) n in
  let fc := fst r in
  let log := snd r ++ [mapn t n] in
  match dstPF with
  | None => (fc, (sb, wb), None, log)
  | Some dst =>
      let r2 := for_loop 0 (numPlanes (format (vi t)) - 1) (fun plane st =>
                  let pfplut := fun i =>
                    read_plane clip (pf (frames fc (getCachePos fc i))) plane in
                  let p := WZB_plane pfplut (pfplut (Az t))
                             (planeWidth (vi t) plane)
                             (planeHeight (vi t) plane) n
                             (fst (fst st)) (snd (fst st)) (snd st plane) in
                  (fst (fst p), snd (fst p), upd (snd st) plane (snd p)))
                  (sb, wb, dst) in
      (fc, fst r2, Some (snd r2), log)
  end.

(** *** The pixels each variant reads *)

(** A read of a spatial variant is a (row, column) pair of the source
    plane; a read of a temporal variant also names the logical slot of the
    cache it goes to.  The lists follow the loops of the variants; for the
    temporal pixel variant they are those of a scan that skips no slot. *)
Definition WOZ_reads (width height : Z) : list (Z * Z) :=
  flat_map (fun y =>
    flat_map (fun x =>
      flat_map (fun u =>
        flat_map (fun v =>
          patch_reads_candidate (height - 1) (width - 1) y x u v
          ++ patch_reads_target (height - 1) (width - 1) y x u v
          ++ [(y, x); (u, v)])
          (range (if u =? y then x + 1 else Z.max (x - Ax t) 0)
                 (Z.min (x + Ax t) (width - 1))))
        (range y (Z.min (y + Ay t) (height - 1)))
      ++ [(y, x)])
      (range 0 (width - 1)))
    (range 0 (height - 1)).

Definition WZ_reads (width height n : Z) : list (Z * (Z * Z)) :=
  flat_map (fun y =>
    flat_map (fun x =>
      flat_map (fun z =>
        flat_map (fun u =>
          flat_map (fun v =>
            map (pair z)
                (patch_reads_candidate (height - 1) (width - 1) y x u v)
            ++ map (pair (Az t))
                   (patch_reads_target (height - 1) (width - 1) y x u v)
            ++ [(z, (u, v)); (Az t, (y, x))])
            (range (if (u =? y) && (z =? Az t) then x + 1
                    else Z.max (x - Ax t) 0)
                   (Z.min (x + Ax t) (width - 1))))
          (range (if z =? Az t then y else Z.max (y - Ay t) 0)
                 (Z.min (y + Ay t) (height - 1))))
        (range (startz n) (stopz n))
      ++ [(Az t, (y, x))])
      (range 0 (width - 1)))
    (range 0 (height - 1)).

(** The reads of one tile of the block variants in the candidate frame. *)
Definition tile_reads (width height y x : Z) : list (Z * Z) :=
  flat_map (fun u =>
    flat_map (fun v =>
      patch_reads_candidate (height - 1) (width - 1) y x u v
      ++ block_reads (height - 1) (width - 1) y x u v)
      (range (Z.max (x - Ax t) (Bx t))
             (Z.min (x + Ax t)
                    (width - 1 - Z.min (Bx t) (width - 1 - x)))))
    (range (Z.max (y - Ay t) (By t))
           (Z.min (y + Ay t) (height - 1 - Z.min (By t) (height - 1 - y)))).

(** The reads of one tile in the frame of the tile itself. *)
Definition tile_reads_target (width height y x : Z) : list (Z * Z) :=
  flat_map (fun u =>
    flat_map (fun v =>
      patch_reads_target (height - 1) (width - 1) y x u v)
      (range (Z.max (x - Ax t) (Bx t))
             (Z.min (x + Ax t)
                    (width - 1 - Z.min (Bx t) (width - 1 - x)))))
    (range (Z.max (y - Ay t) (By t))
           (Z.min (y + Ay t) (height - 1 - Z.min (By t) (height - 1 - y))))
  ++ tile_cells width height y x.

Definition WOZB_reads (width height : Z) : list (Z * Z) :=
  flat_map (fun y =>
    flat_map (fun x =>
      tile_reads width height y x ++ tile_reads_target width height y x)
      (steps (Bx t) (width + Bx t) (Bxd t)))
    (steps (By t) (height + By t) (Byd t)).

Definition WZB_reads (width height n : Z) : list (Z * (Z * Z)) :=
  flat_map (fun y =>
    flat_map (fun x =>
      flat_map (fun z => map (pair z) (tile_reads width height y x))
               (range (startz n) (stopz n))
      ++ map (pair (Az t)) (tile_reads_target width height y x))
      (steps (Bx t) (width + Bx t) (Bxd t)))
    (steps (By t) (height + By t) (Byd t)).

End Variants.

(** ** The constraint table of the configuration *)

(** Each row gives the field, the constraint and the message of the
    constructor, in the order the constructor checks them. *)
Definition constraints (Ax Ay Az Sx Sy Bx By : Z) (a h : R)
  : list (string * Prop * string) :=
  [ ("h", (0 < h)%R, "h must be greater than 0");
    ("a", (0 < a)%R, "a must be greater than 0");
    ("ax", 0 <= Ax, "ax must be greater than or equal to 0");
    ("ay", 0 <= Ay, "ay must be greater than or equal to 0");
    ("az", 0 <= Az, "az must be greater than or equal to 0");
    ("bx", 0 <= Bx, "bx must be greater than or equal to 0");
    ("by", 0 <= By, "by must be greater than or equal to 0");
    ("sx", 0 <= Sx, "sx must be greater than or equal to 0");
    ("sy", 0 <= Sy, "sy must be greater than or equal to 0");
    ("sx", Bx <= Sx, "sx must be greater than or equal to bx");
    ("sy", By <= Sy, "sy must be greater than or equal to by") ]%string.

Definition holds (c : string * Prop * string) : Prop := snd (fst c).
Definition field_name (c : string * Prop * string) : string := fst (fst c).
Definition message (c : string * Prop * string) : string := snd c.

(** The clip is planar and 8-bit. *)
Definition format_ok (vi : VSVideoInfo) : Prop :=
  is_cmCompat (colorFamily (format vi)) = false /\
  bitsPerSample (format vi) = 8.

(** An engine built by the constructor. *)
Definition constructed (t : TNLMeans) : Prop :=
  exists pAx pAy pAz pSx pSy pBx pBy pa ph pssd pvi threadCount,
    TNLMeans_new pAx pAy pAz pSx pSy pBx pBy pa ph pssd pvi threadCount = inr t.

(** The plane [pfp] holds the byte [c] at every pixel of a [width] by
    [height] plane. *)
Definition constant_plane (pfp : Plane) (width height c : Z) : Prop :=
  forall y x, 0 <= y < height -> 0 <= x < width -> pfp y x = c.

(** Cells below [n] of an accumulator that has only seen the sample [c]:
    the sum is [c] times the weight. *)
Definition flat_acc (c : Z) (n : Z) (d : SDATA) : Prop :=
  forall i, 0 <= i < n ->
    sums d i = (IZR c * weights d i)%R /\ (0 <= weights d i)%R /\
    (0 <= wmaxs d i)%R.

(** ** Accumulator cells and the brute-force reference *)

(** One cell of an accumulator: (sum, weight, maxWeight). *)
Definition Acc : Type := R * R * R.

Definition acc_zero : Acc := (0%R, 0%R, 0%R).

Definition cell (d : SDATA) (i : Z) : Acc := (sums d i, weights d i, wmaxs d i).

(** A weighted sample [(s, w)] enters a cell. *)
Definition acc_add (c : Acc) (e : Z * R) : Acc :=
  ((fst (fst c) + IZR (fst e) * snd e)%R,
   (snd (fst c) + snd e)%R,
   if Rgt_dec (snd e) (snd c) then snd e else snd c).

(** The pixel obtained from a cell once the self term of the sample [s] is
    added: round(sum / weight) clamped to [0, 255]. *)
Definition acc_pixel (c : Acc) (s : Z) : Z :=
  let self := self_weight (snd c) in
  Z.max 0 (Z.min 255
    (Zfloor ((fst (fst c) + IZR s * self) / (snd (fst c) + self) + / 2))).

Definition pix_eqb (p q : Z * Z) : bool :=
  (fst p =? fst q) && (snd p =? snd q).

(** The accumulator index of a pixel, [y * width + x]. *)
Definition flat_index (width : Z) (p : Z * Z) : Z := fst p * width + snd p.

Section Reference.

Variable t : TNLMeans.
Variable gw : Z -> R.
Variable pfp : Plane.
Variables width height : Z.

(** Pixels are (row, column) pairs, listed in raster order. *)
Definition frame_pixels : list (Z * Z) :=
  list_prod (range 0 (height - 1)) (range 0 (width - 1)).




(** The score of a pair: the weight of the two patches. *)
Definition ref_score (p q : Z * Z) : R :=
  patch_weight t gw pfp pfp (height - 1) (width - 1)
               (fst p) (snd p) (fst q) (snd q).




(** The candidates of the pixel [(y, x)] in the order [WOZ_scan] visits
    them (the causal half of the window), and the whole window. *)
Definition half_window (p : Z * Z) : list (Z * Z) :=
  let y := fst p in
  let x := snd p in
  flat_map (fun u =>
    map (pair u)
      (range (if u =? y then x + 1 else Z.max (x - Ax t) 0)
             (Z.min (x + Ax t) (width - 1))))
    (range y (Z.min (y + Ay t) (height - 1))).

Definition window (p : Z * Z) : list (Z * Z) :=
  list_prod
    (range (Z.max (fst p - Ay t) 0) (Z.min (fst p + Ay t) (height - 1)))
    (range (Z.max (snd p - Ax t) 0) (Z.min (snd p + Ax t) (width - 1))).

Definition others (p : Z * Z) : list (Z * Z) :=
  filter (fun q => negb (pix_eqb q p)) (window p).

(** The sample a candidate [q] brings to the pixel [p]. *)
Definition sample (p q : Z * Z) : Z * R :=
  (pfp (fst q) (snd q), ref_score p q).

(** The run of samples of [WOZ_scan] at the pixel [p]: each candidate [c]
    receives the pixel [p] and gives its own pixel to [p]. *)
Definition WOZ_events (p : Z * Z) : list (Z * (Z * R)) :=
  flat_map (fun c =>
    [(flat_index width c, (pfp (fst p) (snd p), ref_score p c));
     (flat_index width p, (pfp (fst c) (snd c), ref_score p c))])
    (half_window p).


(** The pixels the raster scan visits before [p]. *)
Definition before (p : Z * Z) : list (Z * Z) :=
  list_prod (range 0 (fst p - 1)) (range 0 (width - 1))
  ++ map (pair (fst p)) (range 0 (snd p - 1)).

End Reference.

(** A run of samples landing in cells: each entry is (cell, (sample, weight)). *)
Definition hits (d : SDATA) (l : list (Z * (Z * R))) : SDATA :=
  fold_left (fun d e => hit d (fst e) (fst (snd e)) (snd (snd e))) l d.

(** The samples of a run that land in the cell [i]. *)
Definition landing (i : Z) (l : list (Z * (Z * R))) : list (Z * R) :=
  map snd (filter (fun e => fst e =? i) l).



(** A read stays inside a [width] by [height] plane, and a slot inside the
    window of an engine. *)
Definition inside (width height : Z) (rc : Z * Z) : Prop :=
  0 <= fst rc <= height - 1 /\ 0 <= snd rc <= width - 1.

Definition inside_slot (t : TNLMeans) (width height : Z) (r : Z * (Z * Z))
  : Prop :=
  0 <= fst r <= 2 * Az t /\ inside width height (snd r).

(** Two planes hold the same bytes inside a [width] by [height] frame. *)
Definition agree (width height : Z) (p p' : Plane) : Prop :=
  forall y x, 0 <= y <= height - 1 -> 0 <= x <= width - 1 -> p y x = p' y x.

(** ** The temporal pixel variant as a scatter of samples *)

Section TemporalEvents.

Variable t : TNLMeans.
Variable gw : Z -> R.
Variable pfplut : Z -> Plane.
Variable srcp : Plane.
Variable poslut : Z -> Z.
Variables width height n : Z.

(** The candidates of the pixel [p] in the slot [z], in the order of the
    scan: the whole window, or its causal half in the centre slot. *)
Definition WZ_cands (z : Z) (p : Z * Z) : list (Z * Z) :=
  let y := fst p in
  let x := snd p in
  flat_map (fun u =>
    map (pair u)
      (range (if (u =? y) && (z =? Az t) then x + 1 else Z.max (x - Ax t) 0)
             (Z.min (x + Ax t) (width - 1))))
    (range (if z =? Az t then y else Z.max (y - Ay t) 0)
           (Z.min (y + Ay t) (height - 1))).

Definition WZ_weight (z : Z) (p c : Z * Z) : R :=
  patch_weight t gw (pfplut z) srcp (height - 1) (width - 1)
               (fst p) (snd p) (fst c) (snd c).

(** What the candidate [c] of the slot [z] puts into the accumulator of the
    slot at position [P]: the centre slot receives the candidate's byte, and
    the candidate's slot receives the centre byte unless [b] says that side
    is already resolved. *)
Definition WZ_cand_events (b : bool) (P z : Z) (p c : Z * Z)
  : list (Z * (Z * R)) :=
  (if P =? poslut (Az t)
   then [(flat_index width p, (pfplut z (fst c) (snd c), WZ_weight z p c))]
   else [])
  ++ (if (P =? poslut z) && negb b
      then [(flat_index width c, (srcp (fst p) (snd p), WZ_weight z p c))]
      else []).

(** The run of samples of [WZ_scan] at the pixel [p], seen from the slot at
    position [P]; [sk z] tells that the slot [z] is skipped. *)
Definition WZ_events (sk csk : Z -> bool) (P : Z) (p : Z * Z)
  : list (Z * (Z * R)) :=
  flat_map (fun z =>
    if sk z then []
    else flat_map (WZ_cand_events (csk z) P z p) (WZ_cands z p))
    (range (startz t n) (stopz t n)).

(** The flags of the cache decide as [sk] and [csk] say. *)
Definition flag_pattern (sk csk : Z -> bool) (fc : nlCache) : Prop :=
  forall z, startz t n <= z <= stopz t n ->
    (slot_dsa fc (poslut (Az t)) z =? 1) = sk z /\
    (z <> Az t -> (slot_dsa fc (poslut z) (Azdm1 t - z) =? 1) = csk z).

End TemporalEvents.

(** Two caches hold the same frames at the same rotation. *)
Definition same_shell (fc fc' : nlCache) : Prop :=
  start_pos fc' = start_pos fc /\ size fc' = size fc /\
  forall P, fnum (frames fc' P) = fnum (frames fc P) /\
            pf (frames fc' P) = pf (frames fc P).

(** The accumulators of the plane [plane] went from [fc] to [fc'] by the
    runs of samples [ev P], slot by slot; nothing else moved but flags. *)
Definition scan_obs (plane : Z) (ev : Z -> list (Z * (Z * R)))
    (fc fc' : nlCache) : Prop :=
  (forall P, slot_ds fc' P plane = hits (slot_ds fc P plane) (ev P)) /\
  (forall P pl, pl <> plane -> slot_ds fc' P pl = slot_ds fc P pl) /\
  same_shell fc fc'.

Definition same_flags (fc fc' : nlCache) : Prop :=
  forall P i, slot_dsa fc' P i = slot_dsa fc P i.

(** The planes of the slots of a cache, by logical index. *)
Definition lut_plane (clip : Clip) (fc : nlCache) (plane : Z) : Z -> Plane :=
  fun i => read_plane clip (pf (frames fc (getCachePos fc i))) plane.

(** ** The cache between requests *)

(** The ring is usable: its capacity is that of the window and the rotation
    offset lies inside it. *)
Definition ring_ok (t : TNLMeans) (fc : nlCache) : Prop :=
  size fc = Az t * 2 + 1 /\ 0 <= start_pos fc < size fc.

(** Every slot that names a frame, rather than the sentinel of an empty
    slot, holds the reference fetched for that frame. *)
Definition coherent (t : TNLMeans) (fc : nlCache) : Prop :=
  forall P, fnum (frames fc P) <> -20 ->
            pf (frames fc P) = Some (mapn t (fnum (frames fc P))).

(** The cache holds the window that starts at the frame [a], in order. *)
Definition holds_window (t : TNLMeans) (fc : nlCache) (a : Z) : Prop :=
  forall k, 0 <= k <= Az t * 2 -> fnum (frames fc (getCachePos fc k)) = a + k.

(** The slot of the frame [i] as the fetch loop leaves it. *)
Definition fetched (t : TNLMeans) (clear : bool) (fc : nlCache) (nl : nlFrame)
    (i : Z) : nlFrame :=
  let nl1 := setFNum (set_pf nl (Some (mapn t i))) i in
  if clear then clearDS (vi t) fc nl1 else nl1.

(** The frames of the window at [b] that a cache holding the window at [a]
    lacks. *)
Definition missing (t : TNLMeans) (a b : Z) : list Z :=
  filter (fun i => negb ((a <=? i) && (i <=? a + Az t * 2)))
         (range b (b + Az t * 2)).

(** ** What a variant writes *)

(** The plane [p'] is the plane [p] with a value that satisfies [Q] stored
    at each pixel of [cells] and no other pixel changed. *)
Definition stores (Q : Z -> Prop) (cells : list (Z * Z)) (p p' : Plane)
  : Prop :=
  (forall r c, In (r, c) cells -> Q (p' r c)) /\
  (forall r c, ~ In (r, c) cells -> p' r c = p r c).

(** The stored values are bytes. *)
Definition writes (cells : list (Z * Z)) (p p' : Plane) : Prop :=
  stores (fun v => 0 <= v <= 255) cells p p'.

(** ** The kernel table in closed form *)

(** The distance of the offset [j] from a block of radius [B], as the
    constructor computes [m] and [n]. *)
Definition block_gap (B j : Z) : Z :=
  if j <? 0 then Z.min (j + B) 0 else Z.max (j - B) 0.

(** The kernel weight of the patch offset [(j, k)]. *)
Definition kernel (Bx By : Z) (a2 : R) (j k : Z) : R :=
  exp (- (IZR (block_gap By j * block_gap By j + block_gap Bx k * block_gap Bx k)
          / (2 * a2)))%R.

(** ** Dispatch and the worker slots *)

Definition set_active (th : nlThread) (v : Z) : nlThread :=
  {| active := v; fc := fc th; gw := gw th; tds := tds th;
     sumsb := sumsb th; weightsb := weightsb th |}.

Definition set_threads (t : TNLMeans) (ths : list nlThread) : TNLMeans :=
  {| Ax := Ax t; Ay := Ay t; Az := Az t; Sx := Sx t; Sy := Sy t;
     Bx := Bx t; By := By t; a := a t; h := h t; ssd := ssd t;
     h2in := h2in t; hin := hin t;
     Sxd := Sxd t; Syd := Syd t; Sxa := Sxa t;
     Bxd := Bxd t; Byd := Byd t; Bxa := Bxa t;
     Axd := Axd t; Ayd := Ayd t; Axa := Axa t;
     Azdm1 := Azdm1 t; a2 := a2 t; vi := vi t;
     numThreads := numThreads t; threads := ths |}.

(** The test [Bx || By] of the constructor and of the dispatch. *)
Definition use_blocks (t : TNLMeans) : bool :=
  negb (Bx t =? 0) || negb (By t =? 0).

(** [GetFrameByMethod] on the worker slot [th]: the variant is selected by
    [Az] and [Bx || By] and runs on the buffers of the slot; the template
    argument [ssd] is the field [ssd] that the variants of the model read.
    A variant that would dereference a null buffer has no result. *)
Definition GetFrameByMethod (t : TNLMeans) (clip : Clip) (n : Z)
    (th : nlThread) (dstPF : option Frame)
  : option (nlThread * option Frame * list Z) :=
  if negb (Az t =? 0) then
    if use_blocks t then
      match fc th, sumsb th, weightsb th with
      | Some c, Some sb, Some wb =>
          let r := GetFrameWZB t (gw th) clip n c sb wb dstPF in
          Some ({| active := active th;
                   fc := Some (fst (fst (fst r)));
                   gw := gw th; tds := tds th;
                   sumsb := Some (fst (snd (fst (fst r))));
                   weightsb := Some (snd (snd (fst (fst r)))) |},
                snd (fst r), snd r)
      | _, _, _ => None
      end
    else
      match fc th with
      | Some c =>
          let r := GetFrameWZ t (gw th) clip n c dstPF in
          Some ({| active := active th; fc := Some (fst (fst r));
                   gw := gw th; tds := tds th;
                   sumsb := sumsb th; weightsb := weightsb th |},
                snd (fst r), snd r)
      | None => None
      end
  else
    if use_blocks t then
      match sumsb th, weightsb th with
      | Some sb, Some wb =>
          let r := GetFrameWOZB t (gw th) clip n sb wb dstPF in
          Some ({| active := active th; fc := fc th;
                   gw := gw th; tds := tds th;
                   sumsb := Some (fst (fst (fst r)));
                   weightsb := Some (snd (fst (fst r))) |},
                snd (fst r), snd r)
      | _, _ => None
      end
    else
      match tds th with
      | Some d =>
          let r := GetFrameWOZ t (gw th) clip n d dstPF in
          Some ({| active := active th; fc := fc th;
                   gw := gw th; tds := Some (fst (fst r));
                   sumsb := sumsb th; weightsb := weightsb th |},
                snd (fst r), snd r)
      | None => None
      end.

(** The search [for (i = 0; i < numThreads; ++i) if (!threads[i].active)]:
    the slots before the first idle one, that slot, and the slots after. *)
Fixpoint acquire (ths : list nlThread)
  : option (list nlThread * nlThread * list nlThread) :=
  match ths with
  | [] => None
  | th :: rest =>
      if active th =? 0 then Some ([], th, rest)
      else match acquire rest with
           | Some (pre, x, post) => Some (th :: pre, x, post)
           | None => None
           end
  end.

(** [GetFrame], one call at a time: the first idle slot among the first
    [numThreads] is marked busy, the request is served on it and the slot is
    released.  With every slot busy the [do ... while] loop does not exit,
    and the call has no result. *)
Definition GetFrame (t : TNLMeans) (clip : Clip) (n : Z)
    (dstPF : option Frame) : option (TNLMeans * option Frame * list Z) :=
  let k := Z.to_nat (numThreads t) in
  match acquire (firstn k (threads t)) with
  | None => None
  | Some (pre, th, post) =>
      match GetFrameByMethod t clip n (set_active th 1) dstPF with
      | None => None
      | Some (th', out, log) =>
          Some (set_threads t
                  (pre ++ set_active th' 0 :: post ++ skipn k (threads t)),
                out, log)
      end
  end.

(** A worker slot owns the buffers that the mode of the engine uses. *)
Definition slot_ready (t : TNLMeans) (th : nlThread) : Prop :=
  (Az t <> 0 -> exists c, fc th = Some c /\ ring_ok t c /\ coherent t c) /\
  (use_blocks t = true -> sumsb th <> None /\ weightsb th <> None) /\
  (Az t = 0 -> use_blocks t = false -> tds th <> None).

(** ** Constant clips *)

(** Every frame of the clip holds the byte [c] at every pixel of every
    plane. *)
Definition constant_clip (t : TNLMeans) (clip : Clip) (c : Z) : Prop :=
  forall i plane, 0 <= i < numFrames (vi t) ->
    0 <= plane < numPlanes (format (vi t)) ->
    constant_plane (clip i plane) (planeWidth (vi t) plane)
                   (planeHeight (vi t) plane) c.

(** The cells below [n] of a tile scratch have only seen the sample [c]. *)
Definition flat_scratch (c n : Z) (sb : (Z -> R) * (Z -> R)) : Prop :=
  forall i, 0 <= i < n ->
    fst sb i = (IZR c * snd sb i)%R /\ (0 <= snd sb i)%R.

(** The accumulators of every slot of the cache have only seen the sample
    [c], in every plane of the format. *)
Definition flat_cache (t : TNLMeans) (c : Z) (fc : nlCache) : Prop :=
  forall P plane, 0 <= plane < numPlanes (format (vi t)) ->
    flat_acc c (planeHeight (vi t) plane * planeWidth (vi t) plane)
             (slot_ds fc P plane).

(** ** A frame served again *)

(** The pixels the raster scan visits after [p]. *)
Definition after (width height : Z) (p : Z * Z) : list (Z * Z) :=
  map (pair (fst p)) (range (snd p + 1) (width - 1))
  ++ list_prod (range (fst p + 1) (height - 1)) (range 0 (width - 1)).

(** A cell once [finish] has added the self term of the sample [s]:
    [*dsum += srcp[x]*wmax; *dweight += wmax]. *)
Definition acc_self (c : Acc) (s : Z) : Acc :=
  let self := self_weight (snd c) in
  ((fst (fst c) + IZR s * self)%R, (snd (fst c) + self)%R, snd c).

(** The flags of a cache as the scan reads them: the slot [z] is skipped
    when [ddsa[z]] is 1, and its accumulator is left alone when
    [cdsa[Azdm1 - z]] is 1. *)
Definition skip_of (t : TNLMeans) (fc : nlCache) : Z -> bool :=
  fun z => slot_dsa fc (getCachePos fc (Az t)) z =? 1.

Definition resolved_of (t : TNLMeans) (fc : nlCache) : Z -> bool :=
  fun z => if z =? Az t then false
           else slot_dsa fc (getCachePos fc z) (Azdm1 t - z) =? 1.

(** The centre cell of the pixel [p] when its self term is due: the cell
    [c0] the plane scan started from, with the samples that the pixels
    before [p] and the scan of [p] itself have put into it. *)
Definition WZ_seen (t : TNLMeans) (gw : Z -> R) (pfplut : Z -> Plane)
    (srcp : Plane) (poslut : Z -> Z) (width height n : Z)
    (sk csk : Z -> bool) (p : Z * Z) (c0 : Acc) : Acc :=
  fold_left acc_add
    (flat_map (fun q =>
       landing (flat_index width p)
         (WZ_events t gw pfplut srcp poslut width height n sk csk
            (poslut (Az t)) q)) (before width p)
     ++ landing (flat_index width p)
          (WZ_events t gw pfplut srcp poslut width height n sk csk
             (poslut (Az t)) p))
    c0.

(** The cache as a served request for the frame [n] leaves it: the window
    of [n] is held, every slot of the scan is flagged 1 in the centre, and
    no flag of the centre is 2. *)
Definition settled (t : TNLMeans) (n : Z) (fc : nlCache) : Prop :=
  ring_ok t fc /\ holds_window t fc (n - Az t) /\
  (forall z, startz t n <= z <= stopz t n ->
     slot_dsa fc (getCachePos fc (Az t)) z = 1) /\
  (forall i, 0 <= i <= Az t * 2 ->
     slot_dsa fc (getCachePos fc (Az t)) i <> 2).

(** The cache after [k] served requests for the frame [n] in a row. *)
Definition again (t : TNLMeans) (gw : Z -> R) (clip : Clip) (n : Z)
    (dst : Frame) (k : nat) (fc : nlCache) : nlCache :=
  Nat.iter k (fun c => fst (fst (GetFrameWZ t gw clip n c (Some dst)))) fc.

(** ** Scratch of the block variants *)



(** ** A window new to the cache *)

(** No slot of the cache names a frame of the window of [n]. *)
Definition all_new (t : TNLMeans) (n : Z) (fc : nlCache) : Prop :=
  forall P, 0 <= P < size fc ->
    fnum (frames fc P) < n - Az t \/ n + Az t < fnum (frames fc P).

(** ** The domain of the real-number reading *)

(** The bandwidths are not so small that [a * a], [h * h], [1 / h] or
    [1 / (h * h)] underflows to zero or overflows in binary64: both are at
    least [2^-500]. *)
Definition well_scaled (t : TNLMeans) : Prop :=
  (/ 2 ^ 500 <= a t)%R /\ (/ 2 ^ 500 <= h t)%R.

(** A request the host makes and the temporal variants can serve: the frame
    is one of the clip, and the sentinel [-20] of an empty slot is not a
    frame number of its window. *)
Definition servable (t : TNLMeans) (n : Z) : Prop :=
  0 <= n < numFrames (vi t) /\ -20 < n - Az t.

(** Every slot of the cache holds a frame reference: [getReadPtr] is handed
    no null pointer when the plane pointers of the slots are looked up. *)
Definition slots_loaded (fc : nlCache) : Prop :=
  forall i, 0 <= i < size fc -> pf (frames fc (getCachePos fc i)) <> None.

(** The cache of a worker slot after the temporal pixel requests [ns],
    served in turn from the cache the constructor built. *)
Definition WZ_history (t : TNLMeans) (gw : Z -> R) (clip : Clip) (dst : Frame)
    (ns : list Z) : nlCache :=
  fold_left (fun c n => fst (fst (GetFrameWZ t gw clip n c (Some dst)))) ns
            (nlCache_new (Az t * 2 + 1) (fun _ => SDATA_zero)).


(** The engine states reached from [t0] by calls of [GetFrame], one at a
    time, each for a servable frame. *)
Inductive served_from (t0 : TNLMeans) (clip : Clip) : TNLMeans -> Prop :=
| served_none : served_from t0 clip t0
| served_next (t t' : TNLMeans) (n : Z) (dstPF out : option Frame)
    (log : list Z) :
    served_from t0 clip t -> servable t n ->
    GetFrame t clip n dstPF = Some (t', out, log) ->
    served_from t0 clip t'.

(** ** The samples of a centre cell, in the order they are added *)

(** The samples that the pixels of the centre plane [G] scanned before [p]
    have put into the cell of [p]: one for each pixel [q] before [p] in the
    raster whose causal half-window holds [p], weighted as the scan of [q]
    computed it for its candidate [p]. *)
Definition WZ_earlier (t : TNLMeans) (gw : Z -> R) (G : Plane)
    (width height : Z) (p : Z * Z) : list (Z * R) :=
  map (fun q => (G (fst q) (snd q), ref_score t gw G width height q p))
      (filter (fun q => existsb (fun c => pix_eqb c p)
                                (half_window t width height q))
              (before width p)).

(** The samples that the scan of [p] itself puts into its cell, slot by
    slot from [startz] to [stopz], a slot [z] with [sk z] being skipped:
    the causal half-window in the centre slot, the whole window in every
    other slot.  [F z] is the plane of the slot [z]. *)
Definition WZ_own (t : TNLMeans) (gw : Z -> R) (F : Z -> Plane)
    (width height n : Z) (sk : Z -> bool) (p : Z * Z) : list (Z * R) :=
  flat_map (fun z =>
    if sk z then []
    else map (fun c =>
                (F z (fst c) (snd c),
                 patch_weight t gw (F z) (F (Az t)) (height - 1) (width - 1)
                              (fst p) (snd p) (fst c) (snd c)))
             (if z =? Az t then half_window t width height p
              else window t width height p))
    (range (startz t n) (stopz t n)).

(** The same samples slot by slot, as a gather lists them: in the centre
    slot every other pixel of the window of [p], weighted from [p]. *)
Definition WZ_window_samples (t : TNLMeans) (gw : Z -> R) (F : Z -> Plane)
    (width height n : Z) (p : Z * Z) : list (Z * R) :=
  flat_map (fun z =>
    map (fun c =>
           (F z (fst c) (snd c),
            patch_weight t gw (F z) (F (Az t)) (height - 1) (width - 1)
                         (fst p) (snd p) (fst c) (snd c)))
        (if z =? Az t then others t width height p
         else window t width height p))
    (range (startz t n) (stopz t n)).


(** ** The engine in binary64

    The definitions above read a [double] as the real number it denotes.
    The module [B64] evaluates the same statements of the source on IEEE 754
    binary64 values, where overflow, underflow and NaN decide what the engine
    does.  It fixes only what the standards fix: [std::exp] is known at zero,
    at the infinities and at NaN (C Annex F); any other value of [exp] is the
    C library's and is not modelled.  The conversion [int(x)] of a NaN, or of
    a double outside the range of [int], is undefined behaviour in C++. *)

Module B64.

(** The outcome of a run: a result, undefined behaviour of C++, or a value
    of the C library that the model does not fix. *)
Inductive run (A : Type) : Type :=
| Done (a : A)
| Undefined
| Unknown.

Arguments Done {A} a.
Arguments Undefined {A}.
Arguments Unknown {A}.

Definition bind {A B : Type} (r : run A) (f : A -> run B) : run B :=
  match r with
  | Done a => f a
  | Undefined => Undefined
  | Unknown => Unknown
  end.

(** A loop whose body may stop the run. *)
Definition for_loop_run {S : Type} (lo hi : Z) (body : Z -> S -> run S)
    (s : S) : run S :=
  for_loop lo hi (fun i r => bind r (body i)) (Done s).

(** The conversion of an [int] or of a byte to [double]; exact below 2^53. *)
Definition of_int (z : Z) : float :=
  if z <? 0 then PrimFloat.opp (PrimFloat.of_uint63 (Uint63.of_Z (- z)))
  else PrimFloat.of_uint63 (Uint63.of_Z z).

(** [std::exp] where C Annex F fixes it: exp(+-0) = 1, exp(-inf) = +0,
    exp(+inf) = +inf, exp(NaN) = NaN. *)
Definition exp (x : float) : run float :=
  match PrimFloat.classify x with
  | PZero | NZero => Done PrimFloat.one
  | NInf => Done PrimFloat.zero
  | PInf => Done PrimFloat.infinity
  | NaN => Done PrimFloat.nan
  | _ => Unknown
  end.

(** The conversion [int(x)]: truncation toward zero, undefined when [x] is
    NaN or the truncated value is not an [int]. *)
Definition to_int (x : float) : run Z :=
  match Prim2SF x with
  | S754_zero _ => Done 0
  | S754_finite s m e =>
      let v := if 0 <=? e then Z.pos m * 2 ^ e else Z.pos m / 2 ^ (- e) in
      let z := if s then - v else v in
      if (- 2 ^ 31 <=? z) && (z <? 2 ^ 31) then Done z else Undefined
  | _ => Undefined
  end.

(** The configuration of the engine: the fields of [TNLMeans] that the
    checks and the arithmetic of the constructor set. *)
Record TNLMeans := {
  Ax : Z; Ay : Z; Az : Z;
  Sx : Z; Sy : Z;
  Bx : Z; By : Z;
  a : float; h : float; ssd : bool;
  h2in : float; hin : float;
  Sxd : Z; Syd : Z; Sxa : Z;
  Bxd : Z; Byd : Z; Bxa : Z;
  Axd : Z; Ayd : Z; Axa : Z;
  Azdm1 : Z;
  a2 : float;
  vi : VSVideoInfo
}.

(** [TNLMeans::TNLMeans], the checks and the derived constants: the
    comparisons [h <= 0.0] and [a <= 0.0] are those of binary64, which a NaN
    does not satisfy; [h2in = -1.0 / (h * h)], [hin = -1.0 / h] and
    [a2 = a * a] are rounded. *)
Definition TNLMeans_new (_Ax _Ay _Az _Sx _Sy _Bx _By : Z) (_a _h : float)
    (_ssd : bool) (vi : VSVideoInfo) : exn + TNLMeans :=
  if is_cmCompat (colorFamily (format vi))
  then inl (bad_param "only planar formats are supported")
  else if negb (bitsPerSample (format vi) =? 8)
  then inl (bad_param "only 8-bit formats are supported")
  else if PrimFloat.leb _h PrimFloat.zero
  then inl (bad_param "h must be greater than 0")
  else if PrimFloat.leb _a PrimFloat.zero
  then inl (bad_param "a must be greater than 0")
  else if _Ax <? 0 then inl (bad_param "ax must be greater than or equal to 0")
  else if _Ay <? 0 then inl (bad_param "ay must be greater than or equal to 0")
  else if _Az <? 0 then inl (bad_param "az must be greater than or equal to 0")
  else if _Bx <? 0 then inl (bad_param "bx must be greater than or equal to 0")
  else if _By <? 0 then inl (bad_param "by must be greater than or equal to 0")
  else if _Sx <? 0 then inl (bad_param "sx must be greater than or equal to 0")
  else if _Sy <? 0 then inl (bad_param "sy must be greater than or equal to 0")
  else if _Sx <? _Bx then inl (bad_param "sx must be greater than or equal to bx")
  else if _Sy <? _By then inl (bad_param "sy must be greater than or equal to by")
  else
    inr {| Ax := _Ax; Ay := _Ay; Az := _Az;
           Sx := _Sx; Sy := _Sy;
           Bx := _Bx; By := _By;
           a := _a; h := _h; ssd := _ssd;
           h2in := PrimFloat.div (PrimFloat.opp PrimFloat.one)
                                 (PrimFloat.mul _h _h);
           hin := PrimFloat.div (PrimFloat.opp PrimFloat.one) _h;
           Sxd := _Sx * 2 + 1; Syd := _Sy * 2 + 1;
           Sxa := (_Sx * 2 + 1) * (_Sy * 2 + 1);
           Bxd := _Bx * 2 + 1; Byd := _By * 2 + 1;
           Bxa := (_Bx * 2 + 1) * (_By * 2 + 1);
           Axd := _Ax * 2 + 1; Ayd := _Ay * 2 + 1;
           Axa := (_Ax * 2 + 1) * (_Ay * 2 + 1);
           Azdm1 := _Az * 2;
           a2 := PrimFloat.mul _a _a;
           vi := vi |}.

(** The kernel table of a worker slot,
    [gw[w++] = std::exp(-((m*m + n*n) / (2*a2)))]. *)
Definition gw_fill (t : TNLMeans) : run (Z * (Z -> float)) :=
  for_loop_run (- Sy t) (Sy t) (fun j st =>
    let m := if j <? 0 then Z.min (j + By t) 0 else Z.max (j - By t) 0 in
    for_loop_run (- Sx t) (Sx t) (fun k st =>
      let n := if k <? 0 then Z.min (k + Bx t) 0 else Z.max (k - Bx t) 0 in
      bind (exp (PrimFloat.opp
                   (PrimFloat.div (of_int (m * m + n * n))
                      (PrimFloat.mul (of_int 2) (a2 t)))))
           (fun e => Done (fst st + 1, upd (snd st) (fst st) e))) st)
  (0, fun _ => PrimFloat.zero).

(** Modelled from the spec: [GetSAD], [GetSSD], [GetSADWeight] and
    [GetSSDWeight] of TNLMeans.h, as in the real-number model. *)
Definition GetSAD (s1 s2 : Z) (g : float) : float :=
  PrimFloat.mul g (of_int (Z.abs (s1 - s2))).

Definition GetSSD (s1 s2 : Z) (g : float) : float :=
  PrimFloat.mul g (of_int ((s1 - s2) * (s1 - s2))).

Definition GetSADWeight (t : TNLMeans) (diff gweights : float) : run float :=
  exp (PrimFloat.div (PrimFloat.mul (hin t) diff) gweights).

Definition GetSSDWeight (t : TNLMeans) (diff gweights : float) : run float :=
  exp (PrimFloat.div (PrimFloat.mul (h2in t) diff) gweights).

(** [std::numeric_limits<double>::epsilon()]. *)
Definition epsilon : float := 0x1p-52%float.

Record SDATA := {
  sums : Z -> float;
  weights : Z -> float;
  wmaxs : Z -> float
}.

Definition fill_zero_d (f : Z -> float) (n : Z) : Z -> float :=
  fun k => if (0 <=? k) && (k <? n) then PrimFloat.zero else f k.

Definition add_at (f : Z -> float) (i : Z) (v : float) : Z -> float :=
  upd f i (PrimFloat.add (f i) v).

(** [if (w > *p) *p = w]: false when either side is NaN. *)
Definition max_at (f : Z -> float) (i : Z) (w : float) : Z -> float :=
  if PrimFloat.ltb (f i) w then upd f i w else f.

Section Variant.

Variable t : TNLMeans.
Variable gw : Z -> float.

Definition patch_dist (pf1p pf2p : Plane) (heightm1 widthm1 y x u v : Z)
  : float * float :=
  let yT := - Z.min (Z.min (Sy t) u) y in
  let yB := Z.min (Z.min (Sy t) (heightm1 - u)) (heightm1 - y) in
  let xL := - Z.min (Z.min (Sx t) v) x in
  let xR := Z.min (Z.min (Sx t) (widthm1 - v)) (widthm1 - x) in
  for_loop yT yB (fun j st =>
    for_loop xL xR (fun k st =>
      let g := gw ((j + Sy t) * Sxd t + Sx t + k) in
      let s1 := pf1p (u + j) (v + k) in
      let s2 := pf2p (y + j) (x + k) in
      (PrimFloat.add (fst st)
         (if ssd t then GetSSD s1 s2 g else GetSAD s1 s2 g),
       PrimFloat.add (snd st) g)) st)
  (PrimFloat.zero, PrimFloat.zero).

Definition patch_weight (pf1p pf2p : Plane) (heightm1 widthm1 y x u v : Z)
  : run float :=
  let dg := patch_dist pf1p pf2p heightm1 widthm1 y x u v in
  if ssd t then GetSSDWeight t (fst dg) (snd dg)
  else GetSADWeight t (fst dg) (snd dg).

(** The six accumulator statements of the innermost loop of [GetFrameWOZ],
    in the order of the source. *)
Definition WOZ_update (d : SDATA) (coff doff : Z) (srcv pfv : Z) (w : float)
  : SDATA :=
  let cweight := add_at (weights d) coff w in
  let dweight := add_at cweight doff w in
  let csum := add_at (sums d) coff (PrimFloat.mul (of_int srcv) w) in
  let dsum := add_at csum doff (PrimFloat.mul (of_int pfv) w) in
  let cwmax := max_at (wmaxs d) coff w in
  let dwmax := max_at cwmax doff w in
  {| sums := dsum; weights := dweight; wmaxs := dwmax |}.

Definition WOZ_scan (pfp : Plane) (width height y x : Z) (d : SDATA)
  : run SDATA :=
  let heightm1 := height - 1 in
  let widthm1 := width - 1 in
  let stopy := Z.min (y + Ay t) heightm1 in
  let startxt := Z.max (x - Ax t) 0 in
  let stopx := Z.min (x + Ax t) widthm1 in
  let doff := y * width + x in
  for_loop_run y stopy (fun u d =>
    let startx := if u =? y then x + 1 else startxt in
    for_loop_run startx stopx (fun v d =>
      bind (patch_weight pfp pfp heightm1 widthm1 y x u v) (fun w =>
        Done (WOZ_update d (u * width + v) doff (pfp y x) (pfp u v) w))) d) d.

(** The end of a pixel's scan:
    [wmax] is 1.0 when the running maximum is at most [epsilon] and the
    running maximum otherwise; the sum gains [srcp[x] * wmax], the weight
    gains [wmax], and the pixel is [int(sum / weight + 0.5)] clamped to
    0..255. *)
Definition finish (d : SDATA) (off : Z) (s : Z) : run (SDATA * Z) :=
  let wmax := if PrimFloat.leb (wmaxs d off) epsilon then PrimFloat.one
              else wmaxs d off in
  let sums' := add_at (sums d) off (PrimFloat.mul (of_int s) wmax) in
  let weights' := add_at (weights d) off wmax in
  bind (to_int (PrimFloat.add (PrimFloat.div (sums' off) (weights' off))
                              0x1p-1%float))
       (fun i =>
          Done ({| sums := sums'; weights := weights'; wmaxs := wmaxs d |},
                Z.max (Z.min i 255) 0)).

Definition WOZ_pixel (pfp : Plane) (width height y x : Z)
    (st : SDATA * Plane) : run (SDATA * Plane) :=
  bind (WOZ_scan pfp width height y x (fst st)) (fun d =>
  bind (finish d (y * width + x) (pfp y x)) (fun r =>
    Done (fst r, upd2 (snd st) y x (snd r)))).

Definition WOZ_plane (pfp : Plane) (width height : Z) (d : SDATA)
    (dstp : Plane) : run (SDATA * Plane) :=
  for_loop_run 0 (height - 1) (fun y st =>
    for_loop_run 0 (width - 1) (fun x st =>
      WOZ_pixel pfp width height y x st) st)
  ({| sums := fill_zero_d (sums d) (height * width);
      weights := fill_zero_d (weights d) (height * width);
      wmaxs := fill_zero_d (wmaxs d) (height * width) |}, dstp).

(** [GetFrameWOZ] on the source frame [srcPF], once the output frame is
    allocated. *)
Definition GetFrameWOZ (srcPF : Frame) (d : SDATA) (dst : Frame)
  : run (SDATA * Frame) :=
  for_loop_run 0 (numPlanes (format (vi t)) - 1) (fun plane st =>
    bind (WOZ_plane (srcPF plane) (planeWidth (vi t) plane)
            (planeHeight (vi t) plane) (fst st) (snd st plane))
         (fun p => Done (fst p, upd (snd st) plane (snd p))))
  (d, dst).

End Variant.

End B64.

(** ** Sample data *)

(** A single-plane 8-bit clip of the given geometry and length. *)
Definition vi_gray (w h nf : Z) : VSVideoInfo :=
  {| format := {| colorFamily := cmGray; bitsPerSample := 8; numPlanes := 1;
                  subSamplingW := 0; subSamplingH := 0 |};
     width := w; height := h; numFrames := nf |}.

(** The engine that [TNLMeans_new] builds for one worker slot on a gray clip
    of five 4x4 frames, with a temporal radius of one frame. *)
Definition engine_t1 : TNLMeans :=
  TNLMeans_init 1 1 1 0 0 0 0 1 10 false (vi_gray 4 4 5) 1.


Definition gw_row : Z -> R := snd (gw_fill 0 0 0 0 (1 * 1)).

Definition clip_step : Clip := fun _ _ _ x => if x =? 0 then 0 else 255.

(** The engine of the border example: every radius is 3, on 8x8 frames. *)
Definition engine_r3 : TNLMeans :=
  TNLMeans_init 3 3 0 3 3 0 0 1 1 false (vi_gray 8 8 1) 1.

(** An engine of the temporal block mode, as the constructor builds it: a
    temporal radius of one frame and 3x3 blocks on five 4x4 gray frames. *)
Definition engine_b1 : TNLMeans :=
  TNLMeans_init 1 1 1 1 1 1 1 1 10 false (vi_gray 4 4 5) 1.

(** A frame that holds the byte 7 everywhere, an accumulator of binary64
    zeros and an output frame to be overwritten. *)
Definition frame_seven : Frame := fun _ _ _ => 7.

Definition sdata64_zero : B64.SDATA :=
  {| B64.sums := fun _ => PrimFloat.zero;
     B64.weights := fun _ => PrimFloat.zero;
     B64.wmaxs := fun _ => PrimFloat.zero |}.

Definition frame_blank : Frame := fun _ _ _ => 0.



(** * Properties *)

(** ** Loops and arrays *)

Lemma in_range (lo hi i : Z) : In i (range lo hi) <-> lo <= i <= hi.
Proof.
  unfold range. rewrite in_map_iff. split.
  - intros [k [<- Hk]]. apply in_seq in Hk. lia.
  - intros Hi. exists (Z.to_nat (i - lo)). split; [lia|].
    apply in_seq. lia.
Qed.

Lemma range_nil (lo hi : Z) : hi < lo -> range lo hi = [].
Proof.
  intros Hlt. unfold range.
  replace (Z.to_nat (hi - lo + 1)) with 0%nat by lia. reflexivity.
Qed.

Lemma range_cons (lo hi : Z) : lo <= hi -> range lo hi = lo :: range (lo + 1) hi.
Proof.
  intros Hle. unfold range.
  replace (Z.to_nat (hi - lo + 1)) with (S (Z.to_nat (hi - (lo + 1) + 1))) by lia.
  cbn [seq map]. f_equal; [lia|].
  rewrite <- seq_shift, map_map. apply map_ext. intros k. lia.
Qed.

Lemma range_snoc (lo hi : Z) : lo <= hi -> range lo hi = range lo (hi - 1) ++ [hi].
Proof.
  intros Hle. unfold range.
  replace (Z.to_nat (hi - lo + 1)) with (Z.to_nat (hi - 1 - lo + 1) + 1)%nat by lia.
  rewrite seq_app, map_app. cbn [seq map Nat.add]. do 2 f_equal. lia.
Qed.

Lemma range_app (lo hi m : Z) :
  lo <= m <= hi + 1 -> range lo hi = range lo (m - 1) ++ range m hi.
Proof.
  intros Hm. remember (Z.to_nat (m - lo)) as n eqn:Hn.
  revert lo Hm Hn. induction n as [|n IH]; intros lo Hm Hn.
  - assert (lo = m) by lia. subst lo. rewrite (range_nil m (m - 1)) by lia.
    reflexivity.
  - rewrite (range_cons lo hi), (range_cons lo (m - 1)) by lia.
    cbn [app]. f_equal. apply IH; lia.
Qed.

Lemma range_split (lo hi m : Z) :
  lo <= m <= hi -> range lo hi = range lo (m - 1) ++ m :: range (m + 1) hi.
Proof.
  intros Hm. rewrite (range_app lo hi m) by lia.
  rewrite (range_cons m hi) by lia. reflexivity.
Qed.

Lemma NoDup_map_inj {A B : Type} (f : A -> B) (l : list A) :
  (forall x y, In x l -> In y l -> f x = f y -> x = y) ->
  NoDup l -> NoDup (map f l).
Proof.
  intros Hinj Hnd. induction Hnd as [|x l Hx Hnd IH]; cbn [map]; constructor.
  - rewrite in_map_iff. intros [y [Hxy Hy]].
    apply Hx. rewrite (Hinj x y); [exact Hy|left; reflexivity|right; exact Hy|].
    symmetry. exact Hxy.
  - apply IH. intros a b Ha Hb. apply Hinj; right; assumption.
Qed.

Lemma NoDup_range (lo hi : Z) : NoDup (range lo hi).
Proof.
  unfold range. apply NoDup_map_inj; [|apply seq_NoDup].
  intros i j _ _ Hij. lia.
Qed.


(** The invariant rule of a counted loop. *)
Lemma for_each_inv {S : Type} (P : S -> Prop) (l : list Z)
    (body : Z -> S -> S) (s : S) :
  P s -> (forall i s', In i l -> P s' -> P (body i s')) -> P (for_each l body s).
Proof.
  unfold for_each. revert s. induction l as [|i l IH]; intros s Hs Hstep.
  - exact Hs.
  - cbn [fold_left]. apply IH.
    + apply Hstep; [left; reflexivity|exact Hs].
    + intros k s' Hk. apply Hstep. right. exact Hk.
Qed.

Lemma for_loop_inv {S : Type} (P : S -> Prop) (lo hi : Z)
    (body : Z -> S -> S) (s : S) :
  P s -> (forall i s', lo <= i <= hi -> P s' -> P (body i s')) ->
  P (for_loop lo hi body s).
Proof.
  intros Hs Hstep. unfold for_loop. apply for_each_inv; [exact Hs|].
  intros i s' Hi. apply Hstep. apply in_range. exact Hi.
Qed.

Lemma for_loop_nil {S : Type} (lo hi : Z) (body : Z -> S -> S) (s : S) :
  hi < lo -> for_loop lo hi body s = s.
Proof. intros Hlt. unfold for_loop. rewrite range_nil by exact Hlt. reflexivity. Qed.

Lemma for_loop_cons {S : Type} (lo hi : Z) (body : Z -> S -> S) (s : S) :
  lo <= hi -> for_loop lo hi body s = for_loop (lo + 1) hi body (body lo s).
Proof. intros Hle. unfold for_loop. rewrite range_cons by exact Hle. reflexivity. Qed.

Lemma for_loop_snoc {S : Type} (lo hi : Z) (body : Z -> S -> S) (s : S) :
  lo <= hi -> for_loop lo hi body s = body hi (for_loop lo (hi - 1) body s).
Proof.
  intros Hle. unfold for_loop, for_each. rewrite range_snoc by exact Hle.
  rewrite fold_left_app. reflexivity.
Qed.

Lemma upd_same {A : Type} (f : Z -> A) (i : Z) (v : A) : upd f i v i = v.
Proof. unfold upd. rewrite Z.eqb_refl. reflexivity. Qed.

Lemma upd_other {A : Type} (f : Z -> A) (i k : Z) (v : A) :
  k <> i -> upd f i v k = f k.
Proof. intros Hne. unfold upd. apply Z.eqb_neq in Hne. rewrite Hne. reflexivity. Qed.

(** ** Construction *)

Ltac run_checks :=
  repeat match goal with
  | |- context [Rle_dec ?x 0] =>
      destruct (Rle_dec x 0); [try (exfalso; lra); try reflexivity|]
  | |- context [?x <? ?y] =>
      destruct (Z.ltb_spec x y); [try (exfalso; lia); try reflexivity|]
  end.

Lemma TNLMeans_new_first_failure (pAx pAy pAz pSx pSy pBx pBy : Z) (pa ph : R)
    (pssd : bool) (pvi : VSVideoInfo) (threadCount : Z) pre c post :
  format_ok pvi ->
  constraints pAx pAy pAz pSx pSy pBx pBy pa ph = pre ++ c :: post ->
  Forall holds pre -> ~ holds c ->
  TNLMeans_new pAx pAy pAz pSx pSy pBx pBy pa ph pssd pvi threadCount
  = inl (bad_param (message c)).
Proof.
  intros [Hfam Hbits] Heq Hpre Hc. unfold TNLMeans_new.
  rewrite Hfam, Hbits. cbn [Z.eqb Pos.eqb negb].
  unfold constraints in Heq.
  repeat (destruct pre as [|c0 pre]; cbn [app] in Heq;
    [ injection Heq as <- _; unfold holds, message in *; cbn [fst snd] in *;
      repeat match goal with
      | H : Forall _ (_ :: _) |- _ => inversion H; subst; clear H
      end;
      cbn [fst snd] in *; run_checks; try (exfalso; lra); try (exfalso; lia)
    | injection Heq as <- Heq ]).
  destruct pre; discriminate Heq.
Qed.

Lemma TNLMeans_new_success (pAx pAy pAz pSx pSy pBx pBy : Z) (pa ph : R)
    (pssd : bool) (pvi : VSVideoInfo) (threadCount : Z) :
  format_ok pvi ->
  Forall holds (constraints pAx pAy pAz pSx pSy pBx pBy pa ph) ->
  exists e,
    TNLMeans_new pAx pAy pAz pSx pSy pBx pBy pa ph pssd pvi threadCount = inr e /\
    e = TNLMeans_init pAx pAy pAz pSx pSy pBx pBy pa ph pssd pvi threadCount /\
    Ax e = pAx /\ Ay e = pAy /\ Az e = pAz /\ Sx e = pSx /\ Sy e = pSy /\
    Bx e = pBx /\ By e = pBy /\ a e = pa /\ h e = ph /\ ssd e = pssd /\
    vi e = pvi /\
    hin e = (-1 / ph)%R /\ h2in e = (-1 / (ph * ph))%R /\
    Z.of_nat (List.length (threads e)) = Z.max 0 threadCount.
Proof.
  intros [Hfam Hbits] Hall. unfold TNLMeans_new.
  rewrite Hfam, Hbits. cbn [Z.eqb Pos.eqb negb].
  unfold constraints in Hall.
  repeat match goal with
  | H : Forall _ (_ :: _) |- _ => inversion H; subst; clear H
  end.
  unfold holds in *. cbn [fst snd] in *. run_checks.
  eexists. split; [reflexivity|]. cbn.
  repeat split; try reflexivity. rewrite repeat_length. lia.
Qed.

Lemma TNLMeans_new_inr (pAx pAy pAz pSx pSy pBx pBy : Z) (pa ph : R)
    (pssd : bool) (pvi : VSVideoInfo) (threadCount : Z) e :
  TNLMeans_new pAx pAy pAz pSx pSy pBx pBy pa ph pssd pvi threadCount = inr e ->
  format_ok pvi /\
  Forall holds (constraints pAx pAy pAz pSx pSy pBx pBy pa ph).
Proof.
  unfold TNLMeans_new, format_ok. intros Hnew.
  destruct (is_cmCompat (colorFamily (format pvi))); [discriminate|].
  destruct (Z.eqb_spec (bitsPerSample (format pvi)) 8) as [Hb|Hb];
    cbn [negb] in Hnew; [|discriminate].
  split; [split; [reflexivity|exact Hb]|].
  repeat match type of Hnew with
  | context [Rle_dec ?x 0] => destruct (Rle_dec x 0); [discriminate|]
  | context [?x <? ?y] => destruct (Z.ltb_spec x y); [discriminate|]
  end.
  unfold constraints, holds.
  repeat (constructor; [cbn [fst snd]; first [lra|lia]|]). constructor.
Qed.

Lemma first_violation (cs : list (string * Prop * string)) :
  Forall (fun c => holds c \/ ~ holds c) cs ->
  Forall holds cs \/
  exists pre c post, cs = pre ++ c :: post /\ Forall holds pre /\ ~ holds c.
Proof.
  induction 1 as [|c cs [Hc|Hc] _ [IH|[pre [c' [post [Heq [Hpre Hc']]]]]]].
  - left. constructor.
  - left. constructor; assumption.
  - right. exists (c :: pre), c', post. rewrite Heq.
    split; [reflexivity|]. split; [constructor; assumption|exact Hc'].
  - right. exists [], c, cs. split; [reflexivity|]. split; [constructor|exact Hc].
  - right. exists [], c, cs. split; [reflexivity|]. split; [constructor|exact Hc].
Qed.

Lemma constraints_decidable (pAx pAy pAz pSx pSy pBx pBy : Z) (pa ph : R) :
  Forall (fun c => holds c \/ ~ holds c)
         (constraints pAx pAy pAz pSx pSy pBx pBy pa ph).
Proof.
  unfold constraints, holds.
  repeat (apply Forall_cons; [cbn [fst snd]|]); try apply Forall_nil;
    first [ match goal with
            | |- (?x < ?y)%R \/ _ => destruct (Rlt_dec x y); tauto
            end
          | lia ].
Qed.

(** The checks of the constructor over parameters that are numbers.  On a
    planar 8-bit clip, when every constraint of the table holds an engine is
    built from the parameters as given; a constraint that fails while those
    checked before it hold makes construction throw [bad_param] with that
    constraint's own message, which starts with the name of the field; and
    an engine exists only if every constraint holds. *)
Lemma TNLMeans_new_checks (pAx pAy pAz pSx pSy pBx pBy : Z) (pa ph : R)
    (pssd : bool) (pvi : VSVideoInfo) (threadCount : Z) :
  format_ok pvi ->
  let r := TNLMeans_new pAx pAy pAz pSx pSy pBx pBy pa ph pssd pvi threadCount in
  let cs := constraints pAx pAy pAz pSx pSy pBx pBy pa ph in
  (Forall holds cs ->
   exists e, r = inr e /\
     Ax e = pAx /\ Ay e = pAy /\ Az e = pAz /\ Sx e = pSx /\ Sy e = pSy /\
     Bx e = pBx /\ By e = pBy /\ a e = pa /\ h e = ph /\ ssd e = pssd) /\
  (forall pre c post, cs = pre ++ c :: post -> Forall holds pre -> ~ holds c ->
     r = inl (bad_param (message c))) /\
  (forall e, r = inr e -> Forall holds cs) /\
  (forall x, r = inl x -> exists c, In c cs /\ ~ holds c /\ x = bad_param (message c)) /\
  Forall (fun c => String.prefix (field_name c) (message c) = true) cs.
Proof.
  intros Hfmt r cs. repeat split.
  - intros Hall.
    destruct (TNLMeans_new_success pAx pAy pAz pSx pSy pBx pBy pa ph pssd pvi
                threadCount Hfmt Hall) as [e He].
    exists e. tauto.
  - intros pre c post Heq Hpre Hc.
    apply (TNLMeans_new_first_failure _ _ _ _ _ _ _ _ _ _ _ _ pre c post);
      assumption.
  - intros e He. apply TNLMeans_new_inr in He. tauto.
  - intros x Hx.
    destruct (first_violation cs) as [Hall|[pre [c [post [Heq [Hpre Hc]]]]]].
    + apply constraints_decidable.
    + destruct (TNLMeans_new_success pAx pAy pAz pSx pSy pBx pBy pa ph pssd
                  pvi threadCount Hfmt Hall) as [e [He _]].
      subst r. rewrite He in Hx. discriminate Hx.
    + exists c. split; [|split; [exact Hc|]].
      * subst cs. rewrite Heq. apply in_elt.
      * subst r.
        rewrite (TNLMeans_new_first_failure _ _ _ _ _ _ _ _ _ _ _ _ pre c post
                   Hfmt Heq Hpre Hc) in Hx.
        injection Hx as <-. reflexivity.
  - subst cs. unfold constraints, field_name, message.
    repeat constructor.
Qed.

(** ** The constructor and the weights in binary64 *)

(** C7.  The checks [h <= 0.0] and [a <= 0.0] of the constructor are false
    of a NaN: with [h = NaN] and every other parameter valid, on a planar
    8-bit clip, no [bad_param] is thrown and the engine is built, with a
    bandwidth that is not greater than 0 and both scales [hin] and [h2in]
    NaN; and likewise with [a = NaN], whose square [a2] is NaN. *)
Theorem TNLMeans_new_accepts_nan :
  (exists e,
     B64.TNLMeans_new 1 1 0 0 0 0 0 1%float PrimFloat.nan false (vi_gray 4 4 1)
     = inr e /\
     PrimFloat.ltb PrimFloat.zero (B64.h e) = false /\
     B64.hin e = PrimFloat.nan /\ B64.h2in e = PrimFloat.nan) /\
  (exists e,
     B64.TNLMeans_new 1 1 0 0 0 0 0 PrimFloat.nan 1%float false (vi_gray 4 4 1)
     = inr e /\
     PrimFloat.ltb PrimFloat.zero (B64.a e) = false /\
     B64.a2 e = PrimFloat.nan) /\
  B64.TNLMeans_new 1 1 0 0 0 0 0 1%float 0%float false (vi_gray 4 4 1)
  = inl (bad_param "h must be greater than 0") /\
  B64.TNLMeans_new 1 1 0 0 0 0 0 0%float 1%float false (vi_gray 4 4 1)
  = inl (bad_param "a must be greater than 0").
Proof.
  split; [|split; [|split]].
  - eexists. split; [vm_compute; reflexivity|].
    repeat split; vm_compute; reflexivity.
  - eexists. split; [vm_compute; reflexivity|].
    repeat split; vm_compute; reflexivity.
  - vm_compute. reflexivity.
  - vm_compute. reflexivity.
Qed.

(** In binary64 a constant frame does not always come out unchanged.  With
    the SSD metric and [h = 2^-700], which passes the check [h <= 0.0], the
    product [h * h] underflows to 0, so [h2in] is minus infinity, the scaled
    distance [h2in * 0] of two equal patches is NaN and so is their weight;
    the quotient of the accumulators is NaN and its conversion to [int] is
    undefined.  With [a = 2^-700] the square [a2] underflows to 0, the
    centre of the kernel table is [exp(-(0/0))], NaN, and the run ends the
    same way. *)
Lemma constant_frame_lost_in_binary64 :
  (exists e g,
     B64.TNLMeans_new 1 0 0 0 0 0 0 1%float 0x1p-700%float true (vi_gray 2 1 1)
     = inr e /\
     B64.h2in e = PrimFloat.neg_infinity /\
     B64.gw_fill e = B64.Done g /\
     B64.patch_weight e (snd g) (frame_seven 0) (frame_seven 0) 0 1 0 0 0 1
     = B64.Done PrimFloat.nan /\
     B64.GetFrameWOZ e (snd g) frame_seven sdata64_zero frame_blank
     = B64.Undefined) /\
  (exists e g,
     B64.TNLMeans_new 1 0 0 0 0 0 0 0x1p-700%float 1%float false (vi_gray 2 1 1)
     = inr e /\
     B64.a2 e = PrimFloat.zero /\
     B64.gw_fill e = B64.Done g /\
     snd g 0 = PrimFloat.nan /\
     B64.GetFrameWOZ e (snd g) frame_seven sdata64_zero frame_blank
     = B64.Undefined).
Proof.
  split.
  - eexists. eexists. split; [vm_compute; reflexivity|].
    split; [vm_compute; reflexivity|].
    split; [vm_compute; reflexivity|].
    split; vm_compute; reflexivity.
  - eexists. eexists. split; [vm_compute; reflexivity|].
    split; [vm_compute; reflexivity|].
    split; [vm_compute; reflexivity|].
    split; vm_compute; reflexivity.
Qed.


(** ** The frame cache *)

Lemma resetCacheStart_frames (fc : nlCache) (first last : Z) :
  frames (resetCacheStart fc first last) = frames fc /\
  size (resetCacheStart fc first last) = size fc.
Proof.
  unfold resetCacheStart.
  destruct (find _ _) as [[j i]|]; split; reflexivity.
Qed.

Lemma resetCacheStart_start (fc : nlCache) (first last : Z) :
  0 <= start_pos fc < size fc -> last - first + 1 = size fc ->
  0 <= start_pos (resetCacheStart fc first last) < size fc.
Proof.
  intros Hsp Hwin. unfold resetCacheStart.
  destruct (find _ _) as [[j i]|] eqn:Hfind; [|exact Hsp].
  apply find_some in Hfind. destruct Hfind as [Hin _].
  apply in_prod_iff in Hin. rewrite !in_range in Hin.
  cbn [start_pos].
  destruct (Z.ltb_spec (i - j + first) 0); [lia|].
  destruct (Z.geb_spec (i - j + first) (size fc)); lia.
Qed.

Lemma getCachePos_mod (fc : nlCache) (i : Z) :
  0 <= start_pos fc < size fc -> 0 <= i ->
  getCachePos fc i = (start_pos fc + i) mod size fc /\
  0 <= getCachePos fc i < size fc.
Proof.
  intros Hsp Hi. unfold getCachePos.
  rewrite Z.rem_mod_nonneg by lia.
  split; [reflexivity|]. apply Z.mod_pos_bound. lia.
Qed.

(** C9.  The rotation offset of the ring buffer stays inside the buffer:
    a cache built with a positive capacity starts at offset 0, every call of
    [resetCacheStart] on a window as long as the buffer keeps
    [0 <= start_pos < size] whatever the slots hold and changes neither the
    capacity nor the slots, and [getCachePos] sends the logical index [i] to
    the physical slot [(start_pos + i) mod size], a valid slot. *)
Theorem cache_ring_invariant :
  (forall sz ds0, 0 < sz ->
     start_pos (nlCache_new sz ds0) = 0 /\ size (nlCache_new sz ds0) = sz /\
     0 <= start_pos (nlCache_new sz ds0) < size (nlCache_new sz ds0)) /\
  (forall fc first last,
     0 <= start_pos fc < size fc -> first <= last ->
     last - first + 1 = size fc ->
     let fc' := resetCacheStart fc first last in
     0 <= start_pos fc' < size fc' /\ size fc' = size fc /\
     frames fc' = frames fc) /\
  (forall fc i,
     0 <= start_pos fc < size fc -> 0 <= i ->
     getCachePos fc i = (start_pos fc + i) mod size fc /\
     0 <= getCachePos fc i < size fc).
Proof.
  split; [|split].
  - intros sz ds0 Hsz. unfold nlCache_new.
    destruct (Z.ltb_spec 0 sz); [|lia]. cbn. lia.
  - intros fc first last Hsp _ Hwin fc'. subst fc'.
    destruct (resetCacheStart_frames fc first last) as [Hfr Hsz].
    rewrite Hsz. split; [|split; [reflexivity|exact Hfr]].
    apply resetCacheStart_start; assumption.
  - intros fc i Hsp Hi. apply getCachePos_mod; assumption.
Qed.

Lemma cache_ring_invariant_witness :
  0 <= start_pos (resetCacheStart (nlCache_new 3 (fun _ => SDATA_zero)) 4 6) < 3.
Proof.
  destruct cache_ring_invariant as [Hnew [Hreset _]].
  destruct (Hnew 3 (fun _ => SDATA_zero)) as [_ [Hsz Hsp]]; [lia|].
  destruct (Hreset (nlCache_new 3 (fun _ => SDATA_zero)) 4 6) as [Hsp' [Hsz' _]].
  - exact Hsp.
  - lia.
  - rewrite Hsz. reflexivity.
  - rewrite Hsz', Hsz in Hsp'. exact Hsp'.
Defined.

(** ** Frame indices handed to the frame source *)

Lemma mapn_range (t : TNLMeans) (n : Z) :
  1 <= numFrames (vi t) -> 0 <= mapn t n <= numFrames (vi t) - 1.
Proof.
  intros Hnf. unfold mapn.
  destruct (Z.ltb_spec n 0); [lia|].
  destruct (Z.geb_spec n (numFrames (vi t))); lia.
Qed.

Lemma mapn_id (t : TNLMeans) (n : Z) :
  0 <= n < numFrames (vi t) -> mapn t n = n.
Proof.
  intros Hn. unfold mapn.
  destruct (Z.ltb_spec n 0); [lia|].
  destruct (Z.geb_spec n (numFrames (vi t))); lia.
Qed.

Lemma cache_fill_log (t : TNLMeans) (clear : bool) (fc : nlCache) (n : Z) :
  Forall (fun k => exists i, n - Az t <= i <= n + Az t /\ k = mapn t i)
         (snd (cache_fill t clear fc n)).
Proof.
  unfold cache_fill. apply for_loop_inv.
  - constructor.
  - intros i st Hi Hst.
    destruct (fnum (frames (fst st) (getCachePos (fst st) (i - n + Az t))) =? i);
      [exact Hst|].
    cbn [snd]. apply Forall_app. split; [exact Hst|].
    constructor; [|constructor]. exists i. split; [exact Hi|reflexivity].
Qed.

Lemma GetFrameWOZ_log (t : TNLMeans) gw clip n d dstPF k :
  In k (snd (GetFrameWOZ t gw clip n d dstPF)) -> k = mapn t n.
Proof.
  unfold GetFrameWOZ. destruct dstPF; cbn [snd In]; intuition congruence.
Qed.

Lemma GetFrameWOZB_log (t : TNLMeans) gw clip n sb wb dstPF k :
  In k (snd (GetFrameWOZB t gw clip n sb wb dstPF)) -> k = mapn t n.
Proof.
  unfold GetFrameWOZB. destruct dstPF; cbn [snd In]; intuition congruence.
Qed.

Lemma GetFrameWZ_log (t : TNLMeans) gw clip n fc dstPF k :
  0 <= Az t ->
  In k (snd (GetFrameWZ t gw clip n fc dstPF)) ->
  exists i, n - Az t <= i <= n + Az t /\ k = mapn t i.
Proof.
  intros Hz Hk.
  assert (Hlog : In k (snd (cache_fill t true
            (resetCacheStart fc (n - Az t) (n + Az t)) n) ++ [mapn t n])).
  { unfold GetFrameWZ in Hk. destruct dstPF; exact Hk. }
  apply in_app_or in Hlog. destruct Hlog as [Hlog|[<-|[]]].
  - pose proof (cache_fill_log t true
                  (resetCacheStart fc (n - Az t) (n + Az t)) n) as Hall.
    rewrite Forall_forall in Hall. apply Hall. exact Hlog.
  - exists n. split; [lia|reflexivity].
Qed.

Lemma GetFrameWZB_log (t : TNLMeans) gw clip n fc sb wb dstPF k :
  0 <= Az t ->
  In k (snd (GetFrameWZB t gw clip n fc sb wb dstPF)) ->
  exists i, n - Az t <= i <= n + Az t /\ k = mapn t i.
Proof.
  intros Hz Hk.
  assert (Hlog : In k (snd (cache_fill t false
            (resetCacheStart fc (n - Az t) (n + Az t)) n) ++ [mapn t n])).
  { unfold GetFrameWZB in Hk. destruct dstPF; exact Hk. }
  apply in_app_or in Hlog. destruct Hlog as [Hlog|[<-|[]]].
  - pose proof (cache_fill_log t false
                  (resetCacheStart fc (n - Az t) (n + Az t)) n) as Hall.
    rewrite Forall_forall in Hall. apply Hall. exact Hlog.
  - exists n. split; [lia|reflexivity].
Qed.



(** ** The weight function *)

Lemma TNLMeans_new_sample :
  TNLMeans_new 1 1 0 0 0 0 0 1 10 false (vi_gray 4 4 1) 1
  = inr (TNLMeans_init 1 1 0 0 0 0 0 1 10 false (vi_gray 4 4 1) 1).
Proof.
  unfold TNLMeans_new. cbn [vi_gray format colorFamily bitsPerSample is_cmCompat
                            Z.eqb Pos.eqb negb Z.ltb Z.compare Pos.compare].
  destruct (Rle_dec 10 0) as [H10|_]; [exfalso; lra|].
  destruct (Rle_dec 1 0) as [H1|_]; [exfalso; lra|].
  reflexivity.
Qed.

Lemma exp_le_mono (x y : R) : (x <= y)%R -> (exp x <= exp y)%R.
Proof.
  intros [Hlt|Heq].
  - left. apply exp_increasing. exact Hlt.
  - right. rewrite Heq. reflexivity.
Qed.





Lemma tiny_positive : (0 < / 2 ^ 500)%R.
Proof. apply Rinv_0_lt_compat. apply pow_lt. lra. Qed.





Lemma tiny_le (x : R) : (1 <= x)%R -> (/ 2 ^ 500 <= x)%R.
Proof.
  intros Hx. apply Rle_trans with 1%R; [|exact Hx].
  rewrite <- Rinv_1. apply Rinv_le_contravar; [lra|].
  apply pow_R1_Rle. lra.
Qed.

(** ** Loops over planes and pixels *)

Lemma for_loop_split {S : Type} (lo hi m : Z) (body : Z -> S -> S) (s : S) :
  lo <= m <= hi ->
  for_loop lo hi body s
  = for_loop (m + 1) hi body (body m (for_loop lo (m - 1) body s)).
Proof.
  intros Hm. unfold for_loop, for_each.
  rewrite (range_split lo hi m Hm), fold_left_app. reflexivity.
Qed.

(** The state in which the pixel [(y, x)] is reached by a raster scan, and
    the raster scan as "before, the pixel itself, after". *)
Lemma raster_split {S : Type} (height width y x : Z) (f : Z -> Z -> S -> S)
    (s : S) :
  0 <= y < height -> 0 <= x < width ->
  for_loop 0 (height - 1) (fun y' st =>
    for_loop 0 (width - 1) (fun x' st => f y' x' st) st) s
  = for_loop (y + 1) (height - 1) (fun y' st =>
      for_loop 0 (width - 1) (fun x' st => f y' x' st) st)
      (for_loop (x + 1) (width - 1) (fun x' st => f y x' st)
         (f y x
            (for_loop 0 (x - 1) (fun x' st => f y x' st)
               (for_loop 0 (y - 1) (fun y' st =>
                  for_loop 0 (width - 1) (fun x' st => f y' x' st) st) s)))).
Proof.
  intros Hy Hx.
  rewrite (for_loop_split 0 (height - 1) y) by lia.
  rewrite (for_loop_split 0 (width - 1) x) by lia.
  reflexivity.
Qed.

Lemma upd2_same (p : Plane) (y x v : Z) : upd2 p y x v y x = v.
Proof. unfold upd2. rewrite !Z.eqb_refl. reflexivity. Qed.

Lemma upd2_other (p : Plane) (y x v r c : Z) :
  r <> y \/ c <> x -> upd2 p y x v r c = p r c.
Proof.
  intros Hne. unfold upd2.
  destruct (Z.eqb_spec r y); destruct (Z.eqb_spec c x); cbn [andb];
    try reflexivity. lia.
Qed.

(** ** Accumulators that have only seen one sample value *)

Lemma patch_weight_pos (t : TNLMeans) gw pf1p pf2p heightm1 widthm1 y x u v :
  (0 < patch_weight t gw pf1p pf2p heightm1 widthm1 y x u v)%R.
Proof.
  unfold patch_weight, GetSSDWeight, GetSADWeight.
  destruct (ssd t); apply exp_pos.
Qed.

Lemma add_at_same (f : Z -> R) (i : Z) (v : R) : add_at f i v i = (f i + v)%R.
Proof. unfold add_at. apply upd_same. Qed.

Lemma add_at_other (f : Z -> R) (i k : Z) (v : R) :
  k <> i -> add_at f i v k = f k.
Proof. unfold add_at. apply upd_other. Qed.

Lemma max_at_same (f : Z -> R) (i : Z) (w : R) :
  max_at f i w i = if Rgt_dec w (f i) then w else f i.
Proof.
  unfold max_at. destruct (Rgt_dec w (f i)); [apply upd_same|reflexivity].
Qed.

Lemma max_at_other (f : Z -> R) (i k : Z) (w : R) :
  k <> i -> max_at f i w k = f k.
Proof.
  intros Hne. unfold max_at.
  destruct (Rgt_dec w (f i)); [apply upd_other; exact Hne|reflexivity].
Qed.

Lemma hit_flat (c n off : Z) (w : R) (d : SDATA) :
  (0 <= w)%R -> flat_acc c n d -> flat_acc c n (hit d off c w).
Proof.
  intros Hw Hd i Hi. destruct (Hd i Hi) as [Hs [Hwt Hm]].
  unfold hit. cbn [sums weights wmaxs].
  destruct (Z.eq_dec i off) as [->|Hne].
  - rewrite !add_at_same, max_at_same. destruct (Hd off Hi) as [Hs' _].
    rewrite Hs'. repeat split.
    + ring.
    + lra.
    + destruct (Rgt_dec w (wmaxs d off)); lra.
  - rewrite !add_at_other, max_at_other by exact Hne. repeat split; assumption.
Qed.

Lemma WOZ_update_hit (d : SDATA) (coff doff srcv pfv : Z) (w : R) :
  WOZ_update d coff doff srcv pfv w = hit (hit d coff srcv w) doff pfv w.
Proof. reflexivity. Qed.

Lemma WOZ_scan_flat (t : TNLMeans) gw pfp width height y x c n d :
  constant_plane pfp width height c ->
  0 <= y < height -> 0 <= x < width ->
  flat_acc c n d -> flat_acc c n (WOZ_scan t gw pfp width height y x d).
Proof.
  intros Hc Hy Hx Hd. unfold WOZ_scan.
  apply for_loop_inv; [exact Hd|]. intros u d1 Hu Hd1.
  apply for_loop_inv; [exact Hd1|]. intros v d2 Hv Hd2.
  rewrite WOZ_update_hit.
  assert (Hvr : 0 <= v < width).
  { destruct (Z.eqb_spec u y); lia. }
  rewrite (Hc y x Hy Hx), (Hc u v) by lia.
  apply hit_flat; [left; apply patch_weight_pos|].
  apply hit_flat; [left; apply patch_weight_pos|exact Hd2].
Qed.

Lemma epsilon_pos : (0 < epsilon)%R.
Proof. unfold epsilon. apply Rinv_0_lt_compat. apply pow_lt. lra. Qed.

Lemma self_weight_pos (m : R) : (0 < self_weight m)%R.
Proof.
  unfold self_weight. pose proof epsilon_pos.
  destruct (Rle_dec m epsilon); lra.
Qed.

Lemma to_pixel_byte (c : Z) : 0 <= c <= 255 -> to_pixel (IZR c) = c.
Proof.
  intros Hc. unfold to_pixel, to_int.
  assert (Hfl : Zfloor (IZR c + 0.5) = c) by (apply Zfloor_eq; lra).
  destruct (Rle_dec 0 (IZR c + 0.5)) as [_|Hneg].
  - rewrite Hfl. lia.
  - exfalso. apply Hneg.
    assert (0 <= IZR c)%R by (apply IZR_le; lia). lra.
Qed.

Lemma finish_flat (c n off : Z) (d : SDATA) :
  0 <= c <= 255 -> 0 <= off < n -> flat_acc c n d ->
  snd (finish d off c) = c /\ flat_acc c n (fst (finish d off c)).
Proof.
  intros Hc Hoff Hd. unfold finish. cbn [fst snd].
  pose proof (self_weight_pos (wmaxs d off)) as Hsw.
  destruct (Hd off Hoff) as [Hs [Hwt Hm]].
  split.
  - rewrite !add_at_same, Hs.
    replace ((IZR c * weights d off + IZR c * self_weight (wmaxs d off))
             / (weights d off + self_weight (wmaxs d off)))%R
      with (IZR c) by (field; lra).
    apply to_pixel_byte. exact Hc.
  - intros i Hi. cbn [sums weights wmaxs].
    destruct (Hd i Hi) as [Hsi [Hwi Hmi]].
    destruct (Z.eq_dec i off) as [->|Hne].
    + rewrite !add_at_same, Hs. repeat split; [ring|lra|exact Hm].
    + rewrite !add_at_other by exact Hne. repeat split; assumption.
Qed.

Lemma flat_index_range (width height y x : Z) :
  0 <= y < height -> 0 <= x < width -> 0 <= y * width + x < height * width.
Proof. intros Hy Hx. nia. Qed.

Lemma WOZ_pixel_flat (t : TNLMeans) gw pfp width height y x c st :
  constant_plane pfp width height c -> 0 <= c <= 255 ->
  0 <= y < height -> 0 <= x < width ->
  flat_acc c (height * width) (fst st) ->
  flat_acc c (height * width) (fst (WOZ_pixel t gw pfp width height y x st)) /\
  snd (WOZ_pixel t gw pfp width height y x st) y x = c.
Proof.
  intros Hcp Hc Hy Hx Hd. unfold WOZ_pixel. cbn [fst snd].
  rewrite upd2_same, (Hcp y x Hy Hx).
  destruct (finish_flat c (height * width) (y * width + x)
              (WOZ_scan t gw pfp width height y x (fst st)) Hc) as [Hout Hfl].
  - apply flat_index_range; assumption.
  - apply WOZ_scan_flat; assumption.
  - split; assumption.
Qed.

Lemma SDATA_clear_flat (c n : Z) (d : SDATA) : flat_acc c n (SDATA_clear d n).
Proof.
  intros i Hi. unfold SDATA_clear, fill_zero_d. cbn [sums weights wmaxs].
  destruct (Z.leb_spec 0 i); [|lia]. destruct (Z.ltb_spec i n); [|lia].
  cbn [andb]. repeat split; lra.
Qed.

Lemma WOZ_pixel_keeps (t : TNLMeans) gw pfp width height y x st r c :
  r <> y \/ c <> x ->
  snd (WOZ_pixel t gw pfp width height y x st) r c = snd st r c.
Proof. intros Hne. unfold WOZ_pixel. cbn [snd]. apply upd2_other. exact Hne. Qed.

(** The pixel written at [(y, x)] is the one computed when the raster scan
    reaches [(y, x)]. *)
Lemma raster_written {S : Type} (height width y x : Z)
    (f : Z -> Z -> S * Plane -> S * Plane) (s : S * Plane) :
  (forall y' x' st r c, r <> y' \/ c <> x' -> snd (f y' x' st) r c = snd st r c) ->
  0 <= y < height -> 0 <= x < width ->
  snd (for_loop 0 (height - 1) (fun y' st =>
         for_loop 0 (width - 1) (fun x' st => f y' x' st) st) s) y x
  = snd (f y x
           (for_loop 0 (x - 1) (fun x' st => f y x' st)
              (for_loop 0 (y - 1) (fun y' st =>
                 for_loop 0 (width - 1) (fun x' st => f y' x' st) st) s))) y x.
Proof.
  intros Hkeep Hy Hx. rewrite (raster_split height width y x f s Hy Hx).
  set (s1 := f y x _).
  apply (for_loop_inv (fun st => snd st y x = snd s1 y x)).
  - apply (for_loop_inv (fun st => snd st y x = snd s1 y x)); [reflexivity|].
    intros x' st Hx' Hst. rewrite Hkeep by lia. exact Hst.
  - intros y' st Hy' Hst.
    apply (for_loop_inv (fun st => snd st y x = snd s1 y x)); [exact Hst|].
    intros x' st' Hx' Hst'. rewrite Hkeep by lia. exact Hst'.
Qed.

Lemma WOZ_plane_flat (t : TNLMeans) gw pfp width height c d dstp y x :
  constant_plane pfp width height c -> 0 <= c <= 255 ->
  0 <= y < height -> 0 <= x < width ->
  snd (WOZ_plane t gw pfp width height d dstp) y x = c.
Proof.
  intros Hcp Hc Hy Hx. unfold WOZ_plane.
  rewrite (raster_written height width y x
             (fun y' x' st => WOZ_pixel t gw pfp width height y' x' st));
    [|intros; apply WOZ_pixel_keeps; assumption|exact Hy|exact Hx].
  apply WOZ_pixel_flat; try assumption.
  apply (for_loop_inv (fun st => flat_acc c (height * width) (fst st))).
  - apply (for_loop_inv (fun st => flat_acc c (height * width) (fst st))).
    + apply SDATA_clear_flat.
    + intros y' st Hy' Hst.
      apply (for_loop_inv (fun st => flat_acc c (height * width) (fst st)));
        [exact Hst|].
      intros x' st' Hx' Hst'. apply WOZ_pixel_flat; try assumption; lia.
  - intros x' st Hx' Hst. apply WOZ_pixel_flat; try assumption; lia.
Qed.

(** The plane loop of the four variants: the plane [pl] of the output is
    the one produced by the iteration [pl], from the destination plane as
    allocated. *)
Lemma planes_loop {S : Type} (np pl : Z) (F : Z -> S -> Plane -> S * Plane)
    (s : S) (dst : Frame) :
  0 <= pl < np ->
  exists s',
    snd (for_loop 0 (np - 1) (fun plane st =>
           let p := F plane (fst st) (snd st plane) in
           (fst p, upd (snd st) plane (snd p))) (s, dst)) pl
    = snd (F pl s' (dst pl)).
Proof.
  intros Hpl. rewrite (for_loop_split 0 (np - 1) pl) by lia.
  set (body := fun plane st => _).
  set (s0 := for_loop 0 (pl - 1) body (s, dst)).
  assert (Hbefore : snd s0 pl = dst pl).
  { subst s0. apply (for_loop_inv (fun st => snd st pl = dst pl));
      [reflexivity|].
    intros i st Hi Hst. subst body. cbn [snd]. rewrite upd_other by lia.
    exact Hst. }
  exists (fst s0).
  apply (for_loop_inv (fun st => snd st pl = snd (F pl (fst s0) (dst pl)))).
  - subst body. cbn [snd]. rewrite upd_same, Hbefore. reflexivity.
  - intros i st Hi Hst. subst body. cbn [snd]. rewrite upd_other by lia.
    exact Hst.
Qed.

(** The output frame of a variant's result. *)
Lemma GetFrameWOZ_plane (t : TNLMeans) gw clip n d dst pl :
  0 <= pl < numPlanes (format (vi t)) ->
  exists out d',
    snd (fst (GetFrameWOZ t gw clip n d (Some dst))) = Some out /\
    out pl = snd (WOZ_plane t gw (clip (mapn t n) pl) (planeWidth (vi t) pl)
                    (planeHeight (vi t) pl) d' (dst pl)).
Proof.
  intros Hpl. unfold GetFrameWOZ. cbn [fst snd].
  destruct (planes_loop (numPlanes (format (vi t))) pl
              (fun plane d0 dp =>
                 WOZ_plane t gw (clip (mapn t n) plane) (planeWidth (vi t) plane)
                   (planeHeight (vi t) plane) d0 dp) d dst Hpl) as [d' Hd'].
  eexists. exists d'. split; [reflexivity|]. exact Hd'.
Qed.

(** ** Cells of an accumulator *)



Lemma cell_hit (d : SDATA) (off s : Z) (w : R) (i : Z) :
  cell (hit d off s w) i
  = if i =? off then acc_add (cell d i) (s, w) else cell d i.
Proof.
  unfold cell, hit, acc_add. cbn [sums weights wmaxs fst snd].
  destruct (Z.eqb_spec i off) as [->|Hne].
  - rewrite !add_at_same, max_at_same. reflexivity.
  - rewrite !add_at_other, max_at_other by exact Hne. reflexivity.
Qed.

Lemma cell_hits (d : SDATA) (l : list (Z * (Z * R))) (i : Z) :
  cell (hits d l) i = fold_left acc_add (landing i l) (cell d i).
Proof.
  unfold hits, landing. revert d.
  induction l as [|[off [s w]] l IH]; intros d; [reflexivity|].
  cbn [fold_left filter fst snd]. rewrite IH, cell_hit.
  rewrite (Z.eqb_sym off i).
  destruct (i =? off); reflexivity.
Qed.

Lemma hits_app (d : SDATA) (l l' : list (Z * (Z * R))) :
  hits d (l ++ l') = hits (hits d l) l'.
Proof. unfold hits. apply fold_left_app. Qed.

Lemma cell_finish_other (d : SDATA) (off s i : Z) :
  i <> off -> cell (fst (finish d off s)) i = cell d i.
Proof.
  intros Hne. unfold cell, finish. cbn [fst sums weights wmaxs].
  rewrite !add_at_other by exact Hne. reflexivity.
Qed.

Lemma to_pixel_floor (q : R) :
  to_pixel q = Z.max 0 (Z.min 255 (Zfloor (q + / 2))).
Proof.
  unfold to_pixel, to_int.
  replace (q + 0.5)%R with (q + / 2)%R by lra.
  destruct (Rle_dec 0 (q + / 2)) as [Hpos|Hneg]; [lia|].
  assert (Hc : Zceil (q + / 2) <= 0).
  { replace 0 with (Zceil (IZR 0)) by (apply Zceil_eq; lra).
    apply Zceil_le. lra. }
  assert (Hf : Zfloor (q + / 2) <= 0).
  { replace 0 with (Zfloor (IZR 0)) by apply ZfloorZ. apply Zfloor_le. lra. }
  lia.
Qed.

Lemma finish_pixel (d : SDATA) (off s : Z) :
  snd (finish d off s) = acc_pixel (cell d off) s.
Proof.
  unfold finish, acc_pixel, cell. cbn [fst snd].
  rewrite to_pixel_floor, !add_at_same. reflexivity.
Qed.

(** ** Nested loops as one pass over a list of pixels *)

Lemma fold_left_flat_map {A B S : Type} (f : S -> B -> S) (g : A -> list B)
    (l : list A) (s : S) :
  fold_left f (flat_map g l) s
  = fold_left (fun s a => fold_left f (g a) s) l s.
Proof.
  revert s. induction l as [|a l IH]; intros s; [reflexivity|].
  cbn [flat_map fold_left]. rewrite fold_left_app. apply IH.
Qed.

Lemma fold_left_map {A B S : Type} (f : S -> B -> S) (g : A -> B)
    (l : list A) (s : S) :
  fold_left f (map g l) s = fold_left (fun s a => f s (g a)) l s.
Proof.
  revert s. induction l as [|a l IH]; intros s; [reflexivity|].
  cbn [map fold_left]. apply IH.
Qed.

Lemma for_each_nested {S : Type} (l : list Z) (g : Z -> list Z)
    (f : Z -> Z -> S -> S) (s : S) :
  for_each l (fun u s => for_each (g u) (fun v s => f u v s) s) s
  = fold_left (fun s c => f (fst c) (snd c) s)
              (flat_map (fun u => map (pair u) (g u)) l) s.
Proof.
  unfold for_each. rewrite fold_left_flat_map.
  revert s. induction l as [|u l IH]; intros s; [reflexivity|].
  cbn [fold_left]. rewrite IH. f_equal. rewrite fold_left_map. reflexivity.
Qed.

Lemma list_prod_flat_map {A B : Type} (l : list A) (l' : list B) :
  list_prod l l' = flat_map (fun a => map (pair a) l') l.
Proof.
  induction l as [|a l IH]; [reflexivity|].
  cbn [list_prod flat_map]. rewrite IH. reflexivity.
Qed.

Lemma pix_eqb_eq (p q : Z * Z) : pix_eqb p q = true <-> p = q.
Proof.
  unfold pix_eqb. destruct p as [py px], q as [qy qx]. cbn [fst snd].
  rewrite andb_true_iff, !Z.eqb_eq. split.
  - intros [-> ->]. reflexivity.
  - intros Heq. injection Heq as -> ->. split; reflexivity.
Qed.

Lemma pix_eqb_refl (p : Z * Z) : pix_eqb p p = true.
Proof. apply pix_eqb_eq. reflexivity. Qed.

Lemma pix_eqb_neq (p q : Z * Z) : pix_eqb p q = false <-> p <> q.
Proof.
  rewrite <- pix_eqb_eq. destruct (pix_eqb p q); split; congruence.
Qed.


Lemma flat_index_inj (width : Z) (p q : Z * Z) :
  0 <= snd p < width -> 0 <= snd q < width ->
  flat_index width p = flat_index width q -> p = q.
Proof.
  unfold flat_index. destruct p as [py px], q as [qy qx]. cbn [fst snd].
  intros Hp Hq Heq.
  assert (py = qy) by nia. subst qy.
  assert (px = qx) by lia. subst qx. reflexivity.
Qed.

Lemma fold_left_ext {A S : Type} (f g : S -> A -> S) (l : list A) (s : S) :
  (forall s a, In a l -> f s a = g s a) -> fold_left f l s = fold_left g l s.
Proof.
  revert s. induction l as [|a l IH]; intros s Hfg; [reflexivity|].
  cbn [fold_left]. rewrite Hfg by (left; reflexivity).
  apply IH. intros s' b Hb. apply Hfg. right. exact Hb.
Qed.

Lemma flat_map_ext_in {A B : Type} (f g : A -> list B) (l : list A) :
  (forall a, In a l -> f a = g a) -> flat_map f l = flat_map g l.
Proof.
  induction l as [|a l IH]; intros Hfg; [reflexivity|].
  cbn [flat_map]. rewrite Hfg by (left; reflexivity). f_equal.
  apply IH. intros b Hb. apply Hfg. right. exact Hb.
Qed.

Lemma flat_map_singleton {A B : Type} (f : A -> B) (l : list A) :
  flat_map (fun a => [f a]) l = map f l.
Proof.
  induction l as [|a l IH]; [reflexivity|].
  cbn [flat_map map app]. rewrite IH. reflexivity.
Qed.

Lemma landing_app (i : Z) (l l' : list (Z * (Z * R))) :
  landing i (l ++ l') = landing i l ++ landing i l'.
Proof. unfold landing. rewrite filter_app, map_app. reflexivity. Qed.

Lemma landing_flat_map {A : Type} (i : Z) (g : A -> list (Z * (Z * R)))
    (l : list A) :
  landing i (flat_map g l) = flat_map (fun a => landing i (g a)) l.
Proof.
  induction l as [|a l IH]; [reflexivity|].
  cbn [flat_map]. rewrite landing_app, IH. reflexivity.
Qed.

Lemma NoDup_flat_map_pair {A B : Type} (l : list A) (g : A -> list B) :
  NoDup l -> (forall u, NoDup (g u)) ->
  NoDup (flat_map (fun u => map (pair u) (g u)) l).
Proof.
  intros Hl Hg. induction Hl as [|u l Hu Hl IH]; [constructor|].
  cbn [flat_map]. apply NoDup_app.
  - apply NoDup_map_inj; [|apply Hg]. intros a b _ _ Heq.
    injection Heq as ->. reflexivity.
  - exact IH.
  - intros [u' v] Hin Hin'. apply in_map_iff in Hin.
    destruct Hin as [v' [Heq _]]. injection Heq as <- <-.
    apply in_flat_map in Hin'. destruct Hin' as [u2 [Hu2 Hin']].
    apply in_map_iff in Hin'. destruct Hin' as [v2 [Heq _]].
    injection Heq as ->. contradiction.
Qed.

Lemma filter_pix_NoDup (p : Z * Z) (l : list (Z * Z)) :
  NoDup l ->
  filter (fun c => pix_eqb c p) l
  = if existsb (fun c => pix_eqb c p) l then [p] else [].
Proof.
  induction 1 as [|c l Hc Hl IH]; [reflexivity|].
  cbn [filter existsb]. destruct (pix_eqb c p) eqn:Hcp.
  - apply pix_eqb_eq in Hcp. subst c. cbn [orb]. f_equal.
    rewrite IH. destruct (existsb _ l) eqn:Hex; [|reflexivity].
    exfalso. apply existsb_exists in Hex. destruct Hex as [c [Hin Heq]].
    apply pix_eqb_eq in Heq. subst c. contradiction.
  - cbn [orb]. exact IH.
Qed.

Lemma existsb_pix_In (p : Z * Z) (l : list (Z * Z)) :
  existsb (fun c => pix_eqb c p) l = true <-> In p l.
Proof.
  rewrite existsb_exists. split.
  - intros [c [Hin Heq]]. apply pix_eqb_eq in Heq. subst c. exact Hin.
  - intros Hin. exists p. split; [exact Hin|apply pix_eqb_refl].
Qed.

Lemma for_loop_ext {S : Type} (lo hi : Z) (f g : Z -> S -> S) (s : S) :
  (forall i s', lo <= i <= hi -> f i s' = g i s') ->
  for_loop lo hi f s = for_loop lo hi g s.
Proof.
  intros Hfg. unfold for_loop, for_each. apply fold_left_ext.
  intros s' i Hi. apply Hfg. apply in_range. exact Hi.
Qed.

Lemma flat_map_filter_map {A B : Type} (b : A -> bool) (f : A -> B)
    (l : list A) :
  flat_map (fun a => if b a then [f a] else []) l = map f (filter b l).
Proof.
  induction l as [|a l IH]; [reflexivity|].
  cbn [flat_map filter]. destruct (b a); cbn [map app]; rewrite IH; reflexivity.
Qed.

(** ** Symmetry of the patch comparison *)

Lemma GetSAD_sym (s1 s2 : Z) (g : R) : GetSAD s1 s2 g = GetSAD s2 s1 g.
Proof.
  unfold GetSAD. f_equal. f_equal.
  replace (s2 - s1) with (- (s1 - s2)) by ring. symmetry. apply Z.abs_opp.
Qed.

Lemma GetSSD_sym (s1 s2 : Z) (g : R) : GetSSD s1 s2 g = GetSSD s2 s1 g.
Proof. unfold GetSSD. f_equal. f_equal. ring. Qed.

Lemma patch_dist_sym (t : TNLMeans) gw pf1p pf2p heightm1 widthm1 y x u v :
  patch_dist t gw pf1p pf2p heightm1 widthm1 y x u v
  = patch_dist t gw pf2p pf1p heightm1 widthm1 u v y x.
Proof.
  unfold patch_dist.
  replace (patch_top t u y) with (patch_top t y u)
    by (unfold patch_top; lia).
  replace (patch_bottom t heightm1 u y) with (patch_bottom t heightm1 y u)
    by (unfold patch_bottom; lia).
  replace (patch_left t v x) with (patch_left t x v)
    by (unfold patch_left; lia).
  replace (patch_right t widthm1 v x) with (patch_right t widthm1 x v)
    by (unfold patch_right; lia).
  apply for_loop_ext. intros j st _. apply for_loop_ext. intros k st' _.
  rewrite GetSAD_sym, GetSSD_sym. reflexivity.
Qed.

Lemma patch_weight_sym (t : TNLMeans) gw pf1p pf2p heightm1 widthm1 y x u v :
  patch_weight t gw pf1p pf2p heightm1 widthm1 y x u v
  = patch_weight t gw pf2p pf1p heightm1 widthm1 u v y x.
Proof. unfold patch_weight. rewrite patch_dist_sym. reflexivity. Qed.

(** ** The spatial pixel variant as a scatter of samples *)

Section SpatialPixel.

Variable t : TNLMeans.
Variable gw : Z -> R.
Variable pfp : Plane.
Variables width height : Z.

Let idx := flat_index width.
Let score := ref_score t gw pfp width height.
Let hw := half_window t width height.

Lemma in_half_window (p c : Z * Z) :
  In c (hw p) <->
  fst p <= fst c <= Z.min (fst p + Ay t) (height - 1) /\
  (if fst c =? fst p then snd p + 1 else Z.max (snd p - Ax t) 0) <= snd c
    <= Z.min (snd p + Ax t) (width - 1).
Proof.
  subst hw. unfold half_window. rewrite in_flat_map. split.
  - intros [u [Hu Hc]]. apply in_map_iff in Hc. destruct Hc as [v [<- Hv]].
    cbn [fst snd]. apply in_range in Hu. apply in_range in Hv. split; assumption.
  - intros [Hu Hv]. exists (fst c). split; [apply in_range; exact Hu|].
    apply in_map_iff. exists (snd c). split; [destruct c; reflexivity|].
    apply in_range. exact Hv.
Qed.

Lemma half_window_NoDup (p : Z * Z) : NoDup (hw p).
Proof.
  subst hw. unfold half_window. apply NoDup_flat_map_pair.
  - apply NoDup_range.
  - intros u. apply NoDup_range.
Qed.

Lemma half_window_inside (p c : Z * Z) :
  0 <= fst p -> 0 <= snd p -> In c (hw p) ->
  0 <= fst c < height /\ 0 <= snd c < width /\ c <> p.
Proof.
  intros Hy Hx Hc. apply in_half_window in Hc. destruct Hc as [Hu Hv].
  destruct (Z.eqb_spec (fst c) (fst p)) as [Heq|Hne].
  - repeat split; try lia. intros ->. lia.
  - repeat split; try lia. intros ->. lia.
Qed.



Lemma landing_WOZ_other (p : Z * Z) (i : Z) :
  i <> idx p ->
  landing i (WOZ_events t gw pfp width height p)
  = map (fun c => (pfp (fst p) (snd p), score p c))
        (filter (fun c => idx c =? i) (hw p)).
Proof.
  intros Hne. unfold WOZ_events. rewrite landing_flat_map. fold hw.
  induction (hw p) as [|c l IH]; [reflexivity|].
  cbn [flat_map filter]. rewrite IH. unfold landing at 1.
  cbn [filter fst snd map].
  destruct (Z.eqb_spec (flat_index width p) i) as [Heq|_];
    [exfalso; apply Hne; symmetry; exact Heq|].
  fold (idx c). destruct (idx c =? i); reflexivity.
Qed.

Lemma in_window (p q : Z * Z) :
  In q (window t width height p) <->
  Z.max (fst p - Ay t) 0 <= fst q <= Z.min (fst p + Ay t) (height - 1) /\
  Z.max (snd p - Ax t) 0 <= snd q <= Z.min (snd p + Ax t) (width - 1).
Proof.
  unfold window. destruct q as [qy qx]. rewrite in_prod_iff, !in_range.
  reflexivity.
Qed.

Lemma in_others (p q : Z * Z) :
  In q (others t width height p) <->
  In q (window t width height p) /\ q <> p.
Proof.
  unfold others. rewrite filter_In, negb_true_iff, pix_eqb_neq. reflexivity.
Qed.

Lemma in_before (p q : Z * Z) :
  In q (before width p) <->
  (0 <= fst q <= fst p - 1 /\ 0 <= snd q <= width - 1) \/
  (fst q = fst p /\ 0 <= snd q <= snd p - 1).
Proof.
  unfold before. destruct q as [qy qx]. cbn [fst snd].
  rewrite in_app_iff, in_prod_iff, in_map_iff, !in_range. split.
  - intros [H|[v [Heq Hv]]]; [left; exact H|right].
    injection Heq as <- <-. apply in_range in Hv. lia.
  - intros [H|[-> Hv]]; [left; exact H|right].
    exists qx. split; [reflexivity|apply in_range; exact Hv].
Qed.

Lemma NoDup_list_prod_range (a b c d : Z) :
  NoDup (list_prod (range a b) (range c d)).
Proof.
  rewrite list_prod_flat_map.
  apply (NoDup_flat_map_pair (range a b) (fun _ => range c d)).
  - apply NoDup_range.
  - intros _. apply NoDup_range.
Qed.

Lemma before_NoDup (p : Z * Z) : NoDup (before width p).
Proof.
  unfold before. apply NoDup_app.
  - apply NoDup_list_prod_range.
  - apply NoDup_map_inj; [|apply NoDup_range].
    intros a b _ _ Heq. injection Heq as ->. reflexivity.
  - intros [qy qx] Hin Hin'. apply in_prod_iff in Hin.
    rewrite in_range in Hin. apply in_map_iff in Hin'.
    destruct Hin' as [v [Heq _]]. injection Heq as <- _. lia.
Qed.

(** The causal halves seen from both ends make up the window. *)
Lemma window_as_halves (p : Z * Z) :
  0 <= fst p < height -> 0 <= snd p < width ->
  Permutation
    (filter (fun q => existsb (fun c => pix_eqb c p) (hw q)) (before width p)
     ++ hw p)
    (others t width height p).
Proof.
  intros Hy Hx. apply NoDup_Permutation.
  - apply NoDup_app.
    + apply NoDup_filter. apply before_NoDup.
    + apply half_window_NoDup.
    + intros q Hq Hq'. apply filter_In in Hq. destruct Hq as [Hq _].
      apply in_before in Hq. apply in_half_window in Hq'.
      destruct (Z.eqb_spec (fst q) (fst p)); lia.
  - unfold others. apply NoDup_filter. unfold window.
    apply NoDup_list_prod_range.
  - intros q.
    rewrite in_app_iff, filter_In, existsb_pix_In, in_others, in_window,
      in_before, !in_half_window.
    assert (Hqp : q <> p <-> fst q <> fst p \/ snd q <> snd p).
    { destruct p, q; cbn [fst snd]. split.
      - intros Hne. destruct (Z.eq_dec z1 z); [right|left; assumption].
        intros ->. apply Hne. subst. reflexivity.
      - intros [Hne|Hne] Heq; injection Heq as -> ->; apply Hne; reflexivity. }
    rewrite Hqp.
    destruct (Z.eqb_spec (fst p) (fst q)); destruct (Z.eqb_spec (fst q) (fst p));
      lia.
Qed.

Lemma score_sym (p q : Z * Z) : score p q = score q p.
Proof. subst score. unfold ref_score. apply patch_weight_sym. Qed.



(** What the pixels visited before [p] have put into the cell of [p]. *)
Lemma landing_before (p : Z * Z) :
  0 <= fst p < height -> 0 <= snd p < width ->
  flat_map (fun q => landing (idx p) (WOZ_events t gw pfp width height q))
           (before width p)
  = map (sample t gw pfp width height p)
        (filter (fun q => existsb (fun c => pix_eqb c p) (hw q))
                (before width p)).
Proof.
  intros Hy Hx. rewrite <- flat_map_filter_map. apply flat_map_ext_in.
  intros q Hq. apply in_before in Hq.
  assert (Hqx : 0 <= snd q < width) by lia.
  assert (Hqy : 0 <= fst q) by lia.
  assert (Hne : idx p <> idx q).
  { intros Heq. apply (flat_index_inj width) in Heq; [|lia|lia].
    subst q. lia. }
  rewrite landing_WOZ_other by exact Hne.
  rewrite (filter_ext_in (fun c => idx c =? idx p) (fun c => pix_eqb c p)).
  - rewrite filter_pix_NoDup by apply half_window_NoDup.
    destruct (existsb _ (hw q)); [|reflexivity].
    cbn [map]. unfold sample. fold score. rewrite (score_sym p q).
    reflexivity.
  - intros c Hc. apply half_window_inside in Hc; [|lia|lia].
    destruct Hc as [_ [Hcx _]].
    destruct (Z.eqb_spec (idx c) (idx p)) as [Heq|Hneq].
    + apply (flat_index_inj width) in Heq; [|lia|lia].
      symmetry. apply pix_eqb_eq. exact Heq.
    + symmetry. apply pix_eqb_neq. intros ->. apply Hneq. reflexivity.
Qed.

Lemma raster_before {S : Type} (f : Z -> Z -> S -> S) (y x : Z) (s0 : S) :
  for_loop 0 (x - 1) (fun x' st => f y x' st)
    (for_loop 0 (y - 1) (fun y' st =>
       for_loop 0 (width - 1) (fun x' st => f y' x' st) st) s0)
  = fold_left (fun st c => f (fst c) (snd c) st) (before width (y, x)) s0.
Proof.
  unfold before. cbn [fst snd]. rewrite fold_left_app. unfold for_loop at 1 2.
  rewrite (for_each_nested (range 0 (y - 1)) (fun _ => range 0 (width - 1)) f).
  rewrite <- list_prod_flat_map. unfold for_loop, for_each.
  rewrite fold_left_map. reflexivity.
Qed.



End SpatialPixel.

(** ** The brute-force reference as a gather *)


Lemma flat_map_map {A B C : Type} (f : A -> list B) (g : B -> C) (l : list A) :
  flat_map (fun a => map g (f a)) l = map g (flat_map f l).
Proof.
  induction l as [|a l IH]; [reflexivity|].
  cbn [flat_map]. rewrite map_app, IH. reflexivity.
Qed.

Section BruteForce.

Variable t : TNLMeans.
Variable gw : Z -> R.
Variable pfp : Plane.
Variables width height : Z.


Lemma in_frame_pixels (p : Z * Z) :
  In p (frame_pixels width height) <->
  0 <= fst p <= height - 1 /\ 0 <= snd p <= width - 1.
Proof.
  unfold frame_pixels. destruct p as [py px].
  rewrite in_prod_iff, !in_range. reflexivity.
Qed.










End BruteForce.



Lemma constructed_derived (t : TNLMeans) :
  constructed t ->
  (0 <= Ax t /\ 0 <= Ay t /\ 0 <= Az t /\ 0 <= Bx t /\ 0 <= By t /\
   Bx t <= Sx t /\ By t <= Sy t) /\
  (Sxd t = Sx t * 2 + 1 /\ Syd t = Sy t * 2 + 1 /\
   Bxd t = Bx t * 2 + 1 /\ Byd t = By t * 2 + 1 /\
   Bxa t = Bxd t * Byd t /\ Azdm1 t = Az t * 2) /\
  ((0 < h t)%R /\ (0 < a t)%R /\ hin t = (-1 / h t)%R /\
   h2in t = (-1 / (h t * h t))%R /\ format_ok (vi t)).
Proof.
  intros [pAx [pAy [pAz [pSx [pSy [pBx [pBy [pa [ph [pssd [pvi [tc Hnew]]]]]]]]]]]].
  pose proof (TNLMeans_new_inr _ _ _ _ _ _ _ _ _ _ _ _ _ Hnew) as [Hfmt Hall].
  destruct (TNLMeans_new_success pAx pAy pAz pSx pSy pBx pBy pa ph pssd pvi
              tc Hfmt Hall) as [e [He [Hinit _]]].
  rewrite Hnew in He. injection He as <-. subst t.
  unfold constraints, holds in Hall.
  repeat match goal with
  | H : Forall _ (_ :: _) |- _ => inversion H; subst; clear H
  end.
  cbn [fst snd] in *. destruct Hfmt as [Hfam Hbits]. unfold format_ok. cbn.
  repeat split; try assumption; try lia; reflexivity.
Qed.


(** ** The self weight *)


















(** ** Reads stay inside the frame *)

Lemma in_steps (lo hi st y : Z) :
  0 < st -> In y (steps lo hi st) -> lo <= y < hi.
Proof.
  intros Hst Hy. unfold steps in Hy. apply in_map_iff in Hy.
  destruct Hy as [k [<- Hk]]. apply in_range in Hk.
  pose proof (Z.mul_div_le (hi - lo - 1) st Hst) as Hdiv.
  nia.
Qed.

Ltac open_reads :=
  repeat match goal with
  | H : In _ (flat_map _ _) |- _ =>
      apply in_flat_map in H; destruct H as [? [? H]]
  | H : In _ (_ ++ _) |- _ => apply in_app_or in H; destruct H as [H|H]
  | H : In _ (map _ _) |- _ =>
      apply in_map_iff in H; destruct H as [? [? H]]
  | H : In (_, _) (list_prod _ _) |- _ =>
      apply in_prod_iff in H; destruct H as [? ?]
  | H : In ?p (list_prod _ _) |- _ => destruct p as [? ?]
  | H : In _ (range _ _) |- _ => apply in_range in H
  | H : In _ (_ :: _) |- _ => destruct H as [H|H]
  | H : In _ [] |- _ => destruct H
  | H : (_, _) = _ |- _ => symmetry in H
  | H : _ = (_, _) |- _ => first [subst | injection H as ? ?]
  end.

Section Reads.

Variable t : TNLMeans.
Variables width height : Z.

Hypothesis Hradii : 0 <= Bx t <= Sx t /\ 0 <= By t <= Sy t.
Hypothesis Hstride : Bxd t = Bx t * 2 + 1 /\ Byd t = By t * 2 + 1.

Lemma patch_candidate_inside (y x u v : Z) (rc : Z * Z) :
  0 <= u -> 0 <= v -> 0 <= y -> 0 <= x ->
  In rc (patch_reads_candidate t (height - 1) (width - 1) y x u v) ->
  inside width height rc.
Proof.
  intros Hu Hv Hy Hx Hrc.
  unfold patch_reads_candidate, patch_offsets in Hrc. open_reads.
  cbn [fst snd] in *.
  unfold patch_top, patch_bottom, patch_left, patch_right in *.
  unfold inside. cbn [fst snd]. lia.
Qed.

Lemma patch_target_inside (y x u v : Z) (rc : Z * Z) :
  0 <= u -> 0 <= v -> 0 <= y -> 0 <= x ->
  In rc (patch_reads_target t (height - 1) (width - 1) y x u v) ->
  inside width height rc.
Proof.
  intros Hu Hv Hy Hx Hrc.
  unfold patch_reads_target, patch_offsets in Hrc. open_reads.
  cbn [fst snd] in *.
  unfold patch_top, patch_bottom, patch_left, patch_right in *.
  unfold inside. cbn [fst snd]. lia.
Qed.

Lemma patch_gw_inside (y x u v i : Z) :
  0 <= Sx t -> 0 <= Sy t -> Sxd t = Sx t * 2 + 1 ->
  In i (patch_gw_reads t (height - 1) (width - 1) y x u v) ->
  0 <= i < Sxd t * (Sy t * 2 + 1).
Proof.
  intros HSx HSy HSxd Hi. unfold patch_gw_reads, patch_offsets in Hi.
  open_reads. cbn [fst snd] in *.
  unfold patch_top, patch_bottom, patch_left, patch_right in *.
  rewrite HSxd. nia.
Qed.

Lemma WOZ_reads_inside :
  Forall (inside width height) (WOZ_reads t width height).
Proof.
  apply Forall_forall. intros rc Hrc. unfold WOZ_reads in Hrc. open_reads.
  - eapply patch_candidate_inside; [| | | |eassumption];
      try lia; destruct (Z.eqb_spec x1 x); lia.
  - eapply patch_target_inside; [| | | |eassumption];
      try lia; destruct (Z.eqb_spec x1 x); lia.
  - unfold inside. cbn [fst snd]. lia.
  - unfold inside. cbn [fst snd]. destruct (Z.eqb_spec x1 x); lia.
  - unfold inside. cbn [fst snd]. lia.
Qed.

Lemma startz_stopz (n z : Z) :
  0 <= Az t -> startz t n <= z <= stopz t n -> 0 <= z <= 2 * Az t.
Proof. unfold startz, stopz. lia. Qed.

Lemma WZ_reads_inside (n : Z) :
  0 <= Az t ->
  Forall (inside_slot t width height) (WZ_reads t width height n).
Proof.
  intros HAz. apply Forall_forall. intros r Hr. unfold WZ_reads in Hr.
  open_reads; unfold inside_slot; cbn [fst snd].
  - split; [eapply startz_stopz; eassumption|].
    eapply patch_candidate_inside; [| | | |eassumption]; try lia.
    + destruct (Z.eqb_spec x1 (Az t)); lia.
    + destruct ((x2 =? x) && (x1 =? Az t)); lia.
  - split; [lia|].
    eapply patch_target_inside; [| | | |eassumption]; try lia.
    + destruct (Z.eqb_spec x1 (Az t)); lia.
    + destruct ((x2 =? x) && (x1 =? Az t)); lia.
  - split; [eapply startz_stopz; eassumption|].
    unfold inside. cbn [fst snd].
    destruct (Z.eqb_spec x1 (Az t)); destruct ((x2 =? x) && _); lia.
  - split; [lia|]. unfold inside. cbn [fst snd]. lia.
  - split; [lia|]. unfold inside. cbn [fst snd]. lia.
Qed.

Lemma tile_reads_inside (y x : Z) (rc : Z * Z) :
  By t <= y < height + By t -> Bx t <= x < width + Bx t ->
  In rc (tile_reads t width height y x) -> inside width height rc.
Proof.
  intros Hy Hx Hrc. destruct Hradii as [HBx HBy].
  unfold tile_reads in Hrc. open_reads.
  - eapply patch_candidate_inside; [| | | |eassumption]; lia.
  - unfold block_reads in *. open_reads. unfold inside. cbn [fst snd]. lia.
Qed.

Lemma tile_reads_target_inside (y x : Z) (rc : Z * Z) :
  By t <= y < height + By t -> Bx t <= x < width + Bx t ->
  In rc (tile_reads_target t width height y x) -> inside width height rc.
Proof.
  intros Hy Hx Hrc. destruct Hradii as [HBx HBy].
  destruct Hstride as [HBxd HByd].
  unfold tile_reads_target in Hrc. open_reads.
  - eapply patch_target_inside; [| | | |eassumption]; lia.
  - unfold tile_cells in *. open_reads. unfold inside. cbn [fst snd]. lia.
Qed.

Lemma tile_centre (y x : Z) :
  In y (steps (By t) (height + By t) (Byd t)) ->
  In x (steps (Bx t) (width + Bx t) (Bxd t)) ->
  By t <= y < height + By t /\ Bx t <= x < width + Bx t.
Proof.
  intros Hy Hx. destruct Hradii as [HBx HBy].
  destruct Hstride as [HBxd HByd].
  split; eapply in_steps; try eassumption; lia.
Qed.

Lemma WOZB_reads_inside :
  Forall (inside width height) (WOZB_reads t width height).
Proof.
  apply Forall_forall. intros rc Hrc. unfold WOZB_reads in Hrc.
  apply in_flat_map in Hrc. destruct Hrc as [y [Hy Hrc]].
  apply in_flat_map in Hrc. destruct Hrc as [x [Hx Hrc]].
  destruct (tile_centre y x Hy Hx) as [Hyr Hxr].
  apply in_app_or in Hrc. destruct Hrc as [Hrc|Hrc].
  - eapply tile_reads_inside; eassumption.
  - eapply tile_reads_target_inside; eassumption.
Qed.

Lemma WZB_reads_inside (n : Z) :
  0 <= Az t ->
  Forall (inside_slot t width height) (WZB_reads t width height n).
Proof.
  intros HAz. apply Forall_forall. intros r Hr. unfold WZB_reads in Hr.
  apply in_flat_map in Hr. destruct Hr as [y [Hy Hr]].
  apply in_flat_map in Hr. destruct Hr as [x [Hx Hr]].
  destruct (tile_centre y x Hy Hx) as [Hyr Hxr].
  apply in_app_or in Hr. destruct Hr as [Hr|Hr].
  - apply in_flat_map in Hr. destruct Hr as [z [Hz Hr]].
    apply in_range in Hz. apply in_map_iff in Hr.
    destruct Hr as [rc [<- Hrc]]. split; cbn [fst snd].
    + eapply startz_stopz; eassumption.
    + eapply tile_reads_inside; eassumption.
  - apply in_map_iff in Hr. destruct Hr as [rc [<- Hrc]].
    split; cbn [fst snd]; [lia|].
    eapply tile_reads_target_inside; eassumption.
Qed.

(** The variants depend on the bytes inside the frame only. *)

Lemma for_each_ext {S : Type} (l : list Z) (f g : Z -> S -> S) (s : S) :
  (forall i s', In i l -> f i s' = g i s') -> for_each l f s = for_each l g s.
Proof.
  intros Hfg. unfold for_each. apply fold_left_ext.
  intros s' i Hi. apply Hfg. exact Hi.
Qed.

Lemma patch_weight_agree gw (pf1 pf1' pf2 pf2' : Plane) (y x u v : Z) :
  agree width height pf1 pf1' -> agree width height pf2 pf2' ->
  0 <= u -> 0 <= v -> 0 <= y -> 0 <= x ->
  patch_weight t gw pf1 pf2 (height - 1) (width - 1) y x u v
  = patch_weight t gw pf1' pf2' (height - 1) (width - 1) y x u v.
Proof.
  intros H1 H2 Hu Hv Hy Hx. unfold patch_weight.
  assert (Hd : patch_dist t gw pf1 pf2 (height - 1) (width - 1) y x u v
             = patch_dist t gw pf1' pf2' (height - 1) (width - 1) y x u v).
  { unfold patch_dist. apply for_loop_ext. intros j st Hj.
    apply for_loop_ext. intros k st' Hk.
    unfold patch_top, patch_bottom, patch_left, patch_right in *.
    rewrite (H1 (u + j) (v + k)), (H2 (y + j) (x + k)) by lia.
    reflexivity. }
  rewrite Hd. reflexivity.
Qed.

Lemma WOZ_plane_agree gw (pfp pfp' : Plane) (d : SDATA) (dstp : Plane) :
  agree width height pfp pfp' ->
  WOZ_plane t gw pfp width height d dstp
  = WOZ_plane t gw pfp' width height d dstp.
Proof.
  intros Hag. unfold WOZ_plane.
  apply for_loop_ext. intros y st Hy. apply for_loop_ext. intros x st' Hx.
  unfold WOZ_pixel. rewrite (Hag y x) by lia.
  assert (Hscan : WOZ_scan t gw pfp width height y x (fst st')
                = WOZ_scan t gw pfp' width height y x (fst st')).
  { unfold WOZ_scan. apply for_loop_ext. intros u d1 Hu.
    apply for_loop_ext. intros v d2 Hv.
    assert (Hvr : 0 <= v <= width - 1) by (destruct (Z.eqb_spec u y); lia).
    rewrite (Hag y x), (Hag u v) by lia.
    rewrite (patch_weight_agree gw pfp pfp' pfp pfp') by (assumption || lia).
    reflexivity. }
  rewrite Hscan. reflexivity.
Qed.

Lemma WZ_plane_agree gw (pfplut pfplut' : Z -> Plane) (srcp srcp' : Plane)
    poslut plane n fc dstp :
  (forall z, startz t n <= z <= stopz t n ->
     agree width height (pfplut z) (pfplut' z)) ->
  agree width height srcp srcp' ->
  WZ_plane t gw pfplut srcp poslut plane width height n fc dstp
  = WZ_plane t gw pfplut' srcp' poslut plane width height n fc dstp.
Proof.
  intros Hlut Hsrc. unfold WZ_plane.
  apply for_loop_ext. intros y st Hy. apply for_loop_ext. intros x st' Hx.
  unfold WZ_pixel. rewrite (Hsrc y x) by lia.
  assert (Hscan : WZ_scan t gw pfplut srcp poslut plane width height n y x (fst st')
                = WZ_scan t gw pfplut' srcp' poslut plane width height n y x
                    (fst st')).
  { unfold WZ_scan. apply for_loop_ext. intros z fc1 Hz. unfold WZ_slot.
    destruct (slot_dsa fc1 (poslut (Az t)) z =? 1); [reflexivity|].
    apply for_loop_ext. intros u fc2 Hu.
    apply for_loop_ext. intros v fc3 Hv.
    assert (Hur : 0 <= u <= height - 1)
      by (destruct (Z.eqb_spec z (Az t)); lia).
    assert (Hvr : 0 <= v <= width - 1)
      by (destruct ((u =? y) && (z =? Az t)); lia).
    unfold WZ_candidate.
    rewrite (Hsrc y x), (Hlut z Hz u v) by lia.
    rewrite (patch_weight_agree gw (pfplut z) (pfplut' z) srcp srcp')
      by (auto || lia).
    reflexivity. }
  rewrite Hscan. reflexivity.
Qed.

Lemma block_candidate_agree gw (pf1 pf1' pf2 pf2' : Plane) (y x u v : Z)
    (self : bool) (s : Tile) :
  agree width height pf1 pf1' -> agree width height pf2 pf2' ->
  By t <= u -> Bx t <= v -> 0 <= y -> 0 <= x ->
  block_candidate t gw pf1 pf2 (height - 1) (width - 1) y x u v self s
  = block_candidate t gw pf1' pf2' (height - 1) (width - 1) y x u v self s.
Proof.
  intros H1 H2 Hu Hv Hy Hx. destruct Hradii as [HBx HBy].
  unfold block_candidate. destruct self; [reflexivity|].
  rewrite (patch_weight_agree gw pf1 pf1' pf2 pf2') by (assumption || lia).
  f_equal. unfold block_smear.
  apply for_loop_ext. intros j sb Hj. apply for_loop_ext. intros k sb' Hk.
  rewrite (H1 (u + j) (v + k)) by lia. reflexivity.
Qed.

Lemma tile_finish_agree (srcp srcp' : Plane) (y x : Z) (s : Tile) dstp :
  agree width height srcp srcp' ->
  By t <= y -> Bx t <= x ->
  tile_finish t srcp width height y x s dstp
  = tile_finish t srcp' width height y x s dstp.
Proof.
  intros Hag Hy Hx. unfold tile_finish.
  apply for_loop_ext. intros j st Hj. apply for_loop_ext. intros k st' Hk.
  rewrite (Hag (y - By t + j) (x - Bx t + k)) by lia. reflexivity.
Qed.

Lemma WOZB_plane_agree gw (pfp pfp' : Plane) sb wb dstp :
  agree width height pfp pfp' ->
  WOZB_plane t gw pfp width height sb wb dstp
  = WOZB_plane t gw pfp' width height sb wb dstp.
Proof.
  intros Hag. unfold WOZB_plane. destruct Hradii as [HBx HBy].
  apply for_each_ext. intros y st Hy. apply for_each_ext. intros x st' Hx.
  destruct (tile_centre y x Hy Hx) as [Hyr Hxr].
  unfold WOZB_tile.
  rewrite (tile_finish_agree pfp pfp') by (assumption || lia).
  f_equal. apply for_loop_ext. intros u s Hu.
  apply for_loop_ext. intros v s' Hv.
  apply block_candidate_agree; assumption || lia.
Qed.

Lemma WZB_plane_agree gw (pfplut pfplut' : Z -> Plane) (srcp srcp' : Plane)
    n sb wb dstp :
  (forall z, startz t n <= z <= stopz t n ->
     agree width height (pfplut z) (pfplut' z)) ->
  agree width height srcp srcp' ->
  WZB_plane t gw pfplut srcp width height n sb wb dstp
  = WZB_plane t gw pfplut' srcp' width height n sb wb dstp.
Proof.
  intros Hlut Hsrc. unfold WZB_plane. destruct Hradii as [HBx HBy].
  apply for_each_ext. intros y st Hy. apply for_each_ext. intros x st' Hx.
  destruct (tile_centre y x Hy Hx) as [Hyr Hxr].
  unfold WZB_tile.
  rewrite (tile_finish_agree srcp srcp') by (assumption || lia).
  f_equal. apply for_loop_ext. intros z s Hz.
  apply for_loop_ext. intros u s' Hu.
  apply for_loop_ext. intros v s'' Hv.
  apply block_candidate_agree; auto; lia.
Qed.

End Reads.

(** C8.  For an engine built by the constructor, every pixel read of the
    four variants falls inside the frame: the coordinates listed by
    [WOZ_reads], [WOZB_reads], [WZ_reads] and [WZB_reads] lie in
    [0, height-1] x [0, width-1] (and the slots of the temporal variants in
    the window), the kernel indices lie in the table, and the result of each
    variant on a plane is the same for any two sources that agree inside the
    frame. *)
Theorem reads_stay_inside (t : TNLMeans) (width height n : Z) :
  constructed t ->
  (Forall (inside width height) (WOZ_reads t width height) /\
   Forall (inside width height) (WOZB_reads t width height) /\
   Forall (inside_slot t width height) (WZ_reads t width height n) /\
   Forall (inside_slot t width height) (WZB_reads t width height n)) /\
  (forall y x u v i,
     In i (patch_gw_reads t (height - 1) (width - 1) y x u v) ->
     0 <= i < Sxd t * Syd t) /\
  (forall gw pfp pfp' d dstp,
     agree width height pfp pfp' ->
     WOZ_plane t gw pfp width height d dstp
     = WOZ_plane t gw pfp' width height d dstp) /\
  (forall gw pfp pfp' sb wb dstp,
     agree width height pfp pfp' ->
     WOZB_plane t gw pfp width height sb wb dstp
     = WOZB_plane t gw pfp' width height sb wb dstp) /\
  (forall gw pfplut pfplut' srcp srcp' poslut plane fc dstp,
     (forall z, startz t n <= z <= stopz t n ->
        agree width height (pfplut z) (pfplut' z)) ->
     agree width height srcp srcp' ->
     WZ_plane t gw pfplut srcp poslut plane width height n fc dstp
     = WZ_plane t gw pfplut' srcp' poslut plane width height n fc dstp) /\
  (forall gw pfplut pfplut' srcp srcp' sb wb dstp,
     (forall z, startz t n <= z <= stopz t n ->
        agree width height (pfplut z) (pfplut' z)) ->
     agree width height srcp srcp' ->
     WZB_plane t gw pfplut srcp width height n sb wb dstp
     = WZB_plane t gw pfplut' srcp' width height n sb wb dstp).
Proof.
  intros Hcon.
  destruct (constructed_derived t Hcon)
    as [[HAx [HAy [HAz [HBx [HBy [HSx HSy]]]]]]
        [[HSxd [HSyd [HBxd [HByd _]]]] _]].
  assert (Hradii : 0 <= Bx t <= Sx t /\ 0 <= By t <= Sy t) by lia.
  assert (Hstride : Bxd t = Bx t * 2 + 1 /\ Byd t = By t * 2 + 1) by lia.
  split; [|split; [|split; [|split; [|split]]]].
  - split; [apply WOZ_reads_inside|].
    split; [apply WOZB_reads_inside; assumption|].
    split; [apply WZ_reads_inside; lia|].
    apply WZB_reads_inside; assumption.
  - intros y x u v i Hi. rewrite HSyd.
    eapply patch_gw_inside; try eassumption; lia.
  - intros. apply WOZ_plane_agree. assumption.
  - intros. apply WOZB_plane_agree; assumption.
  - intros. apply WZ_plane_agree; assumption.
  - intros. apply WZB_plane_agree; assumption.
Qed.

Lemma engine_r3_constructed : constructed engine_r3.
Proof.
  exists 3, 3, 0, 3, 3, 0, 0, 1%R, 1%R, false, (vi_gray 8 8 1), 1.
  unfold TNLMeans_new. cbn [vi_gray format colorFamily bitsPerSample is_cmCompat
                            Z.eqb Pos.eqb negb Z.ltb Z.compare Pos.compare].
  destruct (Rle_dec 1 0) as [H1|_]; [exfalso; lra|].
  reflexivity.
Qed.

(** The border example of the specification: the pixel at (0,0) with
    Ax = Ay = Sx = Sy = 3 and its candidate (3,3) read no negative
    coordinate. *)
Lemma reads_stay_inside_witness :
  constructed engine_r3 /\
  Forall (inside 8 8) (WOZ_reads engine_r3 8 8) /\
  In (0, 0) (patch_reads_target engine_r3 7 7 0 0 3 3).
Proof.
  split; [exact engine_r3_constructed|].
  destruct (reads_stay_inside engine_r3 8 8 0 engine_r3_constructed)
    as [[Hwoz _] _].
  split; [exact Hwoz|].
  unfold patch_reads_target, patch_offsets. apply in_map_iff.
  exists (0, 0). split; [reflexivity|].
  apply in_prod_iff. split; apply in_range; cbn; lia.
Defined.

(** ** Observations of the cache *)

Lemma slot_ds_set_ds (fc : nlCache) (P pl : Z) (d : SDATA) (P' pl' : Z) :
  slot_ds (set_slot_ds fc P pl d) P' pl'
  = if (P' =? P) && (pl' =? pl) then d else slot_ds fc P' pl'.
Proof.
  unfold slot_ds, set_slot_ds, set_frame, set_ds, upd. cbn [frames ds].
  destruct (P' =? P) eqn:HP; cbn [ds andb]; [|reflexivity].
  apply Z.eqb_eq in HP. subst P'. destruct (pl' =? pl); reflexivity.
Qed.

Lemma slot_dsa_set_ds (fc : nlCache) (P pl : Z) (d : SDATA) (P' i : Z) :
  slot_dsa (set_slot_ds fc P pl d) P' i = slot_dsa fc P' i.
Proof.
  unfold slot_dsa, set_slot_ds, set_frame, set_ds, upd. cbn [frames].
  destruct (Z.eqb_spec P' P) as [->|_]; reflexivity.
Qed.

Lemma slot_ds_set_dsa (fc : nlCache) (P i v : Z) (P' pl : Z) :
  slot_ds (set_slot_dsa fc P i v) P' pl = slot_ds fc P' pl.
Proof.
  unfold slot_ds, set_slot_dsa, set_frame, set_dsa, upd. cbn [frames].
  destruct (Z.eqb_spec P' P) as [->|_]; reflexivity.
Qed.

Lemma slot_dsa_set_dsa (fc : nlCache) (P i v : Z) (P' i' : Z) :
  slot_dsa (set_slot_dsa fc P i v) P' i'
  = if (P' =? P) && (i' =? i) then v else slot_dsa fc P' i'.
Proof.
  unfold slot_dsa, set_slot_dsa, set_frame, set_dsa, upd. cbn [frames dsa].
  destruct (P' =? P) eqn:HP; cbn [dsa andb]; [|reflexivity].
  apply Z.eqb_eq in HP. subst P'. destruct (i' =? i); reflexivity.
Qed.

Lemma same_shell_refl (fc : nlCache) : same_shell fc fc.
Proof. unfold same_shell. auto. Qed.

Lemma same_shell_trans (fc1 fc2 fc3 : nlCache) :
  same_shell fc1 fc2 -> same_shell fc2 fc3 -> same_shell fc1 fc3.
Proof.
  intros [Hs1 [Hz1 Hf1]] [Hs2 [Hz2 Hf2]]. unfold same_shell.
  split; [congruence|]. split; [congruence|].
  intros P. destruct (Hf1 P), (Hf2 P). split; congruence.
Qed.

Lemma same_shell_set_ds (fc : nlCache) (P pl : Z) (d : SDATA) :
  same_shell fc (set_slot_ds fc P pl d).
Proof.
  unfold same_shell, set_slot_ds, set_frame, set_ds, upd.
  cbn [start_pos size frames]. split; [reflexivity|]. split; [reflexivity|].
  intros P'. destruct (Z.eqb_spec P' P) as [->|_]; split; reflexivity.
Qed.

Lemma same_shell_set_dsa (fc : nlCache) (P i v : Z) :
  same_shell fc (set_slot_dsa fc P i v).
Proof.
  unfold same_shell, set_slot_dsa, set_frame, set_dsa, upd.
  cbn [start_pos size frames]. split; [reflexivity|]. split; [reflexivity|].
  intros P'. destruct (Z.eqb_spec P' P) as [->|_]; split; reflexivity.
Qed.

Lemma same_shell_getCachePos (fc fc' : nlCache) (i : Z) :
  same_shell fc fc' -> getCachePos fc' i = getCachePos fc i.
Proof.
  intros [Hs [Hz _]]. unfold getCachePos. rewrite Hs, Hz. reflexivity.
Qed.

Lemma scan_obs_refl (plane : Z) (fc : nlCache) :
  scan_obs plane (fun _ => []) fc fc.
Proof.
  unfold scan_obs. split; [|split].
  - intros P. reflexivity.
  - intros P pl _. reflexivity.
  - apply same_shell_refl.
Qed.

Lemma scan_obs_trans (plane : Z) ev1 ev2 (fc1 fc2 fc3 : nlCache) :
  scan_obs plane ev1 fc1 fc2 -> scan_obs plane ev2 fc2 fc3 ->
  scan_obs plane (fun P => ev1 P ++ ev2 P) fc1 fc3.
Proof.
  intros [Hd1 [Ho1 Hs1]] [Hd2 [Ho2 Hs2]]. unfold scan_obs. split; [|split].
  - intros P. rewrite Hd2, Hd1, hits_app. reflexivity.
  - intros P pl Hpl. rewrite Ho2, Ho1 by exact Hpl. reflexivity.
  - eapply same_shell_trans; eassumption.
Qed.

Lemma scan_obs_ext (plane : Z) ev ev' (fc fc' : nlCache) :
  (forall P, ev P = ev' P) -> scan_obs plane ev fc fc' ->
  scan_obs plane ev' fc fc'.
Proof.
  intros Hev [Hd [Ho Hs]]. unfold scan_obs. split; [|split; assumption].
  intros P. rewrite <- Hev. apply Hd.
Qed.

Lemma same_flags_refl (fc : nlCache) : same_flags fc fc.
Proof. intros P i. reflexivity. Qed.

Lemma same_flags_trans (fc1 fc2 fc3 : nlCache) :
  same_flags fc1 fc2 -> same_flags fc2 fc3 -> same_flags fc1 fc3.
Proof. intros H1 H2 P i. rewrite H2, H1. reflexivity. Qed.

(** A loop whose steps each add a run of samples adds their concatenation,
    as long as the steps leave the flags alone. *)
Lemma fold_obs {A : Type} (plane : Z) (step : nlCache -> A -> nlCache)
    (ev : A -> Z -> list (Z * (Z * R))) (l : list A) (fc : nlCache) :
  (forall fc1 a, In a l -> same_flags fc fc1 ->
     scan_obs plane (ev a) fc1 (step fc1 a) /\ same_flags fc1 (step fc1 a)) ->
  scan_obs plane (fun P => flat_map (fun a => ev a P) l) fc (fold_left step l fc)
  /\ same_flags fc (fold_left step l fc).
Proof.
  revert fc. induction l as [|a l IH]; intros fc Hstep.
  - split; [apply scan_obs_refl|apply same_flags_refl].
  - cbn [fold_left flat_map].
    destruct (Hstep fc a (or_introl eq_refl) (same_flags_refl fc)) as [Ha Hfa].
    destruct (IH (step fc a)) as [Hl Hfl].
    + intros fc1 b Hb Hf1. apply Hstep; [right; exact Hb|].
      eapply same_flags_trans; eassumption.
    + split.
      * apply (scan_obs_trans plane _ _ _ _ _ Ha Hl).
      * eapply same_flags_trans; eassumption.
Qed.

Section TemporalScan.

Variable t : TNLMeans.
Variable gw : Z -> R.
Variable pfplut : Z -> Plane.
Variable srcp : Plane.
Variable poslut : Z -> Z.
Variables plane width height n : Z.

Hypothesis Hdm1 : Azdm1 t = 2 * Az t.
Hypothesis Hinj :
  forall z, startz t n <= z <= stopz t n -> z <> Az t -> poslut z <> (poslut (Az t)).

(** The innermost body of [WZ_scan]. *)
Lemma WZ_candidate_obs (z : Z) (p c : Z * Z) (b : bool) (fc : nlCache) :
  (slot_dsa fc (poslut z) (Azdm1 t - z) =? 1) = b ->
  scan_obs plane
    (fun P => WZ_cand_events t gw pfplut srcp poslut width height b P z p c)
    fc (WZ_candidate t gw pfplut srcp poslut plane width height z
          (fst p) (snd p) (fst c) (snd c) fc)
  /\ same_flags fc
       (WZ_candidate t gw pfplut srcp poslut plane width height z
          (fst p) (snd p) (fst c) (snd c) fc).
Proof.
  intros Hb. unfold WZ_candidate.
  set (w := patch_weight t gw (pfplut z) srcp (height - 1) (width - 1)
              (fst p) (snd p) (fst c) (snd c)).
  set (fc1 := set_slot_ds fc (poslut (Az t)) plane _).
  assert (Hflag : slot_dsa fc1 (poslut z) (Azdm1 t - z)
                = slot_dsa fc (poslut z) (Azdm1 t - z)).
  { subst fc1. apply slot_dsa_set_ds. }
  rewrite Hflag, Hb. unfold WZ_cand_events.
  unfold WZ_weight. fold w. unfold flat_index.
  destruct b; cbn [negb andb].
  - split.
    + unfold scan_obs. split; [|split].
      * intros P. subst fc1. rewrite slot_ds_set_ds, Z.eqb_refl, andb_true_r.
        rewrite andb_false_r, app_nil_r.
        destruct (Z.eqb_spec P (poslut (Az t))) as [->|_]; reflexivity.
      * intros P pl Hpl. subst fc1. rewrite slot_ds_set_ds.
        destruct (Z.eqb_spec pl plane); [contradiction|].
        rewrite andb_false_r. reflexivity.
      * subst fc1. apply same_shell_set_ds.
    + intros P i. subst fc1. apply slot_dsa_set_ds.
  - split.
    + unfold scan_obs. split; [|split].
      * intros P. rewrite !slot_ds_set_ds, !Z.eqb_refl, !andb_true_r.
        subst fc1. rewrite !slot_ds_set_ds, !Z.eqb_refl, !andb_true_r.
        destruct (Z.eqb_spec P (poslut z)) as [->|HPz];
          destruct (Z.eqb_spec (poslut z) (poslut (Az t))) as [Hzc|Hzc];
          try rewrite Hzc; try rewrite Z.eqb_refl;
          try (destruct (Z.eqb_spec P (poslut (Az t))) as [->|HPc]); try reflexivity;
          try contradiction.
      * intros P pl Hpl. subst fc1. rewrite !slot_ds_set_ds.
        destruct (Z.eqb_spec pl plane); [contradiction|].
        rewrite !andb_false_r. reflexivity.
      * eapply same_shell_trans; [|apply same_shell_set_ds].
        subst fc1. apply same_shell_set_ds.
    + intros P i. rewrite slot_dsa_set_ds. subst fc1. apply slot_dsa_set_ds.
Qed.

Lemma WZ_slot_obs (z : Z) (p : Z * Z) (sk csk : Z -> bool) (fc : nlCache) :
  startz t n <= z <= stopz t n ->
  flag_pattern t poslut n sk csk fc -> csk (Az t) = false ->
  scan_obs plane
    (fun P => if sk z then []
              else flat_map (WZ_cand_events t gw pfplut srcp poslut width height
                               (csk z) P z p)
                            (WZ_cands t width height z p))
    fc (WZ_slot t gw pfplut srcp poslut plane width height (fst p) (snd p) z fc)
  /\ (forall P i,
        slot_dsa (WZ_slot t gw pfplut srcp poslut plane width height
                    (fst p) (snd p) z fc) P i
        = if (P =? (poslut (Az t))) && (i =? z) && negb (sk z) then 2
          else slot_dsa fc P i).
Proof.
  intros Hz Hpat Hcsk. destruct (Hpat z Hz) as [Hsk Hc].
  unfold WZ_slot. rewrite Hsk. destruct (sk z) eqn:Hskz.
  - split; [apply scan_obs_refl|].
    intros P i. rewrite andb_false_r. reflexivity.
  - set (fc1 := set_slot_dsa fc (poslut (Az t)) z 2).
    unfold for_loop.
    rewrite (for_each_nested _
               (fun u => range (if (u =? fst p) && (z =? Az t)
                                then snd p + 1 else Z.max (snd p - Ax t) 0)
                               (Z.min (snd p + Ax t) (width - 1)))
               (fun u v fc =>
                  WZ_candidate t gw pfplut srcp poslut plane width height z
                    (fst p) (snd p) u v fc)).
    change (flat_map _ (range _ _)) with (WZ_cands t width height z p).
    destruct (fold_obs plane
                (fun fc c => WZ_candidate t gw pfplut srcp poslut plane width
                               height z (fst p) (snd p) (fst c) (snd c) fc)
                (fun c P => WZ_cand_events t gw pfplut srcp poslut width height
                              (csk z) P z p c)
                (WZ_cands t width height z p) fc1) as [Hobs Hfl].
    + intros fc2 c _ Hf2. apply WZ_candidate_obs.
      rewrite Hf2. subst fc1. rewrite slot_dsa_set_dsa.
      destruct (Z.eq_dec z (Az t)) as [Hza|Hza].
      * rewrite Hza. rewrite Z.eqb_refl.
        replace (Azdm1 t - Az t) with (Az t) by lia.
        rewrite Z.eqb_refl. cbn [andb]. rewrite Hcsk. reflexivity.
      * destruct (Z.eqb_spec (poslut z) (poslut (Az t))) as [Heq|_];
          [exfalso; apply (Hinj z Hz Hza); exact Heq|].
        cbn [andb]. apply Hc. exact Hza.
    + split.
      * eapply scan_obs_ext;
          [|eapply (scan_obs_trans plane (fun _ => []) _ fc fc1);
            [|exact Hobs]].
        -- intros P. reflexivity.
        -- unfold scan_obs. split; [|split].
           ++ intros P. subst fc1. rewrite slot_ds_set_dsa. reflexivity.
           ++ intros P pl _. subst fc1. apply slot_ds_set_dsa.
           ++ subst fc1. apply same_shell_set_dsa.
      * intros P i. rewrite Hfl. subst fc1. rewrite slot_dsa_set_dsa.
        rewrite andb_true_r. reflexivity.
Qed.

Lemma WZ_slot_pattern (z : Z) (p : Z * Z) (sk csk : Z -> bool) (fc : nlCache) :
  startz t n <= z <= stopz t n ->
  flag_pattern t poslut n sk csk fc -> csk (Az t) = false ->
  flag_pattern t poslut n sk csk
    (WZ_slot t gw pfplut srcp poslut plane width height (fst p) (snd p) z fc).
Proof.
  intros Hz Hpat Hcsk z' Hz'.
  destruct (WZ_slot_obs z p sk csk fc Hz Hpat Hcsk) as [_ Hfl].
  destruct (Hpat z' Hz') as [Hsk' Hc']. rewrite !Hfl. split.
  - rewrite Z.eqb_refl. cbn [andb].
    destruct (Z.eqb_spec z' z) as [->|_]; [|exact Hsk'].
    cbn [andb]. destruct (sk z) eqn:Hskz; [exact Hsk'|reflexivity].
  - intros Hne. destruct (Z.eqb_spec (poslut z') (poslut (Az t))) as [Heq|_];
      [exfalso; apply (Hinj z' Hz' Hne); exact Heq|].
    cbn [andb]. apply Hc'. exact Hne.
Qed.

Lemma WZ_slots_obs (l : list Z) (p : Z * Z) (sk csk : Z -> bool)
    (fc : nlCache) :
  (forall z, In z l -> startz t n <= z <= stopz t n) ->
  flag_pattern t poslut n sk csk fc -> csk (Az t) = false ->
  let fc' := for_each l (fun z fc =>
               WZ_slot t gw pfplut srcp poslut plane width height
                 (fst p) (snd p) z fc) fc in
  scan_obs plane
    (fun P => flat_map (fun z =>
       if sk z then []
       else flat_map (WZ_cand_events t gw pfplut srcp poslut width height
                        (csk z) P z p)
                     (WZ_cands t width height z p)) l) fc fc'
  /\ flag_pattern t poslut n sk csk fc'
  /\ (forall P i,
        slot_dsa fc' P i
        = if (P =? (poslut (Az t))) && existsb (Z.eqb i) l && negb (sk i) then 2
          else slot_dsa fc P i).
Proof.
  revert fc. induction l as [|z l IH]; intros fc Hl Hpat Hcsk.
  - cbn. split; [apply scan_obs_refl|]. split; [exact Hpat|].
    intros P i. rewrite andb_false_r. reflexivity.
  - cbn zeta. unfold for_each. cbn [fold_left flat_map].
    assert (Hz : startz t n <= z <= stopz t n) by (apply Hl; left; reflexivity).
    destruct (WZ_slot_obs z p sk csk fc Hz Hpat Hcsk) as [Hobs Hfl].
    pose proof (WZ_slot_pattern z p sk csk fc Hz Hpat Hcsk) as Hpat'.
    destruct (IH _ (fun z' Hz' => Hl z' (or_intror Hz')) Hpat' Hcsk)
      as [Hobs' [Hpat'' Hfl']].
    split; [|split].
    + apply (scan_obs_trans plane _ _ _ _ _ Hobs Hobs').
    + exact Hpat''.
    + intros P i. unfold for_each in Hfl'. rewrite Hfl', Hfl.
      cbn [existsb]. rewrite (Z.eqb_sym i z).
      destruct (P =? (poslut (Az t))); cbn [andb]; [|reflexivity].
      destruct (Z.eqb_spec z i) as [->|_]; cbn [orb andb].
      * destruct (existsb (Z.eqb i) l); cbn [andb];
          destruct (sk i); reflexivity.
      * reflexivity.
Qed.

Lemma existsb_range (lo hi i : Z) :
  existsb (Z.eqb i) (range lo hi) = (lo <=? i) && (i <=? hi).
Proof.
  destruct (existsb (Z.eqb i) (range lo hi)) eqn:Hex.
  - apply existsb_exists in Hex. destruct Hex as [k [Hk Heq]].
    apply Z.eqb_eq in Heq. subst k. apply in_range in Hk.
    symmetry. apply andb_true_iff. split; apply Z.leb_le; lia.
  - symmetry. apply andb_false_iff.
    destruct (Z.leb_spec lo i) as [Hlo|Hlo]; [|left; reflexivity].
    destruct (Z.leb_spec i hi) as [Hhi|Hhi]; [|right; reflexivity].
    exfalso. assert (Hin : In i (range lo hi)) by (apply in_range; lia).
    assert (Htrue : existsb (Z.eqb i) (range lo hi) = true).
    { apply existsb_exists. exists i. split; [exact Hin|apply Z.eqb_refl]. }
    congruence.
Qed.

Lemma WZ_scan_obs (p : Z * Z) (sk csk : Z -> bool) (fc : nlCache) :
  flag_pattern t poslut n sk csk fc -> csk (Az t) = false ->
  let fc' := WZ_scan t gw pfplut srcp poslut plane width height n
               (fst p) (snd p) fc in
  scan_obs plane
    (fun P => WZ_events t gw pfplut srcp poslut width height n sk csk P p)
    fc fc'
  /\ flag_pattern t poslut n sk csk fc'
  /\ (forall P i,
        slot_dsa fc' P i
        = if (P =? poslut (Az t)) && ((startz t n <=? i) && (i <=? stopz t n))
             && negb (sk i)
          then 2 else slot_dsa fc P i).
Proof.
  intros Hpat Hcsk fc'. subst fc'. unfold WZ_scan, for_loop.
  destruct (WZ_slots_obs (range (startz t n) (stopz t n)) p sk csk fc)
    as [Hobs [Hpat' Hfl]]; try assumption.
  - intros z Hz. apply in_range. exact Hz.
  - split; [exact Hobs|]. split; [exact Hpat'|].
    intros P i. rewrite Hfl, existsb_range. reflexivity.
Qed.

(** One pixel of the centre frame: the scan, then the self term in the
    centre cell of the pixel. *)
Lemma WZ_pixel_obs (p : Z * Z) (sk csk : Z -> bool) (st : nlCache * Plane) :
  flag_pattern t poslut n sk csk (fst st) -> csk (Az t) = false ->
  let st' := WZ_pixel t gw pfplut srcp poslut plane width height n
               (fst p) (snd p) st in
  flag_pattern t poslut n sk csk (fst st') /\
  same_shell (fst st) (fst st') /\
  (forall P pl, pl <> plane -> slot_ds (fst st') P pl = slot_ds (fst st) P pl) /\
  (forall P i, P <> poslut (Az t) \/ i <> flat_index width p ->
     cell (slot_ds (fst st') P plane) i
     = fold_left acc_add
         (landing i (WZ_events t gw pfplut srcp poslut width height n sk csk P p))
         (cell (slot_ds (fst st) P plane) i)) /\
  (forall P i,
     slot_dsa (fst st') P i
     = if (P =? poslut (Az t)) && ((startz t n <=? i) && (i <=? stopz t n))
          && negb (sk i)
       then 2 else slot_dsa (fst st) P i) /\
  snd st' (fst p) (snd p)
  = acc_pixel
      (fold_left acc_add
         (landing (flat_index width p)
            (WZ_events t gw pfplut srcp poslut width height n sk csk
               (poslut (Az t)) p))
         (cell (slot_ds (fst st) (poslut (Az t)) plane) (flat_index width p)))
      (srcp (fst p) (snd p)) /\
  (forall r c, r <> fst p \/ c <> snd p -> snd st' r c = snd st r c).
Proof.
  intros Hpat Hcsk st'.
  destruct (WZ_scan_obs p sk csk (fst st) Hpat Hcsk) as [[Hd [Ho Hs]] [Hpat' Hfl]].
  subst st'. unfold WZ_pixel. cbn [fst snd].
  set (fc1 := WZ_scan t gw pfplut srcp poslut plane width height n
                (fst p) (snd p) (fst st)) in *.
  split; [|split; [|split; [|split; [|split; [|split]]]]].
  - intros z Hz. rewrite !slot_dsa_set_ds. apply Hpat'. exact Hz.
  - eapply same_shell_trans; [exact Hs|apply same_shell_set_ds].
  - intros P pl Hpl. rewrite slot_ds_set_ds.
    destruct (Z.eqb_spec pl plane); [contradiction|].
    rewrite andb_false_r. apply Ho. exact Hpl.
  - intros P i HPi. rewrite slot_ds_set_ds, Z.eqb_refl, andb_true_r.
    destruct (Z.eqb_spec P (poslut (Az t))) as [->|HP].
    + rewrite cell_finish_other.
      * rewrite Hd, cell_hits. reflexivity.
      * destruct HPi as [HP|Hi]; [contradiction|exact Hi].
    + rewrite Hd, cell_hits. reflexivity.
  - intros P i. rewrite slot_dsa_set_ds. apply Hfl.
  - rewrite upd2_same, finish_pixel, Hd, cell_hits. reflexivity.
  - intros r c Hrc. apply upd2_other. exact Hrc.
Qed.

(** A run of pixels of the centre frame. *)
Lemma WZ_pixels_obs (l : list (Z * Z)) (sk csk : Z -> bool)
    (st : nlCache * Plane) :
  flag_pattern t poslut n sk csk (fst st) -> csk (Az t) = false ->
  let st' := fold_left (fun st c =>
               WZ_pixel t gw pfplut srcp poslut plane width height n
                 (fst c) (snd c) st) l st in
  flag_pattern t poslut n sk csk (fst st') /\
  same_shell (fst st) (fst st') /\
  (forall P pl, pl <> plane -> slot_ds (fst st') P pl = slot_ds (fst st) P pl) /\
  (forall P i,
     P <> poslut (Az t) \/ (forall q, In q l -> flat_index width q <> i) ->
     cell (slot_ds (fst st') P plane) i
     = fold_left acc_add
         (flat_map (fun q =>
            landing i (WZ_events t gw pfplut srcp poslut width height n sk csk
                         P q)) l)
         (cell (slot_ds (fst st) P plane) i)) /\
  (forall P i,
     slot_dsa (fst st') P i
     = if (P =? poslut (Az t)) && ((startz t n <=? i) && (i <=? stopz t n))
          && negb (sk i) && negb (Nat.eqb (List.length l) 0)
       then 2 else slot_dsa (fst st) P i).
Proof.
  revert st. induction l as [|q l IH]; intros st Hpat Hcsk.
  - cbn. split; [exact Hpat|]. split; [apply same_shell_refl|].
    split; [reflexivity|]. split; [reflexivity|].
    intros P i. rewrite andb_false_r. reflexivity.
  - cbn zeta. cbn [fold_left flat_map List.length Nat.eqb negb].
    destruct (WZ_pixel_obs q sk csk st Hpat Hcsk)
      as [Hpat1 [Hs1 [Ho1 [Hc1 [Hf1 _]]]]].
    destruct (IH _ Hpat1 Hcsk) as [Hpat2 [Hs2 [Ho2 [Hc2 Hf2]]]].
    split; [exact Hpat2|]. split; [eapply same_shell_trans; eassumption|].
    split; [|split].
    + intros P pl Hpl. rewrite Ho2, Ho1 by exact Hpl. reflexivity.
    + intros P i HPi. rewrite fold_left_app. rewrite Hc2, Hc1.
      * reflexivity.
      * destruct HPi as [HP|Hi]; [left; exact HP|right].
        intros Heq. apply (Hi q); [left; reflexivity|]. symmetry. exact Heq.
      * destruct HPi as [HP|Hi]; [left; exact HP|right].
        intros q' Hq'. apply Hi. right. exact Hq'.
    + intros P i. rewrite Hf2, Hf1. rewrite andb_true_r.
      destruct ((P =? poslut (Az t))
                && ((startz t n <=? i) && (i <=? stopz t n)) && negb (sk i));
        cbn [andb]; [|reflexivity].
      destruct (negb (Nat.eqb (List.length l) 0)); reflexivity.
Qed.

(** A whole plane: the pixel written at [(y, x)] comes from the centre cell
    as the pixels before it left it. *)
Lemma WZ_plane_obs (sk csk : Z -> bool) (fc : nlCache) (dstp : Plane) :
  flag_pattern t poslut n sk csk fc -> csk (Az t) = false ->
  let r := WZ_plane t gw pfplut srcp poslut plane width height n fc dstp in
  flag_pattern t poslut n sk csk (fst r) /\
  same_shell fc (fst r) /\
  (forall P pl, pl <> plane -> slot_ds (fst r) P pl = slot_ds fc P pl) /\
  (forall P i, P <> poslut (Az t) ->
     cell (slot_ds (fst r) P plane) i
     = fold_left acc_add
         (flat_map (fun q =>
            landing i (WZ_events t gw pfplut srcp poslut width height n sk csk
                         P q)) (frame_pixels width height))
         (cell (slot_ds fc P plane) i)) /\
  (forall P i,
     slot_dsa (fst r) P i
     = if (P =? poslut (Az t)) && ((startz t n <=? i) && (i <=? stopz t n))
          && negb (sk i)
          && negb (Nat.eqb (List.length (frame_pixels width height)) 0)
       then 2 else slot_dsa fc P i) /\
  (forall y x, 0 <= y < height -> 0 <= x < width ->
     snd r y x
     = acc_pixel
         (fold_left acc_add
            (flat_map (fun q =>
               landing (flat_index width (y, x))
                 (WZ_events t gw pfplut srcp poslut width height n sk csk
                    (poslut (Az t)) q)) (before width (y, x))
             ++ landing (flat_index width (y, x))
                  (WZ_events t gw pfplut srcp poslut width height n sk csk
                     (poslut (Az t)) (y, x)))
            (cell (slot_ds fc (poslut (Az t)) plane) (flat_index width (y, x))))
         (srcp y x)).
Proof.
  intros Hpat Hcsk r.
  assert (Hr : r = fold_left (fun st c =>
                 WZ_pixel t gw pfplut srcp poslut plane width height n
                   (fst c) (snd c) st) (frame_pixels width height) (fc, dstp)).
  { subst r. unfold WZ_plane, for_loop.
    rewrite (for_each_nested (range 0 (height - 1))
               (fun _ => range 0 (width - 1))
               (fun y x st =>
                  WZ_pixel t gw pfplut srcp poslut plane width height n y x st)).
    rewrite <- list_prod_flat_map. reflexivity. }
  destruct (WZ_pixels_obs (frame_pixels width height) sk csk (fc, dstp)
              Hpat Hcsk) as [Hp [Hs [Ho [Hc Hf]]]].
  rewrite <- Hr in Hp, Hs, Ho, Hc, Hf. cbn [fst] in *.
  split; [exact Hp|]. split; [exact Hs|]. split; [exact Ho|].
  split; [|split; [exact Hf|]].
  - intros P i HP. apply Hc. left. exact HP.
  - intros y x Hy Hx. subst r. unfold WZ_plane.
    rewrite (raster_written height width y x
               (fun y' x' st =>
                  WZ_pixel t gw pfplut srcp poslut plane width height n y' x' st)).
    + rewrite (raster_before width
                 (fun y' x' st =>
                    WZ_pixel t gw pfplut srcp poslut plane width height n
                      y' x' st)).
      destruct (WZ_pixels_obs (before width (y, x)) sk csk (fc, dstp)
                  Hpat Hcsk) as [Hp1 [_ [_ [Hc1 _]]]].
      set (st1 := fold_left _ (before width (y, x)) (fc, dstp)) in *.
      destruct (WZ_pixel_obs (y, x) sk csk st1 Hp1 Hcsk)
        as [_ [_ [_ [_ [_ [Hout _]]]]]].
      cbn [fst snd] in Hout. rewrite Hout. f_equal.
      rewrite fold_left_app. f_equal. rewrite Hc1; [reflexivity|].
      right. intros q Hq Heq. apply in_before in Hq. cbn [fst snd] in Hq.
      apply (flat_index_inj width) in Heq; [|lia|cbn [snd]; lia].
      subst q. cbn [fst snd] in Hq. lia.
    + intros y' x' st r0 c Hrc. unfold WZ_pixel. cbn [snd].
      apply upd2_other. exact Hrc.
    + exact Hy.
    + exact Hx.
Qed.

End TemporalScan.

(** ** The plane loop of the temporal pixel variant *)

Section TemporalFrame.

Variable t : TNLMeans.
Variable gw : Z -> R.
Variable clip : Clip.
Variable n : Z.
Variable fc2 : nlCache.
Variables sk csk : Z -> bool.

Hypothesis Hdm1 : Azdm1 t = 2 * Az t.
Hypothesis Hinj :
  forall z, startz t n <= z <= stopz t n -> z <> Az t ->
            getCachePos fc2 z <> getCachePos fc2 (Az t).
Hypothesis Hcsk : csk (Az t) = false.

Lemma WZ_frame_plane_eq (pl : Z) (st : nlCache * Frame) :
  same_shell fc2 (fst st) ->
  WZ_frame_plane t gw clip n pl st
  = (fst (WZ_plane t gw (lut_plane clip fc2 pl) (lut_plane clip fc2 pl (Az t))
            (getCachePos fc2) pl (planeWidth (vi t) pl) (planeHeight (vi t) pl)
            n (fst st) (snd st pl)),
     upd (snd st) pl
       (snd (WZ_plane t gw (lut_plane clip fc2 pl)
               (lut_plane clip fc2 pl (Az t)) (getCachePos fc2) pl
               (planeWidth (vi t) pl) (planeHeight (vi t) pl) n (fst st)
               (snd st pl)))).
Proof.
  intros Hs. unfold WZ_frame_plane. cbv zeta.
  assert (Hpos : getCachePos (fst st) = getCachePos fc2).
  { extensionality i. apply same_shell_getCachePos. exact Hs. }
  assert (Hlut : (fun i => read_plane clip
                     (pf (frames (fst st) (getCachePos (fst st) i))) pl)
                 = lut_plane clip fc2 pl).
  { extensionality i. unfold lut_plane. rewrite Hpos.
    destruct Hs as [_ [_ Hf]]. destruct (Hf (getCachePos fc2 i)) as [_ Hpf].
    rewrite Hpf. reflexivity. }
  assert (Hc : read_plane clip
                 (pf (frames (fst st) (getCachePos fc2 (Az t)))) pl
               = lut_plane clip fc2 pl (Az t)).
  { unfold lut_plane.
    destruct Hs as [_ [_ Hf]]. destruct (Hf (getCachePos fc2 (Az t))) as [_ Hpf].
    rewrite Hpf. reflexivity. }
  rewrite Hlut, Hpos, Hc. reflexivity.
Qed.

Lemma WZ_planes_obs (pls : list Z) (st : nlCache * Frame) :
  NoDup pls -> same_shell fc2 (fst st) ->
  flag_pattern t (getCachePos fc2) n sk csk (fst st) ->
  let r := for_each pls (fun plane st => WZ_frame_plane t gw clip n plane st)
             st in
  same_shell fc2 (fst r) /\
  flag_pattern t (getCachePos fc2) n sk csk (fst r) /\
  (forall P pl, ~ In pl pls -> slot_ds (fst r) P pl = slot_ds (fst st) P pl) /\
  (forall pl, ~ In pl pls -> snd r pl = snd st pl) /\
  (forall P pl i, In pl pls -> P <> getCachePos fc2 (Az t) ->
     cell (slot_ds (fst r) P pl) i
     = fold_left acc_add
         (flat_map (fun q =>
            landing i
              (WZ_events t gw (lut_plane clip fc2 pl)
                 (lut_plane clip fc2 pl (Az t)) (getCachePos fc2)
                 (planeWidth (vi t) pl) (planeHeight (vi t) pl) n sk csk P q))
            (frame_pixels (planeWidth (vi t) pl) (planeHeight (vi t) pl)))
         (cell (slot_ds (fst st) P pl) i)) /\
  (forall pl y x, In pl pls ->
     0 <= y < planeHeight (vi t) pl -> 0 <= x < planeWidth (vi t) pl ->
     snd r pl y x
     = acc_pixel
         (fold_left acc_add
            (flat_map (fun q =>
               landing (flat_index (planeWidth (vi t) pl) (y, x))
                 (WZ_events t gw (lut_plane clip fc2 pl)
                    (lut_plane clip fc2 pl (Az t)) (getCachePos fc2)
                    (planeWidth (vi t) pl) (planeHeight (vi t) pl) n sk csk
                    (getCachePos fc2 (Az t)) q))
               (before (planeWidth (vi t) pl) (y, x))
             ++ landing (flat_index (planeWidth (vi t) pl) (y, x))
                  (WZ_events t gw (lut_plane clip fc2 pl)
                     (lut_plane clip fc2 pl (Az t)) (getCachePos fc2)
                     (planeWidth (vi t) pl) (planeHeight (vi t) pl) n sk csk
                     (getCachePos fc2 (Az t)) (y, x)))
            (cell (slot_ds (fst st) (getCachePos fc2 (Az t)) pl)
                  (flat_index (planeWidth (vi t) pl) (y, x))))
         (lut_plane clip fc2 pl (Az t) y x)) /\
  (forall P i,
     slot_dsa (fst r) P i
     = if (P =? getCachePos fc2 (Az t))
          && ((startz t n <=? i) && (i <=? stopz t n)) && negb (sk i)
          && existsb (fun pl =>
               negb (Nat.eqb (List.length
                      (frame_pixels (planeWidth (vi t) pl)
                                    (planeHeight (vi t) pl))) 0)) pls
       then 2 else slot_dsa (fst st) P i).
Proof.
  revert st. induction pls as [|pl0 pls IH]; intros st Hnd Hs Hpat.
  - cbn. split; [exact Hs|]. split; [exact Hpat|].
    repeat split; try reflexivity; try (intros; contradiction).
    intros P i. rewrite andb_false_r. reflexivity.
  - cbn zeta. unfold for_each. cbn [fold_left].
    apply NoDup_cons_iff in Hnd. destruct Hnd as [Hpl0 Hnd].
    rewrite (WZ_frame_plane_eq pl0 st Hs).
    destruct (WZ_plane_obs t gw (lut_plane clip fc2 pl0)
                (lut_plane clip fc2 pl0 (Az t)) (getCachePos fc2) pl0
                (planeWidth (vi t) pl0) (planeHeight (vi t) pl0) n Hdm1 Hinj
                sk csk (fst st) (snd st pl0) Hpat Hcsk)
      as [Hp1 [Hs1 [Ho1 [Hc1 [Hf1 Hout1]]]]].
    set (r1 := WZ_plane t gw (lut_plane clip fc2 pl0)
                 (lut_plane clip fc2 pl0 (Az t)) (getCachePos fc2) pl0
                 (planeWidth (vi t) pl0) (planeHeight (vi t) pl0) n (fst st)
                 (snd st pl0)) in *.
    set (st1 := (fst r1, upd (snd st) pl0 (snd r1))).
    assert (Hs01 : same_shell fc2 (fst st1))
      by (eapply same_shell_trans; eassumption).
    destruct (IH st1 Hnd Hs01 Hp1) as [Hs2 [Hp2 [Ho2 [Hd2 [Hc2 [Hout2 Hf2]]]]]].
    unfold for_each in *.
    fold st1.
    split; [exact Hs2|]. split; [exact Hp2|].
    split; [|split; [|split; [|split]]].
    + intros P pl Hpl. rewrite Ho2 by (intros Hin; apply Hpl; right; exact Hin).
      apply Ho1. intros ->. apply Hpl. left. reflexivity.
    + intros pl Hpl. rewrite Hd2 by (intros Hin; apply Hpl; right; exact Hin).
      subst st1. cbn [snd]. apply upd_other.
      intros ->. apply Hpl. left. reflexivity.
    + intros P pl i [<-|Hin] HP.
      * rewrite Ho2 by exact Hpl0. apply Hc1. exact HP.
      * rewrite Hc2 by assumption. subst st1. cbn [fst].
        rewrite Ho1; [reflexivity|]. intros ->. contradiction.
    + intros pl y x [<-|Hin] Hy Hx.
      * rewrite Hd2 by exact Hpl0. subst st1. cbn [snd]. rewrite upd_same.
        apply Hout1; assumption.
      * rewrite Hout2 by assumption. subst st1. cbn [fst].
        rewrite Ho1; [reflexivity|]. intros ->. contradiction.
    + intros P i. rewrite Hf2. subst st1. cbn [fst]. rewrite Hf1.
      cbn [existsb].
      destruct ((P =? getCachePos fc2 (Az t))
                && ((startz t n <=? i) && (i <=? stopz t n)) && negb (sk i));
        cbn [andb]; [|reflexivity].
      destruct (negb (Nat.eqb (List.length
                  (frame_pixels (planeWidth (vi t) pl0)
                                (planeHeight (vi t) pl0))) 0));
        cbn [orb]; [|reflexivity].
      destruct (existsb _ pls); reflexivity.
Qed.

End TemporalFrame.

(** ** The cache across two consecutive temporal requests *)

Lemma find_none_all {A : Type} (f : A -> bool) (l : list A) :
  (forall x, In x l -> f x = false) -> find f l = None.
Proof.
  induction l as [|a l IH]; intros Hall; [reflexivity|].
  cbn [find]. rewrite Hall by (left; reflexivity).
  apply IH. intros x Hx. apply Hall. right. exact Hx.
Qed.



(** ** The samples of two consecutive temporal requests *)

Section TemporalSamples.

Variable t : TNLMeans.
Variable gw : Z -> R.
Variables width height : Z.

Hypothesis HAz : Az t = 1.

Lemma WZ_cands_window (z : Z) (p : Z * Z) :
  z <> Az t -> WZ_cands t width height z p = window t width height p.
Proof.
  intros Hz. unfold WZ_cands, window. rewrite list_prod_flat_map.
  destruct (Z.eqb_spec z (Az t)) as [|_]; [contradiction|].
  apply flat_map_ext_in. intros u _. rewrite andb_false_r. reflexivity.
Qed.




(** The centre slot receives the candidate's byte at the centre's cell. *)
Lemma slot_events_centre pfplut srcp poslut (b : bool) (P z : Z) (p : Z * Z) :
  z <> Az t -> P = poslut (Az t) -> P <> poslut z ->
  flat_map (WZ_cand_events t gw pfplut srcp poslut width height b P z p)
           (WZ_cands t width height z p)
  = map (fun c => (flat_index width p, (pfplut z (fst c) (snd c), patch_weight t gw (pfplut z) srcp (height - 1) (width - 1)
                        (fst p) (snd p) (fst c) (snd c))))
        (window t width height p).
Proof.
  intros Hz Hc HP. rewrite WZ_cands_window by exact Hz.
  rewrite <- flat_map_singleton. apply flat_map_ext_in. intros c _.
  unfold WZ_cand_events, WZ_weight.
  destruct (Z.eqb_spec P (poslut (Az t))) as [_|]; [|contradiction].
  destruct (Z.eqb_spec P (poslut z)) as [|_]; [contradiction|].
  cbn [andb app]. reflexivity.
Qed.




Lemma landing_centre (e : Z * Z -> Z * R) (i : Z) (p : Z * Z)
    (l : list (Z * Z)) :
  landing i (map (fun c => (flat_index width p, e c)) l)
  = if flat_index width p =? i then map e l else [].
Proof.
  unfold landing. induction l as [|c l IH].
  - destruct (_ =? _); reflexivity.
  - cbn [map filter fst]. destruct (flat_index width p =? i);
      cbn [map snd]; rewrite IH; reflexivity.
Qed.




End TemporalSamples.


(** One turn of the closing loop of [GetFrameWZ]. *)
Lemma WZ_mark_step (fc : nlCache) (pc i j : Z) :
  let fc' := if slot_dsa fc pc i =? 2
             then set_slot_dsa (set_slot_dsa fc (getCachePos fc i) j 1) pc i 1
             else fc in
  same_shell fc fc' /\
  (forall P pl, slot_ds fc' P pl = slot_ds fc P pl) /\
  (forall P k,
     slot_dsa fc' P k
     = if (slot_dsa fc pc i =? 2)
          && (((P =? pc) && (k =? i))
              || ((P =? getCachePos fc i) && (k =? j)))
       then 1 else slot_dsa fc P k).
Proof.
  cbv zeta. destruct (slot_dsa fc pc i =? 2).
  - split; [|split].
    + eapply same_shell_trans; apply same_shell_set_dsa.
    + intros P pl. rewrite !slot_ds_set_dsa. reflexivity.
    + intros P k. rewrite !slot_dsa_set_dsa. cbn [andb].
      destruct ((P =? pc) && (k =? i)); [reflexivity|]. cbn [orb].
      reflexivity.
  - split; [apply same_shell_refl|]. split; reflexivity.
Qed.




(** ** Two consecutive requests against one from scratch *)

Section TemporalReuse.

Variable t : TNLMeans.
Variable gw : Z -> R.
Variable clip : Clip.
Variable n : Z.

Hypothesis Hdm1 : Azdm1 t = 2 * Az t.
Hypothesis HAz : Az t = 1.
Hypothesis Hplanes : numPlanes (format (vi t)) <= 3.
Hypothesis Hn : 0 <= n.
Hypothesis Hlast : n + 1 < numFrames (vi t).




End TemporalReuse.

Lemma engine_t1_constructed : constructed engine_t1.
Proof.
  exists 1, 1, 1, 0, 0, 0, 0, 1%R, 10%R, false, (vi_gray 4 4 5), 1.
  unfold TNLMeans_new. cbn [vi_gray format colorFamily bitsPerSample is_cmCompat
                            Z.eqb Pos.eqb negb Z.ltb Z.compare Pos.compare].
  destruct (Rle_dec 10 0) as [H10|_]; [exfalso; lra|].
  destruct (Rle_dec 1 0) as [H1|_]; [exfalso; lra|].
  reflexivity.
Qed.

(** ** The ring buffer between requests *)

Lemma getCachePos_inj (fc : nlCache) (k k' : Z) :
  0 <= start_pos fc < size fc -> 0 <= k < size fc -> 0 <= k' < size fc ->
  getCachePos fc k = getCachePos fc k' -> k = k'.
Proof.
  intros Hs Hk Hk'.
  destruct (getCachePos_mod fc k Hs) as [-> _]; [lia|].
  destruct (getCachePos_mod fc k' Hs) as [-> _]; [lia|].
  intros Heq.
  pose proof (Z.div_mod (start_pos fc + k) (size fc)) as E1.
  pose proof (Z.div_mod (start_pos fc + k') (size fc)) as E2.
  pose proof (Z.mod_pos_bound (start_pos fc + k) (size fc)) as B1.
  rewrite Heq in E1. 
  assert (Hq : (start_pos fc + k) / size fc = (start_pos fc + k') / size fc)
    by nia.
  rewrite Hq in E1. lia.
Qed.

(** Every physical slot is the logical slot of some index of the window. *)
Lemma getCachePos_onto (fc : nlCache) (P : Z) :
  0 <= start_pos fc < size fc -> 0 <= P < size fc ->
  exists k, 0 <= k < size fc /\ getCachePos fc k = P.
Proof.
  intros Hs HP. exists ((P - start_pos fc) mod size fc).
  pose proof (Z.mod_pos_bound (P - start_pos fc) (size fc)) as Hb.
  split; [lia|].
  destruct (getCachePos_mod fc ((P - start_pos fc) mod size fc) Hs)
    as [-> _]; [lia|].
  rewrite Zplus_mod_idemp_r.
  replace (start_pos fc + (P - start_pos fc)) with P by lia.
  apply Z.mod_small. lia.
Qed.

Lemma clearDS_size (v : VSVideoInfo) (fc fc' : nlCache) (nl : nlFrame) :
  size fc = size fc' -> clearDS v fc nl = clearDS v fc' nl.
Proof. intros Hsz. unfold clearDS. rewrite Hsz. reflexivity. Qed.

Lemma fetched_size (t : TNLMeans) clear (fc fc' : nlCache) nl i :
  size fc = size fc' -> fetched t clear fc nl i = fetched t clear fc' nl i.
Proof.
  intros Hsz. unfold fetched. destruct clear; [|reflexivity].
  apply clearDS_size. exact Hsz.
Qed.

Lemma fetched_shell (t : TNLMeans) clear fc nl i :
  fnum (fetched t clear fc nl i) = i /\
  pf (fetched t clear fc nl i) = Some (mapn t i).
Proof. unfold fetched. destruct clear; split; reflexivity. Qed.

(** The fetch loop, slot by slot: a slot of the window keeps its frame when
    it already names the frame wanted there and is fetched otherwise; the
    log lists the frames fetched, in ascending order. *)
Lemma cache_fill_prefix (t : TNLMeans) (clear : bool) (fc0 : nlCache)
    (n : Z) (c : nat) :
  0 <= start_pos fc0 < size fc0 -> Z.of_nat c <= size fc0 ->
  let m := n - Az t + Z.of_nat c - 1 in
  let r := for_loop (n - Az t) m (fun i st =>
             let fc := fst st in
             let pos := getCachePos fc (i - n + Az t) in
             let nl := frames fc pos in
             if fnum nl =? i then st
             else (set_frame fc pos (fetched t clear fc nl i),
                   snd st ++ [mapn t i])) (fc0, []) in
  start_pos (fst r) = start_pos fc0 /\ size (fst r) = size fc0 /\
  (forall k, 0 <= k < Z.of_nat c ->
     frames (fst r) (getCachePos fc0 k)
     = if fnum (frames fc0 (getCachePos fc0 k)) =? n - Az t + k
       then frames fc0 (getCachePos fc0 k)
       else fetched t clear fc0 (frames fc0 (getCachePos fc0 k))
                    (n - Az t + k)) /\
  (forall P, (forall k, 0 <= k < Z.of_nat c -> P <> getCachePos fc0 k) ->
     frames (fst r) P = frames fc0 P) /\
  snd r = map (mapn t)
            (filter (fun i =>
               negb (fnum (frames fc0 (getCachePos fc0 (i - n + Az t))) =? i))
               (range (n - Az t) m)).
Proof.
  intros Hs. induction c as [|c IH]; intros Hc; cbv zeta.
  - rewrite for_loop_nil by lia. rewrite range_nil by lia. cbn [fst snd].
    repeat split; try reflexivity. intros k Hk. lia.
  - rewrite for_loop_snoc by lia.
    replace (n - Az t + Z.of_nat (S c) - 1 - 1)
      with (n - Az t + Z.of_nat c - 1) by lia.
    destruct IH as [Hsp [Hsz [Hin [Hout Hlog]]]]; [lia|].
    set (r := for_loop (n - Az t) (n - Az t + Z.of_nat c - 1) _ (fc0, [])) in *.
    set (i := n - Az t + Z.of_nat (S c) - 1).
    assert (Hpos : forall k, getCachePos (fst r) k = getCachePos fc0 k).
    { intros k. unfold getCachePos. rewrite Hsp, Hsz. reflexivity. }
    assert (Hik : i - n + Az t = Z.of_nat c) by lia.
    rewrite (range_snoc (n - Az t) i) by lia.
    replace (i - 1) with (n - Az t + Z.of_nat c - 1) by lia.
    rewrite filter_app, map_app, <- Hlog. cbn [filter].
    rewrite Hpos, Hik.
    assert (Hfresh : frames (fst r) (getCachePos fc0 (Z.of_nat c))
                     = frames fc0 (getCachePos fc0 (Z.of_nat c))).
    { apply Hout. intros k Hk Heq.
      apply getCachePos_inj in Heq; lia. }
    rewrite Hfresh.
    destruct (fnum (frames fc0 (getCachePos fc0 (Z.of_nat c))) =? i) eqn:Hhit.
    + cbn [negb map]. rewrite app_nil_r.
      split; [exact Hsp|]. split; [exact Hsz|]. split; [|split].
      * intros k Hk. destruct (Z.eq_dec k (Z.of_nat c)) as [->|Hne].
        -- rewrite Hfresh. replace (n - Az t + Z.of_nat c) with i by lia.
           rewrite Hhit. reflexivity.
        -- apply Hin. lia.
      * intros P HP. apply Hout. intros k Hk. apply HP. lia.
      * reflexivity.
    + cbn [negb map fst snd set_frame start_pos size frames].
      split; [exact Hsp|]. split; [exact Hsz|]. split; [|split].
      * intros k Hk. destruct (Z.eq_dec k (Z.of_nat c)) as [->|Hne].
        -- rewrite upd_same. replace (n - Az t + Z.of_nat c) with i by lia.
           rewrite Hhit. apply fetched_size. exact Hsz.
        -- rewrite upd_other.
           ++ apply Hin. lia.
           ++ intros Heq. apply getCachePos_inj in Heq; lia.
      * intros P HP. rewrite upd_other by (apply HP; lia).
        apply Hout. intros k Hk. apply HP. lia.
      * reflexivity.
Qed.

Lemma cache_fill_unfold (t : TNLMeans) (clear : bool) (fc0 : nlCache) (n : Z) :
  cache_fill t clear fc0 n
  = for_loop (n - Az t) (n + Az t) (fun i st =>
      let fc := fst st in
      let pos := getCachePos fc (i - n + Az t) in
      let nl := frames fc pos in
      if fnum nl =? i then st
      else (set_frame fc pos (fetched t clear fc nl i),
            snd st ++ [mapn t i])) (fc0, []).
Proof. reflexivity. Qed.

Lemma cache_fill_obs (t : TNLMeans) (clear : bool) (fc0 : nlCache) (n : Z) :
  0 <= Az t -> ring_ok t fc0 ->
  let r := cache_fill t clear fc0 n in
  start_pos (fst r) = start_pos fc0 /\ size (fst r) = size fc0 /\
  (forall k, 0 <= k <= Az t * 2 ->
     frames (fst r) (getCachePos fc0 k)
     = if fnum (frames fc0 (getCachePos fc0 k)) =? n - Az t + k
       then frames fc0 (getCachePos fc0 k)
       else fetched t clear fc0 (frames fc0 (getCachePos fc0 k))
                    (n - Az t + k)) /\
  (forall P, (forall k, 0 <= k <= Az t * 2 -> P <> getCachePos fc0 k) ->
     frames (fst r) P = frames fc0 P) /\
  snd r = map (mapn t)
            (filter (fun i =>
               negb (fnum (frames fc0 (getCachePos fc0 (i - n + Az t))) =? i))
               (range (n - Az t) (n + Az t))).
Proof.
  intros HAz [Hsz Hs]. cbv zeta. rewrite cache_fill_unfold.
  pose proof (cache_fill_prefix t clear fc0 n (Z.to_nat (Az t * 2 + 1)) Hs)
    as Hpre.
  cbv zeta in Hpre.
  replace (n - Az t + Z.of_nat (Z.to_nat (Az t * 2 + 1)) - 1)
    with (n + Az t) in Hpre by lia.
  destruct Hpre as [H1 [H2 [H3 [H4 H5]]]]; [lia|].
  split; [exact H1|]. split; [exact H2|]. split; [|split].
  - intros k Hk. apply H3. lia.
  - intros P HP. apply H4. intros k Hk. apply HP. lia.
  - exact H5.
Qed.

Lemma ring_ok_pos (t : TNLMeans) (fc : nlCache) (k : Z) :
  ring_ok t fc -> 0 <= k ->
  getCachePos fc k = (start_pos fc + k) mod (Az t * 2 + 1).
Proof.
  intros [Hsz Hs] Hk. destruct (getCachePos_mod fc k Hs Hk) as [-> _].
  rewrite Hsz. reflexivity.
Qed.

(** In a cache that holds a window, a slot names the frame [j] only at the
    logical slot of [j]. *)
Lemma holds_window_slot (t : TNLMeans) (fc : nlCache) (a P j : Z) :
  0 <= Az t -> ring_ok t fc -> holds_window t fc a ->
  0 <= P < size fc -> fnum (frames fc P) = j ->
  a <= j <= a + Az t * 2 /\ P = getCachePos fc (j - a).
Proof.
  intros HAz Hring Hw HP Hj. pose proof Hring as [Hsz Hs].
  destruct (getCachePos_onto fc P Hs HP) as [k [Hk HkP]].
  assert (Hf : fnum (frames fc P) = a + k)
    by (rewrite <- HkP; apply Hw; lia).
  split; [lia|]. rewrite <- HkP. f_equal. lia.
Qed.

(** [resetCacheStart] on a cache that holds the window at [a], for the window
    at [b]: the slots stay, and where the windows share a frame the ring
    turns by [b - a]. *)
Lemma resetCacheStart_window (t : TNLMeans) (fc : nlCache) (a b : Z) :
  0 <= Az t -> ring_ok t fc -> holds_window t fc a ->
  let fc1 := resetCacheStart fc b (b + Az t * 2) in
  frames fc1 = frames fc /\ ring_ok t fc1 /\
  ((exists i, a <= i <= a + Az t * 2 /\ b <= i <= b + Az t * 2) ->
   start_pos fc1 = (start_pos fc + (b - a)) mod (Az t * 2 + 1)) /\
  (~ (exists i, a <= i <= a + Az t * 2 /\ b <= i <= b + Az t * 2) ->
   start_pos fc1 = start_pos fc).
Proof.
  intros HAz Hring Hw. pose proof Hring as [Hsz Hs]. cbv zeta.
  destruct (resetCacheStart_frames fc b (b + Az t * 2)) as [Hfr Hsz1].
  assert (Hs1 : 0 <= start_pos (resetCacheStart fc b (b + Az t * 2)) < size fc)
    by (apply resetCacheStart_start; [exact Hs|lia]).
  split; [exact Hfr|]. split; [split; [congruence|rewrite Hsz1; exact Hs1]|].
  unfold resetCacheStart in *.
  destruct (find _ _) as [[j i]|] eqn:Hfind.
  - apply find_some in Hfind. destruct Hfind as [Hin Hhit].
    apply in_prod_iff in Hin. rewrite !in_range in Hin.
    cbn [fst snd] in Hhit. apply Z.eqb_eq in Hhit.
    destruct (holds_window_slot t fc a i j HAz Hring Hw) as [Hj Hi];
      [lia|exact Hhit|].
    rewrite (ring_ok_pos t fc (j - a) Hring) in Hi by lia.
    cbn [start_pos] in *.
    set (sp := if i - j + b <? 0 then i - j + b + size fc
               else if i - j + b >=? size fc then i - j + b - size fc
               else i - j + b) in *.
    split.
    + intros _. symmetry.
      assert (Hsp : exists q, start_pos fc + (b - a)
                              = sp + q * (Az t * 2 + 1)).
      { pose proof (Z.div_mod (start_pos fc + (j - a)) (Az t * 2 + 1)) as E.
        rewrite <- Hi in E.
        subst sp. destruct (Z.ltb_spec (i - j + b) 0).
        - exists ((start_pos fc + (j - a)) / (Az t * 2 + 1) - 1). nia.
        - destruct (Z.geb_spec (i - j + b) (size fc)).
          + exists ((start_pos fc + (j - a)) / (Az t * 2 + 1) + 1). nia.
          + exists ((start_pos fc + (j - a)) / (Az t * 2 + 1)). nia. }
      destruct Hsp as [q Hq]. rewrite Hq, Z.mod_add by lia.
      apply Z.mod_small. lia.
    + intros Hno. exfalso. apply Hno. exists j. lia.
  - split; [|reflexivity].
    intros [i0 [Ha Hb]]. exfalso.
    pose proof (find_none _ _ Hfind (i0, getCachePos fc (i0 - a))) as Hnone.
    cbn [fst snd] in Hnone.
    rewrite (Hw (i0 - a)) in Hnone by lia.
    replace (a + (i0 - a)) with i0 in Hnone by lia.
    rewrite Z.eqb_refl in Hnone.
    assert (Hin : In (i0, getCachePos fc (i0 - a))
                     (list_prod (range b (b + Az t * 2))
                                (range 0 (size fc - 1)))).
    { apply in_prod_iff. rewrite !in_range. split; [lia|].
      destruct (getCachePos_mod fc (i0 - a) Hs) as [_ Hr]; lia. }
    specialize (Hnone Hin). discriminate.
Qed.

(** After the reset, a frame of the new window sits at its logical slot
    exactly when the old window holds it. *)
Lemma resetCacheStart_aligned (t : TNLMeans) (fc : nlCache) (a b i : Z) :
  0 <= Az t -> ring_ok t fc -> holds_window t fc a ->
  b <= i <= b + Az t * 2 ->
  let fc1 := resetCacheStart fc b (b + Az t * 2) in
  (fnum (frames fc1 (getCachePos fc1 (i - b))) =? i)
  = (a <=? i) && (i <=? a + Az t * 2).
Proof.
  intros HAz Hring Hw Hi. cbv zeta.
  destruct (resetCacheStart_window t fc a b HAz Hring Hw)
    as [Hfr [Hring1 [Hyes Hno]]].
  rewrite Hfr. rewrite (ring_ok_pos t _ (i - b) Hring1) by lia.
  pose proof Hring as [Hsz Hs].
  assert (Hslot : forall x, fnum (frames fc ((start_pos fc + x) mod (Az t * 2 + 1)))
                            = a + x mod (Az t * 2 + 1)).
  { intros x.
    pose proof (Z.mod_pos_bound x (Az t * 2 + 1)) as Hb.
    rewrite <- (Hw (x mod (Az t * 2 + 1))) by lia.
    rewrite (ring_ok_pos t fc _ Hring) by lia.
    rewrite Zplus_mod_idemp_r. reflexivity. }
  destruct (Z.leb_spec a i) as [Hai|Hai];
    [destruct (Z.leb_spec i (a + Az t * 2)) as [Hia|Hia]|]; cbn [andb].
  - rewrite Hyes by (exists i; lia). rewrite Zplus_mod_idemp_l.
    replace (start_pos fc + (b - a) + (i - b)) with (start_pos fc + (i - a))
      by lia.
    rewrite Hslot, Z.mod_small by lia. apply Z.eqb_eq. lia.
  - apply Z.eqb_neq.
    pose proof (Z.mod_pos_bound (i - a) (Az t * 2 + 1)) as Hb.
    destruct (Z_le_gt_dec b (a + Az t * 2)) as [Hov|Hov].
    + rewrite Hyes by (exists b; lia). rewrite Zplus_mod_idemp_l.
      replace (start_pos fc + (b - a) + (i - b)) with (start_pos fc + (i - a))
        by lia.
      rewrite Hslot. lia.
    + rewrite Hno by (intros [x Hx]; lia).
      pose proof (Z.mod_pos_bound (i - b) (Az t * 2 + 1)) as Hb'.
      rewrite Hslot. lia.
  - apply Z.eqb_neq.
    pose proof (Z.mod_pos_bound (i - a) (Az t * 2 + 1)) as Hb.
    destruct (Z_le_gt_dec a (b + Az t * 2)) as [Hov|Hov].
    + rewrite Hyes by (exists a; lia). rewrite Zplus_mod_idemp_l.
      replace (start_pos fc + (b - a) + (i - b)) with (start_pos fc + (i - a))
        by lia.
      rewrite Hslot. lia.
    + rewrite Hno by (intros [x Hx]; lia).
      pose proof (Z.mod_pos_bound (i - b) (Az t * 2 + 1)) as Hb'.
      rewrite Hslot. lia.
Qed.

(** The scans of the temporal pixel variant touch accumulators and flags
    only: the frames and the rotation of the cache stay. *)
Lemma WZ_plane_shell (t : TNLMeans) gw pfplut srcp poslut plane width height n
    (fc : nlCache) (dstp : Plane) :
  same_shell fc
    (fst (WZ_plane t gw pfplut srcp poslut plane width height n fc dstp)).
Proof.
  unfold WZ_plane.
  apply (for_loop_inv (fun st => same_shell fc (fst st)));
    [apply same_shell_refl|].
  intros y st _ Hst.
  apply (for_loop_inv (fun st => same_shell fc (fst st))); [exact Hst|].
  intros x st' _ Hst'. unfold WZ_pixel. cbn [fst].
  eapply same_shell_trans; [|apply same_shell_set_ds].
  unfold WZ_scan.
  apply (for_loop_inv (fun c => same_shell fc c)); [exact Hst'|].
  intros z c _ Hc. unfold WZ_slot.
  destruct (slot_dsa c (poslut (Az t)) z =? 1); [exact Hc|].
  apply (for_loop_inv (fun c => same_shell fc c)).
  - eapply same_shell_trans; [exact Hc|apply same_shell_set_dsa].
  - intros u c1 _ Hc1.
    apply (for_loop_inv (fun c => same_shell fc c)); [exact Hc1|].
    intros v c2 _ Hc2. unfold WZ_candidate. cbv zeta.
    match goal with |- context [if ?b then _ else _] => destruct b end.
    + eapply same_shell_trans; [exact Hc2|apply same_shell_set_ds].
    + eapply same_shell_trans; [|apply same_shell_set_ds].
      eapply same_shell_trans; [exact Hc2|apply same_shell_set_ds].
Qed.

Lemma WZ_mark_shell (t : TNLMeans) (fc : nlCache) :
  same_shell fc (WZ_mark t fc).
Proof.
  unfold WZ_mark.
  apply (for_loop_inv (fun c => same_shell fc c)); [apply same_shell_refl|].
  intros i c _ Hc.
  destruct (WZ_mark_step c (getCachePos fc (Az t)) i (size c - 1 - i))
    as [Hs _].
  eapply same_shell_trans; [exact Hc|exact Hs].
Qed.

Lemma GetFrameWZ_shell (t : TNLMeans) gw clip n fc dstPF :
  same_shell
    (fst (cache_fill t true (resetCacheStart fc (n - Az t) (n + Az t)) n))
    (fst (fst (GetFrameWZ t gw clip n fc dstPF))).
Proof.
  unfold GetFrameWZ. cbv zeta. destruct dstPF as [dst|]; cbn [fst];
    [|apply same_shell_refl].
  eapply same_shell_trans; [|apply WZ_mark_shell].
  apply (for_loop_inv (fun st =>
           same_shell (fst (cache_fill t true
                              (resetCacheStart fc (n - Az t) (n + Az t)) n))
                      (fst st))); [apply same_shell_refl|].
  intros pl st _ Hst. unfold WZ_frame_plane. cbv zeta. cbn [fst].
  eapply same_shell_trans; [exact Hst|apply WZ_plane_shell].
Qed.

Lemma GetFrameWZB_cache (t : TNLMeans) gw clip n fc sb wb dstPF :
  fst (fst (fst (GetFrameWZB t gw clip n fc sb wb dstPF)))
  = fst (cache_fill t false (resetCacheStart fc (n - Az t) (n + Az t)) n).
Proof. unfold GetFrameWZB. destruct dstPF; reflexivity. Qed.

Lemma ring_ok_shell (t : TNLMeans) (fc fc' : nlCache) :
  same_shell fc fc' -> ring_ok t fc -> ring_ok t fc'.
Proof. intros [Hs [Hz _]] [H1 H2]. unfold ring_ok. rewrite Hs, Hz. auto. Qed.

Lemma holds_window_shell (t : TNLMeans) (fc fc' : nlCache) (a : Z) :
  same_shell fc fc' -> holds_window t fc a -> holds_window t fc' a.
Proof.
  intros Hs Hw k Hk. rewrite (same_shell_getCachePos fc fc' k Hs).
  destruct Hs as [_ [_ Hf]]. destruct (Hf (getCachePos fc k)) as [-> _].
  apply Hw. exact Hk.
Qed.

Lemma coherent_shell (t : TNLMeans) (fc fc' : nlCache) :
  same_shell fc fc' -> coherent t fc -> coherent t fc'.
Proof.
  intros [_ [_ Hf]] Hc P. destruct (Hf P) as [-> ->]. apply Hc.
Qed.

(** The fetch loop after the reset: the window is in the cache, in order,
    and the references match the frames named. *)
Lemma cache_fill_window (t : TNLMeans) (clear : bool) (fc : nlCache) (n : Z) :
  0 <= Az t -> ring_ok t fc ->
  let fc' := fst (cache_fill t clear
                    (resetCacheStart fc (n - Az t) (n + Az t)) n) in
  ring_ok t fc' /\ holds_window t fc' (n - Az t) /\
  (coherent t fc -> coherent t fc').
Proof.
  intros HAz Hring. cbv zeta. pose proof Hring as [Hsz Hs].
  destruct (resetCacheStart_frames fc (n - Az t) (n + Az t)) as [Hfr Hsz1].
  assert (Hring1 : ring_ok t (resetCacheStart fc (n - Az t) (n + Az t))).
  { split; [congruence|]. rewrite Hsz1.
    apply resetCacheStart_start; [exact Hs|lia]. }
  destruct (cache_fill_obs t clear _ n HAz Hring1)
    as [Hsp [Hsize [Hin [Hout _]]]].
  set (fc1 := resetCacheStart fc (n - Az t) (n + Az t)) in *.
  set (fc' := fst (cache_fill t clear fc1 n)) in *.
  assert (Hpos : forall k, getCachePos fc' k = getCachePos fc1 k).
  { intros k. unfold getCachePos. rewrite Hsp, Hsize. reflexivity. }
  split; [|split].
  - destruct Hring1 as [H1 H2]. split; [congruence|]. rewrite Hsp, Hsize.
    exact H2.
  - intros k Hk. rewrite Hpos, Hin by exact Hk.
    destruct (Z.eqb_spec (fnum (frames fc1 (getCachePos fc1 k)))
                (n - Az t + k)) as [Heq|_]; [exact Heq|].
    apply fetched_shell.
  - intros Hcoh P HP.
    destruct (Z_lt_ge_dec P 0) as [Hneg|Hnn];
      [|destruct (Z_lt_ge_dec P (size fc1)) as [Hlt|Hge]].
    + rewrite Hout in *.
      * rewrite Hfr in *. apply Hcoh. exact HP.
      * intros k Hk Heq. destruct Hring1 as [_ Hs1].
        destruct (getCachePos_mod fc1 k Hs1) as [_ Hr]; lia.
      * intros k Hk Heq. destruct Hring1 as [_ Hs1].
        destruct (getCachePos_mod fc1 k Hs1) as [_ Hr]; lia.
    + destruct Hring1 as [Hz1 Hs1].
      destruct (getCachePos_onto fc1 P Hs1) as [k [Hk <-]]; [lia|].
      rewrite Hin in * by lia.
      destruct (fnum (frames fc1 (getCachePos fc1 k)) =? n - Az t + k).
      * rewrite Hfr in *. apply Hcoh. exact HP.
      * destruct (fetched_shell t clear fc1 (frames fc1 (getCachePos fc1 k))
                    (n - Az t + k)) as [-> ->]. reflexivity.
    + rewrite Hout in *.
      * rewrite Hfr in *. apply Hcoh. exact HP.
      * intros k Hk Heq. destruct Hring1 as [_ Hs1].
        destruct (getCachePos_mod fc1 k Hs1) as [_ Hr]; lia.
      * intros k Hk Heq. destruct Hring1 as [_ Hs1].
        destruct (getCachePos_mod fc1 k Hs1) as [_ Hr]; lia.
Qed.

Lemma nlCache_eq (c c' : nlCache) :
  frames c = frames c' -> start_pos c = start_pos c' -> size c = size c' ->
  c = c'.
Proof.
  destruct c, c'. cbn. intros -> -> ->. reflexivity.
Qed.

Lemma filter_none {A : Type} (f : A -> bool) (l : list A) :
  (forall x, In x l -> f x = false) -> filter f l = [].
Proof.
  induction l as [|a l IH]; intros Hall; [reflexivity|].
  cbn [filter]. rewrite Hall by (left; reflexivity).
  apply IH. intros x Hx. apply Hall. right. exact Hx.
Qed.

Lemma filter_all {A : Type} (f : A -> bool) (l : list A) :
  (forall x, In x l -> f x = true) -> filter f l = l.
Proof.
  induction l as [|a l IH]; intros Hall; [reflexivity|].
  cbn [filter]. rewrite Hall by (left; reflexivity). f_equal.
  apply IH. intros x Hx. apply Hall. right. exact Hx.
Qed.

(** The log of the fetch loop on a cache that holds the window at [a]. *)
Lemma cache_fill_missing (t : TNLMeans) (clear : bool) (fc : nlCache)
    (a m : Z) :
  0 <= Az t -> ring_ok t fc -> holds_window t fc a ->
  snd (cache_fill t clear (resetCacheStart fc (m - Az t) (m + Az t)) m)
  = map (mapn t) (missing t a (m - Az t)).
Proof.
  intros HAz Hring Hw. pose proof Hring as [Hsz Hs].
  replace (m + Az t) with (m - Az t + Az t * 2) by lia.
  destruct (resetCacheStart_window t fc a (m - Az t) HAz Hring Hw)
    as [_ [Hring1 _]].
  destruct (cache_fill_obs t clear _ m HAz Hring1) as [_ [_ [_ [_ Hlog]]]].
  rewrite Hlog. unfold missing. f_equal.
  replace (m + Az t) with (m - Az t + Az t * 2) by lia.
  apply filter_ext_in. intros i Hi. apply in_range in Hi. f_equal.
  replace (i - m + Az t) with (i - (m - Az t)) by lia.
  apply resetCacheStart_aligned; assumption.
Qed.

Lemma missing_same (t : TNLMeans) (a : Z) : missing t a a = [].
Proof.
  unfold missing. apply filter_none. intros i Hi. apply in_range in Hi.
  destruct (Z.leb_spec a i); [|lia].
  destruct (Z.leb_spec i (a + Az t * 2)); [reflexivity|lia].
Qed.

Lemma missing_next (t : TNLMeans) (a : Z) :
  0 <= Az t -> missing t a (a + 1) = [a + 1 + Az t * 2].
Proof.
  intros HAz. unfold missing. rewrite range_snoc by lia.
  rewrite filter_app. cbn [filter].
  rewrite filter_none.
  - destruct (Z.leb_spec (a + 1 + Az t * 2) (a + Az t * 2)); [lia|].
    rewrite andb_false_r. reflexivity.
  - intros i Hi. apply in_range in Hi.
    destruct (Z.leb_spec a i); [|lia].
    destruct (Z.leb_spec i (a + Az t * 2)); [reflexivity|lia].
Qed.

Lemma missing_previous (t : TNLMeans) (a : Z) :
  0 <= Az t -> missing t a (a - 1) = [a - 1].
Proof.
  intros HAz. unfold missing. rewrite range_cons by lia.
  cbn [filter]. destruct (Z.leb_spec a (a - 1)); [lia|]. cbn [andb negb].
  f_equal. apply filter_none. intros i Hi. apply in_range in Hi.
  destruct (Z.leb_spec a i); [|lia].
  destruct (Z.leb_spec i (a + Az t * 2)); [reflexivity|lia].
Qed.

Lemma missing_apart (t : TNLMeans) (a b : Z) :
  a + Az t * 2 < b \/ b + Az t * 2 < a ->
  missing t a b = range b (b + Az t * 2).
Proof.
  intros Hfar. unfold missing. apply filter_all. intros i Hi.
  apply in_range in Hi.
  destruct (Z.leb_spec a i); [|reflexivity].
  destruct (Z.leb_spec i (a + Az t * 2)); [lia|reflexivity].
Qed.

Lemma GetFrameWZ_fetches (t : TNLMeans) gw clip n fc dstPF :
  snd (GetFrameWZ t gw clip n fc dstPF)
  = snd (cache_fill t true (resetCacheStart fc (n - Az t) (n + Az t)) n)
    ++ [mapn t n].
Proof. unfold GetFrameWZ. destruct dstPF; reflexivity. Qed.

Lemma GetFrameWZB_fetches (t : TNLMeans) gw clip n fc sb wb dstPF :
  snd (GetFrameWZB t gw clip n fc sb wb dstPF)
  = snd (cache_fill t false (resetCacheStart fc (n - Az t) (n + Az t)) n)
    ++ [mapn t n].
Proof. unfold GetFrameWZB. destruct dstPF; reflexivity. Qed.

(** A request on a cache that already holds its window changes nothing. *)
Lemma cache_fill_idem (t : TNLMeans) (clear : bool) (fc : nlCache) (n : Z) :
  0 <= Az t -> ring_ok t fc -> holds_window t fc (n - Az t) ->
  cache_fill t clear (resetCacheStart fc (n - Az t) (n + Az t)) n = (fc, []).
Proof.
  intros HAz Hring Hw. pose proof Hring as [Hsz Hs].
  pose proof (cache_fill_missing t clear fc (n - Az t) n HAz Hring Hw) as Hlog.
  rewrite missing_same in Hlog.
  replace (n + Az t) with (n - Az t + Az t * 2) in * by lia.
  destruct (resetCacheStart_window t fc (n - Az t) (n - Az t) HAz Hring Hw)
    as [Hfr [Hring1 [Hyes _]]].
  assert (Hsp1 : start_pos (resetCacheStart fc (n - Az t) (n - Az t + Az t * 2))
                 = start_pos fc).
  { rewrite Hyes by (exists (n - Az t); lia).
    replace (n - Az t - (n - Az t)) with 0 by lia. rewrite Z.add_0_r.
    apply Z.mod_small. lia. }
  assert (Hreset : resetCacheStart fc (n - Az t) (n - Az t + Az t * 2) = fc).
  { apply nlCache_eq; [exact Hfr|exact Hsp1|].
    apply resetCacheStart_frames. }
  rewrite Hreset in *.
  replace (n - Az t + Az t * 2) with (n + Az t) in * by lia.
  destruct (cache_fill_obs t clear fc n HAz Hring)
    as [Hsp [Hsize [Hin [Hout _]]]].
  destruct (cache_fill t clear fc n) as [fc' log] eqn:Hfill.
  cbn [fst snd] in *. subst log. f_equal.
  apply nlCache_eq; [|exact Hsp|exact Hsize].
  extensionality P.
  destruct (Z_lt_ge_dec P 0) as [Hneg|Hnn];
    [|destruct (Z_lt_ge_dec P (size fc)) as [Hlt|Hge]].
  - apply Hout. intros k Hk Heq.
    destruct (getCachePos_mod fc k Hs) as [_ Hr]; lia.
  - destruct (getCachePos_onto fc P Hs) as [k [Hk <-]]; [lia|].
    rewrite Hin by lia. rewrite (Hw k) by lia. rewrite Z.eqb_refl.
    reflexivity.
  - apply Hout. intros k Hk Heq.
    destruct (getCachePos_mod fc k Hs) as [_ Hr]; lia.
Qed.

Lemma engine_b1_constructed : constructed engine_b1.
Proof.
  exists 1, 1, 1, 1, 1, 1, 1, 1%R, 10%R, false, (vi_gray 4 4 5), 1.
  unfold TNLMeans_new. cbn [vi_gray format colorFamily bitsPerSample is_cmCompat
                            Z.eqb Pos.eqb negb Z.ltb Z.compare Pos.compare].
  destruct (Rle_dec 10 0) as [H10|_]; [exfalso; lra|].
  destruct (Rle_dec 1 0) as [H1|_]; [exfalso; lra|].
  reflexivity.
Qed.

Lemma window_slot_frame (t : TNLMeans) (clear : bool) (n : Z) (fc : nlCache)
    (z : Z) :
  0 <= Az t -> ring_ok t fc -> coherent t fc -> 0 <= n < numFrames (vi t) ->
  startz t n <= z <= stopz t n ->
  let fc' := fst (cache_fill t clear
                    (resetCacheStart fc (n - Az t) (n + Az t)) n) in
  pf (frames fc' (getCachePos fc' z)) = Some (n - Az t + z).
Proof.
  intros HAz Hring Hcoh Hn Hz. cbv zeta.
  destruct (cache_fill_window t clear fc n HAz Hring) as [_ [Hw Hc]].
  specialize (Hc Hcoh).
  set (fc' := fst (cache_fill t clear _ n)) in *.
  assert (Hzr : 0 <= z <= Az t * 2 /\ 0 <= n - Az t + z < numFrames (vi t))
    by (unfold startz, stopz in Hz; lia).
  rewrite Hc; rewrite (Hw z) by lia; [|lia].
  rewrite mapn_id by lia. reflexivity.
Qed.

Lemma fresh_ring_ok (t : TNLMeans) (ds0 : Z -> SDATA) :
  0 <= Az t ->
  ring_ok t (nlCache_new (Az t * 2 + 1) ds0) /\
  coherent t (nlCache_new (Az t * 2 + 1) ds0).
Proof.
  intros HAz. unfold ring_ok, coherent, nlCache_new.
  destruct (Z.ltb_spec 0 (Az t * 2 + 1)); [|lia]. cbn.
  split; [lia|]. intros P HP. contradiction.
Qed.

(** X1.  The frame cache between temporal requests.  The cache of a worker
    slot is built with [2 Az + 1] slots at rotation 0 and no frame named.
    Every request served by [GetFrameWZ] or [GetFrameWZB], whatever the frame
    asked for and also when the output frame cannot be allocated, leaves a
    cache of the same capacity whose rotation lies inside the ring and whose
    logical slot [k] names the frame [n - Az + k]; and a cache in which every
    named frame carries the reference fetched for it stays so. *)
Theorem temporal_cache_invariant (t : TNLMeans) (gw : Z -> R) (clip : Clip) :
  0 <= Az t ->
  (forall ds0, ring_ok t (nlCache_new (Az t * 2 + 1) ds0) /\
               coherent t (nlCache_new (Az t * 2 + 1) ds0)) /\
  (forall n fc dstPF, ring_ok t fc ->
     let fc' := fst (fst (GetFrameWZ t gw clip n fc dstPF)) in
     ring_ok t fc' /\ holds_window t fc' (n - Az t) /\
     (coherent t fc -> coherent t fc')) /\
  (forall n fc sb wb dstPF, ring_ok t fc ->
     let fc' := fst (fst (fst (GetFrameWZB t gw clip n fc sb wb dstPF))) in
     ring_ok t fc' /\ holds_window t fc' (n - Az t) /\
     (coherent t fc -> coherent t fc')).
Proof.
  intros HAz. split; [|split].
  - intros ds0. apply fresh_ring_ok. exact HAz.
  - intros n fc dstPF Hring. cbv zeta.
    destruct (cache_fill_window t true fc n HAz Hring) as [Hr [Hw Hc]].
    pose proof (GetFrameWZ_shell t gw clip n fc dstPF) as Hs.
    split; [eapply ring_ok_shell; eassumption|].
    split; [eapply holds_window_shell; eassumption|].
    intros Hcoh. eapply coherent_shell; [exact Hs|]. apply Hc. exact Hcoh.
  - intros n fc sb wb dstPF Hring. cbv zeta. rewrite GetFrameWZB_cache.
    apply cache_fill_window; assumption.
Qed.

Lemma temporal_cache_invariant_witness :
  0 <= Az engine_t1 /\
  ring_ok engine_t1
    (fst (fst (GetFrameWZ engine_t1 gw_row clip_step 2
                 (nlCache_new (Az engine_t1 * 2 + 1) (fun _ => SDATA_zero))
                 None))).
Proof.
  assert (HAz : 0 <= Az engine_t1) by (cbn; lia).
  split; [exact HAz|].
  destruct (temporal_cache_invariant engine_t1 gw_row clip_step HAz)
    as [Hnew [Hwz _]].
  destruct (Hnew (fun _ => SDATA_zero)) as [Hring _].
  apply (Hwz 2 _ None Hring).
Defined.

(** X2.  The slots the temporal scans read.  On a cache whose ring is usable
    and whose named frames carry their references (as [nlCache_new] builds
    it and every request keeps it), the fetch loop of a request for a frame
    [n] of the clip leaves in every slot [z] of [startz .. stopz] the
    reference of the frame [n - Az + z] itself: the plane pointer the scan
    reads there is that frame's plane, never a null reference and never a
    clamped duplicate. *)
Theorem scan_slots_are_clip_frames (t : TNLMeans) (clear : bool) (clip : Clip)
    (n : Z) (fc : nlCache) (plane z : Z) :
  0 <= Az t -> ring_ok t fc -> coherent t fc -> 0 <= n < numFrames (vi t) ->
  startz t n <= z <= stopz t n ->
  let fc' := fst (cache_fill t clear
                    (resetCacheStart fc (n - Az t) (n + Az t)) n) in
  pf (frames fc' (getCachePos fc' z)) = Some (n - Az t + z) /\
  read_plane clip (pf (frames fc' (getCachePos fc' z))) plane
  = clip (n - Az t + z) plane.
Proof.
  intros HAz Hring Hcoh Hn Hz. cbv zeta.
  rewrite (window_slot_frame t clear n fc z HAz Hring Hcoh Hn Hz).
  split; reflexivity.
Qed.

Lemma scan_slots_are_clip_frames_witness :
  let fc' := fst (cache_fill engine_t1 true
                    (resetCacheStart (nlCache_new 3 (fun _ => SDATA_zero))
                       (0 - Az engine_t1) (0 + Az engine_t1)) 0) in
  pf (frames fc' (getCachePos fc' 2)) = Some 1.
Proof.
  destruct (fresh_ring_ok engine_t1 (fun _ => SDATA_zero)) as [Hring Hcoh];
    [cbn; lia|].
  apply (scan_slots_are_clip_frames engine_t1 true clip_step 0
           (nlCache_new 3 (fun _ => SDATA_zero)) 0 2).
  - cbn. lia.
  - exact Hring.
  - exact Hcoh.
  - cbn. lia.
  - cbn. lia.
Defined.

(** X3.  Frames the cache holds are not fetched again.  On a cache that
    holds the window starting at the frame [a], a temporal request for the
    frame [m] fetches the frames of its own window that lie outside
    [a .. a + 2 Az], in ascending order, and then the frame [m] for
    [newVideoFrame]; nothing when the window is the same, the one frame
    [a + 2 Az + 1] when the window moves forward by one, the one frame
    [a - 1] when it moves back by one, and the whole window when the two
    windows share no frame. *)
Theorem held_frames_not_refetched (t : TNLMeans) (gw : Z -> R) (clip : Clip)
    (a m : Z) (fc : nlCache) :
  0 <= Az t -> ring_ok t fc -> holds_window t fc a ->
  (forall dstPF,
     snd (GetFrameWZ t gw clip m fc dstPF)
     = map (mapn t) (missing t a (m - Az t)) ++ [mapn t m]) /\
  (forall sb wb dstPF,
     snd (GetFrameWZB t gw clip m fc sb wb dstPF)
     = map (mapn t) (missing t a (m - Az t)) ++ [mapn t m]) /\
  missing t a a = [] /\
  missing t a (a + 1) = [a + 1 + Az t * 2] /\
  missing t a (a - 1) = [a - 1] /\
  (forall b, a + Az t * 2 < b \/ b + Az t * 2 < a ->
     missing t a b = range b (b + Az t * 2)).
Proof.
  intros HAz Hring Hw. repeat split.
  - intros dstPF. rewrite GetFrameWZ_fetches.
    rewrite (cache_fill_missing t true fc a m HAz Hring Hw). reflexivity.
  - intros sb wb dstPF. rewrite GetFrameWZB_fetches.
    rewrite (cache_fill_missing t false fc a m HAz Hring Hw). reflexivity.
  - apply missing_same.
  - apply missing_next. exact HAz.
  - apply missing_previous. exact HAz.
  - intros b Hb. apply missing_apart. exact Hb.
Qed.

Lemma held_frames_not_refetched_witness :
  let fc := fst (cache_fill engine_t1 true
                   (resetCacheStart (nlCache_new 3 (fun _ => SDATA_zero))
                      (2 - Az engine_t1) (2 + Az engine_t1)) 2) in
  snd (GetFrameWZ engine_t1 gw_row clip_step 3 fc None) = [4; 3].
Proof.
  assert (HAz : 0 <= Az engine_t1) by (cbn; lia).
  destruct (fresh_ring_ok engine_t1 (fun _ => SDATA_zero) HAz) as [Hring _].
  destruct (cache_fill_window engine_t1 true _ 2 HAz Hring) as [Hr [Hw _]].
  cbv zeta.
  destruct (held_frames_not_refetched engine_t1 gw_row clip_step 1 3 _
              HAz Hr Hw) as [Hlog [_ [_ [Hnext _]]]].
  refine (eq_trans (Hlog None) _). change (3 - Az engine_t1) with (1 + 1).
  rewrite Hnext. reflexivity.
Defined.

Lemma cache_fill_fresh_log (t : TNLMeans) (clear : bool) (ds0 : Z -> SDATA)
    (n : Z) :
  0 <= Az t -> -20 < n - Az t \/ n + Az t < -20 ->
  snd (cache_fill t clear
         (resetCacheStart (nlCache_new (Az t * 2 + 1) ds0)
                          (n - Az t) (n + Az t)) n)
  = RequestFrame t n.
Proof.
  intros HAz Hn.
  destruct (fresh_ring_ok t ds0 HAz) as [Hring _].
  assert (Hfn : forall P, fnum (frames (nlCache_new (Az t * 2 + 1) ds0) P) = -20).
  { intros P. unfold nlCache_new. destruct (0 <? Az t * 2 + 1); reflexivity. }
  assert (Hreset : resetCacheStart (nlCache_new (Az t * 2 + 1) ds0)
                     (n - Az t) (n + Az t)
                   = nlCache_new (Az t * 2 + 1) ds0).
  { unfold resetCacheStart. rewrite find_none_all; [reflexivity|].
    intros [j i] Hin. apply in_prod_iff in Hin. rewrite in_range in Hin.
    cbn [fst snd]. rewrite Hfn. apply Z.eqb_neq. lia. }
  rewrite Hreset.
  destruct (cache_fill_obs t clear _ n HAz Hring) as [_ [_ [_ [_ Hlog]]]].
  rewrite Hlog. unfold RequestFrame. f_equal. apply filter_all.
  intros i Hi. apply in_range in Hi. rewrite Hfn.
  apply negb_true_iff. apply Z.eqb_neq. lia.
Qed.

(** X4.  The first request on a new cache.  When the sentinel [-20] of the
    empty slots is not a frame of the window, a temporal request served on
    the cache as [nlCache_new] builds it fetches the whole window, in the
    order and with the clamped indices that [RequestFrame] asked the host
    for, and then the frame [n] for [newVideoFrame]. *)
Theorem first_request_fetches_window (t : TNLMeans) (gw : Z -> R)
    (clip : Clip) (n : Z) (ds0 : Z -> SDATA) :
  0 <= Az t -> -20 < n - Az t \/ n + Az t < -20 ->
  (forall dstPF,
     snd (GetFrameWZ t gw clip n (nlCache_new (Az t * 2 + 1) ds0) dstPF)
     = RequestFrame t n ++ [mapn t n]) /\
  (forall sb wb dstPF,
     snd (GetFrameWZB t gw clip n (nlCache_new (Az t * 2 + 1) ds0) sb wb dstPF)
     = RequestFrame t n ++ [mapn t n]).
Proof.
  intros HAz Hn. split.
  - intros dstPF. rewrite GetFrameWZ_fetches, cache_fill_fresh_log by assumption.
    reflexivity.
  - intros sb wb dstPF.
    rewrite GetFrameWZB_fetches, cache_fill_fresh_log by assumption.
    reflexivity.
Qed.

Lemma first_request_fetches_window_witness :
  snd (GetFrameWZ engine_t1 gw_row clip_step 0
         (nlCache_new (Az engine_t1 * 2 + 1) (fun _ => SDATA_zero)) None)
  = [0; 0; 1; 0].
Proof.
  assert (HAz : 0 <= Az engine_t1) by (cbn; lia).
  assert (Hn : -20 < 0 - Az engine_t1 \/ 0 + Az engine_t1 < -20)
    by (left; cbn; lia).
  destruct (first_request_fetches_window engine_t1 gw_row clip_step 0
              (fun _ => SDATA_zero) HAz Hn) as [Hwz _].
  exact (Hwz None).
Defined.

(** X5.  A failed allocation of the output frame is recoverable.  When
    [newVideoFrame] returns null, [GetFrameWZ] and [GetFrameWZB] return null
    after the window has been fetched into the cache; the same request
    served again on the cache they leave fetches no frame of the window
    again (only the frame [n] for [newVideoFrame]) and returns the frame,
    the cache and the scratch that the request would have returned had the
    allocation succeeded at once. *)
Theorem allocation_failure_recoverable (t : TNLMeans) (gw : Z -> R)
    (clip : Clip) (n : Z) (fc : nlCache) (dst : Frame) :
  0 <= Az t -> ring_ok t fc ->
  (let failed := GetFrameWZ t gw clip n fc None in
   let again := GetFrameWZ t gw clip n (fst (fst failed)) (Some dst) in
   snd (fst failed) = None /\
   fst again = fst (GetFrameWZ t gw clip n fc (Some dst)) /\
   snd again = [mapn t n]) /\
  (forall sb wb,
   let failed := GetFrameWZB t gw clip n fc sb wb None in
   let again := GetFrameWZB t gw clip n (fst (fst (fst failed)))
                  (fst (snd (fst (fst failed)))) (snd (snd (fst (fst failed))))
                  (Some dst) in
   snd (fst failed) = None /\
   fst again = fst (GetFrameWZB t gw clip n fc sb wb (Some dst)) /\
   snd again = [mapn t n]).
Proof.
  intros HAz Hring. split.
  - cbv zeta.
    destruct (cache_fill_window t true fc n HAz Hring) as [Hr [Hw _]].
    pose proof (cache_fill_idem t true _ n HAz Hr Hw) as Hidem.
    split; [reflexivity|].
    unfold GetFrameWZ. cbv zeta. cbn [fst snd]. rewrite Hidem. cbn [fst snd].
    split; reflexivity.
  - intros sb wb. cbv zeta.
    destruct (cache_fill_window t false fc n HAz Hring) as [Hr [Hw _]].
    pose proof (cache_fill_idem t false _ n HAz Hr Hw) as Hidem.
    split; [reflexivity|].
    unfold GetFrameWZB. cbv zeta. cbn [fst snd]. rewrite Hidem. cbn [fst snd].
    split; reflexivity.
Qed.

Lemma allocation_failure_recoverable_witness :
  let fc := nlCache_new (Az engine_t1 * 2 + 1) (fun _ => SDATA_zero) in
  let failed := GetFrameWZ engine_t1 gw_row clip_step 2 fc None in
  snd (GetFrameWZ engine_t1 gw_row clip_step 2 (fst (fst failed))
         (Some (fun _ _ _ => 0))) = [2].
Proof.
  assert (HAz : 0 <= Az engine_t1) by (cbn; lia).
  destruct (fresh_ring_ok engine_t1 (fun _ => SDATA_zero) HAz) as [Hring _].
  destruct (allocation_failure_recoverable engine_t1 gw_row clip_step 2 _
              (fun _ _ _ => 0) HAz Hring) as [[_ [_ Hlog]] _].
  exact Hlog.
Defined.



(** ** The pixels a variant writes *)

Lemma to_pixel_range (q : R) : 0 <= to_pixel q <= 255.
Proof. unfold to_pixel. lia. Qed.

Lemma pixel_in_dec (rc : Z * Z) (l : list (Z * Z)) : {In rc l} + {~ In rc l}.
Proof.
  apply in_dec. intros [a b] [c d].
  destruct (Z.eq_dec a c) as [->|Hac]; [|right; congruence].
  destruct (Z.eq_dec b d) as [->|Hbd]; [left; reflexivity|right; congruence].
Qed.

Lemma stores_ext (Q : Z -> Prop) (l l' : list (Z * Z)) (p p' : Plane) :
  (forall rc, In rc l <-> In rc l') -> stores Q l p p' -> stores Q l' p p'.
Proof.
  intros Hll [Hin Hout]. split.
  - intros r c Hrc. apply Hin. apply Hll. exact Hrc.
  - intros r c Hrc. apply Hout. intros H. apply Hrc. apply Hll. exact H.
Qed.

(** A loop whose turns store at their own cells stores at the cells of all
    its turns. *)
Lemma stores_fold {S : Type} (Q : Z -> Prop) (l : list Z)
    (cells : Z -> list (Z * Z))
    (step : Z -> S * Plane -> S * Plane) (s0 : S * Plane) :
  (forall a st, In a l -> stores Q (cells a) (snd st) (snd (step a st))) ->
  stores Q (flat_map cells l) (snd s0) (snd (for_each l step s0)).
Proof.
  unfold for_each. revert s0. induction l as [|a l IH]; intros s0 Hstep.
  - split; [intros r c []|reflexivity].
  - cbn [fold_left flat_map].
    destruct (IH (step a s0)) as [Hin Hout].
    { intros b st Hb. apply Hstep. right. exact Hb. }
    destruct (Hstep a s0 (or_introl eq_refl)) as [Hin0 Hout0].
    split.
    + intros r c Hrc.
      destruct (pixel_in_dec (r, c) (flat_map cells l)) as [Hl|Hnl];
        [apply Hin; exact Hl|].
      rewrite Hout by exact Hnl. apply Hin0.
      apply in_app_or in Hrc. destruct Hrc as [H|H]; [exact H|contradiction].
    + intros r c Hrc. rewrite Hout, Hout0; [reflexivity| |];
        intros H; apply Hrc; apply in_or_app; [left|right]; exact H.
Qed.

Lemma writes_ext (l l' : list (Z * Z)) (p p' : Plane) :
  (forall rc, In rc l <-> In rc l') -> writes l p p' -> writes l' p p'.
Proof. apply stores_ext. Qed.

Lemma writes_fold {S : Type} (l : list Z) (cells : Z -> list (Z * Z))
    (step : Z -> S * Plane -> S * Plane) (s0 : S * Plane) :
  (forall a st, In a l -> writes (cells a) (snd st) (snd (step a st))) ->
  writes (flat_map cells l) (snd s0) (snd (for_each l step s0)).
Proof. apply stores_fold. Qed.

Lemma stores_upd2 (Q : Z -> Prop) (p : Plane) (y x v : Z) :
  Q v -> stores Q [(y, x)] p (upd2 p y x v).
Proof.
  intros Hv. split.
  - intros r c [Heq|[]]. injection Heq as <- <-. rewrite upd2_same. exact Hv.
  - intros r c Hrc. apply upd2_other.
    destruct (Z.eq_dec r y) as [->|]; [|left; assumption].
    destruct (Z.eq_dec c x) as [->|]; [|right; assumption].
    exfalso. apply Hrc. left. reflexivity.
Qed.

Lemma writes_upd2 (p : Plane) (y x : Z) (q : R) :
  writes [(y, x)] p (upd2 p y x (to_pixel q)).
Proof. apply stores_upd2. apply to_pixel_range. Qed.

Lemma raster_cells (width height : Z) (rc : Z * Z) :
  In rc (flat_map (fun y => flat_map (fun x => [(y, x)]) (range 0 (width - 1)))
                  (range 0 (height - 1)))
  <-> In rc (frame_pixels width height).
Proof.
  destruct rc as [r c]. rewrite in_frame_pixels. cbn [fst snd].
  rewrite in_flat_map. split.
  - intros [y [Hy Hin]]. apply in_flat_map in Hin.
    destruct Hin as [x [Hx [Heq|[]]]]. injection Heq as <- <-.
    apply in_range in Hy, Hx. lia.
  - intros [Hr Hc]. exists r. split; [apply in_range; lia|].
    apply in_flat_map. exists c. split; [apply in_range; lia|].
    left. reflexivity.
Qed.

Lemma WOZ_plane_writes (t : TNLMeans) gw pfp width height d dstp :
  writes (frame_pixels width height) dstp
         (snd (WOZ_plane t gw pfp width height d dstp)).
Proof.
  unfold WOZ_plane, for_loop.
  eapply writes_ext; [apply raster_cells|].
  apply (writes_fold (range 0 (height - 1))
           (fun y => flat_map (fun x => [(y, x)]) (range 0 (width - 1)))
           (fun y st => for_each (range 0 (width - 1))
                          (fun x st => WOZ_pixel t gw pfp width height y x st)
                          st)
           (SDATA_clear d (height * width), dstp)).
  intros y st _.
  apply (writes_fold (range 0 (width - 1)) (fun x => [(y, x)])).
  intros x st' _. unfold WOZ_pixel, finish. cbn [snd].
  apply writes_upd2.
Qed.

Lemma WZ_plane_writes (t : TNLMeans) gw pfplut srcp poslut plane width height
    n fc dstp :
  writes (frame_pixels width height) dstp
    (snd (WZ_plane t gw pfplut srcp poslut plane width height n fc dstp)).
Proof.
  unfold WZ_plane, for_loop.
  eapply writes_ext; [apply raster_cells|].
  apply (writes_fold (range 0 (height - 1))
           (fun y => flat_map (fun x => [(y, x)]) (range 0 (width - 1)))
           (fun y st => for_each (range 0 (width - 1))
                          (fun x st => WZ_pixel t gw pfplut srcp poslut plane
                                         width height n y x st) st)
           (fc, dstp)).
  intros y st _.
  apply (writes_fold (range 0 (width - 1)) (fun x => [(y, x)])).
  intros x st' _. unfold WZ_pixel, finish. cbn [snd].
  apply writes_upd2.
Qed.


Lemma in_steps_iff (lo hi st y : Z) :
  In y (steps lo hi st)
  <-> exists k, 0 <= k <= (hi - lo - 1) / st /\ y = lo + k * st.
Proof.
  unfold steps. rewrite in_map_iff. split.
  - intros [k [<- Hk]]. apply in_range in Hk. exists k. split; [exact Hk|reflexivity].
  - intros [k [Hk ->]]. exists k. split; [reflexivity|apply in_range; exact Hk].
Qed.

(** One axis of the tiling: the tiles centred at [B, B + Bd, ...] cut into
    [0 .. len - 1] runs of [Bd] cells, the last one clipped. *)
Lemma tile_axis (B len r : Z) :
  0 <= B ->
  (exists y j, In y (steps B (len + B) (B * 2 + 1)) /\
               0 <= j <= Z.min (B * 2 + 1) (len - y + B) - 1 /\
               r = y - B + j)
  <-> 0 <= r <= len - 1.
Proof.
  intros HB. split.
  - intros [y [j [Hy [Hj ->]]]]. apply in_steps_iff in Hy.
    destruct Hy as [k [Hk ->]]. nia.
  - intros Hr.
    pose proof (Z.div_mod r (B * 2 + 1)) as Hdm.
    pose proof (Z.mod_pos_bound r (B * 2 + 1)) as Hmb.
    assert (Hq : 0 <= r / (B * 2 + 1)) by (apply Z.div_pos; lia).
    exists (B + r / (B * 2 + 1) * (B * 2 + 1)), (r mod (B * 2 + 1)).
    split; [|split].
    + apply in_steps_iff. exists (r / (B * 2 + 1)). split; [|reflexivity].
      split; [exact Hq|].
      apply Z.div_le_mono; lia.
    + nia.
    + nia.
Qed.

Lemma tiles_cover (t : TNLMeans) (width height : Z) (rc : Z * Z) :
  0 <= Bx t -> 0 <= By t ->
  Bxd t = Bx t * 2 + 1 -> Byd t = By t * 2 + 1 ->
  In rc (flat_map (fun y =>
           flat_map (fun x => tile_cells t width height y x)
                    (steps (Bx t) (width + Bx t) (Bxd t)))
           (steps (By t) (height + By t) (Byd t)))
  <-> In rc (frame_pixels width height).
Proof.
  intros HBx HBy HBxd HByd. destruct rc as [r c].
  rewrite in_frame_pixels. cbn [fst snd].
  rewrite <- (tile_axis (By t) height r HBy).
  rewrite <- (tile_axis (Bx t) width c HBx).
  rewrite HBxd, HByd. rewrite in_flat_map. split.
  - intros [y [Hy Hin]]. apply in_flat_map in Hin.
    destruct Hin as [x [Hx Hin]]. unfold tile_cells in Hin.
    apply in_flat_map in Hin. destruct Hin as [j [Hj Hin]].
    apply in_map_iff in Hin. destruct Hin as [k [Heq Hk]].
    injection Heq as <- <-. apply in_range in Hj, Hk.
    rewrite HBxd in Hk. rewrite HByd in Hj.
    split; [exists y, j|exists x, k]; repeat split; try assumption; lia.
  - intros [[y [j [Hy [Hj ->]]]] [x [k [Hx [Hk ->]]]]].
    exists y. split; [exact Hy|]. apply in_flat_map.
    exists x. split; [exact Hx|]. unfold tile_cells.
    apply in_flat_map. exists j. split; [apply in_range; rewrite HByd; lia|].
    apply in_map_iff. exists k. split; [reflexivity|].
    apply in_range. rewrite HBxd. lia.
Qed.



(** The plane loop: the plane [pl] of the result comes from the turn [pl]
    alone, and the planes the loop does not visit stay. *)
Lemma planes_loop_stores {S : Type} (Q : Z -> Prop) (np : Z)
    (body : Z -> S * Frame -> S * Frame)
    (cells : Z -> list (Z * Z)) (Inv : S -> Prop) (s : S) (dst : Frame) :
  Inv s ->
  (forall pl (st : S * Frame), 0 <= pl < np -> Inv (fst st) ->
     Inv (fst (body pl st)) /\
     stores Q (cells pl) (snd st pl) (snd (body pl st) pl) /\
     forall q, q <> pl -> snd (body pl st) q = snd st q) ->
  let r := for_loop 0 (np - 1) body (s, dst) in
  Inv (fst r) /\
  (forall pl, 0 <= pl < np -> stores Q (cells pl) (dst pl) (snd r pl)) /\
  (forall pl, ~ 0 <= pl < np -> snd r pl = dst pl).
Proof.
  intros Hs Hbody. cbv zeta.
  assert (Hinv : forall lo hi st, 0 <= lo -> hi <= np - 1 -> Inv (fst st) ->
            Inv (fst (for_loop lo hi body st))).
  { intros lo hi st Hlo Hhi Hst. apply for_loop_inv; [exact Hst|].
    intros i st' Hi Hst'. apply Hbody; [lia|exact Hst']. }
  split; [apply Hinv; [lia|lia|exact Hs]|]. split.
  - intros pl Hpl. rewrite (for_loop_split 0 (np - 1) pl) by lia.
    set (s0 := for_loop 0 (pl - 1) body (s, dst)).
    assert (Hinv0 : Inv (fst s0)) by (apply Hinv; [lia|lia|exact Hs]).
    assert (Hbefore : snd s0 pl = dst pl).
    { subst s0.
      apply (for_loop_inv (fun st => Inv (fst st) /\ snd st pl = dst pl));
        [split; [exact Hs|reflexivity]|].
      intros i st Hi [Hi1 Hst]. destruct (Hbody i st) as [Hi2 [_ Hq]];
        [lia|exact Hi1|].
      split; [exact Hi2|]. rewrite Hq by lia. exact Hst. }
    destruct (Hbody pl s0 Hpl Hinv0) as [Hinv1 [Hw _]]. rewrite Hbefore in Hw.
    apply (for_loop_inv (fun st => Inv (fst st) /\
                                   stores Q (cells pl) (dst pl) (snd st pl)));
      [split; assumption|].
    intros i st Hi [Hi1 [Hin Hout]].
    destruct (Hbody i st) as [Hi2 [_ Hq]]; [lia|exact Hi1|].
    split; [exact Hi2|].
    split; intros r c Hrc; rewrite Hq by lia; auto.
  - intros pl Hpl.
    apply (for_loop_inv (fun st => Inv (fst st) /\ snd st pl = dst pl));
      [split; [exact Hs|reflexivity]|].
    intros i st Hi [Hi1 Hst].
    destruct (Hbody i st) as [Hi2 [_ Hq]]; [lia|exact Hi1|].
    split; [exact Hi2|]. rewrite Hq by lia. exact Hst.
Qed.

Lemma planes_loop_writes {S : Type} (np : Z) (body : Z -> S * Frame -> S * Frame)
    (cells : Z -> list (Z * Z)) (s : S) (dst : Frame) :
  (forall pl (st : S * Frame), 0 <= pl < np ->
     writes (cells pl) (snd st pl) (snd (body pl st) pl) /\
     forall q, q <> pl -> snd (body pl st) q = snd st q) ->
  let out := snd (for_loop 0 (np - 1) body (s, dst)) in
  (forall pl, 0 <= pl < np -> writes (cells pl) (dst pl) (out pl)) /\
  (forall pl, ~ 0 <= pl < np -> out pl = dst pl).
Proof.
  intros Hbody.
  destruct (planes_loop_stores (fun v => 0 <= v <= 255) np body cells
              (fun _ => True) s dst I) as [_ H].
  - intros pl st Hpl _. split; [exact I|]. apply Hbody. exact Hpl.
  - exact H.
Qed.



(** ** Requests and fetches *)

Lemma mapn_mono (t : TNLMeans) (n n' : Z) :
  1 <= numFrames (vi t) -> n <= n' -> mapn t n <= mapn t n'.
Proof.
  intros Hnf Hle. unfold mapn.
  destruct (Z.ltb_spec n 0); destruct (Z.ltb_spec n' 0);
    destruct (Z.geb_spec n (numFrames (vi t)));
    destruct (Z.geb_spec n' (numFrames (vi t))); lia.
Qed.

Lemma sorted_map_range (f : Z -> Z) (lo hi : Z) :
  (forall i j, i <= j -> f i <= f j) ->
  forall i j : nat, (i <= j)%nat ->
    forall x y, nth_error (map f (range lo hi)) i = Some x ->
                nth_error (map f (range lo hi)) j = Some y -> x <= y.
Proof.
  intros Hmono i j Hij x y Hx Hy.
  unfold range in Hx, Hy. rewrite map_map in Hx, Hy.
  rewrite nth_error_map in Hx, Hy.
  destruct (nth_error (seq 0 _) i) as [a|] eqn:Ha; [|discriminate].
  destruct (nth_error (seq 0 (Z.to_nat (hi - lo + 1))) j) as [b|] eqn:Hb;
    [|discriminate].
  cbn in Hx, Hy. injection Hx as <-. injection Hy as <-.
  assert (Hi : (i < List.length (seq 0 (Z.to_nat (hi - lo + 1))))%nat)
    by (apply nth_error_Some; congruence).
  assert (Hj : (j < List.length (seq 0 (Z.to_nat (hi - lo + 1))))%nat)
    by (apply nth_error_Some; congruence).
  rewrite length_seq in Hi, Hj.
  rewrite (nth_error_nth' _ 0%nat) in Ha by (rewrite length_seq; exact Hi).
  rewrite (nth_error_nth' _ 0%nat) in Hb by (rewrite length_seq; exact Hj).
  rewrite seq_nth in Ha, Hb by assumption.
  injection Ha as <-. injection Hb as <-. apply Hmono. lia.
Qed.

(** X9.  Requests cover fetches.  On a clip with at least one frame,
    [RequestFrame] asks the host for [2 Az + 1] indices, each inside the
    clip, in nondecreasing order ([mapn] is monotone and leaves the indices
    of the clip alone), and every index that any of the four variants hands
    to [getFrameFilter] while serving the frame [n] is one of the indices
    [RequestFrame] asked for. *)
Theorem requests_cover_fetches (t : TNLMeans) (gw : Z -> R) (clip : Clip)
    (n : Z) :
  1 <= numFrames (vi t) -> 0 <= Az t ->
  Z.of_nat (List.length (RequestFrame t n)) = Az t * 2 + 1 /\
  (forall i j : nat, (i <= j)%nat ->
     forall x y, nth_error (RequestFrame t n) i = Some x ->
                 nth_error (RequestFrame t n) j = Some y -> x <= y) /\
  (forall m, mapn t (mapn t m) = mapn t m) /\
  (forall k d dstPF,
     In k (snd (GetFrameWOZ t gw clip n d dstPF)) -> In k (RequestFrame t n)) /\
  (forall k sb wb dstPF,
     In k (snd (GetFrameWOZB t gw clip n sb wb dstPF)) ->
     In k (RequestFrame t n)) /\
  (forall k fc dstPF,
     In k (snd (GetFrameWZ t gw clip n fc dstPF)) -> In k (RequestFrame t n)) /\
  (forall k fc sb wb dstPF,
     In k (snd (GetFrameWZB t gw clip n fc sb wb dstPF)) ->
     In k (RequestFrame t n)).
Proof.
  intros Hnf HAz.
  assert (Hreq : forall i, n - Az t <= i <= n + Az t ->
            In (mapn t i) (RequestFrame t n)).
  { intros i Hi. unfold RequestFrame. apply in_map. apply in_range. exact Hi. }
  split; [|split; [|split; [|split; [|split; [|split]]]]].
  - unfold RequestFrame, range. rewrite !length_map, length_seq. lia.
  - unfold RequestFrame. apply sorted_map_range.
    intros i j Hij. apply mapn_mono; assumption.
  - intros m. apply mapn_id. pose proof (mapn_range t m Hnf). lia.
  - intros k d dstPF Hk. apply GetFrameWOZ_log in Hk. subst k.
    apply Hreq. lia.
  - intros k sb wb dstPF Hk. apply GetFrameWOZB_log in Hk. subst k.
    apply Hreq. lia.
  - intros k fc dstPF Hk. apply GetFrameWZ_log in Hk; [|exact HAz].
    destruct Hk as [i [Hi ->]]. apply Hreq. exact Hi.
  - intros k fc sb wb dstPF Hk. apply GetFrameWZB_log in Hk; [|exact HAz].
    destruct Hk as [i [Hi ->]]. apply Hreq. exact Hi.
Qed.

Lemma requests_cover_fetches_witness :
  1 <= numFrames (vi engine_t1) /\ RequestFrame engine_t1 4 = [3; 4; 4] /\
  forall k fc dstPF,
    In k (snd (GetFrameWZ engine_t1 gw_row clip_step 4 fc dstPF)) ->
    In k (RequestFrame engine_t1 4).
Proof.
  assert (Hnf : 1 <= numFrames (vi engine_t1)) by (cbn; lia).
  assert (HAz : 0 <= Az engine_t1) by (cbn; lia).
  split; [exact Hnf|]. split; [reflexivity|].
  destruct (requests_cover_fetches engine_t1 gw_row clip_step 4 Hnf HAz)
    as [_ [_ [_ [_ [_ [Hwz _]]]]]].
  exact Hwz.
Defined.

(** ** The kernel table *)

(** A run of [v lo], ..., [v hi] stored from the cell [c] on. *)
Lemma fill_run (v : Z -> R) (lo : Z) (c : Z) (f : Z -> R) (m : nat) :
  let r := for_loop lo (lo + Z.of_nat m - 1) (fun k st =>
             (fst st + 1, upd (snd st) (fst st) (v k))) (c, f) in
  fst r = c + Z.of_nat m /\
  (forall k, lo <= k <= lo + Z.of_nat m - 1 -> snd r (c + (k - lo)) = v k) /\
  (forall i, i < c \/ c + Z.of_nat m <= i -> snd r i = f i).
Proof.
  induction m as [|m IH]; cbv zeta.
  - rewrite for_loop_nil by lia. cbn [fst snd].
    split; [lia|]. split; [intros k Hk; lia|reflexivity].
  - rewrite for_loop_snoc by lia.
    replace (lo + Z.of_nat (S m) - 1 - 1) with (lo + Z.of_nat m - 1) by lia.
    cbv zeta in IH. destruct IH as [Hc [Hin Hout]].
    set (r := for_loop lo (lo + Z.of_nat m - 1) _ (c, f)) in *.
    cbn [fst snd]. rewrite Hc.
    split; [lia|]. split.
    + intros k Hk.
      destruct (Z.eq_dec k (lo + Z.of_nat (S m) - 1)) as [->|Hne].
      * replace (c + (lo + Z.of_nat (S m) - 1 - lo)) with (c + Z.of_nat m)
          by lia.
        apply upd_same.
      * rewrite upd_other by lia. apply Hin. lia.
    + intros i Hi. rewrite upd_other by lia. apply Hout. lia.
Qed.

Lemma gw_fill_unfold (Sx Sy Bx By : Z) (a2 : R) :
  gw_fill Sx Sy Bx By a2
  = for_loop (- Sy) Sy (fun j st =>
      for_loop (- Sx) Sx (fun k st =>
        (fst st + 1, upd (snd st) (fst st) (kernel Bx By a2 j k))) st)
    (0, fun _ => 0%R).
Proof. reflexivity. Qed.

Lemma gw_fill_rows (Sx Sy Bx By : Z) (a2 : R) (m : nat) :
  0 <= Sx ->
  let r := for_loop (- Sy) (- Sy + Z.of_nat m - 1) (fun j st =>
             for_loop (- Sx) Sx (fun k st =>
               (fst st + 1, upd (snd st) (fst st) (kernel Bx By a2 j k))) st)
             (0, fun _ => 0%R) in
  fst r = Z.of_nat m * (Sx * 2 + 1) /\
  (forall j k, - Sy <= j <= - Sy + Z.of_nat m - 1 -> - Sx <= k <= Sx ->
     snd r ((j + Sy) * (Sx * 2 + 1) + Sx + k) = kernel Bx By a2 j k) /\
  (forall i, i < 0 \/ Z.of_nat m * (Sx * 2 + 1) <= i -> snd r i = 0%R).
Proof.
  intros HSx. induction m as [|m IH]; cbv zeta.
  - rewrite for_loop_nil by lia. cbn [fst snd].
    split; [lia|]. split; [intros j k Hj; lia|reflexivity].
  - rewrite for_loop_snoc by lia.
    replace (- Sy + Z.of_nat (S m) - 1 - 1) with (- Sy + Z.of_nat m - 1) by lia.
    cbv zeta in IH. destruct IH as [Hc [Hin Hout]].
    set (r := for_loop (- Sy) (- Sy + Z.of_nat m - 1) _ _) in *.
    set (j0 := - Sy + Z.of_nat (S m) - 1).
    pose proof (fill_run (kernel Bx By a2 j0) (- Sx) (fst r) (snd r)
                  (Z.to_nat (Sx * 2 + 1))) as Hrun.
    cbv zeta in Hrun.
    replace (- Sx + Z.of_nat (Z.to_nat (Sx * 2 + 1)) - 1) with Sx in Hrun
      by lia.
    replace (fst r, snd r) with r in Hrun by (destruct r; reflexivity).
    destruct Hrun as [Hc' [Hin' Hout']].
    split; [|split].
    + rewrite Hc', Hc. lia.
    + intros j k Hj Hk.
      destruct (Z.eq_dec j j0) as [->|Hne].
      * rewrite <- (Hin' k) by lia. f_equal. rewrite Hc. subst j0. lia.
      * rewrite Hout'; [apply Hin; lia|]. left. rewrite Hc. subst j0. nia.
    + intros i Hi. rewrite Hout'.
      * apply Hout. nia.
      * rewrite Hc. nia.
Qed.

Lemma block_gap_inside (B j : Z) : - B <= j <= B -> block_gap B j = 0.
Proof.
  intros Hj. unfold block_gap. destruct (Z.ltb_spec j 0); lia.
Qed.

Lemma block_gap_opp (B j : Z) : 0 <= B -> block_gap B (- j) = - block_gap B j.
Proof.
  intros HB. unfold block_gap.
  destruct (Z.ltb_spec (- j) 0); destruct (Z.ltb_spec j 0); lia.
Qed.

Lemma kernel_bounds (Bx By : Z) (a2 : R) (j k : Z) :
  (0 < a2)%R -> (0 < kernel Bx By a2 j k <= 1)%R.
Proof.
  intros Ha. unfold kernel. split; [apply exp_pos|].
  rewrite <- exp_0. apply exp_le_mono.
  assert (H0 : (0 <= IZR (block_gap By j * block_gap By j
                         + block_gap Bx k * block_gap Bx k))%R)
    by (apply IZR_le; nia).
  assert (Hq : (0 <= IZR (block_gap By j * block_gap By j
                         + block_gap Bx k * block_gap Bx k) / (2 * a2))%R).
  { apply Rmult_le_pos; [exact H0|].
    apply Rlt_le. apply Rinv_0_lt_compat. lra. }
  lra.
Qed.

(** X10.  The kernel table of a worker slot.  For patch radii [Sx, Sy >= 0]
    the constructor stores [(2 Sx + 1) (2 Sy + 1)] weights, row by row, and
    nothing outside that range; the weight of the patch offset [(j, k)]
    sits at the index [(j + Sy) * Sxd + Sx + k], the index the four variants
    read, and is [exp (- (m^2 + n^2) / (2 a^2))], where [m] and [n] are the
    distances of [j] and [k] from the block.  So, with block radii
    [Bx, By >= 0] and [a >= 2^-500], whose square does not underflow, the
    weight is 1 all over the block ([|j| <= By] and [|k| <= Bx]), lies in
    [0, 1] everywhere, and is the same at [(j, k)], [(-j, k)], [(j, -k)]
    and [(-j, -k)]. *)
Theorem kernel_table (Sx Sy Bx By : Z) (a : R) :
  0 <= Sx -> 0 <= Sy -> 0 <= Bx -> 0 <= By -> (/ 2 ^ 500 <= a)%R ->
  let r := gw_fill Sx Sy Bx By (a * a) in
  fst r = (Sx * 2 + 1) * (Sy * 2 + 1) /\
  (forall i, i < 0 \/ (Sx * 2 + 1) * (Sy * 2 + 1) <= i -> snd r i = 0%R) /\
  (forall j k, - Sy <= j <= Sy -> - Sx <= k <= Sx ->
     let w := snd r ((j + Sy) * (Sx * 2 + 1) + Sx + k) in
     w = kernel Bx By (a * a) j k /\
     (0 <= w <= 1)%R /\
     (- By <= j <= By -> - Bx <= k <= Bx -> w = 1%R) /\
     snd r ((- j + Sy) * (Sx * 2 + 1) + Sx + k) = w /\
     snd r ((j + Sy) * (Sx * 2 + 1) + Sx + - k) = w /\
     snd r ((- j + Sy) * (Sx * 2 + 1) + Sx + - k) = w).
Proof.
  intros HSx HSy HBx HBy Ha0. cbv zeta. rewrite gw_fill_unfold.
  assert (Ha : (0 < a)%R) by (pose proof tiny_positive; lra).
  pose proof (gw_fill_rows Sx Sy Bx By (a * a) (Z.to_nat (Sy * 2 + 1)) HSx)
    as Hrows.
  cbv zeta in Hrows.
  replace (- Sy + Z.of_nat (Z.to_nat (Sy * 2 + 1)) - 1) with Sy in Hrows
    by lia.
  destruct Hrows as [Hc [Hin Hout]].
  assert (Ha2 : (0 < a * a)%R) by (apply Rmult_lt_0_compat; exact Ha).
  split; [rewrite Hc; lia|]. split.
  - intros i Hi. apply Hout. lia.
  - intros j k Hj Hk.
    assert (Hsym : forall j' k', (j' = j \/ j' = - j) -> (k' = k \/ k' = - k) ->
              kernel Bx By (a * a) j' k' = kernel Bx By (a * a) j k).
    { intros j' k' Hj' Hk'. unfold kernel. do 3 f_equal.
      assert (Hg1 : block_gap By j' * block_gap By j'
                    = block_gap By j * block_gap By j).
      { destruct Hj' as [->| ->]; [reflexivity|].
        rewrite block_gap_opp by exact HBy. lia. }
      assert (Hg2 : block_gap Bx k' * block_gap Bx k'
                    = block_gap Bx k * block_gap Bx k).
      { destruct Hk' as [->| ->]; [reflexivity|].
        rewrite block_gap_opp by exact HBx. lia. }
      rewrite Hg1, Hg2. reflexivity. }
    rewrite !Hin by lia.
    split; [reflexivity|]. split.
    { destruct (kernel_bounds Bx By (a * a) j k Ha2) as [Hlo Hhi].
      split; [apply Rlt_le; exact Hlo|exact Hhi]. }
    split; [|split; [|split]].
    + intros Hjb Hkb. unfold kernel.
      rewrite (block_gap_inside By j Hjb), (block_gap_inside Bx k Hkb).
      cbn [Z.mul Z.add]. unfold Rdiv. rewrite Rmult_0_l, Ropp_0. apply exp_0.
    + apply Hsym; auto.
    + apply Hsym; auto.
    + apply Hsym; auto.
Qed.

Lemma kernel_table_witness :
  snd (gw_fill 1 1 1 1 (1 * 1)) 4 = 1%R.
Proof.
  destruct (kernel_table 1 1 1 1 1) as [_ [_ Hw]]; try lia;
    [apply tiny_le; lra|].
  destruct (Hw 0 0) as [_ [_ [Hone _]]]; try lia.
  apply Hone; lia.
Defined.

(** ** Dispatch and the worker slots *)

Lemma acquire_some (ths : list nlThread) :
  (exists th, In th ths /\ active th = 0) ->
  exists pre th post,
    acquire ths = Some (pre, th, post) /\ ths = pre ++ th :: post /\
    active th = 0 /\ Forall (fun x => active x <> 0) pre.
Proof.
  induction ths as [|x ths IH]; intros [th [Hin Hth]]; [destruct Hin|].
  cbn [acquire]. destruct (Z.eqb_spec (active x) 0) as [Hx|Hx].
  - exists [], x, ths. repeat split; [exact Hx|constructor].
  - destruct IH as [pre [y [post [Hacq [Heq [Hy Hpre]]]]]].
    { destruct Hin as [<-|Hin]; [contradiction|]. exists th. auto. }
    rewrite Hacq. exists (x :: pre), y, post. subst ths.
    repeat split; [exact Hy|]. constructor; assumption.
Qed.

Lemma acquire_none (ths : list nlThread) :
  Forall (fun x => active x <> 0) ths -> acquire ths = None.
Proof.
  induction 1 as [|x ths Hx _ IH]; [reflexivity|].
  cbn [acquire]. destruct (Z.eqb_spec (active x) 0); [contradiction|].
  rewrite IH. reflexivity.
Qed.

Lemma slot_ready_config (t t' : TNLMeans) (th th' : nlThread) :
  Az t' = Az t -> Bx t' = Bx t -> By t' = By t -> vi t' = vi t ->
  fc th' = fc th -> sumsb th' = sumsb th -> weightsb th' = weightsb th ->
  tds th' = tds th ->
  slot_ready t th -> slot_ready t' th'.
Proof.
  intros HAz HBx HBy Hvi Hfc Hsb Hwb Hds [H1 [H2 H3]].
  unfold slot_ready, use_blocks, ring_ok, coherent, mapn in *.
  rewrite HAz, HBx, HBy, Hvi, Hfc, Hsb, Hwb, Hds. auto.
Qed.

(** The variant selected finds its buffers in a ready slot and leaves the
    slot ready. *)
Lemma GetFrameByMethod_ready (t : TNLMeans) (clip : Clip) (n : Z)
    (th : nlThread) (dstPF : option Frame) :
  0 <= Az t -> slot_ready t th ->
  exists th' out log,
    GetFrameByMethod t clip n th dstPF = Some (th', out, log) /\
    slot_ready t th' /\ active th' = active th /\ gw th' = gw th /\
    (dstPF = None <-> out = None).
Proof.
  intros HAz [Hfc [Hblk Hds]]. unfold GetFrameByMethod.
  destruct (Z.eqb_spec (Az t) 0) as [Hz|Hnz]; cbn [negb];
    destruct (use_blocks t) eqn:Hub.
  - destruct (Hblk eq_refl) as [Hsb Hwb].
    destruct (sumsb th) as [sb|]; [|contradiction].
    destruct (weightsb th) as [wb|]; [|contradiction].
    eexists _, _, _. split; [reflexivity|].
    split; [|split; [reflexivity|split; [reflexivity|]]].
    + split; [intros H; contradiction|].
      split; [intros _; split; discriminate|]. intros _ H. congruence.
    + unfold GetFrameWOZB. destruct dstPF; cbn [fst snd];
        split; intros H; try discriminate; reflexivity.
  - specialize (Hds Hz eq_refl).
    destruct (tds th) as [d|]; [|contradiction].
    eexists _, _, _. split; [reflexivity|].
    split; [|split; [reflexivity|split; [reflexivity|]]].
    + split; [intros H; contradiction|].
      split; [intros H; congruence|]. intros _ _. discriminate.
    + unfold GetFrameWOZ. destruct dstPF; cbn [fst snd];
        split; intros H; try discriminate; reflexivity.
  - destruct (Hfc Hnz) as [c [Hc [Hring Hcoh]]]. rewrite Hc.
    destruct (Hblk eq_refl) as [Hsb Hwb].
    destruct (sumsb th) as [sb|]; [|contradiction].
    destruct (weightsb th) as [wb|]; [|contradiction].
    eexists _, _, _. split; [reflexivity|].
    split; [|split; [reflexivity|split; [reflexivity|]]].
    + split; [|split; [intros _; split; discriminate|intros H; contradiction]].
      intros _. eexists. split; [reflexivity|]. cbn [fc].
      rewrite GetFrameWZB_cache.
      destruct (cache_fill_window t false c n HAz Hring) as [Hr [_ Hco]].
      split; [exact Hr|apply Hco; exact Hcoh].
    + unfold GetFrameWZB. destruct dstPF; cbn [fst snd];
        split; intros H; try discriminate; reflexivity.
  - destruct (Hfc Hnz) as [c [Hc [Hring Hcoh]]]. rewrite Hc.
    eexists _, _, _. split; [reflexivity|].
    split; [|split; [reflexivity|split; [reflexivity|]]].
    + split; [|split; [intros H; congruence|intros H; contradiction]].
      intros _. eexists. split; [reflexivity|].
      destruct (cache_fill_window t true c n HAz Hring) as [Hr [_ Hco]].
      pose proof (GetFrameWZ_shell t (gw th) clip n c dstPF) as Hs.
      split; [eapply ring_ok_shell; eassumption|].
      eapply coherent_shell; [exact Hs|]. apply Hco. exact Hcoh.
    + unfold GetFrameWZ. destruct dstPF; cbn [fst snd];
        split; intros H; try discriminate; reflexivity.
Qed.

Lemma constructed_slots (t : TNLMeans) :
  constructed t ->
  threads t = repeat (nlThread_new (Ax t) (Ay t) (Az t) (Sx t) (Sy t)
                        (Bx t) (By t) (a t * a t))
                     (Z.to_nat (numThreads t)) /\
  0 <= Az t.
Proof.
  intros [pAx [pAy [pAz [pSx [pSy [pBx [pBy [pa [ph [pssd [pvi [tc Hnew]]]]]]]]]]]].
  pose proof (TNLMeans_new_inr _ _ _ _ _ _ _ _ _ _ _ _ _ Hnew) as [Hfmt Hall].
  destruct (TNLMeans_new_success pAx pAy pAz pSx pSy pBx pBy pa ph pssd pvi
              tc Hfmt Hall) as [e [He [Hinit _]]].
  rewrite Hnew in He. injection He as <-. subst t.
  unfold constraints, holds in Hall.
  repeat match goal with
  | H : Forall _ (_ :: _) |- _ => inversion H; subst; clear H
  end.
  cbn [fst snd] in *. split; [reflexivity|]. cbn. lia.
Qed.



Lemma set_threads_back (t : TNLMeans) (ths : list nlThread) :
  set_threads (set_threads t ths) (threads t) = t.
Proof. destruct t. reflexivity. Qed.

(** ** Requests that the temporal variants can serve *)

(** After the fetch loop of a servable request no slot is empty. *)
Lemma cache_fill_loaded (t : TNLMeans) (clear : bool) (fc : nlCache) (n : Z) :
  0 <= Az t -> ring_ok t fc -> coherent t fc -> -20 < n - Az t ->
  slots_loaded (fst (cache_fill t clear
                       (resetCacheStart fc (n - Az t) (n + Az t)) n)).
Proof.
  intros HAz Hring Hcoh Hn.
  destruct (cache_fill_window t clear fc n HAz Hring) as [[Hsz _] [Hw Hc]].
  specialize (Hc Hcoh).
  intros i Hi. rewrite Hsz in Hi.
  rewrite Hc; [discriminate|]. rewrite Hw by lia. lia.
Qed.

Lemma WZ_history_snoc (t : TNLMeans) gw clip dst (ns : list Z) (n : Z) :
  WZ_history t gw clip dst (ns ++ [n])
  = fst (fst (GetFrameWZ t gw clip n (WZ_history t gw clip dst ns) (Some dst))).
Proof. unfold WZ_history. rewrite fold_left_app. reflexivity. Qed.

(** The cache stays usable along a history of requests. *)
Lemma WZ_history_ready (t : TNLMeans) gw clip dst (ns : list Z) :
  0 <= Az t ->
  ring_ok t (WZ_history t gw clip dst ns) /\
  coherent t (WZ_history t gw clip dst ns).
Proof.
  intros HAz. induction ns as [|n ns IH] using rev_ind.
  - apply fresh_ring_ok. exact HAz.
  - destruct IH as [Hring Hcoh]. rewrite WZ_history_snoc.
    destruct (cache_fill_window t true _ n HAz Hring) as [Hr [_ Hco]].
    pose proof (GetFrameWZ_shell t gw clip n (WZ_history t gw clip dst ns)
                  (Some dst)) as Hs.
    split; [eapply ring_ok_shell; eassumption|].
    eapply coherent_shell; [exact Hs|]. apply Hco. exact Hcoh.
Qed.

Lemma engine_t1_well_scaled : well_scaled engine_t1.
Proof. split; apply tiny_le; cbn; lra. Qed.

Lemma engine_b1_well_scaled : well_scaled engine_b1.
Proof. split; apply tiny_le; cbn; lra. Qed.


(** A worker slot built by the constructor owns the buffers of the mode. *)
Lemma constructed_ready (t : TNLMeans) :
  constructed t -> Forall (slot_ready t) (threads t).
Proof.
  intros Hcon. destruct (constructed_slots t Hcon) as [Hths HAz].
  rewrite Hths. apply Forall_forall. intros th Hth.
  apply repeat_spec in Hth. subst th.
  unfold slot_ready, nlThread_new, use_blocks. cbn [fc sumsb weightsb tds].
  split; [|split].
  - intros Hnz. destruct (Z.eqb_spec (Az t) 0) as [|_]; [contradiction|].
    eexists. split; [reflexivity|]. apply fresh_ring_ok. exact HAz.
  - intros ->. split; discriminate.
  - intros -> ->. cbn. discriminate.
Qed.

(** One call of [GetFrame] on an engine whose slots own their buffers. *)
Lemma GetFrame_step (t : TNLMeans) (clip : Clip) (n : Z)
    (dstPF : option Frame) :
  0 <= Az t -> Forall (slot_ready t) (threads t) ->
  (exists th, In th (firstn (Z.to_nat (numThreads t)) (threads t)) /\
              active th = 0) ->
  exists pre th post th' out log,
    acquire (firstn (Z.to_nat (numThreads t)) (threads t))
    = Some (pre, th, post) /\
    firstn (Z.to_nat (numThreads t)) (threads t) = pre ++ th :: post /\
    active th = 0 /\ Forall (fun x => active x <> 0) pre /\
    slot_ready t th /\
    GetFrameByMethod t clip n (set_active th 1) dstPF = Some (th', out, log) /\
    GetFrame t clip n dstPF
    = Some (set_threads t
              (pre ++ set_active th' 0
                   :: post ++ skipn (Z.to_nat (numThreads t)) (threads t)),
            out, log) /\
    map active (pre ++ set_active th' 0
                    :: post ++ skipn (Z.to_nat (numThreads t)) (threads t))
    = map active (threads t) /\
    Forall (slot_ready t)
           (pre ++ set_active th' 0
                :: post ++ skipn (Z.to_nat (numThreads t)) (threads t)) /\
    (dstPF = None <-> out = None).
Proof.
  intros HAz Hready Hidle. unfold GetFrame. cbv zeta.
  destruct (acquire_some _ Hidle) as [pre [th [post [Hacq [Hsplit [Hth Hpre]]]]]].
  rewrite Hacq.
  assert (Hall : threads t
                 = pre ++ th :: post
                   ++ skipn (Z.to_nat (numThreads t)) (threads t)).
  { rewrite <- (firstn_skipn (Z.to_nat (numThreads t)) (threads t)) at 1.
    rewrite Hsplit, <- app_assoc. reflexivity. }
  assert (Hthr : slot_ready t th).
  { rewrite Forall_forall in Hready. apply Hready. rewrite Hall.
    apply in_or_app. right. left. reflexivity. }
  assert (Hthr1 : slot_ready t (set_active th 1))
    by (apply (slot_ready_config t t th); auto).
  destruct (GetFrameByMethod_ready t clip n (set_active th 1) dstPF HAz Hthr1)
    as [th' [out [log [Hrun [Hr' [_ [_ Hnull]]]]]]].
  rewrite Hrun. exists pre, th, post, th', out, log.
  split; [reflexivity|]. split; [exact Hsplit|]. split; [exact Hth|].
  split; [exact Hpre|]. split; [exact Hthr|]. split; [exact Hrun|].
  split; [reflexivity|]. split; [|split; [|exact Hnull]].
  - rewrite Hall at 2. rewrite !map_app. cbn [map set_active active].
    rewrite Hth. reflexivity.
  - rewrite Hall in Hready. apply Forall_app in Hready.
    destruct Hready as [Hp Hq]. apply Forall_cons_iff in Hq.
    destruct Hq as [_ Hq].
    apply Forall_app. split; [exact Hp|].
    constructor; [|exact Hq].
    apply (slot_ready_config t t th' (set_active th' 0)); auto.
Qed.

Lemma acquire_idle (ths pre post : list nlThread) (th : nlThread) :
  acquire ths = Some (pre, th, post) ->
  exists x, In x ths /\ active x = 0.
Proof.
  revert pre th post. induction ths as [|x l IH]; intros pre th post Hacq;
    [discriminate Hacq|].
  cbn [acquire] in Hacq. destruct (Z.eqb_spec (active x) 0) as [Hx|Hx].
  - exists x. split; [left; reflexivity|exact Hx].
  - destruct (acquire l) as [[[pre' y] post']|]; [|discriminate Hacq].
    destruct (IH pre' y post' eq_refl) as [z [Hz1 Hz2]].
    exists z. split; [right; exact Hz1|exact Hz2].
Qed.

(** The states reached by served requests keep the configuration, the busy
    flags and the buffers of the slots. *)
Lemma served_from_ready (t0 t : TNLMeans) (clip : Clip) :
  0 <= Az t0 -> Forall (slot_ready t0) (threads t0) ->
  served_from t0 clip t ->
  set_threads t (threads t0) = t0 /\
  map active (threads t) = map active (threads t0) /\
  Forall (slot_ready t) (threads t).
Proof.
  intros HAz Hready Hs. induction Hs as [|t t' n dstPF out log Hs IH Hn Hrun].
  - split; [destruct t0; reflexivity|]. split; [reflexivity|exact Hready].
  - destruct IH as [Hcfg [Hact Hrdy]].
    assert (HAzt : Az t = Az t0) by (rewrite <- Hcfg; reflexivity).
    assert (Hidle : exists x,
              In x (firstn (Z.to_nat (numThreads t)) (threads t)) /\
              active x = 0).
    { pose proof Hrun as Hrun0. unfold GetFrame in Hrun0. cbv zeta in Hrun0.
      destruct (acquire (firstn (Z.to_nat (numThreads t)) (threads t)))
        as [[[pre th] post]|] eqn:Hacq; [|discriminate Hrun0].
      apply (acquire_idle _ pre post th). exact Hacq. }
    destruct (GetFrame_step t clip n dstPF ltac:(lia) Hrdy Hidle)
      as [pre' [th0 [post' [th' [out' [log' [Hacq' [_ [_ [_ [_ [_ [Hrun'
            [Hact' [Hrdy' _]]]]]]]]]]]]]]].
    rewrite Hrun' in Hrun. injection Hrun as <- _ _.
    cbn [set_threads threads]. split; [|split].
    + rewrite <- Hcfg. destruct t. reflexivity.
    + rewrite Hact'. exact Hact.
    + eapply Forall_impl; [|exact Hrdy']. intros x Hx.
      apply (slot_ready_config t _ x x); auto.
Qed.

(** X12.  [GetFrame], one call at a time.  Take an engine built by the
    constructor with [a] and [h] at least [2^-500], in a state reached by
    served requests, and a servable frame [n].  A call that finds an idle
    slot among the first [numThreads] returns: it takes the first idle
    slot, every slot before it being busy, serves the request there with
    the variant of the mode and releases the slot, so that only this slot
    has changed, the busy flags are afterwards what they were and the
    configuration is unchanged; in a temporal mode the fetch loop leaves a
    frame reference in every slot of the cache of that slot; the frame
    returned is null exactly when the output frame could not be allocated;
    and the state after the call is again a reached state.  With every slot
    busy the search loop never exits and the call has no result. *)
Theorem GetFrame_serves (t0 t : TNLMeans) (clip : Clip) (n : Z)
    (dstPF : option Frame) :
  constructed t0 -> well_scaled t0 -> served_from t0 clip t ->
  servable t n ->
  ((exists th, In th (firstn (Z.to_nat (numThreads t)) (threads t)) /\
               active th = 0) ->
   exists t' out log pre th post th',
     GetFrame t clip n dstPF = Some (t', out, log) /\
     firstn (Z.to_nat (numThreads t)) (threads t) = pre ++ th :: post /\
     Forall (fun x => active x <> 0) pre /\ active th = 0 /\
     (Az t <> 0 ->
      exists c, fc th = Some c /\
        slots_loaded
          (fst (cache_fill t (negb (use_blocks t))
                  (resetCacheStart c (n - Az t) (n + Az t)) n))) /\
     GetFrameByMethod t clip n (set_active th 1) dstPF = Some (th', out, log) /\
     threads t' = pre ++ set_active th' 0
                      :: post ++ skipn (Z.to_nat (numThreads t)) (threads t) /\
     set_threads t' (threads t) = t /\
     map active (threads t') = map active (threads t) /\
     (dstPF = None <-> out = None) /\
     served_from t0 clip t') /\
  (Forall (fun th => active th <> 0)
          (firstn (Z.to_nat (numThreads t)) (threads t)) ->
   GetFrame t clip n dstPF = None).
Proof.
  intros Hcon _ Hs Hn.
  destruct (constructed_slots t0 Hcon) as [_ HAz0].
  destruct (served_from_ready t0 t clip HAz0 (constructed_ready t0 Hcon) Hs)
    as [Hcfg [_ Hrdy]].
  assert (HAz : 0 <= Az t) by (rewrite <- Hcfg in HAz0; exact HAz0).
  split.
  - intros Hidle.
    destruct (GetFrame_step t clip n dstPF HAz Hrdy Hidle)
      as [pre [th [post [th' [out [log [_ [Hsplit [Hth [Hpre [Hthr [Hby
            [Hrun [Hact [_ Hnull]]]]]]]]]]]]]]].
    eexists _, out, log, pre, th, post, th'.
    split; [exact Hrun|]. split; [exact Hsplit|]. split; [exact Hpre|].
    split; [exact Hth|]. split.
    { intros Hnz. destruct Hthr as [Hfc _].
      destruct (Hfc Hnz) as [c [Hc [Hring Hcoh]]].
      exists c. split; [exact Hc|]. destruct Hn as [_ Hn2].
      apply cache_fill_loaded; assumption. }
    split; [exact Hby|]. split; [reflexivity|].
    split; [apply set_threads_back|]. split; [exact Hact|].
    split; [exact Hnull|].
    eapply served_next; [exact Hs|exact Hn|exact Hrun].
  - intros Hbusy. unfold GetFrame. cbv zeta.
    rewrite (acquire_none _ Hbusy). reflexivity.
Qed.

Lemma GetFrame_serves_witness :
  constructed engine_t1 /\ well_scaled engine_t1 /\ servable engine_t1 0 /\
  exists t' out log,
    GetFrame engine_t1 clip_step 0 (Some frame_blank) = Some (t', out, log) /\
    map active (threads t') = [0] /\
    served_from engine_t1 clip_step t'.
Proof.
  assert (Hn : servable engine_t1 0) by (unfold servable; cbn; lia).
  split; [exact engine_t1_constructed|].
  split; [exact engine_t1_well_scaled|]. split; [exact Hn|].
  destruct (GetFrame_serves engine_t1 engine_t1 clip_step 0 (Some frame_blank)
              engine_t1_constructed engine_t1_well_scaled
              (served_none engine_t1 clip_step) Hn) as [Hserve _].
  destruct Hserve
    as [t' [out [log [pre [th [post [th' [Hrun [_ [_ [_ [_ [_ [_ [_ [Hact
          [_ Hs]]]]]]]]]]]]]]]]].
  - eexists. split; [left; reflexivity|reflexivity].
  - exists t', out, log. split; [exact Hrun|]. split; [exact Hact|exact Hs].
Defined.

(** ** Constant frames through the spatial pixel variant *)

(** C4.  For an engine of the spatial pixel mode built by the constructor
    with [a] and [h] at least [2^-500], and a frame whose pixels all hold
    the byte [c]: every pixel of the output of [GetFrameWOZ], run with the
    kernel table of a worker slot, is [c], whatever the radii and the
    metric, and whatever the accumulator held. *)
Theorem GetFrameWOZ_constant_frame
    (pAx pAy pSx pSy : Z) (pa ph : R) (pssd : bool) (pvi : VSVideoInfo)
    (threadCount : Z) (t : TNLMeans) (th : nlThread) (clip : Clip) (n : Z)
    (d : SDATA) (dst : Frame) (c : Z) :
  TNLMeans_new pAx pAy 0 pSx pSy 0 0 pa ph pssd pvi threadCount = inr t ->
  (/ 2 ^ 500 <= pa)%R -> (/ 2 ^ 500 <= ph)%R ->
  In th (threads t) ->
  0 <= c <= 255 ->
  (forall plane, 0 <= plane < numPlanes (format (vi t)) ->
     constant_plane (clip (mapn t n) plane) (planeWidth (vi t) plane)
                    (planeHeight (vi t) plane) c) ->
  exists out,
    snd (fst (GetFrameWOZ t (gw th) clip n d (Some dst))) = Some out /\
    forall plane y x,
      0 <= plane < numPlanes (format (vi t)) ->
      0 <= y < planeHeight (vi t) plane -> 0 <= x < planeWidth (vi t) plane ->
      out plane y x = c.
Proof.
  intros _ _ _ _ Hc Hconst.
  destruct (snd (fst (GetFrameWOZ t (gw th) clip n d (Some dst))))
    as [out|] eqn:Hres; [|discriminate Hres].
  exists out. split; [reflexivity|].
  intros plane y x Hpl Hy Hx.
  destruct (GetFrameWOZ_plane t (gw th) clip n d dst plane Hpl)
    as [out' [d' [Hout Hplane]]].
  rewrite Hres in Hout. injection Hout as <-.
  rewrite Hplane. apply WOZ_plane_flat; auto.
Qed.

Lemma GetFrameWOZ_constant_frame_witness :
  exists out,
    snd (fst (GetFrameWOZ (TNLMeans_init 1 1 0 0 0 0 0 1 10 false (vi_gray 4 4 1) 1)
                gw_row (fun _ _ _ _ => 7) 0 SDATA_zero
                (Some (fun _ _ _ => 0)))) = Some out /\
    out 0 0 0 = 7.
Proof.
  destruct (GetFrameWOZ_constant_frame 1 1 0 0 1 10 false (vi_gray 4 4 1) 1
              (TNLMeans_init 1 1 0 0 0 0 0 1 10 false (vi_gray 4 4 1) 1)
              (nlThread_new 1 1 0 0 0 0 0 (1 * 1))
              (fun _ _ _ _ => 7) 0 SDATA_zero (fun _ _ _ => 0) 7)
    as [out [Hout Hpix]].
  - exact TNLMeans_new_sample.
  - apply tiny_le. lra.
  - apply tiny_le. lra.
  - left. reflexivity.
  - lia.
  - intros plane Hpl y x Hy Hx. reflexivity.
  - exists out. split; [exact Hout|].
    apply Hpix; cbn; lia.
Defined.

(** ** Zero block radii *)




(** ** The frames the pixel variants return *)

(** X7.  What the pixel variants write.  Take an engine of a pixel mode
    built by the constructor with [a] and [h] at least [2^-500], and the
    kernel table of one of its worker slots.  In the spatial mode
    [GetFrameWOZ] returns a frame whenever the output frame was allocated;
    and so does [GetFrameWZ] in the temporal mode for a servable frame, on
    the cache of the slot after any history of servable requests: there
    the fetch loop leaves a frame reference in every slot, so no null
    pointer is handed to [getReadPtr].  In each plane of the format every
    pixel of the returned frame holds a byte (0..255), and every other cell
    of the allocated frame, outside the plane's [width] by [height] or in
    a plane the format does not have, is left as allocated. *)
Theorem pixel_variants_write_frame (t : TNLMeans) (th : nlThread)
    (clip : Clip) (n : Z) (dst : Frame) :
  constructed t -> well_scaled t -> use_blocks t = false ->
  In th (threads t) ->
  (forall d, Az t = 0 -> exists out,
     snd (fst (GetFrameWOZ t (gw th) clip n d (Some dst))) = Some out /\
     (forall pl, 0 <= pl < numPlanes (format (vi t)) ->
        writes (frame_pixels (planeWidth (vi t) pl) (planeHeight (vi t) pl))
               (dst pl) (out pl)) /\
     (forall pl, ~ 0 <= pl < numPlanes (format (vi t)) -> out pl = dst pl)) /\
  (forall ns, Az t <> 0 -> Forall (servable t) ns -> servable t n ->
     let fc := WZ_history t (gw th) clip dst ns in
     slots_loaded
       (fst (cache_fill t true
               (resetCacheStart fc (n - Az t) (n + Az t)) n)) /\
     exists out,
       snd (fst (GetFrameWZ t (gw th) clip n fc (Some dst))) = Some out /\
       (forall pl, 0 <= pl < numPlanes (format (vi t)) ->
          writes (frame_pixels (planeWidth (vi t) pl)
                               (planeHeight (vi t) pl))
                 (dst pl) (out pl)) /\
       (forall pl, ~ 0 <= pl < numPlanes (format (vi t)) ->
          out pl = dst pl)).
Proof.
  intros Hcon _ _ _.
  destruct (constructed_slots t Hcon) as [_ HAz].
  split.
  - intros d _. unfold GetFrameWOZ. cbv zeta. cbn [fst snd].
    eexists. split; [reflexivity|].
    apply (planes_loop_writes (numPlanes (format (vi t))) _
             (fun pl => frame_pixels (planeWidth (vi t) pl)
                                     (planeHeight (vi t) pl)) d dst).
    intros pl st _. cbn [snd]. split.
    + rewrite upd_same. apply WOZ_plane_writes.
    + intros q Hq. apply upd_other. exact Hq.
  - intros ns _ _ [_ Hsent]. cbv zeta.
    destruct (WZ_history_ready t (gw th) clip dst ns HAz) as [Hring Hcoh].
    split; [apply cache_fill_loaded; assumption|].
    unfold GetFrameWZ. cbv zeta. cbn [fst snd].
    eexists. split; [reflexivity|].
    apply (planes_loop_writes (numPlanes (format (vi t))) _
             (fun pl => frame_pixels (planeWidth (vi t) pl)
                                     (planeHeight (vi t) pl))).
    intros pl st _. unfold WZ_frame_plane. cbv zeta. cbn [snd]. split.
    + rewrite upd_same. apply WZ_plane_writes.
    + intros q Hq. apply upd_other. exact Hq.
Qed.

Lemma pixel_variants_write_frame_witness :
  constructed engine_t1 /\ well_scaled engine_t1 /\
  servable engine_t1 2 /\
  exists out,
    snd (fst (GetFrameWZ engine_t1 gw_row clip_step 2
                (WZ_history engine_t1 gw_row clip_step frame_blank [1])
                (Some frame_blank))) = Some out /\
    0 <= out 0 3 3 <= 255.
Proof.
  assert (Hs1 : servable engine_t1 1) by (unfold servable; cbn; lia).
  assert (Hs2 : servable engine_t1 2) by (unfold servable; cbn; lia).
  split; [exact engine_t1_constructed|].
  split; [exact engine_t1_well_scaled|]. split; [exact Hs2|].
  destruct (pixel_variants_write_frame engine_t1
              (nlThread_new 1 1 1 0 0 0 0 (1 * 1)) clip_step 2 frame_blank
              engine_t1_constructed engine_t1_well_scaled eq_refl
              (or_introl eq_refl)) as [_ Hwz].
  assert (Hnz : Az engine_t1 <> 0) by (cbn; lia).
  destruct (Hwz [1] Hnz (Forall_cons 1 Hs1 (Forall_nil _)) Hs2)
    as [_ [out [Hout [Hw _]]]].
  exists out. split; [exact Hout|].
  destruct (Hw 0) as [Hbyte _]; [cbn; lia|].
  apply Hbyte. apply in_frame_pixels. cbn. lia.
Defined.

(** ** Constant clips through the block and temporal variants *)

Lemma stores_fold_inv {S : Type} (Q : Z -> Prop) (Inv : S -> Prop)
    (l : list Z) (cells : Z -> list (Z * Z))
    (step : Z -> S * Plane -> S * Plane) (s0 : S * Plane) :
  Inv (fst s0) ->
  (forall a st, In a l -> Inv (fst st) ->
     Inv (fst (step a st)) /\
     stores Q (cells a) (snd st) (snd (step a st))) ->
  Inv (fst (for_each l step s0)) /\
  stores Q (flat_map cells l) (snd s0) (snd (for_each l step s0)).
Proof.
  unfold for_each. revert s0. induction l as [|a l IH]; intros s0 Hs Hstep.
  - split; [exact Hs|]. split; [intros r c []|reflexivity].
  - cbn [fold_left flat_map].
    destruct (Hstep a s0 (or_introl eq_refl) Hs) as [Hs1 [Hin0 Hout0]].
    destruct (IH (step a s0) Hs1) as [Hinv [Hin Hout]].
    { intros b st Hb. apply Hstep. right. exact Hb. }
    split; [exact Hinv|]. split.
    + intros r c Hrc.
      destruct (pixel_in_dec (r, c) (flat_map cells l)) as [Hl|Hnl];
        [apply Hin; exact Hl|].
      rewrite Hout by exact Hnl. apply Hin0.
      apply in_app_or in Hrc. destruct Hrc as [H|H]; [exact H|contradiction].
    + intros r c Hrc. rewrite Hout, Hout0; [reflexivity| |];
        intros H; apply Hrc; apply in_or_app; [left|right]; exact H.
Qed.

Section ConstantTiles.

Variable t : TNLMeans.
Variable gw : Z -> R.
Variables width height : Z.
Variable c : Z.

Hypothesis Hc : 0 <= c <= 255.
Hypothesis HBx : 0 <= Bx t.
Hypothesis HBy : 0 <= By t.
Hypothesis HBxd : Bxd t = Bx t * 2 + 1.
Hypothesis HByd : Byd t = By t * 2 + 1.
Hypothesis HBxa : Bxa t = Bxd t * Byd t.

Lemma block_smear_flat (pf1p : Plane) (y x u v : Z) (w : R)
    (sb : (Z -> R) * (Z -> R)) (N : Z) :
  constant_plane pf1p width height c ->
  By t <= u -> Bx t <= v -> (0 <= w)%R ->
  flat_scratch c N sb ->
  flat_scratch c N (block_smear t pf1p (height - 1) (width - 1) y x u v w sb).
Proof.
  intros Hcp Hu Hv Hw Hsb. unfold block_smear.
  apply for_loop_inv; [exact Hsb|]. intros j sb1 Hj Hsb1.
  apply for_loop_inv; [exact Hsb1|]. intros k sb2 Hk Hsb2.
  rewrite (Hcp (u + j) (v + k)) by lia.
  intros i Hi. destruct (Hsb2 i Hi) as [Hs Hwt]. cbn [fst snd].
  destruct (Z.eq_dec i ((j + By t) * Bxd t + Bx t + k)) as [->|Hne].
  - rewrite !add_at_same. destruct (Hsb2 _ Hi) as [Hs' Hw'].
    rewrite Hs'. split; [ring|lra].
  - rewrite !add_at_other by exact Hne. split; assumption.
Qed.

Lemma block_candidate_flat (pf1p pf2p : Plane) (y x u v : Z) (self : bool)
    (s : Tile) (N : Z) :
  constant_plane pf1p width height c ->
  By t <= u -> Bx t <= v ->
  flat_scratch c N (fst s) -> (0 <= snd s)%R ->
  let s' := block_candidate t gw pf1p pf2p (height - 1) (width - 1) y x u v
              self s in
  flat_scratch c N (fst s') /\ (0 <= snd s')%R.
Proof.
  intros Hcp Hu Hv Hsb Hm. cbv zeta. unfold block_candidate.
  destruct self; [split; assumption|]. cbn [fst snd].
  pose proof (patch_weight_pos t gw pf1p pf2p (height - 1) (width - 1)
                y x u v) as Hw.
  split.
  - apply block_smear_flat; try assumption. lra.
  - destruct (Rgt_dec _ _); lra.
Qed.

Lemma tile_finish_const (srcp : Plane) (y x : Z) (s : Tile) (dstp : Plane) :
  constant_plane srcp width height c ->
  By t <= y -> Bx t <= x ->
  flat_scratch c (Bxa t) (fst s) ->
  stores (fun v => v = c) (tile_cells t width height y x) dstp
         (snd (tile_finish t srcp width height y x s dstp)).
Proof.
  intros Hcp Hy Hx Hsb. unfold tile_finish, tile_cells, for_loop.
  pose proof (self_weight_pos (snd s)) as Hsw.
  apply (stores_fold_inv (fun v => v = c) (flat_scratch c (Bxa t))
           (range 0 (Z.min (Byd t) (height - y + By t) - 1))
           (fun j => map (fun k => (y - By t + j, x - Bx t + k))
                         (range 0 (Z.min (Bxd t) (width - x + Bx t) - 1)))
           _ (fst s, dstp)); [exact Hsb|].
  intros j st Hj Hst. apply in_range in Hj.
  assert (Hgoal :
    flat_scratch c (Bxa t)
      (fst (for_each (range 0 (Z.min (Bxd t) (width - x + Bx t) - 1))
              (fun k st =>
                 (add_at (fst (fst st)) (j * Bxd t + k)
                    (IZR (srcp (y - By t + j) (x - Bx t + k))
                     * self_weight (snd s)),
                  add_at (snd (fst st)) (j * Bxd t + k) (self_weight (snd s)),
                  upd2 (snd st) (y - By t + j) (x - Bx t + k)
                    (to_pixel
                       (add_at (fst (fst st)) (j * Bxd t + k)
                          (IZR (srcp (y - By t + j) (x - Bx t + k))
                           * self_weight (snd s)) (j * Bxd t + k)
                        / add_at (snd (fst st)) (j * Bxd t + k)
                            (self_weight (snd s)) (j * Bxd t + k))))) st)) /\
    stores (fun v => v = c)
      (flat_map (fun k => [(y - By t + j, x - Bx t + k)])
                (range 0 (Z.min (Bxd t) (width - x + Bx t) - 1)))
      (snd st)
      (snd (for_each (range 0 (Z.min (Bxd t) (width - x + Bx t) - 1))
              (fun k st =>
                 (add_at (fst (fst st)) (j * Bxd t + k)
                    (IZR (srcp (y - By t + j) (x - Bx t + k))
                     * self_weight (snd s)),
                  add_at (snd (fst st)) (j * Bxd t + k) (self_weight (snd s)),
                  upd2 (snd st) (y - By t + j) (x - Bx t + k)
                    (to_pixel
                       (add_at (fst (fst st)) (j * Bxd t + k)
                          (IZR (srcp (y - By t + j) (x - Bx t + k))
                           * self_weight (snd s)) (j * Bxd t + k)
                        / add_at (snd (fst st)) (j * Bxd t + k)
                            (self_weight (snd s)) (j * Bxd t + k))))) st))).
  { apply (stores_fold_inv (fun v => v = c) (flat_scratch c (Bxa t)));
      [exact Hst|].
    intros k st' Hk Hst'. apply in_range in Hk. cbn [fst snd].
    rewrite (Hcp (y - By t + j) (x - Bx t + k)) by lia.
    assert (Hi : 0 <= j * Bxd t + k < Bxa t) by (rewrite HBxa; nia).
    destruct (Hst' _ Hi) as [Hs Hw]. split.
    - intros i Hir. destruct (Hst' i Hir) as [Hsi Hwi]. cbn [fst snd].
      destruct (Z.eq_dec i (j * Bxd t + k)) as [->|Hne].
      + rewrite !add_at_same, Hs. split; [ring|lra].
      + rewrite !add_at_other by exact Hne. split; assumption.
    - apply stores_upd2. rewrite !add_at_same, Hs.
      replace ((IZR c * snd (fst st') (j * Bxd t + k)%Z
                + IZR c * self_weight (snd s))
               / (snd (fst st') (j * Bxd t + k)%Z + self_weight (snd s)))%R
        with (IZR c) by (field; lra).
      apply to_pixel_byte. exact Hc. }
  destruct Hgoal as [Hflat Hst2]. split; [exact Hflat|].
  eapply stores_ext; [|exact Hst2].
  intros rc. rewrite flat_map_singleton. reflexivity.
Qed.

Lemma zero_scratch_flat (sb wb : Z -> R) :
  flat_scratch c (Bxa t)
    (fill_zero_d sb (Bxa t), fill_zero_d wb (Bxa t)).
Proof.
  intros i Hi. cbn [fst snd]. unfold fill_zero_d.
  destruct (Z.leb_spec 0 i); [|lia]. destruct (Z.ltb_spec i (Bxa t)); [|lia].
  cbn [andb]. split; lra.
Qed.

Lemma WOZB_plane_const (pfp : Plane) sb wb dstp :
  constant_plane pfp width height c ->
  stores (fun v => v = c) (frame_pixels width height) dstp
         (snd (WOZB_plane t gw pfp width height sb wb dstp)).
Proof.
  intros Hcp. unfold WOZB_plane.
  eapply stores_ext;
    [intros rc; apply (tiles_cover t width height rc HBx HBy HBxd HByd)|].
  apply (stores_fold (fun v => v = c)
           (steps (By t) (height + By t) (Byd t))
           (fun y => flat_map (fun x => tile_cells t width height y x)
                       (steps (Bx t) (width + Bx t) (Bxd t)))
           _ (sb, wb, dstp)).
  intros y st Hy.
  apply (stores_fold (fun v => v = c)
           (steps (Bx t) (width + Bx t) (Bxd t))
           (fun x => tile_cells t width height y x)).
  intros x st' Hx. unfold WOZB_tile. cbv zeta.
  apply in_steps in Hy; [|lia]. apply in_steps in Hx; [|lia].
  apply tile_finish_const; try assumption; try lia.
  apply (for_loop_inv (fun s : Tile =>
           flat_scratch c (Bxa t) (fst s) /\ (0 <= snd s)%R)).
  - cbn [fst snd]. split; [apply zero_scratch_flat|lra].
  - intros u s Hu [Hs Hm].
    apply (for_loop_inv (fun s : Tile =>
             flat_scratch c (Bxa t) (fst s) /\ (0 <= snd s)%R));
      [split; assumption|].
    intros v s' Hv [Hs' Hm'].
    apply block_candidate_flat; try assumption; lia.
Qed.

Lemma WZB_plane_const (pfplut : Z -> Plane) (srcp : Plane) n sb wb dstp :
  (forall z, startz t n <= z <= stopz t n ->
     constant_plane (pfplut z) width height c) ->
  constant_plane srcp width height c ->
  stores (fun v => v = c) (frame_pixels width height) dstp
         (snd (WZB_plane t gw pfplut srcp width height n sb wb dstp)).
Proof.
  intros Hlut Hcp. unfold WZB_plane.
  eapply stores_ext;
    [intros rc; apply (tiles_cover t width height rc HBx HBy HBxd HByd)|].
  apply (stores_fold (fun v => v = c)
           (steps (By t) (height + By t) (Byd t))
           (fun y => flat_map (fun x => tile_cells t width height y x)
                       (steps (Bx t) (width + Bx t) (Bxd t)))
           _ (sb, wb, dstp)).
  intros y st Hy.
  apply (stores_fold (fun v => v = c)
           (steps (Bx t) (width + Bx t) (Bxd t))
           (fun x => tile_cells t width height y x)).
  intros x st' Hx. unfold WZB_tile. cbv zeta.
  apply in_steps in Hy; [|lia]. apply in_steps in Hx; [|lia].
  apply tile_finish_const; try assumption; try lia.
  apply (for_loop_inv (fun s : Tile =>
           flat_scratch c (Bxa t) (fst s) /\ (0 <= snd s)%R)).
  - cbn [fst snd]. split; [apply zero_scratch_flat|lra].
  - intros z s Hz [Hs Hm].
    apply (for_loop_inv (fun s : Tile =>
             flat_scratch c (Bxa t) (fst s) /\ (0 <= snd s)%R));
      [split; assumption|].
    intros u s' Hu [Hs' Hm'].
    apply (for_loop_inv (fun s : Tile =>
             flat_scratch c (Bxa t) (fst s) /\ (0 <= snd s)%R));
      [split; assumption|].
    intros v s'' Hv [Hs'' Hm''].
    apply block_candidate_flat; try assumption; try lia.
    apply Hlut. exact Hz.
Qed.

End ConstantTiles.

Section ConstantTemporal.

Variable t : TNLMeans.
Variable gw : Z -> R.
Variable pfplut : Z -> Plane.
Variable srcp : Plane.
Variable poslut : Z -> Z.
Variables plane width height n c : Z.

Hypothesis Hc : 0 <= c <= 255.
Hypothesis Hlut :
  forall z, startz t n <= z <= stopz t n ->
    constant_plane (pfplut z) width height c.
Hypothesis Hsrc : constant_plane srcp width height c.

Lemma flat_set_slot (fc : nlCache) (P : Z) (d : SDATA) :
  (forall Q, flat_acc c (height * width) (slot_ds fc Q plane)) ->
  flat_acc c (height * width) d ->
  forall Q, flat_acc c (height * width) (slot_ds (set_slot_ds fc P plane d) Q plane).
Proof.
  intros Hfc Hd Q. rewrite slot_ds_set_ds.
  destruct ((Q =? P) && (plane =? plane)); [exact Hd|apply Hfc].
Qed.

Lemma WZ_scan_flat (y x : Z) (fc : nlCache) :
  0 <= y < height -> 0 <= x < width ->
  (forall Q, flat_acc c (height * width) (slot_ds fc Q plane)) ->
  forall Q, flat_acc c (height * width)
              (slot_ds (WZ_scan t gw pfplut srcp poslut plane width height n
                          y x fc) Q plane).
Proof.
  intros Hy Hx Hfc. unfold WZ_scan.
  apply (for_loop_inv (fun fc' =>
           forall Q, flat_acc c (height * width) (slot_ds fc' Q plane)));
    [exact Hfc|].
  intros z fc1 Hz Hfc1. unfold WZ_slot.
  destruct (slot_dsa fc1 (poslut (Az t)) z =? 1); [exact Hfc1|].
  apply (for_loop_inv (fun fc' =>
           forall Q, flat_acc c (height * width) (slot_ds fc' Q plane))).
  - intros Q. rewrite slot_ds_set_dsa. apply Hfc1.
  - intros u fc2 Hu Hfc2.
    apply (for_loop_inv (fun fc' =>
             forall Q, flat_acc c (height * width) (slot_ds fc' Q plane)));
      [exact Hfc2|].
    intros v fc3 Hv Hfc3.
    assert (Hur : 0 <= u < height)
      by (destruct (Z.eqb_spec z (Az t)); lia).
    assert (Hvr : 0 <= v < width)
      by (destruct ((u =? y) && (z =? Az t)); lia).
    pose proof (patch_weight_pos t gw (pfplut z) srcp (height - 1) (width - 1)
                  y x u v) as Hw.
    unfold WZ_candidate. cbv zeta.
    rewrite (Hlut z Hz u v Hur Hvr), (Hsrc y x Hy Hx).
    assert (Hstep1 : forall Q, flat_acc c (height * width)
              (slot_ds (set_slot_ds fc3 (poslut (Az t)) plane
                          (hit (slot_ds fc3 (poslut (Az t)) plane)
                               (y * width + x) c
                               (patch_weight t gw (pfplut z) srcp (height - 1)
                                  (width - 1) y x u v))) Q plane)).
    { apply flat_set_slot; [exact Hfc3|].
      apply hit_flat; [lra|apply Hfc3]. }
    match goal with |- context [if ?b then _ else _] => destruct b end;
      [exact Hstep1|].
    apply flat_set_slot; [exact Hstep1|].
    apply hit_flat; [lra|apply Hstep1].
Qed.

Lemma WZ_plane_const (fc : nlCache) (dstp : Plane) :
  (forall Q, flat_acc c (height * width) (slot_ds fc Q plane)) ->
  let r := WZ_plane t gw pfplut srcp poslut plane width height n fc dstp in
  (forall Q, flat_acc c (height * width) (slot_ds (fst r) Q plane)) /\
  stores (fun v => v = c) (frame_pixels width height) dstp (snd r).
Proof.
  intros Hfc. cbv zeta. unfold WZ_plane, for_loop.
  destruct (stores_fold_inv (fun v => v = c)
              (fun fc' => forall Q, flat_acc c (height * width)
                                      (slot_ds fc' Q plane))
              (range 0 (height - 1))
              (fun y => flat_map (fun x => [(y, x)]) (range 0 (width - 1)))
              (fun y st => for_each (range 0 (width - 1))
                 (fun x st => WZ_pixel t gw pfplut srcp poslut plane width
                                height n y x st) st)
              (fc, dstp) Hfc) as [Hinv Hst].
  - intros y st Hy Hst. apply in_range in Hy.
    apply (stores_fold_inv (fun v => v = c)
             (fun fc' => forall Q, flat_acc c (height * width)
                                     (slot_ds fc' Q plane))
             (range 0 (width - 1)) (fun x => [(y, x)])); [exact Hst|].
    intros x st' Hx Hst'. apply in_range in Hx.
    unfold WZ_pixel. cbv zeta. cbn [fst snd].
    rewrite (Hsrc y x) by lia.
    pose proof (WZ_scan_flat y x (fst st') ltac:(lia) ltac:(lia) Hst') as Hscan.
    destruct (finish_flat c (height * width) (y * width + x)
                (slot_ds (WZ_scan t gw pfplut srcp poslut plane width height n
                            y x (fst st')) (poslut (Az t)) plane) Hc)
      as [Hout Hfl].
    + apply flat_index_range; lia.
    + apply Hscan.
    + split.
      * apply flat_set_slot; [exact Hscan|exact Hfl].
      * apply stores_upd2. exact Hout.
  - split; [exact Hinv|].
    eapply stores_ext; [apply raster_cells|exact Hst].
Qed.

End ConstantTemporal.

(** A scan of one plane leaves the accumulators of the other planes. *)
Lemma WZ_plane_other (t : TNLMeans) gw pfplut srcp poslut plane width height n
    (fc : nlCache) (dstp : Plane) (Q pl : Z) :
  pl <> plane ->
  slot_ds (fst (WZ_plane t gw pfplut srcp poslut plane width height n fc dstp))
          Q pl
  = slot_ds fc Q pl.
Proof.
  intros Hpl. unfold WZ_plane.
  assert (Hset : forall f P d, slot_ds (set_slot_ds f P plane d) Q pl
                               = slot_ds f Q pl).
  { intros f P d. rewrite slot_ds_set_ds.
    destruct (Z.eqb_spec pl plane) as [|_]; [contradiction|].
    rewrite andb_false_r. reflexivity. }
  apply (for_loop_inv (fun st => slot_ds (fst st) Q pl = slot_ds fc Q pl));
    [reflexivity|].
  intros y st _ Hst.
  apply (for_loop_inv (fun st => slot_ds (fst st) Q pl = slot_ds fc Q pl));
    [exact Hst|].
  intros x st' _ Hst'. unfold WZ_pixel. cbv zeta. cbn [fst].
  rewrite Hset. unfold WZ_scan.
  apply (for_loop_inv (fun f => slot_ds f Q pl = slot_ds fc Q pl));
    [exact Hst'|].
  intros z f _ Hf. unfold WZ_slot.
  destruct (slot_dsa f (poslut (Az t)) z =? 1); [exact Hf|].
  apply (for_loop_inv (fun f => slot_ds f Q pl = slot_ds fc Q pl)).
  - rewrite slot_ds_set_dsa. exact Hf.
  - intros u f1 _ Hf1.
    apply (for_loop_inv (fun f => slot_ds f Q pl = slot_ds fc Q pl));
      [exact Hf1|].
    intros v f2 _ Hf2. unfold WZ_candidate. cbv zeta.
    match goal with |- context [if ?b then _ else _] => destruct b end;
      rewrite ?Hset; exact Hf2.
Qed.

Lemma WZ_mark_ds (t : TNLMeans) (fc : nlCache) (P pl : Z) :
  slot_ds (WZ_mark t fc) P pl = slot_ds fc P pl.
Proof.
  unfold WZ_mark.
  apply (for_loop_inv (fun f => slot_ds f P pl = slot_ds fc P pl));
    [reflexivity|].
  intros i f _ Hf.
  destruct (WZ_mark_step f (getCachePos fc (Az t)) i (size f - 1 - i))
    as [_ [Hd _]].
  cbv zeta in Hd. rewrite Hd. exact Hf.
Qed.

Lemma clearDS_flat (v : VSVideoInfo) (fc : nlCache) (nl : nlFrame)
    (c pl : Z) :
  flat_acc c (planeHeight v pl * planeWidth v pl) (ds nl pl) ->
  flat_acc c (planeHeight v pl * planeWidth v pl) (ds (clearDS v fc nl) pl).
Proof.
  intros Hfl. unfold clearDS. cbn [ds].
  destruct ((0 <=? pl) && (pl <? 3) && (pl <? numPlanes (format v)));
    [|exact Hfl].
  intros i Hi. cbn [sums weights wmaxs]. unfold fill_zero_d.
  destruct (Z.leb_spec 0 i); [|lia].
  destruct (Z.ltb_spec i (planeWidth v pl * planeHeight v pl)); [|lia].
  cbn [andb]. repeat split; lra.
Qed.

Lemma cache_fill_flat (t : TNLMeans) (c n : Z) (fc : nlCache) :
  0 <= Az t -> ring_ok t fc -> flat_cache t c fc ->
  flat_cache t c
    (fst (cache_fill t true (resetCacheStart fc (n - Az t) (n + Az t)) n)).
Proof.
  intros HAz Hring Hflat. pose proof Hring as [Hsz Hs].
  destruct (resetCacheStart_frames fc (n - Az t) (n + Az t)) as [Hfr Hsz1].
  assert (Hring1 : ring_ok t (resetCacheStart fc (n - Az t) (n + Az t))).
  { split; [congruence|]. rewrite Hsz1.
    apply resetCacheStart_start; [exact Hs|lia]. }
  destruct (cache_fill_obs t true _ n HAz Hring1) as [_ [_ [Hin [Hout _]]]].
  set (fc1 := resetCacheStart fc (n - Az t) (n + Az t)) in *.
  intros P pl Hpl. unfold slot_ds.
  assert (Hold : flat_acc c (planeHeight (vi t) pl * planeWidth (vi t) pl)
                   (ds (frames fc1 P) pl)).
  { rewrite Hfr. apply (Hflat P pl Hpl). }
  assert (Hcase : frames (fst (cache_fill t true fc1 n)) P = frames fc1 P \/
                  exists i, frames (fst (cache_fill t true fc1 n)) P
                            = fetched t true fc1 (frames fc1 P) i).
  { destruct Hring1 as [Hz1 Hs1].
    destruct (Z_lt_ge_dec P 0) as [Hneg|Hnn];
      [|destruct (Z_lt_ge_dec P (size fc1)) as [Hlt|Hge]].
    - left. apply Hout. intros k Hk Heq.
      destruct (getCachePos_mod fc1 k Hs1) as [_ Hr]; lia.
    - destruct (getCachePos_onto fc1 P Hs1) as [k [Hk <-]]; [lia|].
      rewrite Hin by lia.
      destruct (fnum (frames fc1 (getCachePos fc1 k)) =? n - Az t + k);
        [left; reflexivity|right; eexists; reflexivity].
    - left. apply Hout. intros k Hk Heq.
      destruct (getCachePos_mod fc1 k Hs1) as [_ Hr]; lia. }
  destruct Hcase as [->|[i ->]]; [exact Hold|].
  unfold fetched. apply clearDS_flat. exact Hold.
Qed.

Lemma stores_value (c : Z) (width height : Z) (p p' : Plane) (y x : Z) :
  stores (fun v => v = c) (frame_pixels width height) p p' ->
  0 <= y < height -> 0 <= x < width -> p' y x = c.
Proof.
  intros [Hin _] Hy Hx. apply Hin. apply in_frame_pixels. cbn [fst snd]. lia.
Qed.

Lemma window_slot_constant (t : TNLMeans) (clear : bool) (clip : Clip)
    (n c : Z) (fc : nlCache) (plane z : Z) :
  0 <= Az t -> ring_ok t fc -> coherent t fc -> 0 <= n < numFrames (vi t) ->
  constant_clip t clip c -> 0 <= plane < numPlanes (format (vi t)) ->
  startz t n <= z <= stopz t n ->
  let fc' := fst (cache_fill t clear
                    (resetCacheStart fc (n - Az t) (n + Az t)) n) in
  constant_plane (read_plane clip (pf (frames fc' (getCachePos fc' z))) plane)
                 (planeWidth (vi t) plane) (planeHeight (vi t) plane) c.
Proof.
  intros HAz Hring Hcoh Hn Hclip Hpl Hz. cbv zeta.
  rewrite (window_slot_frame t clear n fc z HAz Hring Hcoh Hn Hz).
  cbn [read_plane]. apply Hclip; [|exact Hpl].
  unfold startz, stopz in Hz. lia.
Qed.

(** X13.  Constant frames through the block variants.  Take an engine of a
    block mode built by the constructor with [a] and [h] at least
    [2^-500], the kernel table of one of its worker slots and a byte [c].
    In the spatial mode ([Az = 0]), when every pixel of the source frame
    holds [c], every pixel of the frame returned by [GetFrameWOZB] holds
    [c].  In the temporal mode, when every frame of the clip holds [c]
    everywhere, [GetFrameWZB] for a servable frame, on any cache whose ring
    is usable and whose named frames carry their references, finds a frame
    reference in every slot after its fetch loop and returns a frame whose
    every pixel holds [c]. *)
Theorem block_variants_constant (t : TNLMeans) (th : nlThread) (clip : Clip)
    (n : Z) (sb wb : Z -> R) (dst : Frame) (c : Z) :
  constructed t -> well_scaled t -> use_blocks t = true ->
  In th (threads t) -> 0 <= c <= 255 ->
  (Az t = 0 ->
   (forall plane, 0 <= plane < numPlanes (format (vi t)) ->
      constant_plane (clip (mapn t n) plane) (planeWidth (vi t) plane)
                     (planeHeight (vi t) plane) c) ->
   exists out,
     snd (fst (GetFrameWOZB t (gw th) clip n sb wb (Some dst))) = Some out /\
     forall plane y x,
       0 <= plane < numPlanes (format (vi t)) ->
       0 <= y < planeHeight (vi t) plane ->
       0 <= x < planeWidth (vi t) plane -> out plane y x = c) /\
  (forall fc, Az t <> 0 -> ring_ok t fc -> coherent t fc -> servable t n ->
   constant_clip t clip c ->
   slots_loaded
     (fst (cache_fill t false
             (resetCacheStart fc (n - Az t) (n + Az t)) n)) /\
   exists out,
     snd (fst (GetFrameWZB t (gw th) clip n fc sb wb (Some dst))) = Some out /\
     forall plane y x,
       0 <= plane < numPlanes (format (vi t)) ->
       0 <= y < planeHeight (vi t) plane ->
       0 <= x < planeWidth (vi t) plane -> out plane y x = c).
Proof.
  intros Hcon _ _ _ Hc. set (gw0 := gw th).
  destruct (constructed_derived t Hcon)
    as [[_ [_ [HAz [HBx [HBy _]]]]] [[_ [_ [HBxd [HByd [HBxa _]]]]] _]].
  split.
  - intros _ Hconst. unfold GetFrameWOZB. cbv zeta. cbn [fst snd].
    eexists. split; [reflexivity|].
    destruct (planes_loop_stores (fun v => v = c)
                (numPlanes (format (vi t)))
                (fun plane (st : (Z -> R) * (Z -> R) * Frame) =>
                   let p := WOZB_plane t gw0 (clip (mapn t n) plane)
                              (planeWidth (vi t) plane)
                              (planeHeight (vi t) plane)
                              (fst (fst st)) (snd (fst st)) (snd st plane) in
                   (fst (fst p), snd (fst p), upd (snd st) plane (snd p)))
                (fun pl => frame_pixels (planeWidth (vi t) pl)
                                        (planeHeight (vi t) pl))
                (fun _ => True) (sb, wb) dst I) as [_ [Hst _]].
    + intros pl st Hpl _. cbv zeta. cbn [fst snd]. split; [exact I|]. split.
      * rewrite upd_same. apply WOZB_plane_const; try assumption.
        apply Hconst. exact Hpl.
      * intros q Hq. apply upd_other. exact Hq.
    + intros plane y x Hpl Hy Hx.
      apply (stores_value c _ _ _ _ y x (Hst plane Hpl)); assumption.
  - intros fc _ Hring Hcoh [Hn Hsent] Hclip.
    split; [apply cache_fill_loaded; assumption|].
    unfold GetFrameWZB. cbv zeta.
    cbn [fst snd]. eexists. split; [reflexivity|].
    set (fc' := fst (cache_fill t false _ n)).
    destruct (planes_loop_stores (fun v => v = c)
                (numPlanes (format (vi t)))
                (fun plane (st : (Z -> R) * (Z -> R) * Frame) =>
                   let pfplut := fun i =>
                     read_plane clip (pf (frames fc' (getCachePos fc' i)))
                                plane in
                   let p := WZB_plane t gw0 pfplut (pfplut (Az t))
                              (planeWidth (vi t) plane)
                              (planeHeight (vi t) plane) n
                              (fst (fst st)) (snd (fst st)) (snd st plane) in
                   (fst (fst p), snd (fst p), upd (snd st) plane (snd p)))
                (fun pl => frame_pixels (planeWidth (vi t) pl)
                                        (planeHeight (vi t) pl))
                (fun _ => True) (sb, wb) dst I) as [_ [Hst _]].
    + intros pl st Hpl _. cbv zeta. cbn [fst snd]. split; [exact I|]. split.
      * rewrite upd_same. apply WZB_plane_const; try assumption.
        -- intros z Hz. subst fc'.
           apply (window_slot_constant t false clip n c fc pl z); assumption.
        -- subst fc'.
           apply (window_slot_constant t false clip n c fc pl (Az t));
             try assumption.
           unfold startz, stopz. lia.
      * intros q Hq. apply upd_other. exact Hq.
    + intros plane y x Hpl Hy Hx.
      apply (stores_value c _ _ _ _ y x (Hst plane Hpl)); assumption.
Qed.

Lemma block_variants_constant_witness :
  constructed engine_b1 /\ well_scaled engine_b1 /\ servable engine_b1 2 /\
  exists out,
    snd (fst (GetFrameWZB engine_b1
                (gw (nlThread_new 1 1 1 1 1 1 1 (1 * 1)))
                (fun _ _ _ _ => 7) 2
                (nlCache_new (Az engine_b1 * 2 + 1) (fun _ => SDATA_zero))
                (fun _ => 0%R) (fun _ => 0%R) (Some frame_blank)))
    = Some out /\
    out 0 3 3 = 7.
Proof.
  assert (Hn : servable engine_b1 2) by (unfold servable; cbn; lia).
  split; [exact engine_b1_constructed|].
  split; [exact engine_b1_well_scaled|]. split; [exact Hn|].
  assert (Hc : 0 <= 7 <= 255) by lia.
  assert (HAz : 0 <= Az engine_b1) by (cbn; lia).
  assert (Hnz : Az engine_b1 <> 0) by (cbn; lia).
  destruct (fresh_ring_ok engine_b1 (fun _ => SDATA_zero) HAz)
    as [Hring Hcoh].
  destruct (block_variants_constant engine_b1
              (nlThread_new 1 1 1 1 1 1 1 (1 * 1)) (fun _ _ _ _ => 7) 2
              (fun _ => 0%R) (fun _ => 0%R) frame_blank 7
              engine_b1_constructed engine_b1_well_scaled eq_refl
              (or_introl eq_refl) Hc) as [_ Hwzb].
  destruct (Hwzb _ Hnz Hring Hcoh Hn) as [_ [out [Hout Hpix]]].
  - intros i plane Hi Hpl y x Hy Hx. reflexivity.
  - exists out. split; [exact Hout|]. apply Hpix; cbn; lia.
Defined.

Lemma fresh_cache_flat (t : TNLMeans) (c : Z) :
  flat_cache t c (nlCache_new (Az t * 2 + 1) (fun _ => SDATA_zero)).
Proof.
  intros P pl Hpl i Hi. unfold slot_ds, nlCache_new.
  destruct (0 <? Az t * 2 + 1); cbn; repeat split; lra.
Qed.

(** One request on a constant clip: accumulators that have only seen [c]
    stay so, and the frame returned holds [c] everywhere. *)
Lemma WZ_constant_step (t : TNLMeans) (gw : Z -> R) (clip : Clip) (c : Z) :
  0 <= Az t -> 0 <= c <= 255 -> constant_clip t clip c ->
  forall n fc dst,
    ring_ok t fc -> coherent t fc -> flat_cache t c fc ->
    0 <= n < numFrames (vi t) ->
    let r := GetFrameWZ t gw clip n fc (Some dst) in
    flat_cache t c (fst (fst r)) /\
    exists out,
      snd (fst r) = Some out /\
      forall plane y x,
        0 <= plane < numPlanes (format (vi t)) ->
        0 <= y < planeHeight (vi t) plane ->
        0 <= x < planeWidth (vi t) plane -> out plane y x = c.
Proof.
  intros HAz Hc Hclip.
  intros n fc dst Hring Hcoh Hflat Hn. cbv zeta.
  unfold GetFrameWZ. cbv zeta. cbn [fst snd].
  pose proof (cache_fill_flat t c n fc HAz Hring Hflat) as Hflat2.
  set (fc2 := fst (cache_fill t true _ n)) in *.
  destruct (planes_loop_stores (fun v => v = c)
              (numPlanes (format (vi t)))
              (fun plane st => WZ_frame_plane t gw clip n plane st)
              (fun pl => frame_pixels (planeWidth (vi t) pl)
                                      (planeHeight (vi t) pl))
              (fun f => same_shell fc2 f /\ flat_cache t c f) fc2 dst)
    as [[_ Hfl] [Hst _]].
  - split; [apply same_shell_refl|exact Hflat2].
  - intros pl st Hpl [Hs Hf].
    rewrite (WZ_frame_plane_eq t gw clip n fc2 pl st Hs). cbn [fst snd].
    destruct (WZ_plane_const t gw (lut_plane clip fc2 pl)
                (lut_plane clip fc2 pl (Az t)) (getCachePos fc2) pl
                (planeWidth (vi t) pl) (planeHeight (vi t) pl) n c Hc)
      with (fc := fst st) (dstp := snd st pl) as [Hinv Hw].
    + intros z Hz. unfold lut_plane. subst fc2.
      apply (window_slot_constant t true clip n c fc pl z); assumption.
    + unfold lut_plane. subst fc2.
      apply (window_slot_constant t true clip n c fc pl (Az t));
        try assumption.
      unfold startz, stopz. lia.
    + intros Q. apply Hf. exact Hpl.
    + split; [split|split].
      * eapply same_shell_trans; [exact Hs|apply WZ_plane_shell].
      * intros Q pl' Hpl'. destruct (Z.eq_dec pl' pl) as [->|Hne].
        -- apply Hinv.
        -- rewrite WZ_plane_other by exact Hne. apply Hf. exact Hpl'.
      * rewrite upd_same. exact Hw.
      * intros q Hq. apply upd_other. exact Hq.
  - split.
    + intros P pl Hpl. rewrite WZ_mark_ds. apply Hfl. exact Hpl.
    + eexists. split; [reflexivity|].
      intros plane y x Hpl Hy Hx.
      apply (stores_value c _ _ _ _ y x (Hst plane Hpl)); assumption.
Qed.

(** On a constant clip the accumulators of the cache have only seen [c],
    whatever the history of requests. *)
Lemma WZ_history_flat (t : TNLMeans) gw clip dst (c : Z) (ns : list Z) :
  0 <= Az t -> 0 <= c <= 255 -> constant_clip t clip c ->
  Forall (servable t) ns ->
  flat_cache t c (WZ_history t gw clip dst ns).
Proof.
  intros HAz Hc Hclip. induction ns as [|n ns IH] using rev_ind; intros Hns.
  - apply fresh_cache_flat.
  - apply Forall_app in Hns. destruct Hns as [Hns Hn].
    apply Forall_cons_iff in Hn. destruct Hn as [[Hn _] _].
    rewrite WZ_history_snoc.
    destruct (WZ_history_ready t gw clip dst ns HAz) as [Hring Hcoh].
    destruct (WZ_constant_step t gw clip c HAz Hc Hclip n _ dst Hring Hcoh
                (IH Hns) Hn) as [Hflat _].
    exact Hflat.
Qed.

(** X14.  Constant clips through the temporal pixel variant, request after
    request.  Take an engine of the temporal pixel mode built by the
    constructor with [a] and [h] at least [2^-500], the kernel table of one
    of its worker slots, and a clip whose every frame holds the byte [c] at
    every pixel.  After any history of servable requests on the cache of
    the slot, [GetFrameWZ] for a servable frame finds a frame reference in
    every slot after its fetch loop and returns a frame whose every pixel
    holds [c].  The history is short enough for every accumulator to hold
    an integer below [2^53]: a request adds at most
    [Axa * (2 Az + 1) + 1] samples of weight 1 to a cell. *)
Theorem WZ_constant_clip (t : TNLMeans) (th : nlThread) (clip : Clip)
    (c : Z) (dst : Frame) (ns : list Z) (n : Z) :
  constructed t -> well_scaled t -> use_blocks t = false -> Az t <> 0 ->
  In th (threads t) ->
  0 <= c <= 255 -> constant_clip t clip c ->
  Forall (servable t) ns -> servable t n ->
  (Z.of_nat (List.length ns) + 1) * (Axa t * (Az t * 2 + 1) + 1) * 255
  < 2 ^ 53 ->
  let fc := WZ_history t (gw th) clip dst ns in
  slots_loaded
    (fst (cache_fill t true (resetCacheStart fc (n - Az t) (n + Az t)) n)) /\
  exists out,
    snd (fst (GetFrameWZ t (gw th) clip n fc (Some dst))) = Some out /\
    forall plane y x,
      0 <= plane < numPlanes (format (vi t)) ->
      0 <= y < planeHeight (vi t) plane ->
      0 <= x < planeWidth (vi t) plane -> out plane y x = c.
Proof.
  intros Hcon _ _ _ _ Hc Hclip Hns [Hn Hsent] _. cbv zeta.
  destruct (constructed_slots t Hcon) as [_ HAz].
  destruct (WZ_history_ready t (gw th) clip dst ns HAz) as [Hring Hcoh].
  split; [apply cache_fill_loaded; assumption|].
  destruct (WZ_constant_step t (gw th) clip c HAz Hc Hclip n _ dst Hring Hcoh
              (WZ_history_flat t (gw th) clip dst c ns HAz Hc Hclip Hns) Hn)
    as [_ Hout].
  exact Hout.
Qed.

Lemma WZ_constant_clip_witness :
  constructed engine_t1 /\ well_scaled engine_t1 /\
  exists out,
    snd (fst (GetFrameWZ engine_t1 gw_row (fun _ _ _ _ => 7) 2
                (WZ_history engine_t1 gw_row (fun _ _ _ _ => 7) frame_blank
                            [1; 1])
                (Some frame_blank))) = Some out /\
    out 0 3 3 = 7.
Proof.
  split; [exact engine_t1_constructed|].
  split; [exact engine_t1_well_scaled|].
  assert (Hc : 0 <= 7 <= 255) by lia.
  assert (Hclip : constant_clip engine_t1 (fun _ _ _ _ => 7) 7).
  { intros i plane Hi Hpl y x Hy Hx. reflexivity. }
  assert (Hs1 : servable engine_t1 1) by (unfold servable; cbn; lia).
  assert (Hs2 : servable engine_t1 2) by (unfold servable; cbn; lia).
  assert (Hnz : Az engine_t1 <> 0) by (cbn; lia).
  assert (Hb : (Z.of_nat (List.length [1; 1]) + 1)
               * (Axa engine_t1 * (Az engine_t1 * 2 + 1) + 1) * 255 < 2 ^ 53)
    by (cbn; lia).
  destruct (WZ_constant_clip engine_t1 (nlThread_new 1 1 1 0 0 0 0 (1 * 1))
              (fun _ _ _ _ => 7) 7 frame_blank [1; 1] 2
              engine_t1_constructed engine_t1_well_scaled eq_refl Hnz
              (or_introl eq_refl) Hc Hclip
              (Forall_cons 1 Hs1 (Forall_cons 1 Hs1 (Forall_nil _))) Hs2 Hb)
    as [_ [out [Hout Hpix]]].
  exists out. split; [exact Hout|]. apply Hpix; cbn; lia.
Defined.

(** ** A frame served again *)

Lemma in_after (width height : Z) (p q : Z * Z) :
  In q (after width height p) <->
  (fst q = fst p /\ snd p + 1 <= snd q <= width - 1) \/
  (fst p + 1 <= fst q <= height - 1 /\ 0 <= snd q <= width - 1).
Proof.
  unfold after. rewrite in_app_iff, in_map_iff. destruct q as [u v].
  cbn [fst snd]. rewrite in_prod_iff, !in_range. split.
  - intros [[v' [Heq Hv]]|H]; [left|right; exact H].
    apply in_range in Hv. inversion Heq; subst. lia.
  - intros [[-> Hv]|H]; [left|right; exact H].
    exists v. split; [reflexivity|apply in_range; exact Hv].
Qed.

Lemma raster_after {S : Type} (width height : Z) (f : Z -> Z -> S -> S)
    (y x : Z) (s0 : S) :
  for_loop (y + 1) (height - 1) (fun y' st =>
      for_loop 0 (width - 1) (fun x' st => f y' x' st) st)
    (for_loop (x + 1) (width - 1) (fun x' st => f y x' st) s0)
  = fold_left (fun st c => f (fst c) (snd c) st) (after width height (y, x)) s0.
Proof.
  unfold after. cbn [fst snd]. rewrite fold_left_app. unfold for_loop.
  rewrite (for_each_nested (range (y + 1) (height - 1))
             (fun _ => range 0 (width - 1)) f).
  rewrite <- list_prod_flat_map. unfold for_each.
  rewrite fold_left_map. reflexivity.
Qed.

Lemma cell_finish_same (d : SDATA) (off s : Z) :
  cell (fst (finish d off s)) off = acc_self (cell d off) s.
Proof.
  unfold finish, cell, acc_self, add_at. cbn [fst snd sums weights wmaxs].
  rewrite !upd_same. reflexivity.
Qed.

Lemma acc_pixel_self (c : Acc) (s : Z) :
  acc_pixel c s
  = to_pixel (fst (fst (acc_self c s)) / snd (fst (acc_self c s))).
Proof. rewrite to_pixel_floor. reflexivity. Qed.

Lemma flat_map_none {A B : Type} (f : A -> list B) (l : list A) :
  (forall a, In a l -> f a = []) -> flat_map f l = [].
Proof.
  induction l as [|a l IH]; intros H; [reflexivity|].
  cbn [flat_map]. rewrite (H a) by (left; reflexivity).
  apply IH. intros b Hb. apply H. right. exact Hb.
Qed.

Lemma for_loop_inv_idx {St : Type} (P : Z -> St -> Prop) (lo hi : Z)
    (body : Z -> St -> St) (s : St) :
  lo <= hi + 1 -> P lo s ->
  (forall k s', lo <= k <= hi -> P k s' -> P (k + 1) (body k s')) ->
  P (hi + 1) (for_loop lo hi body s).
Proof.
  intros Hle H0 Hstep.
  assert (H : forall m : nat, Z.of_nat m <= hi + 1 - lo ->
            P (lo + Z.of_nat m) (for_loop lo (lo + Z.of_nat m - 1) body s)).
  { induction m as [|m IH]; intros Hm.
    - rewrite for_loop_nil by lia. rewrite Z.add_0_r. exact H0.
    - rewrite for_loop_snoc by lia.
      replace (lo + Z.of_nat (S m)) with (lo + Z.of_nat m + 1) by lia.
      replace (lo + Z.of_nat m + 1 - 1) with (lo + Z.of_nat m) by lia.
      apply Hstep; [lia|]. apply IH. lia. }
  specialize (H (Z.to_nat (hi + 1 - lo))).
  rewrite Z2Nat.id in H by lia.
  replace (lo + (hi + 1 - lo)) with (hi + 1) in H by lia.
  replace (hi + 1 - 1) with hi in H by lia.
  apply H. lia.
Qed.

Section TemporalCentre.

Variable t : TNLMeans.
Variable gw : Z -> R.
Variable pfplut : Z -> Plane.
Variable srcp : Plane.
Variable poslut : Z -> Z.
Variables plane width height n : Z.

Hypothesis Hdm1 : Azdm1 t = 2 * Az t.
Hypothesis Hinj :
  forall z, startz t n <= z <= stopz t n -> z <> Az t -> poslut z <> (poslut (Az t)).

(** When every slot of the scan is skipped no sample is produced. *)
Lemma WZ_events_skip (sk csk : Z -> bool) (P : Z) (p : Z * Z) :
  (forall z, startz t n <= z <= stopz t n -> sk z = true) ->
  WZ_events t gw pfplut srcp poslut width height n sk csk P p = [].
Proof.
  intros Hsk. unfold WZ_events. apply flat_map_none.
  intros z Hz. apply in_range in Hz. rewrite (Hsk z Hz). reflexivity.
Qed.

(** The scan of a pixel puts nothing into the centre cell of a pixel the
    raster has already passed. *)
Lemma landing_later (sk csk : Z -> bool) (p q : Z * Z) :
  0 <= snd p < width -> 0 <= snd q < width ->
  fst p < fst q \/ (fst p = fst q /\ snd p < snd q) ->
  landing (flat_index width p)
    (WZ_events t gw pfplut srcp poslut width height n sk csk
       (poslut (Az t)) q) = [].
Proof.
  intros Hp Hq Hlt. unfold WZ_events. rewrite landing_flat_map.
  apply flat_map_none. intros z Hz. apply in_range in Hz.
  destruct (sk z); [reflexivity|]. rewrite landing_flat_map.
  apply flat_map_none. intros c Hc.
  unfold WZ_cand_events. rewrite landing_app, Z.eqb_refl.
  assert (Hqp : flat_index width q <> flat_index width p).
  { intros Heq. apply flat_index_inj in Heq; [|assumption..]. subst q. lia. }
  unfold landing at 1. cbn [filter fst map].
  destruct (Z.eqb_spec (flat_index width q) (flat_index width p));
    [contradiction|]. cbn [map app].
  destruct (Z.eqb_spec (poslut (Az t)) (poslut z)) as [Hpos|Hpos];
    cbn [andb]; [|reflexivity].
  destruct (Z.eq_dec z (Az t)) as [->|Hne];
    [|exfalso; apply (Hinj z Hz Hne); symmetry; exact Hpos].
  destruct (negb (csk (Az t))); [|reflexivity].
  unfold landing. cbn [filter fst map].
  destruct (Z.eqb_spec (flat_index width c) (flat_index width p)) as [Heq|];
    [|reflexivity].
  exfalso. unfold WZ_cands in Hc. rewrite Z.eqb_refl in Hc.
  apply in_flat_map in Hc. destruct Hc as [u [Hu Hv]].
  apply in_range in Hu. apply in_map_iff in Hv.
  destruct Hv as [v [<- Hv]]. apply in_range in Hv.
  rewrite andb_true_r in Hv. cbn [fst snd] in *.
  apply flat_index_inj in Heq;
    [|cbn [snd]; destruct (Z.eqb_spec u (fst q)); lia|exact Hp].
  subst p. cbn [fst snd] in *. destruct (Z.eqb_spec u (fst q)); lia.
Qed.

(** The centre cell of a pixel when the plane is done is the cell its own
    [finish] stored: the samples seen so far and the self term. *)
Lemma WZ_plane_centre (sk csk : Z -> bool) (fc : nlCache) (dstp : Plane)
    (y x : Z) :
  flag_pattern t poslut n sk csk fc -> csk (Az t) = false ->
  0 <= y < height -> 0 <= x < width ->
  cell (slot_ds (fst (WZ_plane t gw pfplut srcp poslut plane width height n
                        fc dstp)) (poslut (Az t)) plane)
       (flat_index width (y, x))
  = acc_self (WZ_seen t gw pfplut srcp poslut width height n sk csk (y, x)
                (cell (slot_ds fc (poslut (Az t)) plane)
                      (flat_index width (y, x))))
             (srcp y x).
Proof.
  intros Hpat Hcsk Hy Hx. unfold WZ_plane.
  rewrite (raster_split height width y x
             (fun y' x' st =>
                WZ_pixel t gw pfplut srcp poslut plane width height n y' x' st))
    by assumption.
  rewrite (raster_before width
             (fun y' x' st =>
                WZ_pixel t gw pfplut srcp poslut plane width height n y' x' st)).
  rewrite (raster_after width height
             (fun y' x' st =>
                WZ_pixel t gw pfplut srcp poslut plane width height n y' x' st)).
  destruct (WZ_pixels_obs t gw pfplut srcp poslut plane width height n
              Hdm1 Hinj (before width (y, x)) sk csk (fc, dstp) Hpat Hcsk)
    as [Hp0 [_ [_ [Hc0 _]]]].
  set (st0 := fold_left _ (before width (y, x)) (fc, dstp)) in *.
  destruct (WZ_pixel_obs t gw pfplut srcp poslut plane width height n
              Hdm1 Hinj (y, x) sk csk st0 Hp0 Hcsk) as [Hp1 _].
  destruct (WZ_scan_obs t gw pfplut srcp poslut plane width height n
              Hdm1 Hinj (y, x) sk csk (fst st0) Hp0 Hcsk)
    as [[Hd _] _].
  cbn [fst snd] in Hp1, Hd.
  set (st1 := WZ_pixel t gw pfplut srcp poslut plane width height n y x st0)
    in *.
  destruct (WZ_pixels_obs t gw pfplut srcp poslut plane width height n
              Hdm1 Hinj (after width height (y, x)) sk csk st1 Hp1 Hcsk)
    as [_ [_ [_ [Hc2 _]]]].
  rewrite Hc2.
  - rewrite flat_map_none.
    + cbn [fold_left]. subst st1. unfold WZ_pixel. cbn [fst].
      rewrite slot_ds_set_ds, !Z.eqb_refl. cbn [andb].
      change (y * width + x) with (flat_index width (y, x)).
      rewrite cell_finish_same. f_equal.
      rewrite Hd, cell_hits. unfold WZ_seen. rewrite fold_left_app. f_equal.
      cbn [fst] in Hc0. rewrite Hc0; [reflexivity|].
      right. intros q Hq Heq. apply in_before in Hq. cbn [fst snd] in Hq.
      apply (flat_index_inj width) in Heq; [|lia|cbn [snd]; lia].
      subst q. cbn [fst snd] in Hq. lia.
    + intros q Hq. apply in_after in Hq. cbn [fst snd] in Hq.
      apply landing_later; cbn [fst snd]; lia.
  - right. intros q Hq Heq. apply in_after in Hq. cbn [fst snd] in Hq.
    apply (flat_index_inj width) in Heq; [|lia|cbn [snd]; lia].
    subst q. cbn [fst snd] in Hq. lia.
Qed.

End TemporalCentre.

Section TemporalCentreFrame.

Variable t : TNLMeans.
Variable gw : Z -> R.
Variable clip : Clip.
Variable n : Z.
Variable fc2 : nlCache.
Variables sk csk : Z -> bool.

Hypothesis Hdm1 : Azdm1 t = 2 * Az t.
Hypothesis Hinj :
  forall z, startz t n <= z <= stopz t n -> z <> Az t ->
            getCachePos fc2 z <> getCachePos fc2 (Az t).
Hypothesis Hcsk : csk (Az t) = false.

(** The plane loop: the pixel written and the centre cell left behind. *)
Lemma WZ_planes_centre (pls : list Z) (st : nlCache * Frame) :
  NoDup pls -> same_shell fc2 (fst st) ->
  flag_pattern t (getCachePos fc2) n sk csk (fst st) ->
  let r := for_each pls (fun plane st => WZ_frame_plane t gw clip n plane st)
             st in
  forall pl y x, In pl pls ->
    0 <= y < planeHeight (vi t) pl -> 0 <= x < planeWidth (vi t) pl ->
    cell (slot_ds (fst r) (getCachePos fc2 (Az t)) pl)
         (flat_index (planeWidth (vi t) pl) (y, x))
    = acc_self
        (WZ_seen t gw (lut_plane clip fc2 pl) (lut_plane clip fc2 pl (Az t))
           (getCachePos fc2) (planeWidth (vi t) pl) (planeHeight (vi t) pl)
           n sk csk (y, x)
           (cell (slot_ds (fst st) (getCachePos fc2 (Az t)) pl)
                 (flat_index (planeWidth (vi t) pl) (y, x))))
        (lut_plane clip fc2 pl (Az t) y x) /\
    snd r pl y x
    = acc_pixel
        (WZ_seen t gw (lut_plane clip fc2 pl) (lut_plane clip fc2 pl (Az t))
           (getCachePos fc2) (planeWidth (vi t) pl) (planeHeight (vi t) pl)
           n sk csk (y, x)
           (cell (slot_ds (fst st) (getCachePos fc2 (Az t)) pl)
                 (flat_index (planeWidth (vi t) pl) (y, x))))
        (lut_plane clip fc2 pl (Az t) y x).
Proof.
  intros Hnd Hs Hpat r pl y x Hin Hy Hx. split.
  - subst r. revert st Hnd Hs Hpat Hin.
    induction pls as [|pl0 pls IH]; intros st Hnd Hs Hpat Hin;
      [contradiction|].
    unfold for_each. cbn [fold_left].
    apply NoDup_cons_iff in Hnd. destruct Hnd as [Hpl0 Hnd].
    rewrite (WZ_frame_plane_eq t gw clip n fc2 pl0 st Hs).
    destruct (WZ_plane_obs t gw (lut_plane clip fc2 pl0)
                (lut_plane clip fc2 pl0 (Az t)) (getCachePos fc2) pl0
                (planeWidth (vi t) pl0) (planeHeight (vi t) pl0) n Hdm1 Hinj
                sk csk (fst st) (snd st pl0) Hpat Hcsk)
      as [Hp1 [Hs1 [Ho1 _]]].
    set (r1 := WZ_plane t gw (lut_plane clip fc2 pl0)
                 (lut_plane clip fc2 pl0 (Az t)) (getCachePos fc2) pl0
                 (planeWidth (vi t) pl0) (planeHeight (vi t) pl0) n (fst st)
                 (snd st pl0)) in *.
    set (st1 := (fst r1, upd (snd st) pl0 (snd r1))).
    assert (Hs01 : same_shell fc2 (fst st1))
      by (eapply same_shell_trans; eassumption).
    destruct Hin as [<-|Hin].
    + destruct (WZ_planes_obs t gw clip n fc2 sk csk Hdm1 Hinj Hcsk pls st1
                  Hnd Hs01 Hp1) as [_ [_ [Ho2 _]]].
      unfold for_each in Ho2. rewrite Ho2 by exact Hpl0.
      subst st1 r1. cbn [fst].
      apply (WZ_plane_centre t gw (lut_plane clip fc2 pl0)
               (lut_plane clip fc2 pl0 (Az t)) (getCachePos fc2) pl0
               (planeWidth (vi t) pl0) (planeHeight (vi t) pl0) n Hdm1 Hinj
               sk csk (fst st) (snd st pl0) y x Hpat Hcsk Hy Hx).
    + specialize (IH st1 Hnd Hs01 Hp1 Hin). unfold for_each in IH.
      rewrite IH. subst st1. cbn [fst].
      rewrite Ho1; [reflexivity|]. intros ->. contradiction.
  - destruct (WZ_planes_obs t gw clip n fc2 sk csk Hdm1 Hinj Hcsk pls st
                Hnd Hs Hpat) as [_ [_ [_ [_ [_ [Hout _]]]]]].
    apply Hout; assumption.
Qed.

End TemporalCentreFrame.

Lemma flag_pattern_of (t : TNLMeans) (n : Z) (fc : nlCache) :
  flag_pattern t (getCachePos fc) n (skip_of t fc) (resolved_of t fc) fc.
Proof.
  intros z Hz. split; [reflexivity|]. intros Hne. unfold resolved_of.
  destruct (Z.eqb_spec z (Az t)); [contradiction|reflexivity].
Qed.

Lemma resolved_of_centre (t : TNLMeans) (fc : nlCache) :
  resolved_of t fc (Az t) = false.
Proof. unfold resolved_of. rewrite Z.eqb_refl. reflexivity. Qed.

Lemma window_slots_apart (t : TNLMeans) (n : Z) (fc : nlCache) :
  0 <= Az t -> ring_ok t fc ->
  forall z, startz t n <= z <= stopz t n -> z <> Az t ->
            getCachePos fc z <> getCachePos fc (Az t).
Proof.
  intros HAz [Hsize Hpos] z Hz Hne Heq. apply Hne.
  pose proof (startz_stopz t n z HAz Hz) as Hz'.
  apply (getCachePos_inj fc z (Az t)); [exact Hpos|lia|lia|exact Heq].
Qed.

(** The closing loop leaves no flag 2 in the centre slot, and changes a
    flag of the centre to 1 only. *)
Lemma WZ_mark_flags (t : TNLMeans) (fc : nlCache) (i : Z) :
  0 <= i < size fc ->
  slot_dsa (WZ_mark t fc) (getCachePos fc (Az t)) i <> 2 /\
  (slot_dsa (WZ_mark t fc) (getCachePos fc (Az t)) i
   = slot_dsa fc (getCachePos fc (Az t)) i \/
   slot_dsa (WZ_mark t fc) (getCachePos fc (Az t)) i = 1).
Proof.
  intros Hi. unfold WZ_mark. cbv zeta.
  set (pc := getCachePos fc (Az t)).
  set (body := fun (i0 : Z) (c : nlCache) =>
                 if slot_dsa c pc i0 =? 2
                 then set_slot_dsa
                        (set_slot_dsa c (getCachePos c i0) (size c - 1 - i0) 1)
                        pc i0 1
                 else c).
  assert (H : (fun k c =>
                 (slot_dsa c pc i = slot_dsa fc pc i \/ slot_dsa c pc i = 1) /\
                 (i < k -> slot_dsa c pc i <> 2))
              (size fc - 1 + 1) (for_loop 0 (size fc - 1) body fc)).
  { apply for_loop_inv_idx.
    - lia.
    - split; [left; reflexivity|lia].
    - intros k c Hk [Hsame Hdone].
      destruct (WZ_mark_step c pc k (size c - 1 - k)) as [_ [_ Hfl]].
      cbv zeta in Hfl. unfold body. rewrite (Hfl pc i).
      rewrite Z.eqb_refl. cbn [andb].
      destruct (Z.eqb_spec (slot_dsa c pc k) 2) as [H2|H2]; cbn [andb].
      + destruct (Z.eqb_spec i k) as [->|Hik]; cbn [orb].
        * split; [right; reflexivity|intros _; lia].
        * destruct ((pc =? getCachePos c k) && (i =? size c - 1 - k)).
          -- split; [right; reflexivity|intros _; lia].
          -- split; [exact Hsame|intros Hlt; apply Hdone; lia].
      + split; [exact Hsame|]. intros Hlt.
        destruct (Z.eq_dec i k) as [->|Hik]; [exact H2|apply Hdone; lia]. }
  cbv beta in H. destruct H as [Hsame Hdone].
  split; [apply Hdone; lia|exact Hsame].
Qed.

Lemma frame_pixels_some (width height : Z) :
  0 < width -> 0 < height ->
  negb (Nat.eqb (List.length (frame_pixels width height)) 0) = true.
Proof.
  intros Hw Hh.
  assert (Hin : In (0, 0) (frame_pixels width height))
    by (apply in_frame_pixels; cbn [fst snd]; lia).
  destruct (frame_pixels width height); [contradiction|reflexivity].
Qed.

(** A served request leaves the cache settled on its frame. *)
Lemma GetFrameWZ_settles (t : TNLMeans) gw clip n fc dst :
  0 <= Az t -> Azdm1 t = 2 * Az t -> ring_ok t fc ->
  1 <= numPlanes (format (vi t)) ->
  0 < planeWidth (vi t) 0 -> 0 < planeHeight (vi t) 0 ->
  settled t n (fst (fst (GetFrameWZ t gw clip n fc (Some dst)))).
Proof.
  intros HAz Hdm1 Hring Hnp Hw Hh.
  destruct (cache_fill_window t true fc n HAz Hring) as [HringA [HwinA _]].
  pose proof (GetFrameWZ_shell t gw clip n fc (Some dst)) as Hshell.
  unfold GetFrameWZ in *. cbv zeta in *. cbn [fst snd] in *.
  set (fcA := fst (cache_fill t true
                     (resetCacheStart fc (n - Az t) (n + Az t)) n)) in *.
  destruct (WZ_planes_obs t gw clip n fcA (skip_of t fcA) (resolved_of t fcA)
              Hdm1 (window_slots_apart t n fcA HAz HringA)
              (resolved_of_centre t fcA)
              (range 0 (numPlanes (format (vi t)) - 1)) (fcA, dst)
              (NoDup_range _ _) (same_shell_refl fcA)
              (flag_pattern_of t n fcA))
    as [HsB [_ [_ [_ [_ [_ Hfl]]]]]].
  unfold for_each in Hfl, HsB. unfold for_loop, for_each in *.
  set (r2 := fold_left _ (range 0 (numPlanes (format (vi t)) - 1)) (fcA, dst))
    in *.
  cbn [fst] in Hfl, HsB.
  assert (Hex : existsb (fun pl =>
                  negb (Nat.eqb (List.length
                         (frame_pixels (planeWidth (vi t) pl)
                                       (planeHeight (vi t) pl))) 0))
                  (range 0 (numPlanes (format (vi t)) - 1)) = true).
  { apply existsb_exists. exists 0. split; [apply in_range; lia|].
    apply frame_pixels_some; assumption. }
  assert (HposB : getCachePos (fst r2) (Az t) = getCachePos fcA (Az t))
    by (apply same_shell_getCachePos; exact HsB).
  assert (HringB : ring_ok t (fst r2))
    by (eapply ring_ok_shell; eassumption).
  assert (Hpos : getCachePos (WZ_mark t (fst r2)) (Az t)
                 = getCachePos fcA (Az t))
    by (apply same_shell_getCachePos; exact Hshell).
  unfold settled. split; [eapply ring_ok_shell; eassumption|].
  split; [eapply holds_window_shell; eassumption|].
  rewrite Hpos, <- HposB.
  assert (Hmark : forall i, 0 <= i <= Az t * 2 ->
            slot_dsa (WZ_mark t (fst r2)) (getCachePos (fst r2) (Az t)) i <> 2
            /\ (slot_dsa (WZ_mark t (fst r2)) (getCachePos (fst r2) (Az t)) i
                = slot_dsa (fst r2) (getCachePos (fst r2) (Az t)) i
                \/ slot_dsa (WZ_mark t (fst r2))
                     (getCachePos (fst r2) (Az t)) i = 1)).
  { intros i Hi. apply WZ_mark_flags. destruct HringB as [Hsz _]. lia. }
  split.
  - intros z Hz. pose proof (startz_stopz t n z HAz Hz) as Hz'.
    destruct (Hmark z ltac:(lia)) as [Hne [Heq|H1]]; [|exact H1].
    rewrite Heq in *. rewrite HposB in *. rewrite Hfl in *.
    rewrite Z.eqb_refl, Hex in *. cbn [andb] in *.
    destruct (Z.leb_spec (startz t n) z); [|lia].
    destruct (Z.leb_spec z (stopz t n)); [|lia]. cbn [andb] in *.
    unfold skip_of in *.
    destruct (Z.eqb_spec (slot_dsa fcA (getCachePos fcA (Az t)) z) 1)
      as [H1|H1]; cbn [negb andb] in *; [exact H1|contradiction].
  - intros i Hi. apply (Hmark i Hi).
Qed.

(** The pixels a served request writes and the centre cells it leaves. *)
Lemma GetFrameWZ_cells (t : TNLMeans) gw clip n fc dst :
  0 <= Az t -> Azdm1 t = 2 * Az t -> ring_ok t fc ->
  forall fcA,
    fcA = fst (cache_fill t true
                 (resetCacheStart fc (n - Az t) (n + Az t)) n) ->
  exists out,
    snd (fst (GetFrameWZ t gw clip n fc (Some dst))) = Some out /\
    forall pl y x, 0 <= pl < numPlanes (format (vi t)) ->
      0 <= y < planeHeight (vi t) pl -> 0 <= x < planeWidth (vi t) pl ->
      cell (slot_ds (fst (fst (GetFrameWZ t gw clip n fc (Some dst))))
              (getCachePos fcA (Az t)) pl)
           (flat_index (planeWidth (vi t) pl) (y, x))
      = acc_self
          (WZ_seen t gw (lut_plane clip fcA pl) (lut_plane clip fcA pl (Az t))
             (getCachePos fcA) (planeWidth (vi t) pl) (planeHeight (vi t) pl)
             n (skip_of t fcA) (resolved_of t fcA) (y, x)
             (cell (slot_ds fcA (getCachePos fcA (Az t)) pl)
                   (flat_index (planeWidth (vi t) pl) (y, x))))
          (lut_plane clip fcA pl (Az t) y x) /\
      out pl y x
      = acc_pixel
          (WZ_seen t gw (lut_plane clip fcA pl) (lut_plane clip fcA pl (Az t))
             (getCachePos fcA) (planeWidth (vi t) pl) (planeHeight (vi t) pl)
             n (skip_of t fcA) (resolved_of t fcA) (y, x)
             (cell (slot_ds fcA (getCachePos fcA (Az t)) pl)
                   (flat_index (planeWidth (vi t) pl) (y, x))))
          (lut_plane clip fcA pl (Az t) y x).
Proof.
  intros HAz Hdm1 Hring fcA HfcA.
  destruct (cache_fill_window t true fc n HAz Hring) as [HringA _].
  cbv zeta in HringA. rewrite <- HfcA in HringA.
  unfold GetFrameWZ. cbv zeta. cbn [fst snd]. rewrite <- HfcA.
  eexists. split; [reflexivity|].
  intros pl y x Hpl Hy Hx. rewrite WZ_mark_ds.
  apply (WZ_planes_centre t gw clip n fcA (skip_of t fcA) (resolved_of t fcA)
           Hdm1 (window_slots_apart t n fcA HAz HringA)
           (resolved_of_centre t fcA)
           (range 0 (numPlanes (format (vi t)) - 1)) (fcA, dst)
           (NoDup_range _ _) (same_shell_refl fcA) (flag_pattern_of t n fcA)
           pl y x); [apply in_range; lia|exact Hy|exact Hx].
Qed.

(** A request for the frame the cache is settled on: nothing is fetched
    but the frame for [newVideoFrame], no slot is scanned, and each pixel
    is the centre cell as it stands with the self term added once more. *)
Lemma served_again_step (t : TNLMeans) gw clip n fc dst :
  0 <= Az t -> Azdm1 t = 2 * Az t -> settled t n fc -> coherent t fc ->
  0 <= n < numFrames (vi t) ->
  snd (GetFrameWZ t gw clip n fc (Some dst)) = [mapn t n] /\
  same_shell fc (fst (fst (GetFrameWZ t gw clip n fc (Some dst)))) /\
  exists out,
    snd (fst (GetFrameWZ t gw clip n fc (Some dst))) = Some out /\
    forall pl y x, 0 <= pl < numPlanes (format (vi t)) ->
      0 <= y < planeHeight (vi t) pl -> 0 <= x < planeWidth (vi t) pl ->
      cell (slot_ds (fst (fst (GetFrameWZ t gw clip n fc (Some dst))))
              (getCachePos fc (Az t)) pl) (y * planeWidth (vi t) pl + x)
      = acc_self (cell (slot_ds fc (getCachePos fc (Az t)) pl)
                       (y * planeWidth (vi t) pl + x)) (clip n pl y x) /\
      out pl y x
      = acc_pixel (cell (slot_ds fc (getCachePos fc (Az t)) pl)
                        (y * planeWidth (vi t) pl + x)) (clip n pl y x).
Proof.
  intros HAz Hdm1 [Hring [Hwin [Hone Htwo]]] Hcoh Hn.
  pose proof (cache_fill_idem t true fc n HAz Hring Hwin) as Hfill.
  split; [|split].
  - rewrite GetFrameWZ_fetches, Hfill. reflexivity.
  - pose proof (GetFrameWZ_shell t gw clip n fc (Some dst)) as Hs.
    rewrite Hfill in Hs. exact Hs.
  - destruct (GetFrameWZ_cells t gw clip n fc dst HAz Hdm1 Hring fc)
      as [out [Hout Hcells]]; [rewrite Hfill; reflexivity|].
    exists out. split; [exact Hout|]. intros pl y x Hpl Hy Hx.
    specialize (Hcells pl y x Hpl Hy Hx).
    assert (Hseen : forall c0,
              WZ_seen t gw (lut_plane clip fc pl)
                (lut_plane clip fc pl (Az t)) (getCachePos fc)
                (planeWidth (vi t) pl) (planeHeight (vi t) pl) n
                (skip_of t fc) (resolved_of t fc) (y, x) c0 = c0).
    { intros c0. unfold WZ_seen.
      assert (Hsk : forall z, startz t n <= z <= stopz t n ->
                      skip_of t fc z = true).
      { intros z Hz. unfold skip_of. rewrite (Hone z Hz). reflexivity. }
      rewrite flat_map_none.
      - rewrite WZ_events_skip by exact Hsk. reflexivity.
      - intros q _. rewrite WZ_events_skip by exact Hsk. reflexivity. }
    assert (Hsrc : lut_plane clip fc pl (Az t) y x = clip n pl y x).
    { unfold lut_plane.
      assert (Hfn : fnum (frames fc (getCachePos fc (Az t))) = n)
        by (rewrite (Hwin (Az t)) by lia; lia).
      rewrite (Hcoh (getCachePos fc (Az t))) by (rewrite Hfn; lia).
      rewrite Hfn, mapn_id by exact Hn. reflexivity. }
    rewrite Hseen, Hsrc in Hcells. exact Hcells.
Qed.

Lemma again_0 (t : TNLMeans) gw clip n dst (fc : nlCache) :
  again t gw clip n dst 0 fc = fc.
Proof. reflexivity. Qed.

(** The centre cells after [k] requests in a row for the settled frame:
    the self term has been added [k] times, one addition after the
    other. *)
Lemma again_cell (t : TNLMeans) gw clip n fc dst (k : nat) :
  0 <= Az t -> Azdm1 t = 2 * Az t ->
  1 <= numPlanes (format (vi t)) ->
  0 < planeWidth (vi t) 0 -> 0 < planeHeight (vi t) 0 ->
  0 <= n < numFrames (vi t) ->
  settled t n fc -> coherent t fc ->
  settled t n (again t gw clip n dst k fc) /\
  coherent t (again t gw clip n dst k fc) /\
  same_shell fc (again t gw clip n dst k fc) /\
  forall pl y x, 0 <= pl < numPlanes (format (vi t)) ->
    0 <= y < planeHeight (vi t) pl -> 0 <= x < planeWidth (vi t) pl ->
    cell (slot_ds (again t gw clip n dst k fc) (getCachePos fc (Az t)) pl)
         (y * planeWidth (vi t) pl + x)
    = Nat.iter k (fun c => acc_self c (clip n pl y x))
        (cell (slot_ds fc (getCachePos fc (Az t)) pl)
              (y * planeWidth (vi t) pl + x)).
Proof.
  intros HAz Hdm1 Hnp Hw Hh Hn Hset Hcoh.
  induction k as [|k [IHs [IHc [IHsh IHcell]]]].
  - change (again t gw clip n dst 0 fc) with fc.
    split; [exact Hset|]. split; [exact Hcoh|].
    split; [apply same_shell_refl|].
    intros pl y x _ _ _. reflexivity.
  - change (again t gw clip n dst (S k) fc)
      with (fst (fst (GetFrameWZ t gw clip n (again t gw clip n dst k fc)
                        (Some dst)))).
    set (fck := again t gw clip n dst k fc) in *.
    destruct (served_again_step t gw clip n fck dst HAz Hdm1 IHs IHc Hn)
      as [_ [Hsh [out [_ Hcells]]]].
    assert (Hpos : getCachePos fck (Az t) = getCachePos fc (Az t))
      by (apply same_shell_getCachePos; exact IHsh).
    split.
    { apply GetFrameWZ_settles; try assumption. destruct IHs as [Hr _].
      exact Hr. }
    split; [eapply coherent_shell; eassumption|].
    split; [eapply same_shell_trans; eassumption|].
    intros pl y x Hpl Hy Hx.
    destruct (Hcells pl y x Hpl Hy Hx) as [Hcell _].
    rewrite Hpos in Hcell. rewrite Hcell, (IHcell pl y x Hpl Hy Hx).
    reflexivity.
Qed.

(** X15.  Serving one frame again on the same worker is not a fresh
    computation.  Take an engine of the temporal pixel mode built by the
    constructor with [a] and [h] at least [2^-500], the kernel table of
    one of its worker slots, and the cache of the slot after any history
    of servable requests.  A served [GetFrameWZ] request for a servable
    frame [n] leaves the cache settled on [n]: the window is held and every
    scanned slot is flagged 1 in the centre.  The pixel it wrote is the
    rounded quotient sum / weight of the centre cell it left.  Each further
    request for [n] on that cache fetches only the frame for
    [newVideoFrame], scans no slot, and adds the self term to the stored
    cell once more: the request number [k + 1] after the first writes the
    rounded quotient of the cell that [k + 1] such additions, made one
    after the other, give. *)
Theorem served_again_adds_self_term (t : TNLMeans) (th : nlThread)
    (clip : Clip) (n : Z) (ns : list Z) (dst : Frame) :
  constructed t -> well_scaled t -> use_blocks t = false -> Az t <> 0 ->
  In th (threads t) ->
  Forall (servable t) ns -> servable t n ->
  1 <= numPlanes (format (vi t)) ->
  0 < planeWidth (vi t) 0 -> 0 < planeHeight (vi t) 0 ->
  let fc := WZ_history t (gw th) clip dst ns in
  let fc1 := fst (fst (GetFrameWZ t (gw th) clip n fc (Some dst))) in
  settled t n fc1 /\
  (forall k : nat,
     snd (GetFrameWZ t (gw th) clip n (again t (gw th) clip n dst k fc1)
            (Some dst))
     = [mapn t n]) /\
  exists out1,
    snd (fst (GetFrameWZ t (gw th) clip n fc (Some dst))) = Some out1 /\
    forall pl y x, 0 <= pl < numPlanes (format (vi t)) ->
      0 <= y < planeHeight (vi t) pl -> 0 <= x < planeWidth (vi t) pl ->
      let c := cell (slot_ds fc1 (getCachePos fc1 (Az t)) pl)
                    (y * planeWidth (vi t) pl + x) in
      out1 pl y x = to_pixel (fst (fst c) / snd (fst c)) /\
      forall k : nat, exists out,
        snd (fst (GetFrameWZ t (gw th) clip n
                    (again t (gw th) clip n dst k fc1) (Some dst)))
        = Some out /\
        out pl y x
        = acc_pixel (Nat.iter k (fun a => acc_self a (clip n pl y x)) c)
                    (clip n pl y x).
Proof.
  intros Hcon _ _ _ _ _ [Hn _] Hnp Hw Hh fc fc1. set (gw0 := gw th) in *.
  destruct (constructed_derived t Hcon)
    as [[_ [_ [HAz _]]] [[_ [_ [_ [_ [_ Hdm]]]]] _]].
  assert (Hdm1 : Azdm1 t = 2 * Az t) by lia.
  destruct (WZ_history_ready t gw0 clip dst ns HAz) as [Hring Hcoh].
  fold fc in Hring, Hcoh.
  pose proof (GetFrameWZ_settles t gw0 clip n fc dst HAz Hdm1 Hring Hnp Hw Hh)
    as Hset1. fold fc1 in Hset1.
  destruct (cache_fill_window t true fc n HAz Hring) as [_ [_ HcohA]].
  pose proof (GetFrameWZ_shell t gw0 clip n fc (Some dst)) as Hshell.
  fold fc1 in Hshell.
  assert (Hcoh1 : coherent t fc1)
    by (eapply coherent_shell; [exact Hshell|apply HcohA; exact Hcoh]).
  assert (Hagain : forall k,
            settled t n (again t gw0 clip n dst k fc1) /\
            coherent t (again t gw0 clip n dst k fc1) /\
            same_shell fc1 (again t gw0 clip n dst k fc1)).
  { intros k.
    destruct (again_cell t gw0 clip n fc1 dst k HAz Hdm1 Hnp Hw Hh Hn Hset1
                Hcoh1) as [H1 [H2 [H3 _]]].
    split; [exact H1|]. split; [exact H2|exact H3]. }
  split; [exact Hset1|]. split.
  - intros k. destruct (Hagain k) as [Hs [Hc _]].
    apply (served_again_step t gw0 clip n _ dst HAz Hdm1 Hs Hc Hn).
  - destruct (GetFrameWZ_cells t gw0 clip n fc dst HAz Hdm1 Hring _ eq_refl)
      as [out1 [Hout1 Hcells]].
    exists out1. split; [exact Hout1|]. intros pl y x Hpl Hy Hx c.
    destruct (Hcells pl y x Hpl Hy Hx) as [Hcell Hpix].
    fold fc1 in Hcell. split.
    + rewrite Hpix, acc_pixel_self, <- Hcell. subst c.
      rewrite (same_shell_getCachePos _ fc1 (Az t) Hshell). reflexivity.
    + intros k. destruct (Hagain k) as [Hs [Hc Hsh]].
      destruct (served_again_step t gw0 clip n _ dst HAz Hdm1 Hs Hc Hn)
        as [_ [_ [out [Hout Hstep]]]].
      exists out. split; [exact Hout|].
      destruct (Hstep pl y x Hpl Hy Hx) as [_ Hp]. rewrite Hp.
      rewrite (same_shell_getCachePos _ _ (Az t) Hsh).
      destruct (again_cell t gw0 clip n fc1 dst k HAz Hdm1 Hnp Hw Hh Hn Hset1
                  Hcoh1) as [_ [_ [_ Hck]]].
      rewrite (Hck pl y x Hpl Hy Hx). reflexivity.
Qed.

Lemma served_again_adds_self_term_witness :
  constructed engine_t1 /\ well_scaled engine_t1 /\ servable engine_t1 2 /\
  settled engine_t1 2
    (fst (fst (GetFrameWZ engine_t1 gw_row clip_step 2
                 (WZ_history engine_t1 gw_row clip_step frame_blank [])
                 (Some frame_blank)))) /\
  snd (GetFrameWZ engine_t1 gw_row clip_step 2
         (fst (fst (GetFrameWZ engine_t1 gw_row clip_step 2
                      (WZ_history engine_t1 gw_row clip_step frame_blank [])
                      (Some frame_blank))))
         (Some frame_blank)) = [2].
Proof.
  assert (Hs : servable engine_t1 2) by (unfold servable; cbn; lia).
  assert (Hn : 0 <= 2 < numFrames (vi engine_t1)) by (cbn; lia).
  assert (Hnz : Az engine_t1 <> 0) by (cbn; lia).
  assert (Hnp : 1 <= numPlanes (format (vi engine_t1))) by (cbn; lia).
  assert (Hw : 0 < planeWidth (vi engine_t1) 0) by (cbn; lia).
  assert (Hh : 0 < planeHeight (vi engine_t1) 0) by (cbn; lia).
  split; [exact engine_t1_constructed|].
  split; [exact engine_t1_well_scaled|]. split; [exact Hs|].
  pose proof (served_again_adds_self_term engine_t1
                (nlThread_new 1 1 1 0 0 0 0 (1 * 1)) clip_step 2 []
                frame_blank engine_t1_constructed engine_t1_well_scaled
                eq_refl Hnz (or_introl eq_refl) (Forall_nil _) Hs Hnp Hw Hh)
    as H.
  cbv zeta in H. destruct H as [Hset [Hlog _]].
  split; [exact Hset|].
  specialize (Hlog 0%nat). rewrite again_0, mapn_id in Hlog by exact Hn.
  exact Hlog.
Defined.

(** ** The block variants keep nothing between requests *)




Section ScratchFree.

Variable t : TNLMeans.
Variable gw : Z -> R.
Variables width height : Z.

Hypothesis HBx : 0 <= Bx t.
Hypothesis HBy : 0 <= By t.
Hypothesis HBxd : Bxd t = Bx t * 2 + 1.
Hypothesis HByd : Byd t = By t * 2 + 1.
Hypothesis HBxa : Bxa t = Bxd t * Byd t.









End ScratchFree.



(** ** A request whose window is new to the cache *)

Lemma WZ_cands_centre (t : TNLMeans) (width height : Z) (p : Z * Z) :
  WZ_cands t width height (Az t) p = half_window t width height p.
Proof.
  unfold WZ_cands, half_window. rewrite Z.eqb_refl. cbv zeta.
  apply flat_map_ext_in. intros u _. rewrite andb_true_r. reflexivity.
Qed.

Section TemporalOrder.

Variable t : TNLMeans.
Variable gw : Z -> R.
Variable pfplut : Z -> Plane.
Variable poslut : Z -> Z.
Variables width height n : Z.
Variables sk csk : Z -> bool.

Hypothesis Hinj :
  forall z, startz t n <= z <= stopz t n -> z <> Az t ->
            poslut z <> poslut (Az t).
Hypothesis HAz_in : startz t n <= Az t <= stopz t n.
Hypothesis Hsk : sk (Az t) = false.
Hypothesis Hcsk : csk (Az t) = false.

(** Seen from the centre cell of another pixel, the scan of [q] is the
    spatial scan of the centre frame. *)
Lemma landing_centre_slot (p q : Z * Z) :
  0 <= snd p < width -> 0 <= snd q < width -> q <> p ->
  landing (flat_index width p)
    (WZ_events t gw pfplut (pfplut (Az t)) poslut width height n sk csk
       (poslut (Az t)) q)
  = landing (flat_index width p)
      (WOZ_events t gw (pfplut (Az t)) width height q).
Proof.
  intros Hp Hq Hne.
  assert (Hqp : flat_index width q <> flat_index width p).
  { intros Heq. apply Hne. apply (flat_index_inj width); assumption. }
  unfold WZ_events.
  rewrite (range_split (startz t n) (stopz t n) (Az t) HAz_in).
  rewrite flat_map_app. cbn [flat_map]. rewrite !landing_app.
  assert (Hside : forall l,
            (forall z, In z l -> startz t n <= z <= stopz t n /\ z <> Az t) ->
            landing (flat_index width p)
              (flat_map (fun z =>
                 if sk z then []
                 else flat_map
                        (WZ_cand_events t gw pfplut (pfplut (Az t)) poslut
                           width height (csk z) (poslut (Az t)) z q)
                        (WZ_cands t width height z q)) l) = []).
  { intros l Hl. rewrite landing_flat_map. apply flat_map_none.
    intros z Hz. destruct (Hl z Hz) as [Hr Hnz].
    destruct (sk z); [reflexivity|].
    rewrite (slot_events_centre t gw width height pfplut (pfplut (Az t))
               poslut (csk z) (poslut (Az t)) z q Hnz eq_refl)
      by (intros Heq; apply (Hinj z Hr Hnz); symmetry; exact Heq).
    rewrite landing_centre.
    destruct (Z.eqb_spec (flat_index width q) (flat_index width p));
      [contradiction|reflexivity]. }
  rewrite (Hside (range (startz t n) (Az t - 1)))
    by (intros z Hz; apply in_range in Hz; lia).
  rewrite (Hside (range (Az t + 1) (stopz t n)))
    by (intros z Hz; apply in_range in Hz; lia).
  cbn [app]. rewrite app_nil_r.
  rewrite Hsk, Hcsk.
  rewrite WZ_cands_centre. unfold WOZ_events. rewrite !landing_flat_map.
  apply flat_map_ext_in. intros c Hc. unfold WZ_cand_events.
  rewrite !Z.eqb_refl. cbn [negb andb app].
  unfold WZ_weight, ref_score. unfold landing. cbn [filter fst snd map].
  destruct (Z.eqb_spec (flat_index width q) (flat_index width p));
    [contradiction|].
  destruct (flat_index width c =? flat_index width p); reflexivity.
Qed.

(** What the scan of [p] itself puts into its centre cell. *)
Lemma landing_own (p : Z * Z) :
  0 <= snd p < width ->
  landing (flat_index width p)
    (WZ_events t gw pfplut (pfplut (Az t)) poslut width height n sk csk
       (poslut (Az t)) p)
  = WZ_own t gw pfplut width height n sk p.
Proof.
  intros Hp. unfold WZ_events, WZ_own. rewrite landing_flat_map.
  apply flat_map_ext_in. intros z Hz. apply in_range in Hz.
  destruct (sk z) eqn:Hskz; [reflexivity|].
  destruct (Z.eqb_spec z (Az t)) as [->|Hnz].
  - rewrite WZ_cands_centre, landing_flat_map, <- flat_map_singleton.
    apply flat_map_ext_in. intros c Hc. unfold WZ_cand_events.
    rewrite !Z.eqb_refl, Hcsk. cbn [negb andb app].
    unfold WZ_weight, landing. cbn [filter fst snd map]. rewrite Z.eqb_refl.
    destruct (Z.eqb_spec (flat_index width c) (flat_index width p))
      as [Heq|_]; [|reflexivity].
    exfalso. apply in_half_window in Hc.
    apply (flat_index_inj width) in Heq;
      [|destruct (Z.eqb_spec (fst c) (fst p)); lia|exact Hp].
    subst c. rewrite Z.eqb_refl in Hc. lia.
  - rewrite (slot_events_centre t gw width height pfplut (pfplut (Az t))
               poslut (csk z) (poslut (Az t)) z p Hnz eq_refl)
      by (intros Heq; apply (Hinj z Hz Hnz); symmetry; exact Heq).
    rewrite landing_centre, Z.eqb_refl. reflexivity.
Qed.

(** The centre cell of [p] at its self term: the samples of the earlier
    pixels, then those of its own scan, added in that order. *)
Lemma WZ_seen_order (p : Z * Z) (c0 : Acc) :
  0 <= fst p < height -> 0 <= snd p < width ->
  WZ_seen t gw pfplut (pfplut (Az t)) poslut width height n sk csk p c0
  = fold_left acc_add
      (WZ_earlier t gw (pfplut (Az t)) width height p
       ++ WZ_own t gw pfplut width height n sk p) c0.
Proof.
  intros Hy Hx. unfold WZ_seen.
  rewrite (flat_map_ext_in
             (fun q => landing (flat_index width p)
                         (WZ_events t gw pfplut (pfplut (Az t)) poslut width
                            height n sk csk (poslut (Az t)) q))
             (fun q => landing (flat_index width p)
                         (WOZ_events t gw (pfplut (Az t)) width height q))).
  2: { intros q Hq. apply in_before in Hq.
       apply landing_centre_slot; [exact Hx|lia|].
       intros ->. lia. }
  rewrite (landing_before t gw (pfplut (Az t)) width height p Hy Hx).
  rewrite (landing_own p Hx). do 2 f_equal. unfold WZ_earlier.
  apply map_ext. intros q. unfold sample. f_equal.
  apply (score_sym t gw (pfplut (Az t)) width height p q).
Qed.

End TemporalOrder.

(** The samples in the order of the scan are those of the gather of the
    window, slot by slot. *)
Lemma WZ_order_gather (t : TNLMeans) gw (F : Z -> Plane)
    (width height n : Z) (p : Z * Z) :
  startz t n <= Az t <= stopz t n ->
  0 <= fst p < height -> 0 <= snd p < width ->
  Permutation
    (WZ_earlier t gw (F (Az t)) width height p
     ++ WZ_own t gw F width height n (fun _ => false) p)
    (WZ_window_samples t gw F width height n p).
Proof.
  intros HAz_in Hy Hx. unfold WZ_earlier, WZ_own, WZ_window_samples.
  rewrite (map_ext
             (fun q => (F (Az t) (fst q) (snd q),
                        ref_score t gw (F (Az t)) width height q p))
             (sample t gw (F (Az t)) width height p)).
  2: { intros q. unfold sample. f_equal.
       symmetry. apply (score_sym t gw (F (Az t)) width height p q). }
  rewrite (range_split (startz t n) (stopz t n) (Az t) HAz_in).
  rewrite !flat_map_app. cbn [flat_map]. rewrite Z.eqb_refl.
  set (G := fun z : Z =>
              map (fun c : Z * Z =>
                     (F z (fst c) (snd c),
                      patch_weight t gw (F z) (F (Az t))
                        (height - 1) (width - 1) (fst p) (snd p)
                        (fst c) (snd c)))
                  (if z =? Az t then half_window t width height p
                   else window t width height p)).
  set (G' := fun z : Z =>
               map (fun c : Z * Z =>
                      (F z (fst c) (snd c),
                       patch_weight t gw (F z) (F (Az t))
                         (height - 1) (width - 1) (fst p) (snd p)
                         (fst c) (snd c)))
                   (if z =? Az t then others t width height p
                    else window t width height p)).
  assert (Hsame : forall l, (forall z, In z l -> z <> Az t) ->
                    flat_map G l = flat_map G' l).
  { intros l Hl. apply flat_map_ext_in. intros z Hz. subst G G'. cbv beta.
    destruct (Z.eqb_spec z (Az t)) as [Heq|_]; [|reflexivity].
    exfalso. apply (Hl z Hz). exact Heq. }
  rewrite (Hsame (range (startz t n) (Az t - 1)))
    by (intros z Hz; apply in_range in Hz; lia).
  rewrite (Hsame (range (Az t + 1) (stopz t n)))
    by (intros z Hz; apply in_range in Hz; lia).
  rewrite Permutation_app_swap_app. apply Permutation_app_head.
  rewrite app_assoc. apply Permutation_app_tail.
  rewrite <- map_app. apply Permutation_map.
  apply window_as_halves; assumption.
Qed.

Lemma WZ_own_ext (t : TNLMeans) gw (F F' : Z -> Plane)
    (width height n : Z) (sk : Z -> bool) (p : Z * Z) :
  startz t n <= Az t <= stopz t n ->
  (forall z, startz t n <= z <= stopz t n -> F z = F' z) ->
  WZ_own t gw F width height n sk p = WZ_own t gw F' width height n sk p.
Proof.
  intros HAz H. unfold WZ_own.
  apply flat_map_ext_in. intros z Hz. apply in_range in Hz.
  rewrite (H z Hz), (H (Az t) HAz). reflexivity.
Qed.

(** A slot as the fetch loop of the pixel variant refills it. *)
Lemma fetched_clear (t : TNLMeans) (fc : nlCache) (nl : nlFrame) (i : Z) :
  pf (fetched t true fc nl i) = Some (mapn t i) /\
  (forall j, 0 <= j < size fc -> dsa (fetched t true fc nl i) j = 0) /\
  (forall pl j, 0 <= pl < numPlanes (format (vi t)) -> pl < 3 ->
     0 <= j < planeWidth (vi t) pl * planeHeight (vi t) pl ->
     cell (ds (fetched t true fc nl i) pl) j = acc_zero).
Proof.
  unfold fetched, clearDS, setFNum, set_pf. cbn [pf dsa ds fnum].
  split; [reflexivity|]. split.
  - intros j Hj. destruct (Z.leb_spec 0 j); [|lia].
    destruct (Z.ltb_spec j (size fc)); [|lia]. reflexivity.
  - intros pl j Hpl H3 Hj.
    destruct (Z.leb_spec 0 pl); [|lia]. destruct (Z.ltb_spec pl 3); [|lia].
    destruct (Z.ltb_spec pl (numPlanes (format (vi t)))); [|lia].
    cbn [andb]. unfold cell, fill_zero_d, acc_zero. cbn [sums weights wmaxs].
    destruct (Z.leb_spec 0 j); [|lia].
    destruct (Z.ltb_spec j (planeWidth (vi t) pl * planeHeight (vi t) pl));
      [|lia].
    reflexivity.
Qed.

(** When no slot names a frame of the window the fetch loop refills every
    slot of the window. *)
Lemma cache_fill_all_new (t : TNLMeans) (fc : nlCache) (n : Z) :
  0 <= Az t -> ring_ok t fc -> all_new t n fc ->
  let r := cache_fill t true (resetCacheStart fc (n - Az t) (n + Az t)) n in
  start_pos (fst r) = start_pos fc /\ size (fst r) = size fc /\
  (forall k, 0 <= k <= Az t * 2 ->
     frames (fst r) (getCachePos fc k)
     = fetched t true fc (frames fc (getCachePos fc k)) (n - Az t + k)) /\
  snd r = RequestFrame t n.
Proof.
  intros HAz Hring Hnew.
  assert (Hreset : resetCacheStart fc (n - Az t) (n + Az t) = fc).
  { unfold resetCacheStart. rewrite find_none_all; [reflexivity|].
    intros [j i] Hin. apply in_prod_iff in Hin. destruct Hin as [Hj Hi].
    apply in_range in Hj. apply in_range in Hi. cbn [fst snd].
    apply Z.eqb_neq. destruct (Hnew i ltac:(lia)); lia. }
  rewrite Hreset. cbv zeta.
  destruct (cache_fill_obs t true fc n HAz Hring) as [Hsp [Hsz [Hfr [_ Hlog]]]].
  assert (Hslot : forall k, 0 <= k <= Az t * 2 ->
            (fnum (frames fc (getCachePos fc k)) =? n - Az t + k) = false).
  { intros k Hk. apply Z.eqb_neq.
    assert (HP : 0 <= getCachePos fc k < size fc).
    { rewrite (ring_ok_pos t fc k Hring) by lia. destruct Hring as [Hs _].
      rewrite Hs. apply Z.mod_pos_bound. lia. }
    destruct (Hnew _ HP); lia. }
  split; [exact Hsp|]. split; [exact Hsz|]. split.
  - intros k Hk. rewrite (Hfr k Hk), (Hslot k Hk). reflexivity.
  - rewrite Hlog. unfold RequestFrame. f_equal. apply filter_all.
    intros i Hi. apply in_range in Hi.
    pose proof (Hslot (i - n + Az t) ltac:(lia)) as H.
    replace (n - Az t + (i - n + Az t)) with i in H by lia.
    rewrite H. reflexivity.
Qed.

(** The pixels of a request whose window is new to the cache: the samples
    are added from zero, in the order of the scan. *)
Lemma new_window_order (t : TNLMeans) (gw : Z -> R) (clip : Clip)
    (n : Z) (fc : nlCache) (dst : Frame) :
  0 <= Az t -> Azdm1 t = 2 * Az t ->
  ring_ok t fc -> all_new t n fc ->
  0 <= n < numFrames (vi t) -> numPlanes (format (vi t)) <= 3 ->
  slots_loaded
    (fst (cache_fill t true (resetCacheStart fc (n - Az t) (n + Az t)) n)) /\
  exists out,
    snd (fst (GetFrameWZ t gw clip n fc (Some dst))) = Some out /\
    forall pl y x, 0 <= pl < numPlanes (format (vi t)) ->
      0 <= y < planeHeight (vi t) pl -> 0 <= x < planeWidth (vi t) pl ->
      out pl y x
      = acc_pixel
          (fold_left acc_add
             (WZ_earlier t gw (clip n pl) (planeWidth (vi t) pl)
                         (planeHeight (vi t) pl) (y, x)
              ++ WZ_own t gw (fun z => clip (n - Az t + z) pl)
                        (planeWidth (vi t) pl) (planeHeight (vi t) pl) n
                        (fun _ => false) (y, x))
             acc_zero)
          (clip n pl y x).
Proof.
  intros HAz Hdm1 Hring Hnew Hn Hnp.
  destruct (cache_fill_all_new t fc n HAz Hring Hnew)
    as [Hsp [Hsz [Hfr Hlog]]].
  set (fcA := fst (cache_fill t true
                     (resetCacheStart fc (n - Az t) (n + Az t)) n)) in *.
  destruct (cache_fill_window t true fc n HAz Hring) as [HringA _].
  fold fcA in HringA.
  assert (Hpos : forall k, getCachePos fcA k = getCachePos fc k).
  { intros k. unfold getCachePos. rewrite Hsp, Hsz. reflexivity. }
  assert (HAz_in : startz t n <= Az t <= stopz t n)
    by (unfold startz, stopz; lia).
  assert (Hslot : forall k, 0 <= k <= Az t * 2 ->
            frames fcA (getCachePos fcA k)
            = fetched t true fc (frames fc (getCachePos fc k))
                      (n - Az t + k)).
  { intros k Hk. rewrite Hpos. apply Hfr. exact Hk. }
  assert (Hszfc : size fc = Az t * 2 + 1) by (destruct Hring; assumption).
  split.
  { intros i Hi. destruct HringA as [HszA _]. rewrite HszA in Hi.
    rewrite (Hslot i) by lia.
    destruct (fetched_clear t fc (frames fc (getCachePos fc i))
                (n - Az t + i)) as [Hpf _].
    rewrite Hpf. discriminate. }
  destruct (GetFrameWZ_cells t gw clip n fc dst HAz Hdm1 Hring _ eq_refl)
    as [out [Hout Hcells]]. fold fcA in Hcells.
  exists out. split; [exact Hout|]. intros pl y x Hpl Hy Hx.
  set (F := fun z => clip (n - Az t + z) pl).
  destruct (Hcells pl y x Hpl Hy Hx) as [_ Hpix].
  assert (Hskall : forall z, startz t n <= z <= stopz t n ->
                     skip_of t fcA z = false).
  { intros z Hz. pose proof (startz_stopz t n z HAz Hz) as Hz'.
    unfold skip_of, slot_dsa. rewrite (Hslot (Az t)) by lia.
    destruct (fetched_clear t fc (frames fc (getCachePos fc (Az t)))
                (n - Az t + Az t)) as [_ [Hfl _]].
    rewrite Hfl by lia. reflexivity. }
  assert (Hzero : cell (slot_ds fcA (getCachePos fcA (Az t)) pl)
                       (flat_index (planeWidth (vi t) pl) (y, x)) = acc_zero).
  { unfold slot_ds. rewrite (Hslot (Az t)) by lia.
    destruct (fetched_clear t fc (frames fc (getCachePos fc (Az t)))
                (n - Az t + Az t)) as [_ [_ Hcl]].
    apply Hcl; [exact Hpl|lia|].
    pose proof (flat_index_range (planeWidth (vi t) pl)
                  (planeHeight (vi t) pl) y x Hy Hx) as Hr.
    unfold flat_index. cbn [fst snd]. lia. }
  assert (Hlut : forall z, startz t n <= z <= stopz t n ->
                   lut_plane clip fcA pl z = F z).
  { intros z Hz. pose proof (startz_stopz t n z HAz Hz) as Hz'.
    unfold lut_plane. rewrite (Hslot z) by lia.
    destruct (fetched_clear t fc (frames fc (getCachePos fc z))
                (n - Az t + z)) as [Hpf _].
    rewrite Hpf. cbn [read_plane]. rewrite mapn_id; [reflexivity|].
    unfold startz, stopz in Hz. lia. }
  assert (HFc : F (Az t) = clip n pl).
  { subst F. cbv beta. replace (n - Az t + Az t) with n by lia.
    reflexivity. }
  rewrite Hpix, Hzero.
  rewrite (WZ_seen_order t gw (lut_plane clip fcA pl) (getCachePos fcA)
             (planeWidth (vi t) pl) (planeHeight (vi t) pl) n
             (skip_of t fcA) (resolved_of t fcA)
             (window_slots_apart t n fcA HAz HringA) HAz_in
             (Hskall (Az t) HAz_in)
             (resolved_of_centre t fcA) (y, x) acc_zero)
    by assumption.
  rewrite (Hlut (Az t) HAz_in), HFc. do 3 f_equal.
  rewrite (WZ_own_ext t gw (lut_plane clip fcA pl) F _ _ n _ (y, x)
             HAz_in Hlut).
  unfold WZ_own. apply flat_map_ext_in. intros z Hz. apply in_range in Hz.
  rewrite (Hskall z Hz). reflexivity.
Qed.

(** X17.  A request whose window is new to the cache computes temporal
    NL-means by brute force.  Take an engine of the temporal pixel mode
    built by the constructor with [a] and [h] at least [2^-500] on a format
    of at most three planes, the kernel table of one of its worker slots, a
    usable cache none of whose slots names a frame of the window of [n] (a
    new cache, or a jump in the clip), and a servable frame [n].
    [GetFrameWZ] fetches the whole window as [RequestFrame] asked for it,
    so that every slot holds a frame reference, and writes at every pixel
    the rounded quotient of a sum of weighted samples, the self term added:
    first the samples of the pixels of the frame [n] scanned before the
    pixel, then those of its own scan over the frames [n - Az + z], [z] in
    [startz..stopz], added in that order from zero.  These samples are
    those of the brute-force gather: the whole search window of the pixel
    in every other frame and the rest of that window in the frame [n]. *)
Theorem new_window_gathers (t : TNLMeans) (th : nlThread) (clip : Clip)
    (n : Z) (fc : nlCache) (dst : Frame) :
  constructed t -> well_scaled t -> use_blocks t = false -> Az t <> 0 ->
  In th (threads t) ->
  ring_ok t fc -> all_new t n fc ->
  servable t n -> numPlanes (format (vi t)) <= 3 ->
  snd (GetFrameWZ t (gw th) clip n fc (Some dst))
  = RequestFrame t n ++ [mapn t n] /\
  slots_loaded
    (fst (cache_fill t true (resetCacheStart fc (n - Az t) (n + Az t)) n)) /\
  exists out,
    snd (fst (GetFrameWZ t (gw th) clip n fc (Some dst))) = Some out /\
    forall pl y x, 0 <= pl < numPlanes (format (vi t)) ->
      0 <= y < planeHeight (vi t) pl -> 0 <= x < planeWidth (vi t) pl ->
      let F := fun z => clip (n - Az t + z) pl in
      let samples :=
        WZ_earlier t (gw th) (clip n pl) (planeWidth (vi t) pl)
                   (planeHeight (vi t) pl) (y, x)
        ++ WZ_own t (gw th) F (planeWidth (vi t) pl)
                  (planeHeight (vi t) pl) n (fun _ => false) (y, x) in
      out pl y x
      = acc_pixel (fold_left acc_add samples acc_zero) (clip n pl y x) /\
      Permutation samples
        (WZ_window_samples t (gw th) F (planeWidth (vi t) pl)
                           (planeHeight (vi t) pl) n (y, x)).
Proof.
  intros Hcon _ _ _ _ Hring Hnew [Hn _] Hnp.
  destruct (constructed_derived t Hcon)
    as [[_ [_ [HAz _]]] [[_ [_ [_ [_ [_ Hdm]]]]] _]].
  assert (Hdm1 : Azdm1 t = 2 * Az t) by lia.
  destruct (cache_fill_all_new t fc n HAz Hring Hnew) as [_ [_ [_ Hlog]]].
  split; [rewrite GetFrameWZ_fetches, Hlog; reflexivity|].
  destruct (new_window_order t (gw th) clip n fc dst HAz Hdm1 Hring Hnew Hn
              Hnp) as [Hload [out [Hout Hpix]]].
  split; [exact Hload|]. exists out. split; [exact Hout|].
  intros pl y x Hpl Hy Hx F samples. split.
  - apply Hpix; assumption.
  - subst samples.
    replace (clip n pl) with (F (Az t))
      by (subst F; cbv beta; replace (n - Az t + Az t) with n by lia;
          reflexivity).
    apply WZ_order_gather; cbn [fst snd]; try assumption.
    unfold startz, stopz. lia.
Qed.

Lemma new_window_gathers_witness :
  constructed engine_t1 /\ well_scaled engine_t1 /\ servable engine_t1 2 /\
  snd (GetFrameWZ engine_t1 gw_row clip_step 2
         (nlCache_new (Az engine_t1 * 2 + 1) (fun _ => SDATA_zero))
         (Some frame_blank))
  = RequestFrame engine_t1 2 ++ [mapn engine_t1 2].
Proof.
  assert (HAz : 0 <= Az engine_t1) by (cbn; lia).
  assert (Hnz : Az engine_t1 <> 0) by (cbn; lia).
  destruct (fresh_ring_ok engine_t1 (fun _ => SDATA_zero) HAz)
    as [Hring _].
  assert (Hnew : all_new engine_t1 2
                   (nlCache_new (Az engine_t1 * 2 + 1)
                                (fun _ => SDATA_zero))).
  { intros P _. left. cbn. lia. }
  assert (Hs : servable engine_t1 2) by (unfold servable; cbn; lia).
  assert (Hnp : numPlanes (format (vi engine_t1)) <= 3) by (cbn; lia).
  split; [exact engine_t1_constructed|].
  split; [exact engine_t1_well_scaled|]. split; [exact Hs|].
  destruct (new_window_gathers engine_t1
              (nlThread_new 1 1 1 0 0 0 0 (1 * 1)) clip_step 2 _
              frame_blank engine_t1_constructed engine_t1_well_scaled
              eq_refl Hnz (or_introl eq_refl) Hring Hnew Hs Hnp)
    as [Hlog _].
  exact Hlog.
Defined.

(** ** Two consecutive requests: the same samples in another order *)





(** ** A frame that was the centre before *)




